(* ===== verification/_CoqProject ===== *)
-Q . S2P
Prelude.v
External.v
Types.v
Barrier.v
BarrierSpec.v
BarrierLive.v
Format.v
Memory.v
Breakpoints.v
BreakpointSpec.v
Registers.v
X86.v
Io.v
Log.v
Cbor.v
Requests.v
Threads.v
State.v
Process.v
Signals.v
SignalSpec.v
Handlers.v
Events.v
Posix.v
Sync.v
SyncSpec.v
SyncSim.v
Startup.v
StartupSpec.v
Wrappers.v
WrapperSpec.v
ErrMsg.v
HandlerSpec.v
ThreadSpec.v
EventSpec.v
ThreadStart.v
PosixSpec.v
TypeSpec.v
Darwin.v
Windows.v
WinThreads.v
Witnesses.v
ProcWitness.v
