(* ===== verification/Prelude.v ===== *)
(** * libudirt: the debuggee side of the Userland Debugger Interface

    libudirt is a shared library that is loaded into a process to make it
    debuggable without ptrace. It talks to a debugger over named pipes: the
    debugger sends requests (read memory, install a breakpoint, continue),
    the library answers them and reports events (a breakpoint was hit, a
    thread was created, the process exits). Messages are CBOR data items.
    This development models the C sources under [src/libudirt/src] for
    Linux on x86 and x86-64, the registers of the Darwin port, and what there
    is of the Windows port.

    ** The parts and their files

    - [Prelude]: machine integers at their width, C strings, and the monad
      [ST] of stateful C code. A computation returns ([Ret]), is undefined
      ([Undef], with the kind of undefined behaviour), aborts the process
      ([Aborted], the macro [udi_abort] and failing assertions), or is still
      running when its fuel is spent or a system call blocks ([Running]).
      Generic lemmas on linked chains and the [preserves] logic.
    - [External]: what the library uses of libc and the kernel: the address
      space with page protections, [mprotect], [strerror_r] (class [Libc],
      documented behaviour in [LibcOk], instance [flat_libc]).
    - [Types]: udi.h and the constants and name tables of udirt.c.
    - [Format]: the formatter behind log and error messages (udirt.c).
    - [Memory]: reading and writing memory that may fault (udirt.c,
      [udi_memcpy]), with the fault handler [decode_memory_access_event] and
      the signal-mask hooks of udirt-posix.c. A copy is a loop in which each
      byte may raise a signal; the handler runs in between.
    - [Breakpoints], [BreakpointSpec]: the chained hash table of breakpoints
      (udirt.c) over a heap of blocks, planting and lifting the breakpoint
      instruction (udirt-x86.c), and the abstract component, a map from
      addresses to "in memory", that it refines.
    - [Registers]: the register file of a signal context (udirt-linux-x86.c,
      udirt-x86.c), for both word sizes (class [Target]).
    - [X86]: the successor of an instruction (udirt-x86.c); the decoder is
      udis86, a parameter (classes [Udis86], [Udis86Ok]).
    - [Io]: the retry loops on pipes (udirt-posix.c). What the system does
      on a descriptor is a queue of outcomes: partial reads and writes,
      interruptions, errors.
    - [Log]: log lines and the recursive mutex around them (udirt.c,
      udirt-posix-pthreads.c), for one thread and as a system of all threads.
    - [Cbor]: the interface to libcbor (classes [Libcbor], [LibcborOk]),
      with the encoding of RFC 8949 as a concrete instance ([Rfc8949]).
    - [Requests]: reading requests and writing responses (udirt-msg.c).
    - [Threads]: the list of threads (udirt-posix-pthreads.c).
    - [Barrier], [BarrierSpec], [BarrierLive]: stopping and releasing all
      threads (udirt-posix.c, [block_other_threads], [release_other_threads])
      as a step relation: every thread has a location in the code, a step is
      one access to the shared state, and a run is an interleaving.
      [BarrierSpec] has its invariant, [BarrierLive] where a run comes to rest.
    - [State]: the state of the request layer ([udirt]), which embeds the
      components' states.
    - [Process]: the state of the process around it ([proc]): dispositions of
      signals, the barrier, path names, and the outcomes of the system calls
      to come.
    - [Signals], [SignalSpec]: the library's signal handler in the place of the
      application's, the wrappers of sigaction and signal, passing a signal
      on, and the abort (udirt-posix-sys.c, udirt-posix.c).
    - [Handlers]: every request handler, the two dispatch tables and the
      init handshake (udirt-msg.c), with the completion of a thread's death.
    - [Events]: events, the exit breakpoint and [decode_breakpoint], the
      protocol that steps over a breakpoint (udirt-msg.c, udirt-posix-sys.c).
    - [Posix]: the command loop and the trap decoder (udirt-posix.c).
    - [Sync], [SyncSpec]: [signal_entry_impl], the handler of every signal, and
      the synchronisation as one thread executes it, with its system calls
      (udirt-posix.c).
    - [Startup], [StartupSpec]: the debugger's file system, the handshakes and
      the constructor [init_udirt] (udirt-posix.c).
    - [Wrappers], [WrapperSpec], [ThreadStart]: fork and execve
      (udirt-posix-sys.c), the creation and the death of a thread
      (udirt-posix-pthreads.c). [ThreadStart] follows a new thread up to the
      application's start routine.
    - [SyncSim]: the simulation between [Sync] and [Barrier].
    - [TypeSpec]: the types of the state, and that the code keeps them and its
      array bounds.
    - [Darwin]: the register file of the Darwin port
      (udirt-darwin-x86-64.c), where a context points to its registers.
    - [Windows], [WinThreads]: overlapped input and output, named pipes, the
      command loop and the stubs of udirt-win.c, and its list of threads.
    - [ErrMsg], [HandlerSpec], [ThreadSpec], [EventSpec], [PosixSpec]: the
      theorems on the code of [Handlers], [Events] and [Posix]; [Witnesses],
      [ProcWitness]: concrete sessions in which the hypotheses hold.

    ** How they interact

    The command loop waits for a request on the process or thread pipes and
    dispatches it; handlers read their data with the CBOR layer, call the
    memory, breakpoint, register or thread component, and answer. A trap
    enters through [decode_trap], which looks the address up in the
    breakpoint table and runs [decode_breakpoint]. Memory access is the
    base of breakpoints, of return addresses and of the memory requests.

    The process enters the library through [init_udirt] when it is loaded,
    through [signal_entry_impl] with every signal, and through the wrappers.
    Each of them stops the other threads, reports an event, runs the command
    loop and releases the threads. The state of the layers is nested: [access]
    in [bps] in [udirt] in [proc]; [on_bps], [on_env], [run_u] and the like run
    an operation of a layer in the one around it.

    A fault of the library's own memory access is handled by the signal handler
    of the same thread. [Memory] composes the copy with the part of the handler
    that decides ([decode_memory_access_event]); [fault_entry] in [SyncSpec]
    shows what the whole handler does in that case, and that apart from the
    record of the running thread it is that part.

    [Barrier] and [Sync] model the same two functions: the first all threads at
    once with the system calls abstracted to their effect, the second one
    thread with all error paths, in which the other threads act while it waits
    ([wait_for_others], any change of the shared state). [SyncSim] relates their
    states: what the code does between two waits is a sequence of steps of the
    same thread in [Barrier].

    The ports of Darwin and Windows replace [Registers] and [Io], [Posix] and
    [Threads] below the same udirt.c and udirt-msg.c. They reuse the layers they
    share with Linux and have their own definitions of the same names, so
    [Darwin.get_pc] and [Registers.get_pc] are the two sides of one interface.

    ** What the theorems show

    - Breakpoints: any sequence of permitted operations refines the abstract
      map, with the code bytes as an overlay of the original ones; the table
      is a map; install and remove are inverse. Permitted excludes deleting
      the first of several blocks of a bucket, for which the effect is stated
      separately: the other blocks are lost.
    - Memory: an access returns, transfers exactly a prefix, restores the
      signal mask and says why it stopped. The range must be covered by the
      pages the handler unprotects; outside of it the access never ends.
    - Messages: reading is independent of how bytes arrive; a well-formed
      map is decoded to the request it describes; a response decodes to what
      was written; reading a type returns on any input; error messages fit
      their buffer whatever is sent.
    - Requests, from the bytes on the request pipe to those on the response
      pipe: memory, breakpoints, registers, thread state, continue, and the
      requests that are not served.
    - Control flow: jump conditions and successors against the processor's.
      A request about a breakpoint that does not exist is undefined behaviour.
    - Stepping over a breakpoint: what a hit leaves behind, and what hitting the
      continue breakpoint restores, for a thread that is stepped and for one
      that is not, and what each failure on the way leaves.
    - The command loop: only a continue request ends it without an error.
    - Types: every request handler and the trap decoder keep the state well
      typed (a context has one word per register, the breakpoint table its 256
      buckets, a breakpoint room for the bytes it saves) and access no array
      out of bounds, whatever the debugger sends; so does
      the signal handler, up to the command loop and after it.
    - Threads: lookup, creation and destruction in the list; a failed creation
      leaves the other threads stopped. A new thread runs application code only
      when it is in the list, has its files, has been reported to the debugger
      and has answered it, and has then read a sentinel from its control pipe.
    - The barrier: as long as the debugger suspends neither the thread in
      charge nor one with an event, at most one thread is in charge and while
      one is, all others are held in the handler; two executions at the end of
      [BarrierSpec] show that the condition is needed and that a suspend signal
      can be lost. The code with its system calls refines the step relation. The
      steps of the library come to an end, and where they end every thread is
      back in application code, or one is with the debugger and all others are
      held, or a suspend signal was lost, or a continue request was refused, after
      which the handler returns and nobody releases the others. The last two
      cannot happen when control is taken only after the signals of the last
      round have been handled and no continue request is refused.
    - Signals: the application's dispositions are those it would have without
      the library; what the handler does with a signal that is not an event;
      which registers a thread resumes with.
    - The log: the lines of different threads do not mix, every call has its
      line, and the lock does not block all threads.
    - Darwin: a register request is answered as on Linux for the registers both
      serve and refused otherwise; a saved context has registers of its own.
    - Windows: reads deliver the same bytes as the POSIX port, a failed
      creation of a pipe leaves no handle open, no memory access succeeds, and
      the threads it creates are counted and linked but never listed.
    - Start-up: the names of the files, and that the constructor returns, with
      everything in place, exactly when each of its steps succeeds; the first
      step that fails ends the process.

    ** Loops and fuel

    A loop is a [Fixpoint] with fuel computed from the state; running out of
    it gives [Running]. List walks take one more than the number of blocks
    in the heap, [read_from] and [write_to] two more than the outcomes that
    are queued, [read_cbor_items] two more than the bytes to come, the copy
    loop the bytes of the access plus a retry for each. The theorems state
    that a result is returned, so that the fuel is enough; [Running] is the
    result of a [select] with nothing to come, and of the access that faults
    for ever.

    ** What is not modelled

    The calls of [udi_log] in the other components (it writes only with
    UDI_DEBUG set; [Log] has what a call does); errno, except where it is the result of a
    call; dlmalloc (vendored; an allocation is an outcome of the environment);
    the Rust client libraries. Of the Windows port: the stubs that ignore their
    arguments, the entry points ([DllMain], the
    exception handler that passes everything on), and the functions that do not
    compile because they name variables that are not declared (the handshakes
    and [create_udi_filesystem]). A [close] is an
    outcome only: it does not remove the descriptor. In
    [handle_pipe_write_failure] the calls [sigpending], [setsigmask] and
    [sigsuspend] succeed. A caller's [udi_errmsg] is one text in the state, not
    one per call. A handler of the application that is called is recorded and
    not run, and what the kernel does after the handler has returned (a signal
    that [post_continue_hook] has sent arrives) is not modelled. [Barrier] has a
    fixed set of threads: a thread that ends goes through the barrier with its
    stack event, but the creation of a thread and its removal from the list, and
    with it what a dying thread does once it has control, are outside of it.

    Of the parts that remain, the Windows stubs and entry points keep no state
    and answer nothing, so that there is nothing to state of them; a model of
    the functions that do not compile would have to choose what the undeclared
    names mean; dlmalloc is vendored and reached only through [udi_malloc],
    an outcome of the environment. *)

From Stdlib Require Export ZArith Lia Bool.
From Stdlib Require Import Ascii String.
From stdpp Require Export base list gmap sets.

Global Open Scope Z_scope.

(** ** Machine integers *)

(** A C integer is a [Z]; the conversions below are the implicit ones of C on
    the platforms the library supports (two's complement). *)
Definition u8 (z : Z) : Z := z mod 2 ^ 8.
Definition u16 (z : Z) : Z := z mod 2 ^ 16.
Definition u32 (z : Z) : Z := z mod 2 ^ 32.
Definition u64 (z : Z) : Z := z mod 2 ^ 64.
Definition i8 (z : Z) : Z := (z + 2 ^ 7) mod 2 ^ 8 - 2 ^ 7.
Definition i16 (z : Z) : Z := (z + 2 ^ 15) mod 2 ^ 16 - 2 ^ 15.
Definition i32 (z : Z) : Z := (z + 2 ^ 31) mod 2 ^ 32 - 2 ^ 31.
Definition i64 (z : Z) : Z := (z + 2 ^ 63) mod 2 ^ 64 - 2 ^ 63.

Definition INT_MIN : Z := - 2 ^ 31.
Definition INT_MAX : Z := 2 ^ 31 - 1.

Lemma u8_range z : 0 <= u8 z < 256.
Proof. unfold u8. apply Z.mod_pos_bound. lia. Qed.

Lemma u64_range z : 0 <= u64 z < 2 ^ 64.
Proof. unfold u64. apply Z.mod_pos_bound. lia. Qed.

Lemma u64_small z : 0 <= z < 2 ^ 64 -> u64 z = z.
Proof. apply Z.mod_small. Qed.

Lemma u32_small z : 0 <= z < 2 ^ 32 -> u32 z = z.
Proof. apply Z.mod_small. Qed.

Lemma u8_small z : 0 <= z < 256 -> u8 z = z.
Proof. apply Z.mod_small. Qed.

Lemma i32_small z : INT_MIN <= z <= INT_MAX -> i32 z = z.
Proof.
  unfold INT_MIN, INT_MAX, i32. intros H. rewrite Z.mod_small; lia.
Qed.

(** ** C strings: lists of character codes, without the terminator *)

Definition chr (c : ascii) : Z := Z.of_N (N_of_ascii c).

Fixpoint cstr (s : string) : list Z :=
  match s with
  | EmptyString => []
  | String c s' => chr c :: cstr s'
  end.

(** ** Outcomes and the state monad *)

(** What C leaves undefined and the library can run into. *)
Inductive ub : Type :=
| NullDeref      (** a dereference of [NULL] *)
| UseAfterFree   (** a dereference of a freed block *)
| OutOfBounds    (** an access outside an array *)
| BadFormat      (** a format directive with a missing or ill-typed argument *)
| Uninitialized. (** a read of an uninitialised local *)

#[global] Instance ub_eq_dec : EqDecision ub.
Proof. solve_decision. Defined.

(** The outcome of running C code from a state: it returns, it is undefined,
    it ends the process through [udi_abort], or it is still running when the
    fuel of a loop is spent. *)
Inductive outcome (S A : Type) : Type :=
| Ret (a : A) (s : S)
| Undef (u : ub)
| Aborted (s : S)
| Running (s : S).
Arguments Ret {S A} a s.
Arguments Undef {S A} u.
Arguments Aborted {S A} s.
Arguments Running {S A} s.

Definition ST (S A : Type) : Type := S -> outcome S A.

Definition ret {S A} (a : A) : ST S A := fun s => Ret a s.

Definition bind {S A B} (m : ST S A) (k : A -> ST S B) : ST S B := fun s =>
  match m s with
  | Ret a s' => k a s'
  | Undef u => Undef u
  | Aborted s' => Aborted s'
  | Running s' => Running s'
  end.

Definition undef {S A} (u : ub) : ST S A := fun _ => Undef u.
Definition udi_abort {S A} : ST S A := fun s => Aborted s.
Definition running {S A} : ST S A := fun s => Running s.
Definition gets {S A} (f : S -> A) : ST S A := fun s => Ret (f s) s.
Definition modify {S} (f : S -> S) : ST S unit := fun s => Ret tt (f s).

Declare Scope udi_scope.
Delimit Scope udi_scope with udi.
Open Scope udi_scope.

Notation "'let*' x ':=' m 'in' k" := (bind m (fun x => k))
  (at level 10, x pattern, m at level 200, k at level 200,
   format "'[v' 'let*'  x  ':='  m  'in' '//' k ']'") : udi_scope.
Notation "m ;;; k" := (bind m (fun _ => k))
  (at level 199, right associativity, format "'[v' m  ;;; '//' k ']'") : udi_scope.

(** Running a computation on a part of the state. *)
Definition zoom {S T A} (get : S -> T) (put : T -> S -> S) (m : ST T A) : ST S A :=
  fun s =>
    match m (get s) with
    | Ret a t => Ret a (put t s)
    | Undef u => Undef u
    | Aborted t => Aborted (put t s)
    | Running t => Running (put t s)
    end.

Lemma bind_ret_l {S A B} (a : A) (k : A -> ST S B) : bind (ret a) k = k a.
Proof. reflexivity. Qed.

Lemma bind_Ret {S A B} (m : ST S A) (k : A -> ST S B) s a s' :
  m s = Ret a s' -> bind m k s = k a s'.
Proof. unfold bind. now intros ->. Qed.

Lemma bind_modify {S B} (f : S -> S) (k : unit -> ST S B) s :
  bind (modify f) k s = k tt (f s).
Proof. reflexivity. Qed.

Lemma bind_gets {S A B} (f : S -> A) (k : A -> ST S B) s : bind (gets f) k s = k (f s) s.
Proof. reflexivity. Qed.

Lemma bind_ret {S A B} (a : A) (k : A -> ST S B) s : bind (ret a) k s = k a s.
Proof. reflexivity. Qed.

Lemma bind_Undef {S A B} (m : ST S A) (k : A -> ST S B) s u :
  m s = Undef u -> bind m k s = Undef u.
Proof. unfold bind. now intros ->. Qed.

Lemma bind_Running {S A B} (m : ST S A) (k : A -> ST S B) s s' :
  m s = Running s' -> bind m k s = Running s'.
Proof. unfold bind. now intros ->. Qed.

Lemma Ret_inj {S A} (a b : A) (s t : S) : Ret a s = Ret b t -> a = b /\ s = t.
Proof. now intros [= -> ->]. Qed.

Lemma bind_inv {S A B} (m : ST S A) (k : A -> ST S B) s b s' :
  bind m k s = Ret b s' -> exists a s1, m s = Ret a s1 /\ k a s1 = Ret b s'.
Proof. unfold bind. destruct (m s); try discriminate. eauto. Qed.

Lemma bind_assoc {S A B C} (m : ST S A) (k : A -> ST S B) (h : B -> ST S C) s :
  bind (bind m k) h s = bind m (fun a => bind (k a) h) s.
Proof. unfold bind. now destruct (m s). Qed.

Lemma zoom_Ret {S T A} (get : S -> T) put (m : ST T A) s a t :
  m (get s) = Ret a t -> zoom get put m s = Ret a (put t s).
Proof. unfold zoom. now intros ->. Qed.

Lemma zoom_inv {S T A} (get : S -> T) put (m : ST T A) s a s' :
  zoom get put m s = Ret a s' -> exists t, m (get s) = Ret a t /\ s' = put t s.
Proof. unfold zoom. destruct (m (get s)); inversion 1; eauto. Qed.

(** ** Automation *)

Create HintDb udi.
Create Rewrite HintDb udi.
#[export] Hint Resolve u8_range u64_range : udi.

(** Execute the head of a monadic goal: a primitive, or a computation whose
    outcome is a hypothesis or the lemma given. *)
Ltac mstep_prim :=
  first [ rewrite bind_modify | rewrite bind_gets | rewrite bind_ret ]; cbv beta iota.
Ltac mstep_with H :=
  first [ rewrite (bind_Ret _ _ _ _ _ H)
        | rewrite (bind_Undef _ _ _ _ H)
        | rewrite (bind_Running _ _ _ _ H) ]; cbv beta iota.
Ltac mstep :=
  first
  [ mstep_prim
  | match goal with
    | H : ?m ?s = Ret _ _ |- context [bind ?m _ ?s] => mstep_with H
    | H : ?m ?s = Undef _ |- context [bind ?m _ ?s] => mstep_with H
    | H : ?m ?s = Running _ |- context [bind ?m _ ?s] => mstep_with H
    end ].

(** Invert a computation that is known to return. *)
Ltac minv :=
  repeat match goal with
  | H : Ret _ _ = Ret _ _ |- _ => injection H; clear H; intros; subst
  | H : ret _ _ = Ret _ _ |- _ => unfold ret in H
  | H : gets _ _ = Ret _ _ |- _ => unfold gets in H
  | H : modify _ _ = Ret _ _ |- _ => unfold modify in H
  | H : undef _ _ = Ret _ _ |- _ => discriminate H
  | H : udi_abort _ = Ret _ _ |- _ => discriminate H
  | H : running _ = Ret _ _ |- _ => discriminate H
  | H : bind _ _ _ = Ret _ _ |- _ =>
      let a := fresh "a" in let s := fresh "s" in
      let H1 := fresh "Hm" in let H2 := fresh "Hk" in
      apply bind_inv in H; destruct H as (a & s & H1 & H2)
  | H : zoom _ _ _ _ = Ret _ _ |- _ =>
      let t := fresh "t" in let H1 := fresh "Hz" in
      apply zoom_inv in H; destruct H as (t & H1 & ->)
  end.

(** Case analysis on the boolean tests of the code. *)
Ltac bool_cases :=
  repeat match goal with
  | |- context [if ?b then _ else _] =>
      lazymatch b with
      | context [if _ then _ else _] => fail
      | _ => let E := fresh "E" in destruct b eqn:E
      end
  end.

(** ** Invariants of computations

    [preserves P m]: [m] leads from states with [P] to states with [P], in
    whatever way it returns. *)

Definition preserves {S A} (P : S -> Prop) (m : ST S A) : Prop :=
  forall s a s', P s -> m s = Ret a s' -> P s'.

Section Preserves.
Context {S : Type} (P : S -> Prop).

Lemma preserves_ret {A} (a : A) : preserves P (ret a).
Proof. intros s b s' Hs H. now minv. Qed.

Lemma preserves_gets {A} (f : S -> A) : preserves P (gets f).
Proof. intros s b s' Hs H. now minv. Qed.

Lemma preserves_undef {A} u : preserves P (@undef S A u).
Proof. intros s b s' Hs H. discriminate. Qed.

Lemma preserves_abort {A} : preserves P (@udi_abort S A).
Proof. intros s b s' Hs H. discriminate. Qed.

Lemma preserves_running {A} : preserves P (@running S A).
Proof. intros s b s' Hs H. discriminate. Qed.

Lemma preserves_modify (f : S -> S) : (forall s, P s -> P (f s)) -> preserves P (modify f).
Proof. intros Hf s b s' Hs H. minv. auto. Qed.

Lemma preserves_bind {A B} (m : ST S A) (k : A -> ST S B) :
  preserves P m -> (forall a, preserves P (k a)) -> preserves P (bind m k).
Proof. intros Hm Hk s b s' Hs H. minv. eapply Hk; [|eassumption]. eapply Hm; eassumption. Qed.

(** A computation on a part [t] of the state, with an invariant of its own. *)
Lemma preserves_zoom {T A} (Q : T -> Prop) (get : S -> T) put (m : ST T A) :
  (forall s, P s -> Q (get s)) -> (forall s t, P s -> Q t -> P (put t s)) ->
  preserves Q m -> preserves P (zoom get put m).
Proof. intros Hg Hp Hm s b s' Hs H. minv. eapply Hp; [done|]. eapply Hm; eauto. Qed.
End Preserves.

Create HintDb keeps.
#[export] Hint Resolve preserves_ret preserves_gets preserves_undef preserves_abort
  preserves_running : keeps.

(** Walk through a computation, one case for every branch of the code. *)
Ltac keeps :=
  repeat
    (cbv beta zeta;
     first
     [ solve [auto with keeps nocore]
     | apply preserves_bind; [|intros ?]
     | match goal with
       | |- preserves _ (if ?b then _ else _) => destruct b
       | |- preserves _ (match ?x with _ => _ end) => destruct x
       end ]).

(** ** Shared facts on lists *)

Section Lists.
Context {A : Type}.
Implicit Types l : list A.

Lemma take_drop_split (n m : nat) l :
  take (n + m) l = take n l ++ take m (drop n l).
Proof.
  revert l. induction n as [|n IH]; intros l; [reflexivity|].
  destruct l as [|x l]; cbn.
  - now rewrite take_nil.
  - now rewrite IH.
Qed.

Lemma Forall_take (P : A -> Prop) (n : nat) l : Forall P l -> Forall P (take n l).
Proof. intros H. revert n. induction H; intros [|n]; cbn; eauto. Qed.
End Lists.

(** ** Linked lists in a heap

    The breakpoints of a bucket and the threads of the process are singly
    linked lists of heap blocks; [next] reads the link of a block. *)

Section Chains.
Context {A : Type} {next : A -> option nat}.
Implicit Types h : gmap nat A.

(** [chain h o ps]: following the links from [o] visits the blocks [ps] and
    ends in [NULL]. *)
Inductive chain h : option nat -> list nat -> Prop :=
| chain_nil : chain h None []
| chain_cons p b ps : h !! p = Some b -> chain h (next b) ps -> chain h (Some p) (p :: ps).

Lemma chain_det h o ps ps' : chain h o ps -> chain h o ps' -> ps = ps'.
Proof.
  intros H. revert ps'. induction H as [|p b ps Hp Hc IH]; intros ps' H'; inversion H'; [done|].
  simplify_eq. f_equal. auto.
Qed.

(** A chain only depends on the links of its blocks. *)
Lemma chain_frame h h' o ps :
  (forall p b, p ∈ ps -> h !! p = Some b ->
     exists b', h' !! p = Some b' /\ next b' = next b) ->
  chain h o ps -> chain h' o ps.
Proof.
  intros Hf H. induction H as [|p b ps Hp Hc IH]; [constructor|].
  destruct (Hf p b) as (b' & Hb' & Hn); [left|done|].
  econstructor; [exact Hb'|]. rewrite Hn. apply IH. intros q c Hq. apply Hf. now right.
Qed.

Lemma chain_live h o ps p : chain h o ps -> p ∈ ps -> is_Some (h !! p).
Proof. induction 1 as [|q b ps Hq Hc IH]; intros Hp; inversion Hp; subst; eauto. Qed.

(** A walk over the list needs no more steps than the heap has blocks. *)
Lemma chain_short h o ps : chain h o ps -> NoDup ps -> (length ps <= size h)%nat.
Proof.
  intros Hc Hnd. rewrite <- size_dom, <- (size_list_to_set (C := gset nat)) by done.
  apply subseteq_size. intros p Hp. apply elem_of_dom. apply elem_of_list_to_set in Hp.
  eauto using chain_live.
Qed.

(** The first block is [p] exactly when nothing precedes [p]. *)
Lemma chain_head_last h head pre p post :
  chain h head (pre ++ p :: post) -> NoDup (pre ++ p :: post) ->
  head = Some p <-> last pre = None.
Proof.
  intros Hc Hnd. destruct pre as [|y pre]; cbn [app] in Hc; inversion Hc; subst; [done|].
  split; [|intros Hl; now apply last_None in Hl]. intros He. simplify_eq.
  apply NoDup_app in Hnd as (_ & Hd & _). exfalso. apply (Hd p); left.
Qed.

Context (set_next : option nat -> A -> A) (next_set : forall o b, next (set_next o b) = o).

(** Linking a block behind the last one. *)
Lemma chain_snoc h o ps0 la bl new nb :
  chain h o (ps0 ++ [la]) -> NoDup (ps0 ++ [la]) -> new ∉ ps0 ++ [la] ->
  h !! la = Some bl -> h !! new = Some nb -> next nb = None ->
  chain (<[la := set_next (Some new) bl]> h) o (ps0 ++ [la; new]).
Proof.
  intros Hc Hnd Hni Hl Hn Hnn. revert o Hc. induction ps0 as [|p ps0 IH]; intros o Hc.
  - inversion Hc; subst. cbn. econstructor; [apply lookup_insert_eq|]. rewrite next_set.
    econstructor; [|rewrite Hnn; constructor].
    rewrite lookup_insert_ne; [exact Hn|]. intros ->. apply Hni. left.
  - cbn in *. inversion Hc; subst. apply NoDup_cons in Hnd as [Hp Hnd].
    econstructor; [|apply IH; [done| |done]].
    + rewrite lookup_insert_ne; [done|]. intros ->. apply Hp. set_solver.
    + set_solver.
Qed.

(** Taking a block out from behind its predecessor. *)
Lemma chain_unlink h o pre q bq p bp post :
  chain h o (pre ++ q :: p :: post) -> NoDup (pre ++ q :: p :: post) ->
  h !! q = Some bq -> h !! p = Some bp ->
  chain (delete p (<[q := set_next (next bp) bq]> h)) o (pre ++ q :: post).
Proof.
  intros Hc Hnd Hq Hp. revert o Hc. induction pre as [|x pre IH]; intros o Hc; cbn in *.
  - inversion Hc as [|? bq' ? Hq' Hc1]; subst. inversion Hc1 as [|? bp' ? Hp' Hc2]; subst. simplify_eq.
    apply NoDup_cons in Hnd as [Hnq Hnd]. apply NoDup_cons in Hnd as [Hnp Hnd].
    econstructor.
    + rewrite lookup_delete_ne by set_solver. apply lookup_insert_eq.
    + rewrite next_set. eapply chain_frame; [|exact Hc2]. intros y by_ Hy Hyb. exists by_.
      rewrite lookup_delete_ne, lookup_insert_ne by set_solver. done.
  - apply NoDup_cons in Hnd as [Hnx Hnd]. inversion Hc as [|? bx ? Hx Hc1]; subst.
    apply (chain_cons _ x bx); [|apply IH; auto].
    rewrite lookup_delete_ne, lookup_insert_ne by set_solver. done.
Qed.
End Chains.
Arguments chain {A} next h _ _.
