(* ===== verification/External.v ===== *)
(** * Interfaces of the C library the runtime calls

    [strerror_r], [mprotect] and the page size belong to libc and the kernel;
    they are the operations of the class [Libc], and [LibcOk] states the
    documented behaviour the theorems rely on. [flat_libc] is a concrete
    instance, used to evaluate the model. *)

From stdpp Require Import gmap.
From S2P Require Import Prelude.

(** ** The address space of the debuggee *)

Record prot : Type := Prot { p_read : bool; p_write : bool; p_exec : bool }.

(** Protections are kept per page number; a page without one is unmapped. A
    byte of a mapped page that was never written is zero. *)
Record aspace : Type := ASpace { as_bytes : gmap Z Z; as_prot : gmap Z prot }.

#[global] Instance prot_eq_dec : EqDecision prot.
Proof. solve_decision. Defined.

Definition PROT_RWX : prot := Prot true true true.

Definition EINTR : Z := 4.
Definition ENOMEM : Z := 12.
Definition EINVAL : Z := 22.
Definition EPIPE : Z := 32.

Class Libc : Type := {
  page_size : Z;
  strerror_r : Z -> list Z;
  mprotect : aspace -> Z -> Z -> prot -> aspace + Z
}.

(** [mprotect addr len] changes the pages that hold a byte of
    [addr .. addr+len-1], and nothing else. *)
Definition page_in_range `{Libc} (addr len pg : Z) : Prop :=
  addr / page_size <= pg <= (addr + len - 1) / page_size.

Class LibcOk `{Libc} : Prop := {
  page_size_pow2 : exists k, 0 <= k < 64 /\ page_size = 2 ^ k;
  mprotect_bytes : forall sp a n p sp',
    mprotect sp a n p = inl sp' -> as_bytes sp' = as_bytes sp;
  mprotect_in : forall sp a n p sp' pg,
    mprotect sp a n p = inl sp' -> page_in_range a n pg ->
    as_prot sp' !! pg = Some p;
  mprotect_out : forall sp a n p sp' pg,
    mprotect sp a n p = inl sp' -> ~ page_in_range a n pg ->
    as_prot sp' !! pg = as_prot sp !! pg
}.

Lemma page_size_pos `{LibcOk} : 0 < page_size.
Proof. destruct page_size_pow2 as (k & Hk & ->). apply Z.pow_pos_nonneg; lia. Qed.

(** ** Loads and stores

    A fault carries the [si_code] the kernel reports with [SIGSEGV]. *)
Definition SEGV_MAPERR : Z := 1.
Definition SEGV_ACCERR : Z := 2.

Definition load `{Libc} (sp : aspace) (a : Z) : Z + Z :=
  match as_prot sp !! (a / page_size) with
  | None => inr SEGV_MAPERR
  | Some p => if p_read p then inl (default 0 (as_bytes sp !! a)) else inr SEGV_ACCERR
  end.

Definition store `{Libc} (sp : aspace) (a b : Z) : aspace + Z :=
  match as_prot sp !! (a / page_size) with
  | None => inr SEGV_MAPERR
  | Some p =>
      if p_write p then inl (ASpace (<[a := b]> (as_bytes sp)) (as_prot sp))
      else inr SEGV_ACCERR
  end.

(** ** A concrete C library *)

Definition flat_mprotect (sp : aspace) (a n : Z) (p : prot) : aspace + Z :=
  if a mod 4096 =? 0 then
    let pages := seqZ (a / 4096) ((a + n - 1) / 4096 - a / 4096 + 1) in
    if forallb (fun pg => bool_decide (is_Some (as_prot sp !! pg))) pages then
      inl (ASpace (as_bytes sp) (foldr (fun pg m => <[pg := p]> m) (as_prot sp) pages))
    else inr ENOMEM
  else inr EINVAL.

Definition flat_libc : Libc := {|
  page_size := 4096;
  strerror_r := fun _ => [];
  mprotect := flat_mprotect
|}.

Lemma foldr_insert_lookup {V} (pages : list Z) (v : V) (m : gmap Z V) pg :
  foldr (fun pg m => <[pg := v]> m) m pages !! pg
  = if decide (pg ∈ pages) then Some v else m !! pg.
Proof.
  induction pages as [|q pages IH]; cbn.
  { rewrite decide_False; [done|]. apply not_elem_of_nil. }
  rewrite lookup_insert, IH. repeat case_decide; subst; set_solver.
Qed.

Lemma flat_mprotect_inv sp a n p sp' :
  flat_mprotect sp a n p = inl sp' ->
  as_bytes sp' = as_bytes sp /\
  forall pg, as_prot sp' !! pg =
    if decide (a / 4096 <= pg <= (a + n - 1) / 4096) then Some p
    else as_prot sp !! pg.
Proof.
  unfold flat_mprotect. destruct (a mod 4096 =? 0); [|discriminate].
  destruct (forallb _ _); [|discriminate]. inversion 1; subst; cbn.
  split; [done|]. intros pg. rewrite foldr_insert_lookup.
  repeat case_decide; rewrite elem_of_seqZ in *; solve [done | lia].
Qed.

Lemma flat_libc_ok : @LibcOk flat_libc.
Proof.
  split.
  - exists 12. split; [lia|reflexivity].
  - intros sp a n p sp' H. now apply flat_mprotect_inv in H as [? _].
  - intros sp a n p sp' pg H Hin. apply flat_mprotect_inv in H as [_ ->].
    unfold page_in_range in Hin. cbn in Hin. now rewrite decide_True.
  - intros sp a n p sp' pg H Hout. apply flat_mprotect_inv in H as [_ ->].
    unfold page_in_range in Hout. cbn in Hout. now rewrite decide_False.
Qed.
