(* ===== verification/Types.v ===== *)
(** * Protocol types: the enumerations and payloads of udi.h

    An enumerator is a constructor; a value that arrives on the wire is a [Z],
    read back as an enumerator by the [*_of_Z] functions, which answer [None]
    on a value no enumerator has (the [default] of the switches in udirt.c). *)

From Stdlib Require Import String.
From S2P Require Import Prelude.
Local Open Scope string_scope.
Local Open Scope Z_scope.

(** ** Enumerations *)

Inductive udi_arch_e : Type := UDI_ARCH_X86 | UDI_ARCH_X86_64.

Definition Z_of_arch (a : udi_arch_e) : Z :=
  match a with UDI_ARCH_X86 => 0 | UDI_ARCH_X86_64 => 1 end.

Definition UDI_PROTOCOL_VERSION_1 : Z := 1.

Inductive udi_thread_state_e : Type := UDI_TS_RUNNING | UDI_TS_SUSPENDED.

Definition Z_of_thread_state (t : udi_thread_state_e) : Z :=
  match t with UDI_TS_RUNNING => 0 | UDI_TS_SUSPENDED => 1 end.

Inductive udi_register_e : Type :=
| UDI_X86_MIN | UDI_X86_GS | UDI_X86_FS | UDI_X86_ES
| UDI_X86_DS | UDI_X86_EDI | UDI_X86_ESI | UDI_X86_EBP
| UDI_X86_ESP | UDI_X86_EBX | UDI_X86_EDX | UDI_X86_ECX
| UDI_X86_EAX | UDI_X86_CS | UDI_X86_SS | UDI_X86_EIP
| UDI_X86_FLAGS | UDI_X86_ST0 | UDI_X86_ST1 | UDI_X86_ST2
| UDI_X86_ST3 | UDI_X86_ST4 | UDI_X86_ST5 | UDI_X86_ST6
| UDI_X86_ST7 | UDI_X86_MAX | UDI_X86_64_MIN | UDI_X86_64_R8
| UDI_X86_64_R9 | UDI_X86_64_R10 | UDI_X86_64_R11 | UDI_X86_64_R12
| UDI_X86_64_R13 | UDI_X86_64_R14 | UDI_X86_64_R15 | UDI_X86_64_RDI
| UDI_X86_64_RSI | UDI_X86_64_RBP | UDI_X86_64_RBX | UDI_X86_64_RDX
| UDI_X86_64_RAX | UDI_X86_64_RCX | UDI_X86_64_RSP | UDI_X86_64_RIP
| UDI_X86_64_CSGSFS | UDI_X86_64_FLAGS | UDI_X86_64_ST0 | UDI_X86_64_ST1
| UDI_X86_64_ST2 | UDI_X86_64_ST3 | UDI_X86_64_ST4 | UDI_X86_64_ST5
| UDI_X86_64_ST6 | UDI_X86_64_ST7 | UDI_X86_64_XMM0 | UDI_X86_64_XMM1
| UDI_X86_64_XMM2 | UDI_X86_64_XMM3 | UDI_X86_64_XMM4 | UDI_X86_64_XMM5
| UDI_X86_64_XMM6 | UDI_X86_64_XMM7 | UDI_X86_64_XMM8 | UDI_X86_64_XMM9
| UDI_X86_64_XMM10 | UDI_X86_64_XMM11 | UDI_X86_64_XMM12 | UDI_X86_64_XMM13
| UDI_X86_64_XMM14 | UDI_X86_64_XMM15 | UDI_X86_64_MAX.

Definition Z_of_register (x : udi_register_e) : Z :=
  match x with
  | UDI_X86_MIN => 0 | UDI_X86_GS => 1 | UDI_X86_FS => 2
  | UDI_X86_ES => 3 | UDI_X86_DS => 4 | UDI_X86_EDI => 5
  | UDI_X86_ESI => 6 | UDI_X86_EBP => 7 | UDI_X86_ESP => 8
  | UDI_X86_EBX => 9 | UDI_X86_EDX => 10 | UDI_X86_ECX => 11
  | UDI_X86_EAX => 12 | UDI_X86_CS => 13 | UDI_X86_SS => 14
  | UDI_X86_EIP => 15 | UDI_X86_FLAGS => 16 | UDI_X86_ST0 => 17
  | UDI_X86_ST1 => 18 | UDI_X86_ST2 => 19 | UDI_X86_ST3 => 20
  | UDI_X86_ST4 => 21 | UDI_X86_ST5 => 22 | UDI_X86_ST6 => 23
  | UDI_X86_ST7 => 24 | UDI_X86_MAX => 25 | UDI_X86_64_MIN => 26
  | UDI_X86_64_R8 => 27 | UDI_X86_64_R9 => 28 | UDI_X86_64_R10 => 29
  | UDI_X86_64_R11 => 30 | UDI_X86_64_R12 => 31 | UDI_X86_64_R13 => 32
  | UDI_X86_64_R14 => 33 | UDI_X86_64_R15 => 34 | UDI_X86_64_RDI => 35
  | UDI_X86_64_RSI => 36 | UDI_X86_64_RBP => 37 | UDI_X86_64_RBX => 38
  | UDI_X86_64_RDX => 39 | UDI_X86_64_RAX => 40 | UDI_X86_64_RCX => 41
  | UDI_X86_64_RSP => 42 | UDI_X86_64_RIP => 43 | UDI_X86_64_CSGSFS => 44
  | UDI_X86_64_FLAGS => 45 | UDI_X86_64_ST0 => 46 | UDI_X86_64_ST1 => 47
  | UDI_X86_64_ST2 => 48 | UDI_X86_64_ST3 => 49 | UDI_X86_64_ST4 => 50
  | UDI_X86_64_ST5 => 51 | UDI_X86_64_ST6 => 52 | UDI_X86_64_ST7 => 53
  | UDI_X86_64_XMM0 => 54 | UDI_X86_64_XMM1 => 55 | UDI_X86_64_XMM2 => 56
  | UDI_X86_64_XMM3 => 57 | UDI_X86_64_XMM4 => 58 | UDI_X86_64_XMM5 => 59
  | UDI_X86_64_XMM6 => 60 | UDI_X86_64_XMM7 => 61 | UDI_X86_64_XMM8 => 62
  | UDI_X86_64_XMM9 => 63 | UDI_X86_64_XMM10 => 64 | UDI_X86_64_XMM11 => 65
  | UDI_X86_64_XMM12 => 66 | UDI_X86_64_XMM13 => 67 | UDI_X86_64_XMM14 => 68
  | UDI_X86_64_XMM15 => 69 | UDI_X86_64_MAX => 70
  end.

Definition all_registers : list udi_register_e :=
  [UDI_X86_MIN; UDI_X86_GS; UDI_X86_FS; UDI_X86_ES;
   UDI_X86_DS; UDI_X86_EDI; UDI_X86_ESI; UDI_X86_EBP;
   UDI_X86_ESP; UDI_X86_EBX; UDI_X86_EDX; UDI_X86_ECX;
   UDI_X86_EAX; UDI_X86_CS; UDI_X86_SS; UDI_X86_EIP;
   UDI_X86_FLAGS; UDI_X86_ST0; UDI_X86_ST1; UDI_X86_ST2;
   UDI_X86_ST3; UDI_X86_ST4; UDI_X86_ST5; UDI_X86_ST6;
   UDI_X86_ST7; UDI_X86_MAX; UDI_X86_64_MIN; UDI_X86_64_R8;
   UDI_X86_64_R9; UDI_X86_64_R10; UDI_X86_64_R11; UDI_X86_64_R12;
   UDI_X86_64_R13; UDI_X86_64_R14; UDI_X86_64_R15; UDI_X86_64_RDI;
   UDI_X86_64_RSI; UDI_X86_64_RBP; UDI_X86_64_RBX; UDI_X86_64_RDX;
   UDI_X86_64_RAX; UDI_X86_64_RCX; UDI_X86_64_RSP; UDI_X86_64_RIP;
   UDI_X86_64_CSGSFS; UDI_X86_64_FLAGS; UDI_X86_64_ST0; UDI_X86_64_ST1;
   UDI_X86_64_ST2; UDI_X86_64_ST3; UDI_X86_64_ST4; UDI_X86_64_ST5;
   UDI_X86_64_ST6; UDI_X86_64_ST7; UDI_X86_64_XMM0; UDI_X86_64_XMM1;
   UDI_X86_64_XMM2; UDI_X86_64_XMM3; UDI_X86_64_XMM4; UDI_X86_64_XMM5;
   UDI_X86_64_XMM6; UDI_X86_64_XMM7; UDI_X86_64_XMM8; UDI_X86_64_XMM9;
   UDI_X86_64_XMM10; UDI_X86_64_XMM11; UDI_X86_64_XMM12; UDI_X86_64_XMM13;
   UDI_X86_64_XMM14; UDI_X86_64_XMM15; UDI_X86_64_MAX].

Definition register_of_Z (z : Z) : option udi_register_e :=
  if z <? 0 then None else all_registers !! Z.to_nat z.

Inductive udi_request_type_e : Type :=
| UDI_REQ_INVALID | UDI_REQ_CONTINUE
| UDI_REQ_READ_MEM | UDI_REQ_WRITE_MEM
| UDI_REQ_READ_REGISTER | UDI_REQ_WRITE_REGISTER
| UDI_REQ_STATE | UDI_REQ_INIT
| UDI_REQ_CREATE_BREAKPOINT | UDI_REQ_INSTALL_BREAKPOINT
| UDI_REQ_REMOVE_BREAKPOINT | UDI_REQ_DELETE_BREAKPOINT
| UDI_REQ_THREAD_SUSPEND | UDI_REQ_THREAD_RESUME
| UDI_REQ_NEXT_INSTRUCTION | UDI_REQ_SINGLE_STEP.

Definition Z_of_request (x : udi_request_type_e) : Z :=
  match x with
  | UDI_REQ_INVALID => 0 | UDI_REQ_CONTINUE => 1
  | UDI_REQ_READ_MEM => 2 | UDI_REQ_WRITE_MEM => 3
  | UDI_REQ_READ_REGISTER => 4 | UDI_REQ_WRITE_REGISTER => 5
  | UDI_REQ_STATE => 6 | UDI_REQ_INIT => 7
  | UDI_REQ_CREATE_BREAKPOINT => 8 | UDI_REQ_INSTALL_BREAKPOINT => 9
  | UDI_REQ_REMOVE_BREAKPOINT => 10 | UDI_REQ_DELETE_BREAKPOINT => 11
  | UDI_REQ_THREAD_SUSPEND => 12 | UDI_REQ_THREAD_RESUME => 13
  | UDI_REQ_NEXT_INSTRUCTION => 14 | UDI_REQ_SINGLE_STEP => 15
  end.

Definition all_requests : list udi_request_type_e :=
  [UDI_REQ_INVALID; UDI_REQ_CONTINUE;
   UDI_REQ_READ_MEM; UDI_REQ_WRITE_MEM;
   UDI_REQ_READ_REGISTER; UDI_REQ_WRITE_REGISTER;
   UDI_REQ_STATE; UDI_REQ_INIT;
   UDI_REQ_CREATE_BREAKPOINT; UDI_REQ_INSTALL_BREAKPOINT;
   UDI_REQ_REMOVE_BREAKPOINT; UDI_REQ_DELETE_BREAKPOINT;
   UDI_REQ_THREAD_SUSPEND; UDI_REQ_THREAD_RESUME;
   UDI_REQ_NEXT_INSTRUCTION; UDI_REQ_SINGLE_STEP].

Definition request_of_Z (z : Z) : option udi_request_type_e :=
  if z <? 0 then None else all_requests !! Z.to_nat z.

Inductive udi_response_type_e : Type := UDI_RESP_VALID | UDI_RESP_ERROR.

Definition Z_of_response (r : udi_response_type_e) : Z :=
  match r with UDI_RESP_VALID => 0 | UDI_RESP_ERROR => 1 end.

Inductive udi_event_type_e : Type :=
| UDI_EVENT_UNKNOWN | UDI_EVENT_ERROR
| UDI_EVENT_SIGNAL | UDI_EVENT_BREAKPOINT
| UDI_EVENT_THREAD_CREATE | UDI_EVENT_THREAD_DEATH
| UDI_EVENT_PROCESS_EXIT | UDI_EVENT_PROCESS_FORK
| UDI_EVENT_PROCESS_EXEC | UDI_EVENT_SINGLE_STEP
| UDI_EVENT_PROCESS_CLEANUP.

Definition Z_of_event (x : udi_event_type_e) : Z :=
  match x with
  | UDI_EVENT_UNKNOWN => 0 | UDI_EVENT_ERROR => 1
  | UDI_EVENT_SIGNAL => 2 | UDI_EVENT_BREAKPOINT => 3
  | UDI_EVENT_THREAD_CREATE => 4 | UDI_EVENT_THREAD_DEATH => 5
  | UDI_EVENT_PROCESS_EXIT => 6 | UDI_EVENT_PROCESS_FORK => 7
  | UDI_EVENT_PROCESS_EXEC => 8 | UDI_EVENT_SINGLE_STEP => 9
  | UDI_EVENT_PROCESS_CLEANUP => 10
  end.

Definition all_events : list udi_event_type_e :=
  [UDI_EVENT_UNKNOWN; UDI_EVENT_ERROR;
   UDI_EVENT_SIGNAL; UDI_EVENT_BREAKPOINT;
   UDI_EVENT_THREAD_CREATE; UDI_EVENT_THREAD_DEATH;
   UDI_EVENT_PROCESS_EXIT; UDI_EVENT_PROCESS_FORK;
   UDI_EVENT_PROCESS_EXEC; UDI_EVENT_SINGLE_STEP;
   UDI_EVENT_PROCESS_CLEANUP].

Definition event_of_Z (z : Z) : option udi_event_type_e :=
  if z <? 0 then None else all_events !! Z.to_nat z.

#[global] Instance udi_arch_e_eq_dec : EqDecision udi_arch_e.
Proof. solve_decision. Defined.
#[global] Instance udi_thread_state_e_eq_dec : EqDecision udi_thread_state_e.
Proof. solve_decision. Defined.
#[global] Instance udi_register_e_eq_dec : EqDecision udi_register_e.
Proof. solve_decision. Defined.
#[global] Instance udi_request_type_e_eq_dec : EqDecision udi_request_type_e.
Proof. solve_decision. Defined.
#[global] Instance udi_response_type_e_eq_dec : EqDecision udi_response_type_e.
Proof. solve_decision. Defined.
#[global] Instance udi_event_type_e_eq_dec : EqDecision udi_event_type_e.
Proof. solve_decision. Defined.

(** ** Request payloads *)

Record continue_req : Type := { cr_sig : Z }.
Record read_mem_req : Type := { rm_addr : Z; rm_len : Z }.
Record write_mem_req : Type := { wm_addr : Z; wm_data : option (list Z); wm_len : Z }.
Record read_reg_req : Type := { rr_reg : Z }.
Record write_reg_req : Type := { wr_reg : Z; wr_value : Z }.
Record brkpt_req : Type := { br_addr : Z }.
Record single_step_req : Type := { ss_setting : Z }.

(** ** Result codes and constants of udirt.c *)

Definition RESULT_SUCCESS : Z := 0.
Definition RESULT_ERROR : Z := -1.
Definition RESULT_FAILURE : Z := -2.

Definition UDI_SINGLE_THREAD_ID : Z := 0xC0FFEEABC.

Definition REQUEST_FILE_NAME : string := "request".
Definition RESPONSE_FILE_NAME : string := "response".
Definition EVENTS_FILE_NAME : string := "events".

Definition ERRMSG_SIZE : Z := 4096.

(** ** Names of enumerators *)

Definition get_protocol_version : Z := UDI_PROTOCOL_VERSION_1.

Definition request_type_str (x : Z) : string :=
  match request_of_Z x with
  | Some UDI_REQ_INVALID => "UDI_REQ_INVALID"
  | Some UDI_REQ_CONTINUE => "UDI_REQ_CONTINUE"
  | Some UDI_REQ_READ_MEM => "UDI_REQ_READ_MEM"
  | Some UDI_REQ_WRITE_MEM => "UDI_REQ_WRITE_MEM"
  | Some UDI_REQ_READ_REGISTER => "UDI_REQ_READ_REGISTER"
  | Some UDI_REQ_WRITE_REGISTER => "UDI_REQ_WRITE_REGISTER"
  | Some UDI_REQ_STATE => "UDI_REQ_STATE"
  | Some UDI_REQ_INIT => "UDI_REQ_INIT"
  | Some UDI_REQ_CREATE_BREAKPOINT => "UDI_REQ_CREATE_BREAKPOINT"
  | Some UDI_REQ_INSTALL_BREAKPOINT => "UDI_REQ_INSTALL_BREAKPOINT"
  | Some UDI_REQ_REMOVE_BREAKPOINT => "UDI_REQ_REMOVE_BREAKPOINT"
  | Some UDI_REQ_DELETE_BREAKPOINT => "UDI_REQ_DELETE_BREAKPOINT"
  | Some UDI_REQ_THREAD_SUSPEND => "UDI_REQ_THREAD_SUSPEND"
  | Some UDI_REQ_THREAD_RESUME => "UDI_REQ_THREAD_RESUME"
  | Some UDI_REQ_NEXT_INSTRUCTION => "UDI_REQ_NEXT_INSTRUCTION"
  | Some UDI_REQ_SINGLE_STEP => "UDI_REQ_SINGLE_STEP"
  | _ => "UNKNOWN"
  end.

Definition event_type_str (x : Z) : string :=
  match event_of_Z x with
  | Some UDI_EVENT_UNKNOWN => "UDI_EVENT_UNKNOWN"
  | Some UDI_EVENT_ERROR => "UDI_EVENT_ERROR"
  | Some UDI_EVENT_SIGNAL => "UDI_EVENT_SIGNAL"
  | Some UDI_EVENT_BREAKPOINT => "UDI_EVENT_BREAKPOINT"
  | Some UDI_EVENT_THREAD_CREATE => "UDI_EVENT_THREAD_CREATE"
  | Some UDI_EVENT_THREAD_DEATH => "UDI_EVENT_THREAD_DEATH"
  | Some UDI_EVENT_PROCESS_EXIT => "UDI_EVENT_PROCESS_EXIT"
  | Some UDI_EVENT_PROCESS_FORK => "UDI_EVENT_PROCESS_FORK"
  | Some UDI_EVENT_PROCESS_EXEC => "UDI_EVENT_PROCESS_EXEC"
  | Some UDI_EVENT_SINGLE_STEP => "UDI_EVENT_SINGLE_STEP"
  | _ => "UNSPECIFIED"
  end.

Definition arch_str (a : udi_arch_e) : string :=
  match a with UDI_ARCH_X86 => "UDI_ARCH_X86" | UDI_ARCH_X86_64 => "UDI_ARCH_X86_64" end.

Definition register_str (x : Z) : string :=
  match register_of_Z x with
  | Some UDI_X86_MIN => "UDI_X86_MIN" | Some UDI_X86_GS => "UDI_X86_GS"
  | Some UDI_X86_FS => "UDI_X86_FS" | Some UDI_X86_ES => "UDI_X86_ES"
  | Some UDI_X86_DS => "UDI_X86_DS" | Some UDI_X86_EDI => "UDI_X86_EDI"
  | Some UDI_X86_ESI => "UDI_X86_ESI" | Some UDI_X86_EBP => "UDI_X86_EBP"
  | Some UDI_X86_ESP => "UDI_X86_ESP" | Some UDI_X86_EBX => "UDI_X86_EBX"
  | Some UDI_X86_EDX => "UDI_X86_EDX" | Some UDI_X86_ECX => "UDI_X86_ECX"
  | Some UDI_X86_EAX => "UDI_X86_EAX" | Some UDI_X86_CS => "UDI_X86_CS"
  | Some UDI_X86_SS => "UDI_X86_SS" | Some UDI_X86_EIP => "UDI_X86_EIP"
  | Some UDI_X86_FLAGS => "UDI_X86_FLAGS" | Some UDI_X86_ST0 => "UDI_X86_ST0"
  | Some UDI_X86_ST1 => "UDI_X86_ST1" | Some UDI_X86_ST2 => "UDI_X86_ST2"
  | Some UDI_X86_ST3 => "UDI_X86_ST3" | Some UDI_X86_ST4 => "UDI_X86_ST4"
  | Some UDI_X86_ST5 => "UDI_X86_ST5" | Some UDI_X86_ST6 => "UDI_X86_ST6"
  | Some UDI_X86_ST7 => "UDI_X86_ST7" | Some UDI_X86_MAX => "UDI_X86_MAX"
  | Some UDI_X86_64_MIN => "UDI_X86_64_MIN" | Some UDI_X86_64_R8 => "UDI_X86_64_R8"
  | Some UDI_X86_64_R9 => "UDI_X86_64_R9" | Some UDI_X86_64_R10 => "UDI_X86_64_R10"
  | Some UDI_X86_64_R11 => "UDI_X86_64_R11" | Some UDI_X86_64_R12 => "UDI_X86_64_R12"
  | Some UDI_X86_64_R13 => "UDI_X86_64_R13" | Some UDI_X86_64_R14 => "UDI_X86_64_R14"
  | Some UDI_X86_64_R15 => "UDI_X86_64_R15" | Some UDI_X86_64_RDI => "UDI_X86_64_RDI"
  | Some UDI_X86_64_RSI => "UDI_X86_64_RSI" | Some UDI_X86_64_RBP => "UDI_X86_64_RBP"
  | Some UDI_X86_64_RBX => "UDI_X86_64_RBX" | Some UDI_X86_64_RDX => "UDI_X86_64_RDX"
  | Some UDI_X86_64_RAX => "UDI_X86_64_RAX" | Some UDI_X86_64_RCX => "UDI_X86_64_RCX"
  | Some UDI_X86_64_RSP => "UDI_X86_64_RSP" | Some UDI_X86_64_RIP => "UDI_X86_64_RIP"
  | Some UDI_X86_64_CSGSFS => "UDI_X86_64_CSGSFS" | Some UDI_X86_64_FLAGS => "UDI_X86_64_FLAGS"
  | Some UDI_X86_64_ST0 => "UDI_X86_64_ST0" | Some UDI_X86_64_ST1 => "UDI_X86_64_ST1"
  | Some UDI_X86_64_ST2 => "UDI_X86_64_ST2" | Some UDI_X86_64_ST3 => "UDI_X86_64_ST3"
  | Some UDI_X86_64_ST4 => "UDI_X86_64_ST4" | Some UDI_X86_64_ST5 => "UDI_X86_64_ST5"
  | Some UDI_X86_64_ST6 => "UDI_X86_64_ST6" | Some UDI_X86_64_ST7 => "UDI_X86_64_ST7"
  | Some UDI_X86_64_XMM0 => "UDI_X86_64_XMM0" | Some UDI_X86_64_XMM1 => "UDI_X86_64_XMM1"
  | Some UDI_X86_64_XMM2 => "UDI_X86_64_XMM2" | Some UDI_X86_64_XMM3 => "UDI_X86_64_XMM3"
  | Some UDI_X86_64_XMM4 => "UDI_X86_64_XMM4" | Some UDI_X86_64_XMM5 => "UDI_X86_64_XMM5"
  | Some UDI_X86_64_XMM6 => "UDI_X86_64_XMM6" | Some UDI_X86_64_XMM7 => "UDI_X86_64_XMM7"
  | Some UDI_X86_64_XMM8 => "UDI_X86_64_XMM8" | Some UDI_X86_64_XMM9 => "UDI_X86_64_XMM9"
  | Some UDI_X86_64_XMM10 => "UDI_X86_64_XMM10" | Some UDI_X86_64_XMM11 => "UDI_X86_64_XMM11"
  | Some UDI_X86_64_XMM12 => "UDI_X86_64_XMM12" | Some UDI_X86_64_XMM13 => "UDI_X86_64_XMM13"
  | Some UDI_X86_64_XMM14 => "UDI_X86_64_XMM14" | Some UDI_X86_64_XMM15 => "UDI_X86_64_XMM15"
  | Some UDI_X86_64_MAX => "UDI_X86_64_MAX"
  | _ => "UNSPECIFIED"
  end.

(** ** Coding facts *)

Lemma register_of_Z_of_register r : register_of_Z (Z_of_register r) = Some r.
Proof. now destruct r. Qed.

Lemma request_of_Z_of_request r : request_of_Z (Z_of_request r) = Some r.
Proof. now destruct r. Qed.

Lemma event_of_Z_of_event e : event_of_Z (Z_of_event e) = Some e.
Proof. now destruct e. Qed.

Lemma lookup_enum_inv {A} (all : list A) (code : A -> Z) (z : Z) (a : A) :
  imap (fun i x => (code x =? Z.of_nat i)%Z) all = replicate (length all) true ->
  (if z <? 0 then None else all !! Z.to_nat z) = Some a -> code a = z.
Proof.
  intros Hall H. destruct (Z.ltb_spec z 0); [discriminate|].
  assert (Hi : imap (fun i x => code x =? Z.of_nat i) all !! Z.to_nat z
               = Some (code a =? Z.of_nat (Z.to_nat z))).
  { rewrite list_lookup_imap, H. reflexivity. }
  rewrite Hall in Hi. apply lookup_replicate in Hi as [Hi _].
  apply Z.eqb_eq in Hi. lia.
Qed.

Lemma Z_of_register_of_Z z r : register_of_Z z = Some r -> Z_of_register r = z.
Proof. apply lookup_enum_inv. reflexivity. Qed.

Lemma Z_of_request_of_Z z r : request_of_Z z = Some r -> Z_of_request r = z.
Proof. apply lookup_enum_inv. reflexivity. Qed.

Lemma request_of_Z_None z : request_of_Z z = None <-> z < 0 \/ 15 < z.
Proof.
  unfold request_of_Z. destruct (Z.ltb_spec z 0); [intuition lia|].
  rewrite lookup_ge_None. change (length all_requests) with 16%nat. lia.
Qed.

Lemma register_of_Z_None z : register_of_Z z = None <-> z < 0 \/ 70 < z.
Proof.
  unfold register_of_Z. destruct (Z.ltb_spec z 0); [intuition lia|].
  rewrite lookup_ge_None. change (length all_registers) with 71%nat. lia.
Qed.

#[export] Hint Rewrite register_of_Z_of_register request_of_Z_of_request
  event_of_Z_of_event : udi.
