(* ===== verification/Barrier.v ===== *)
(** * Stopping the world: the barrier of udirt-posix.c as a step relation

    Before a thread handles an event it stops all others
    ([block_other_threads]); when the debugger has let the process go on it
    hands control to a thread with an event of its own, or releases the others
    ([release_other_threads]). Both functions are run by several threads at
    once. Here every thread has a location in them, and [step] is one access
    to the shared state, so that a list of labels is an interleaving.

    A location stands for the source line it names. The threads are numbered
    in the order of the thread list, and their set is fixed. The bytes in the
    pipes are all sentinels, so a pipe is their number. A thread is in the
    signal handler, with every signal blocked, except at [User] and
    [Stepping].

    A thread that ends calls [block_other_threads] too ([Die]) and waits until
    control is handed to it. What it does with control is not a step here: the
    continue request that ends it takes it off the thread list. *)

From stdpp Require Import base list relations.
From S2P Require Import Prelude Types.

(** ** State *)

(** [SIGSYS] *)
Definition THREAD_SUSPEND_SIGNAL : Z := 31.

Inductive loc : Type :=
| User                       (** application code *)
| BlockCas                   (** 816: the compare-and-swap on [sync_var] *)
| BlockKill (iter : list nat) (num_suspended : nat)  (** 823: the rest of the list *)
| BlockCollect (remaining : nat)  (** 853: the sentinels still to read *)
| BlockSentinel              (** 859: tell the control thread *)
| BlockPend                  (** 871: note the pending suspend signal *)
| BlockWait                  (** 878: wait to be released *)
| BlockResult                (** 882: test [control_thread] *)
| Control                    (** the event is handled *)
| Stepping                   (** application code, with [continue_bp] set *)
| RelScan (iter : list nat)  (** 895: look for another event *)
| RelYield (next : nat)      (** 914: give up [control_thread] *)
| RelHand (next : nat)       (** 917: set it in the next thread *)
| RelWake (next : nat)       (** 919: wake that thread *)
| RelHandWait                (** 931: wait after handing over *)
| RelClear                   (** 947: open the barrier *)
| RelWrite (iter : list nat) (** 951: release the rest of the list *)
| RelCheck                   (** 966: test whether this thread is suspended *)
| RelWait                    (** 970: wait as a suspended thread *)
| Leave.                     (** return from the signal handler *)

#[global] Instance loc_eq_dec : EqDecision loc.
Proof. solve_decision. Defined.

Record bthread : Type := BThread {
  b_loc : loc;
  b_ts : udi_thread_state_e;
  b_control : Z;           (** [control_thread] *)
  b_suspend_pending : bool;
  b_signal : Z;            (** [event_state.signal] *)
  b_pipe : nat;            (** the bytes in the control pipe *)
  b_kill : bool;           (** a suspend signal is pending in the kernel *)
  b_stack : bool           (** [stack_event_pending]: the thread is about to end *)
}.

Definition at_loc (l : loc) (x : bthread) : bthread :=
  BThread l (b_ts x) (b_control x) (b_suspend_pending x) (b_signal x) (b_pipe x) (b_kill x) (b_stack x).
Definition with_ts (t : udi_thread_state_e) (x : bthread) : bthread :=
  BThread (b_loc x) t (b_control x) (b_suspend_pending x) (b_signal x) (b_pipe x) (b_kill x) (b_stack x).
Definition with_control (c : Z) (x : bthread) : bthread :=
  BThread (b_loc x) (b_ts x) c (b_suspend_pending x) (b_signal x) (b_pipe x) (b_kill x) (b_stack x).
Definition with_suspend_pending (b : bool) (x : bthread) : bthread :=
  BThread (b_loc x) (b_ts x) (b_control x) b (b_signal x) (b_pipe x) (b_kill x) (b_stack x).
Definition with_signal (g : Z) (x : bthread) : bthread :=
  BThread (b_loc x) (b_ts x) (b_control x) (b_suspend_pending x) g (b_pipe x) (b_kill x) (b_stack x).
Definition with_pipe (n : nat) (x : bthread) : bthread :=
  BThread (b_loc x) (b_ts x) (b_control x) (b_suspend_pending x) (b_signal x) n (b_kill x) (b_stack x).
Definition with_kill (b : bool) (x : bthread) : bthread :=
  BThread (b_loc x) (b_ts x) (b_control x) (b_suspend_pending x) (b_signal x) (b_pipe x) b (b_stack x).
Definition with_stack (b : bool) (x : bthread) : bthread :=
  BThread (b_loc x) (b_ts x) (b_control x) (b_suspend_pending x) (b_signal x) (b_pipe x) (b_kill x) b.

Record barrier : Type := Barrier {
  sync_var : Z;
  sentinels : nat;    (** the bytes in the pipe of the barrier *)
  stepping : bool;    (** [continue_bp != NULL] *)
  bthreads : list bthread
}.

Definition set_thread (t : nat) (x : bthread) (s : barrier) : barrier :=
  Barrier (sync_var s) (sentinels s) (stepping s) (<[t := x]> (bthreads s)).
Definition set_sync (v : Z) (s : barrier) : barrier :=
  Barrier v (sentinels s) (stepping s) (bthreads s).
Definition set_sentinels (n : nat) (s : barrier) : barrier :=
  Barrier (sync_var s) n (stepping s) (bthreads s).
Definition set_stepping (b : bool) (s : barrier) : barrier :=
  Barrier (sync_var s) (sentinels s) b (bthreads s).

(** [get_thread_list()] and the links. *)
Definition all_threads (s : barrier) : list nat := seq 0 (length (bthreads s)).

(** [__sync_val_compare_and_swap]: the new value. *)
Definition cas (v old new : Z) : Z := if v =? old then new else v.

(** ** Steps of a thread in the library *)

(** [block_other_threads], up to the decision of line 817. With one thread
    there is nothing to do. *)
Definition block_cas (t : nat) (x : bthread) (s : barrier) : barrier :=
  if (length (bthreads s) <=? 1)%nat then set_thread t (at_loc Control x) s
  else if sync_var s =? 0 then
    set_sync (cas (sync_var s) 0 1)
      (set_thread t (at_loc (BlockKill (all_threads s) 0) (with_control 1 x)) s)
  else set_thread t (at_loc BlockSentinel x) s.

(** One iteration of the loop that signals the other threads. *)
Definition block_kill (t : nat) (iter : list nat) (num_suspended : nat) (x : bthread) (s : barrier)
    : option barrier :=
  match iter with
  | [] => Some (set_thread t (at_loc (BlockCollect num_suspended) x) s)
  | i :: rest =>
      if decide (i = t) then Some (set_thread t (at_loc (BlockKill rest num_suspended) x) s)
      else
        y ← bthreads s !! i;
        let y := with_control 0 y in
        if decide (b_ts y = UDI_TS_SUSPENDED) then
          Some (set_thread i y (set_thread t (at_loc (BlockKill rest num_suspended) x) s))
        else
          Some (set_thread i (with_kill true y)
                  (set_thread t (at_loc (BlockKill rest (S num_suspended)) x) s))
  end.

(** [read_sentinel] on the pipe of the barrier; blocks when it is empty. *)
Definition block_collect (t remaining : nat) (x : bthread) (s : barrier) : option barrier :=
  match remaining with
  | O => Some (set_thread t (at_loc Control x) s)
  | S remaining' =>
      match sentinels s with
      | O => None
      | S n => Some (set_sentinels n (set_thread t (at_loc (BlockCollect remaining') x) s))
      end
  end.

Definition block_sentinel (t : nat) (x : bthread) (s : barrier) : barrier :=
  set_sentinels (S (sentinels s)) (set_thread t (at_loc BlockPend x) s).

Definition block_pend (t : nat) (x : bthread) (s : barrier) : barrier :=
  set_thread t
    (at_loc BlockWait (with_suspend_pending (negb (b_signal x =? THREAD_SUSPEND_SIGNAL)) x)) s.

(** A read of the thread's control pipe; blocks when it is empty. *)
Definition read_control (t : nat) (next : loc) (x : bthread) (s : barrier) : option barrier :=
  match b_pipe x with
  | O => None
  | S n => Some (set_thread t (at_loc next (with_pipe n x)) s)
  end.

Definition block_result (t : nat) (x : bthread) (s : barrier) : barrier :=
  set_thread t (at_loc (if b_control x =? 1 then Control else Leave) x) s.

(** The condition of the first loop of [release_other_threads]. *)
Definition has_event (x : bthread) : bool :=
  (negb (b_signal x =? THREAD_SUSPEND_SIGNAL) && negb (b_signal x =? 0)) || b_stack x.

Definition rel_scan (t : nat) (iter : list nat) (x : bthread) (s : barrier) : option barrier :=
  match iter with
  | [] => Some (set_thread t (at_loc RelClear x) s)
  | i :: rest =>
      if decide (i = t) then Some (set_thread t (at_loc (RelScan rest) x) s)
      else
        y ← bthreads s !! i;
        Some (set_thread t (at_loc (if has_event y then RelYield i else RelScan rest) x) s)
  end.

Definition rel_yield (t next : nat) (x : bthread) (s : barrier) : barrier :=
  set_thread t (at_loc (RelHand next) (with_control (cas (b_control x) 1 0) x)) s.

Definition rel_hand (t next : nat) (x : bthread) (s : barrier) : option barrier :=
  y ← bthreads s !! next;
  Some (set_thread next (with_control (cas (b_control y) 0 1) y) (set_thread t (at_loc (RelWake next) x) s)).

Definition rel_wake (t next : nat) (x : bthread) (s : barrier) : option barrier :=
  y ← bthreads s !! next;
  Some (set_thread next (with_pipe (S (b_pipe y)) y) (set_thread t (at_loc RelHandWait x) s)).

Definition rel_clear (t : nat) (x : bthread) (s : barrier) : barrier :=
  set_sync (cas (sync_var s) 1 0) (set_thread t (at_loc (RelWrite (all_threads s)) x) s).

(** One iteration of the loop that releases the other threads. *)
Definition rel_write (t : nat) (iter : list nat) (x : bthread) (s : barrier) : option barrier :=
  match iter with
  | [] => Some (set_thread t (at_loc RelCheck x) s)
  | i :: rest =>
      if decide (i = t) then Some (set_thread t (at_loc (RelWrite rest) x) s)
      else
        y ← bthreads s !! i;
        if decide (b_ts y = UDI_TS_RUNNING) then
          Some (set_thread i (with_pipe (S (b_pipe y)) y) (set_thread t (at_loc (RelWrite rest) x) s))
        else Some (set_thread t (at_loc (RelWrite rest) x) s)
  end.

Definition rel_check (t : nat) (x : bthread) (s : barrier) : barrier :=
  set_thread t (at_loc (if decide (b_ts x = UDI_TS_SUSPENDED) then RelWait else Leave) x) s.

(** The next step of a thread that is in the library. *)
Definition thread_step (t : nat) (x : bthread) (s : barrier) : option barrier :=
  match b_loc x with
  | User | Stepping | Control => None
  | BlockCas => Some (block_cas t x s)
  | BlockKill iter n => block_kill t iter n x s
  | BlockCollect remaining => block_collect t remaining x s
  | BlockSentinel => Some (block_sentinel t x s)
  | BlockPend => Some (block_pend t x s)
  | BlockWait => read_control t BlockResult x s
  | BlockResult => Some (block_result t x s)
  | RelScan iter => rel_scan t iter x s
  | RelYield next => Some (rel_yield t next x s)
  | RelHand next => rel_hand t next x s
  | RelWake next => rel_wake t next x s
  | RelHandWait => read_control t Leave x s
  | RelClear => Some (rel_clear t x s)
  | RelWrite iter => rel_write t iter x s
  | RelCheck => Some (rel_check t x s)
  | RelWait => read_control t Leave x s
  | Leave => Some (set_thread t (at_loc User x) s)
  end.

(** ** Signals, requests and interleavings *)

Inductive label : Type :=
| Signal (t : nat) (signal : Z)  (** a signal reaches thread [t] *)
| Suspend (t : nat)              (** the suspend signal of the library reaches it *)
| Run (t : nat)                  (** [t] makes a step in the library *)
| Request (t u : nat) (st : udi_thread_state_e)
    (** [t], in control, serves a suspend or resume request for [u] *)
| Handled (t : nat) (cont : bool)
    (** [t] is done with the event; [cont]: [continue_bp] is set *)
| Failed (t : nat) (cont : bool)
    (** the same, but the last request, a continue, was refused *)
| Die (t : nat).               (** [t] calls [report_thread_death] *)

(** [signal_entry_impl] up to the call of [block_other_threads]. *)
Definition enter (t : nat) (signal : Z) (x : bthread) (s : barrier) : barrier :=
  if (signal =? THREAD_SUSPEND_SIGNAL) && b_suspend_pending x then
    set_thread t (with_suspend_pending false x) s
  else if stepping s then set_thread t (at_loc Control x) s
  else set_thread t (at_loc BlockCas (with_signal signal x)) s.

(** The end of [signal_entry_impl] after a request that succeeded: with
    [continue_bp] set the other threads stay where they are. *)
Definition handled (t : nat) (cont : bool) (x : bthread) (s : barrier) : barrier :=
  set_stepping cont
    (set_thread t (at_loc (if cont then Stepping else RelScan (all_threads s)) (with_signal 0 x)) s).

(** The end of [signal_entry_impl] after a continue request that was refused:
    the others stay where they are in either case. *)
Definition failed (t : nat) (cont : bool) (x : bthread) (s : barrier) : barrier :=
  set_stepping cont (set_thread t (at_loc (if cont then Stepping else Leave) (with_signal 0 x)) s).

(** [report_thread_death] up to the call of [block_other_threads], with all
    signals blocked. *)
Definition dying (t : nat) (x : bthread) (s : barrier) : barrier :=
  set_thread t (at_loc BlockCas (with_stack true x)) s.

Definition step (l : label) (s : barrier) : option barrier :=
  match l with
  | Signal t signal =>
      x ← bthreads s !! t;
      match b_loc x with
      | User | Stepping => Some (enter t signal x s)
      | _ => None
      end
  | Suspend t =>
      x ← bthreads s !! t;
      match b_loc x with
      | User | Stepping =>
          if b_kill x then Some (enter t THREAD_SUSPEND_SIGNAL (with_kill false x) s) else None
      | _ => None
      end
  | Run t => x ← bthreads s !! t; thread_step t x s
  | Request t u st =>
      x ← bthreads s !! t;
      y ← bthreads s !! u;
      if decide (b_loc x = Control) then Some (set_thread u (with_ts st y) s) else None
  | Handled t cont =>
      x ← bthreads s !! t;
      if decide (b_loc x = Control /\ b_stack x = false) then Some (handled t cont x s) else None
  | Failed t cont =>
      x ← bthreads s !! t;
      if decide (b_loc x = Control /\ b_stack x = false) then Some (failed t cont x s) else None
  | Die t =>
      x ← bthreads s !! t;
      match b_loc x with User => Some (dying t x s) | _ => None end
  end.

Fixpoint run (ls : list label) (s : barrier) : option barrier :=
  match ls with
  | [] => Some s
  | l :: ls => s' ← step l s; run ls s'
  end.

(** All threads run the application and nothing is under way. *)
Definition running_thread : bthread := BThread User UDI_TS_RUNNING 0 false 0 0 false false.
Definition started (n : nat) : barrier := Barrier 0 0 false (replicate n running_thread).
