(* ===== verification/BarrierSpec.v ===== *)
(** * The barrier stops the world

    The invariant of the step relation of Barrier.v. At any time the threads
    are in one of three phases: nobody is in control ([idle]), a thread is
    collecting the others ([gather]), or one thread is in charge and all others
    are parked ([stopped]). A refused continue request leads to a fourth, in which
    the others stay parked and nobody is in charge ([abandoned]). The sentinels
    are counted: while a thread collects, the reads it has to make are the bytes
    in the pipe and the threads that have not answered yet. *)

From stdpp Require Import base list relations.
From S2P Require Import Prelude Types Barrier.

Local Open Scope nat_scope.

(** ** Sums over the threads *)

Definition total (f : nat -> bthread -> nat) (l : list bthread) : nat := sum_list (imap f l).

Lemma total_cons f x l : total f (x :: l) = f 0 x + total (fun i => f (S i)) l.
Proof. reflexivity. Qed.

Lemma total_ext f g l l' :
  length l = length l' ->
  (forall j x y, l !! j = Some x -> l' !! j = Some y -> f j x = g j y) ->
  total f l = total g l'.
Proof.
  revert f g l'. induction l as [|x l IH]; intros f g [|y l'] Hlen Hfg; try done.
  rewrite !total_cons. f_equal; [by apply (Hfg 0)|].
  apply IH; [by inversion Hlen|]. intros j. apply (Hfg (S j)).
Qed.

(** Two sums that differ at one thread. *)
Lemma total_at f g l l' i x y :
  length l = length l' -> l !! i = Some x -> l' !! i = Some y ->
  (forall j u v, j <> i -> l !! j = Some u -> l' !! j = Some v -> f j u = g j v) ->
  total f l + g i y = total g l' + f i x.
Proof.
  revert f g l' i. induction l as [|z l IH]; intros f g [|z' l'] i Hlen Hx Hy Hfg; try done.
  rewrite !total_cons. destruct i as [|i]; simplify_eq/=.
  - rewrite (total_ext (fun i => f (S i)) (fun i => g (S i)) l l'); [lia|lia|].
    intros j u v. apply (Hfg (S j)). lia.
  - rewrite (Hfg 0 z z' ltac:(lia) eq_refl eq_refl).
    specialize (IH (fun i => f (S i)) (fun i => g (S i)) l' i ltac:(lia) Hx Hy).
    cbv beta in IH. rewrite <- !Nat.add_assoc. f_equal. apply IH.
    intros j u v Hj. apply (Hfg (S j)). lia.
Qed.

Lemma total_zero f l i x : total f l = 0 -> l !! i = Some x -> f i x = 0.
Proof.
  revert f i. induction l as [|y l IH]; intros f i Ht Hx; [done|].
  rewrite total_cons in Ht. destruct i as [|i]; simplify_eq/=; [lia|].
  apply (IH (fun i => f (S i)) i); [lia|done].
Qed.

Lemma total_none f l : (forall j x, l !! j = Some x -> f j x = 0) -> total f l = 0.
Proof.
  revert f. induction l as [|y l IH]; intros f Hf; [done|].
  rewrite total_cons, (Hf 0 y eq_refl), IH; [done|]. intros j. apply (Hf (S j)).
Qed.

(** ** Threads at rest *)

(** Waiting for a byte in the control pipe, or about to. *)
Definition waiting (x : bthread) : bool :=
  match b_loc x with BlockPend | BlockWait | RelHandWait => true | _ => false end.

Definition parked (x : bthread) : bool := waiting x && (b_pipe x =? 0).

(** The locations of a thread that is not in control. *)
Definition outside (x : bthread) : bool :=
  match b_loc x with
  | User | BlockCas | BlockSentinel | BlockPend | BlockWait | BlockResult
  | RelHandWait | RelWrite _ | RelCheck | Leave => true
  | _ => false
  end.

Definition runs (x : bthread) : bool := bool_decide (b_ts x = UDI_TS_RUNNING).

(** A thread that is not in control. [pend] are the threads that the last
    control thread has still to release. *)
Record quiet (pend : list nat) (i : nat) (x : bthread) : Prop := {
  q_loc : outside x = true;
  q_pipe : b_pipe x <= if waiting x then 1 else 0;
  q_susp : runs x = false -> parked x = true /\ has_event x = false /\ b_control x = 0%Z;
  q_pend : i ∈ pend -> parked x = true /\ has_event x = false /\ b_control x = 0%Z;
  q_released : b_pipe x = 1 -> has_event x = false /\ b_control x = 0%Z;
  q_result : b_loc x = BlockResult -> has_event x = false /\ b_control x = 0%Z;
  q_hand : b_loc x = RelHandWait -> has_event x = false;
  q_write : forall rest, b_loc x = RelWrite rest ->
    pend = filter (fun j => j <> i) rest /\ NoDup rest
}.

(** The thread has yet to answer the next control thread. *)
Definition owes (pend : list nat) (i : nat) (x : bthread) : bool :=
  negb (parked x) || (bool_decide (i ∈ pend) && runs x).

(** ** The phases *)

(** Only one thread releases others, and [pend] is its work. *)
Record releasing (pend : list nat) (l : list bthread) : Prop := {
  r_one : forall i j x y r r', l !! i = Some x -> l !! j = Some y ->
    b_loc x = RelWrite r -> b_loc y = RelWrite r' -> i = j;
  r_some : pend <> [] -> exists i x r, l !! i = Some x /\ b_loc x = RelWrite r
}.

Record idle (pend : list nat) (s : barrier) : Prop := {
  i_sync : sync_var s = 0%Z;
  i_sentinels : sentinels s = 0;
  i_stepping : stepping s = false;
  i_releasing : releasing pend (bthreads s);
  i_quiet : forall i x, bthreads s !! i = Some x ->
    quiet pend i x /\ b_loc x <> BlockSentinel /\ owes pend i x = runs x
}.

(** The threads that are still to be signalled, and those that owe an answer. *)
Definition to_signal (h : nat) (iter : list nat) (i : nat) (x : bthread) : nat :=
  if bool_decide (i <> h) && bool_decide (i ∈ iter) && runs x then 1 else 0.
Definition owing (pend : list nat) (h i : nat) (x : bthread) : nat :=
  if bool_decide (i <> h) && owes pend i x then 1 else 0.

Definition collects (iter : list nat) (k : nat) (l : loc) : Prop :=
  l = BlockKill iter k \/ (iter = [] /\ l = BlockCollect k).

Record gather (pend : list nat) (h : nat) (iter : list nat) (k : nat) (s : barrier) : Prop := {
  g_sync : sync_var s = 1%Z;
  g_stepping : stepping s = false;
  g_releasing : releasing pend (bthreads s);
  g_iter : NoDup iter;
  g_pend : h ∉ pend;
  g_head : exists x, bthreads s !! h = Some x /\ collects iter k (b_loc x) /\
    runs x = true /\ b_pipe x = 0 /\ b_control x = 1%Z;
  g_quiet : forall i x, i <> h -> bthreads s !! i = Some x ->
    quiet pend i x /\ (i ∉ iter -> b_control x = 0%Z);
  g_count : k + total (to_signal h iter) (bthreads s)
            = sentinels s + total (owing pend h) (bthreads s)
}.

(** The thread in charge: what its location says of it and of the others. *)
Definition leads (h : nat) (x : bthread) (s : barrier) : Prop :=
  match b_loc x with
  | BlockPend | BlockWait => b_pipe x = 1 /\ b_control x = 1%Z /\ stepping s = false
  | BlockResult => b_pipe x = 0 /\ b_control x = 1%Z /\ stepping s = false
  | Control => b_pipe x = 0 /\ b_control x = 1%Z
  | Stepping => b_pipe x = 0 /\ b_control x = 1%Z /\ stepping s = true
  | RelScan iter =>
      b_pipe x = 0 /\ b_control x = 1%Z /\ stepping s = false /\ has_event x = false /\
      forall j y, j <> h -> j ∉ iter -> bthreads s !! j = Some y -> has_event y = false
  | RelYield next =>
      b_pipe x = 0 /\ b_control x = 1%Z /\ stepping s = false /\ has_event x = false /\
      next <> h /\ exists y, bthreads s !! next = Some y /\ has_event y = true
  | RelHand next | RelWake next =>
      b_pipe x = 0 /\ b_control x = 0%Z /\ stepping s = false /\ has_event x = false /\
      next <> h /\ exists y, bthreads s !! next = Some y /\ has_event y = true
  | RelClear =>
      b_pipe x = 0 /\ b_control x = 1%Z /\ stepping s = false /\ has_event x = false /\
      forall j y, j <> h -> bthreads s !! j = Some y -> has_event y = false
  | _ => False
  end.

Definition is_next (x : bthread) (j : nat) : bool :=
  match b_loc x with RelWake next => bool_decide (j = next) | _ => false end.

Record stopped (h : nat) (s : barrier) : Prop := {
  s_sync : sync_var s = 1%Z;
  s_sentinels : sentinels s = 0;
  s_head : exists x, bthreads s !! h = Some x /\ runs x = true /\ leads h x s /\
    forall j y, j <> h -> bthreads s !! j = Some y ->
      b_control y = if is_next x j then 1%Z else 0%Z;
  s_parked : forall j y, j <> h -> bthreads s !! j = Some y ->
    parked y = true /\ (runs y = false -> has_event y = false) /\
    (b_loc y = RelHandWait -> has_event y = false)
}.

Inductive inv (s : barrier) : Prop :=
| inv_idle pend : idle pend s -> inv s
| inv_gather pend h iter k : gather pend h iter k s -> inv s
| inv_stopped h : stopped h s -> inv s.

(** ** Moves of the threads that are not in control *)

(** The threads of [l] have moved to those of [l'] without answering and
    without a change that the control thread could see. *)
Record evolves (pend pend' : list nat) (l l' : list bthread) : Prop := {
  e_length : length l' = length l;
  e_pend : pend' ⊆ pend;
  e_same : forall j x, l !! j = Some x -> outside x = false -> l' !! j = Some x;
  e_quiet : forall j x x', l !! j = Some x -> l' !! j = Some x' -> quiet pend j x ->
    quiet pend' j x' /\ runs x' = runs x /\ b_control x' = b_control x /\
    owes pend' j x' = owes pend j x /\
    (b_loc x <> BlockSentinel -> b_loc x' <> BlockSentinel)
}.

Definition same_globals (s s' : barrier) : Prop :=
  sync_var s' = sync_var s /\ sentinels s' = sentinels s /\ stepping s' = stepping s.

Lemma lookup_length_eq {A B} (l : list A) (l' : list B) j y :
  length l' = length l -> l' !! j = Some y -> exists x, l !! j = Some x.
Proof. intros Hl Hj. apply lookup_lt_Some in Hj. apply lookup_lt_is_Some_2. lia. Qed.

Lemma idle_evolves pend pend' s s' :
  idle pend s -> same_globals s s' -> evolves pend pend' (bthreads s) (bthreads s') ->
  releasing pend' (bthreads s') -> idle pend' s'.
Proof.
  intros [H1 H2 H3 _ Hq] (E1 & E2 & E3) He Hr. split; [congruence|congruence|congruence|done|].
  intros i x' Hx'. destruct (lookup_length_eq _ _ _ _ (e_length _ _ _ _ He) Hx') as [x Hx].
  destruct (Hq i x Hx) as (Q & HS & HO).
  destruct (e_quiet _ _ _ _ He i x x' Hx Hx' Q) as (Q' & Hru & _ & Ho & Hs).
  split; [done|]. split; [auto|congruence].
Qed.

Lemma gather_evolves pend pend' h iter k s s' :
  gather pend h iter k s -> same_globals s s' -> evolves pend pend' (bthreads s) (bthreads s') ->
  releasing pend' (bthreads s') -> gather pend' h iter k s'.
Proof.
  intros [H1 H2 _ Hnd Hhp (x & Hx & Hc & Hru & Hp & Hct) Hq Hn] (E1 & E2 & E3) He Hr.
  assert (bthreads s' !! h = Some x) as Hx'.
  { apply (e_same _ _ _ _ He); [done|]. unfold outside. destruct Hc as [-> | [_ ->]]; done. }
  split; [congruence|congruence|done|done| | | |].
  - intros Hin. apply Hhp. by apply (e_pend _ _ _ _ He).
  - eauto 6.
  - intros i y' Hi Hy'. destruct (lookup_length_eq _ _ _ _ (e_length _ _ _ _ He) Hy') as [y Hy].
    destruct (Hq i y Hi Hy) as (Q & Hctl).
    destruct (e_quiet _ _ _ _ He i y y' Hy Hy' Q) as (Q' & _ & Hc' & _). split; [done|]. rewrite Hc'. auto.
  - rewrite E2. erewrite (total_ext (to_signal h iter) (to_signal h iter) (bthreads s') (bthreads s)),
      (total_ext (owing pend' h) (owing pend h) (bthreads s') (bthreads s)); [done|..];
      try apply (e_length _ _ _ _ He); intros j y' y Hy' Hy; unfold to_signal, owing;
      (case_bool_decide; [|done]);
      destruct (Hq j y) as (Q & _); try done;
      destruct (e_quiet _ _ _ _ He j y y' Hy Hy' Q) as (_ & Hru' & _ & Ho & _);
      by rewrite ?Hru', ?Ho.
Qed.

Lemma evolves_one pend t x x' s :
  bthreads s !! t = Some x -> outside x = true -> quiet pend t x' -> runs x' = runs x ->
  b_control x' = b_control x -> owes pend t x' = owes pend t x -> b_loc x' <> BlockSentinel ->
  evolves pend pend (bthreads s) (<[t := x']> (bthreads s)).
Proof.
  intros Hx Ho Hq Hr Hc Hw Hl. split.
  - apply length_insert.
  - done.
  - intros j y Hy Hoy. rewrite list_lookup_insert_ne; [done|]. intros ->. congruence.
  - intros j y y' Hy Hy' Qy. destruct (decide (j = t)) as [->|Hj].
    + rewrite list_lookup_insert_eq in Hy' by (eapply lookup_lt_Some; eauto). simplify_eq. auto.
    + rewrite list_lookup_insert_ne in Hy' by done. simplify_eq. auto.
Qed.

Lemma releasing_insert pend t x' l :
  releasing pend l -> t < length l -> (forall r, b_loc x' <> RelWrite r) ->
  (forall x r, l !! t = Some x -> b_loc x = RelWrite r -> pend = []) ->
  releasing pend (<[t := x']> l).
Proof.
  intros [R1 R2] Ht Hx' Hx. split.
  - intros i j y z r r' Hi Hj Hy Hz.
    apply list_lookup_insert_Some in Hi as [(-> & -> & _) | [Hti Hi]]; [naive_solver|].
    apply list_lookup_insert_Some in Hj as [(-> & -> & _) | [Htj Hj]]; [naive_solver|]. eauto.
  - intros Hp. destruct (R2 Hp) as (i & y & r & Hi & Hy).
    destruct (decide (i = t)) as [->|Hi']; [exfalso; eauto|].
    exists i, y, r. rewrite list_lookup_insert_ne by done. auto.
Qed.

(** A thread that is neither waiting nor releasing is not one of [pend], and
    it runs. *)
Lemma quiet_awake pend i x : quiet pend i x -> parked x = false -> i ∉ pend /\ runs x = true.
Proof.
  intros Q Hp. split.
  - intros Hi. destruct (q_pend _ _ _ Q Hi) as [H _]. congruence.
  - destruct (runs x) eqn:E; [done|]. destruct (q_susp _ _ _ Q E) as [H _]. congruence.
Qed.

Lemma owes_awake pend i x : parked x = false -> owes pend i x = true.
Proof. unfold owes. now intros ->. Qed.

(** The result of a move between locations outside of the pipes. *)
Lemma quiet_awake_move pend i x x' :
  quiet pend i x -> parked x = false -> outside x' = true -> waiting x' = false -> b_pipe x' = 0 ->
  b_ts x' = b_ts x ->
  (b_loc x' = BlockResult -> has_event x' = false /\ b_control x' = 0%Z) ->
  (forall r, b_loc x' <> RelWrite r) -> quiet pend i x'.
Proof.
  intros Q Hp Ho Hw Hpi Hts Hres Hwr. destruct (quiet_awake _ _ _ Q Hp) as [Hi Hr].
  assert (runs x' = true) as Hr' by (unfold runs; rewrite Hts; exact Hr).
  split; try done.
  - rewrite Hw, Hpi. done.
  - congruence.
  - congruence.
  - unfold waiting in Hw. intros E. rewrite E in Hw. done.
  - intros r E. by destruct (Hwr r).
Qed.

(** The thread [t] moves alone. *)
Lemma awake_evolves pend t x x' s :
  bthreads s !! t = Some x -> quiet pend t x -> releasing pend (bthreads s) ->
  parked x = false -> outside x' = true -> waiting x' = false -> b_pipe x' = 0 ->
  b_ts x' = b_ts x -> b_control x' = b_control x ->
  (b_loc x' = BlockResult -> has_event x' = false /\ b_control x' = 0%Z) ->
  (forall r, b_loc x' <> RelWrite r) -> b_loc x' <> BlockSentinel ->
  (forall r, b_loc x = RelWrite r -> pend = []) ->
  evolves pend pend (bthreads s) (<[t := x']> (bthreads s)) /\
  releasing pend (<[t := x']> (bthreads s)).
Proof.
  intros Hx Q HR Hp Ho Hw Hpi Hts Hct Hres Hwr Hbs Hnil. split.
  - apply (evolves_one pend t x); try done.
    + apply (q_loc _ _ _ Q).
    + eapply quiet_awake_move; eauto.
    + unfold runs. by rewrite Hts.
    + rewrite !owes_awake; [done|done|]. unfold parked. by rewrite Hw.
  - apply releasing_insert; try done.
    + by eapply lookup_lt_Some.
    + intros y r Hy. simplify_eq. apply Hnil.
Qed.

Lemma not_waiting_parked x : waiting x = false -> parked x = false.
Proof. unfold parked. now intros ->. Qed.

Lemma enter_evolves pend t g x b s :
  bthreads s !! t = Some x -> quiet pend t x -> releasing pend (bthreads s) ->
  b_loc x = User -> stepping s = false ->
  let s' := enter t g (with_kill b x) s in
  same_globals s s' /\ evolves pend pend (bthreads s) (bthreads s') /\ releasing pend (bthreads s').
Proof.
  intros Hx Q HR Hl Hst. cbv zeta. unfold enter. rewrite Hst.
  assert (waiting x = false) as Hw by (unfold waiting; by rewrite Hl).
  assert (b_pipe x = 0) as Hp by (pose proof (q_pipe _ _ _ Q) as H; rewrite Hw in H; lia).
  split; [by destruct (_ && _)|].
  destruct (_ && _); cbn [bthreads set_thread]; apply (awake_evolves pend t x); try done;
    try apply not_waiting_parked; unfold waiting, outside in *; cbn; rewrite ?Hl; try done.
Qed.

(** A thread that ends comes to the barrier. *)
Lemma dying_evolves pend t x s :
  bthreads s !! t = Some x -> quiet pend t x -> releasing pend (bthreads s) -> b_loc x = User ->
  let s' := dying t x s in
  same_globals s s' /\ evolves pend pend (bthreads s) (bthreads s') /\ releasing pend (bthreads s').
Proof.
  intros Hx Q HR Hl. cbv zeta. unfold dying.
  assert (waiting x = false) as Hw by (unfold waiting; by rewrite Hl).
  assert (b_pipe x = 0) as Hp by (pose proof (q_pipe _ _ _ Q) as H; rewrite Hw in H; lia).
  split; [done|]. cbn [bthreads set_thread]. apply (awake_evolves pend t x); try done;
    [by apply not_waiting_parked|by rewrite Hl].
Qed.

(** The byte that releases a waiting thread is read. *)
Lemma read_evolves pend t next x s s' :
  bthreads s !! t = Some x -> quiet pend t x -> releasing pend (bthreads s) ->
  waiting x = true -> next = BlockResult \/ next = Leave ->
  read_control t next x s = Some s' ->
  same_globals s s' /\ evolves pend pend (bthreads s) (bthreads s') /\ releasing pend (bthreads s').
Proof.
  intros Hx Q HR Hw Hn. unfold read_control. destruct (b_pipe x) as [|n] eqn:Hpi; [done|].
  intros [= <-]. pose proof (q_pipe _ _ _ Q) as Hb. rewrite Hw, Hpi in Hb.
  assert (n = 0) as -> by lia. destruct (q_released _ _ _ Q) as [He Hc]; [lia|].
  split; [done|]. cbn [bthreads set_thread]. apply (awake_evolves pend t x); try done.
  - unfold parked. by rewrite Hpi, andb_false_r.
  - destruct Hn as [-> | ->]; done.
  - destruct Hn as [-> | ->]; done.
  - destruct Hn as [-> | ->]; done.
  - destruct Hn as [-> | ->]; done.
  - unfold waiting in Hw. intros r E. rewrite E in Hw. done.
Qed.

Lemma pend_evolves pend t x s :
  bthreads s !! t = Some x -> quiet pend t x -> releasing pend (bthreads s) -> b_loc x = BlockPend ->
  let s' := block_pend t x s in
  same_globals s s' /\ evolves pend pend (bthreads s) (bthreads s') /\ releasing pend (bthreads s').
Proof.
  intros Hx Q HR Hl. cbv zeta. unfold block_pend. set (x' := at_loc _ _).
  assert (parked x' = parked x) as Hpk by (unfold parked, waiting; cbn; by rewrite Hl).
  split; [done|]. cbn [bthreads set_thread]. split.
  - apply (evolves_one pend t x); try done; [apply (q_loc _ _ _ Q)| |unfold owes; by rewrite Hpk].
    destruct Q as [Q1 Q2 Q3 Q4 Q5 Q6 Q7 Q8].
    split; rewrite ?Hpk; try done. unfold waiting in *. rewrite Hl in Q2. done.
  - apply releasing_insert; try done; [by eapply lookup_lt_Some|].
    intros y r Hy. simplify_eq. by rewrite Hl.
Qed.

(** The releaser [t] goes on to the rest of its list: what becomes of a thread
    that it has looked at, and of the others. *)
Lemma write_looked_at pend pend' i y :
  quiet pend i y -> i ∈ pend -> i ∉ pend' ->
  let y' := if runs y then with_pipe (S (b_pipe y)) y else y in
  quiet pend' i y' /\ runs y' = runs y /\ b_control y' = b_control y /\
  owes pend' i y' = owes pend i y /\ (b_loc y <> BlockSentinel -> b_loc y' <> BlockSentinel) /\
  (forall r, b_loc y' <> RelWrite r).
Proof.
  intros Q Hi Hi'. destruct (q_pend _ _ _ Q Hi) as (Hp & He & Hc).
  unfold parked in Hp. apply andb_prop in Hp as [Hw Hp%Nat.eqb_eq].
  assert (forall r, b_loc y <> RelWrite r) as Hr.
  { intros r E. unfold waiting in Hw. rewrite E in Hw. done. }
  assert (b_loc y <> BlockResult) as Hbr.
  { intros E. unfold waiting in Hw. rewrite E in Hw. done. }
  cbv zeta. destruct (runs y) eqn:Hrun; rewrite ?Hp.
  - set (y' := with_pipe 1 y). assert (waiting y' = true) as Hw' by done.
    assert (parked y' = false) as Hpk by (unfold parked; cbn; apply andb_false_r).
    split; [|split; [exact Hrun|split; [done|split; [|done]]]].
    + destruct Q as [Q1 Q2 Q3 Q4 Q5 Q6 Q7 Q8]. split; try done.
      * rewrite Hw'. cbn. lia.
      * intros E. unfold runs in *. cbn in *. congruence.
      * intros r E. by destruct (Hr r).
    + rewrite owes_awake by done. unfold owes. rewrite Hrun, bool_decide_true by done. by rewrite orb_true_r.
  - split; [|split; [exact Hrun|split; [done|split; [|done]]]].
    + destruct Q as [Q1 Q2 Q3 Q4 Q5 Q6 Q7 Q8]. split; try done.
      intros r E. by destruct (Hr r).
    + unfold owes. by rewrite Hrun, !andb_false_r.
Qed.

Lemma write_others pend pend' j y :
  quiet pend j y -> (j ∈ pend' <-> j ∈ pend) -> (forall r, b_loc y <> RelWrite r) ->
  quiet pend' j y /\ owes pend' j y = owes pend j y.
Proof.
  intros [Q1 Q2 Q3 Q4 Q5 Q6 Q7 Q8] Hj Hr. split.
  - split; try done; [by rewrite Hj|]. intros r E. by destruct (Hr r).
  - unfold owes. f_equal. f_equal. by apply bool_decide_ext.
Qed.

Lemma write_evolves_to pend t i rest x s l' :
  bthreads s !! t = Some x -> quiet pend t x -> releasing pend (bthreads s) ->
  b_loc x = RelWrite (i :: rest) -> length l' = length (bthreads s) ->
  l' !! t = Some (at_loc (RelWrite rest) x) ->
  (forall j, j <> t -> j <> i -> l' !! j = bthreads s !! j) ->
  (i <> t -> exists y, bthreads s !! i = Some y /\ quiet pend i y /\
     l' !! i = Some (if runs y then with_pipe (S (b_pipe y)) y else y)) ->
  evolves pend (filter (fun j => j <> t) rest) (bthreads s) l' /\
  releasing (filter (fun j => j <> t) rest) l'.
Proof.
  intros Hx Q HR Hl Hlen Ht Ho Hi. destruct (q_write _ _ _ Q _ Hl) as [Hpend Hnd].
  apply NoDup_cons in Hnd as [Hir Hnd]. set (pend' := filter (fun j => j <> t) rest) in *.
  assert (Hw : waiting x = false) by (unfold waiting; by rewrite Hl).
  assert (Hp : b_pipe x = 0) by (pose proof (q_pipe _ _ _ Q) as H; rewrite Hw in H; lia).
  pose proof (not_waiting_parked x Hw) as Hpk. destruct (quiet_awake _ _ _ Q Hpk) as [Htp Hrun].
  assert (Hsub : forall j, j <> i -> j ∈ pend' <-> j ∈ pend).
  { intros j Hj. rewrite Hpend. unfold pend'. rewrite !list_elem_of_filter. set_solver. }
  assert (Hip : i <> t -> i ∈ pend) by (intros; rewrite Hpend; apply list_elem_of_filter; set_solver).
  assert (Hip' : i ∉ pend') by (unfold pend'; rewrite list_elem_of_filter; tauto).
  assert (Hnr : forall j y r, j <> t -> bthreads s !! j = Some y -> b_loc y <> RelWrite r).
  { intros j y r Hj Hy E. apply Hj. eapply (r_one _ _ HR); eauto. }
  clear Hpend. split; split.
  - done.
  - intros j Hj. destruct (decide (j = i)) as [->|]; [done|]. by apply Hsub.
  - intros j y Hy Hout. destruct (decide (j = t)) as [->|Hjt].
    { pose proof (q_loc _ _ _ Q). congruence. }
    destruct (decide (j = i)) as [->|Hji]; [|by rewrite Ho].
    destruct (Hi Hjt) as (z & Hz & Qz & _). pose proof (q_loc _ _ _ Qz). congruence.
  - intros j y y' Hy Hy' Qy. destruct (decide (j = t)) as [->|Hjt].
    + simplify_eq. split; [|split; [done|split; [done|split; [by rewrite !owes_awake|done]]]].
      split; try done.
      * cbn. lia.
      * intros E. unfold runs in *. cbn in *. congruence.
      * unfold pend'. rewrite list_elem_of_filter. tauto.
      * cbn. lia.
      * intros r [= <-]. done.
    + destruct (decide (j = i)) as [->|Hji].
      * destruct (Hi Hjt) as (z & Hz & Qz & Hz'). simplify_eq.
        destruct (write_looked_at pend pend' i y Qy (Hip Hjt) Hip') as (A & B & C & D & E & _). auto.
      * rewrite Ho in Hy' by done. simplify_eq.
        destruct (write_others pend pend' j y Qy (Hsub j Hji)) as [A B]; [eauto|]. auto.
  - intros j k y z r r' Hj Hk Ey Ez.
    assert (forall j y r, l' !! j = Some y -> b_loc y = RelWrite r -> j = t) as Hone; [|by rewrite (Hone j y r), (Hone k z r')].
    intros j' y' r0 Hj' E. destruct (decide (j' = t)) as [|Hjt]; [done|exfalso].
    destruct (decide (j' = i)) as [->|Hji].
    + destruct (Hi Hjt) as (z' & Hz & Qz & Hz'). simplify_eq.
      destruct (write_looked_at pend pend' i z' Qz (Hip Hjt) Hip') as (_ & _ & _ & _ & _ & Hno). by destruct (Hno r0).
    + rewrite Ho in Hj' by done. by destruct (Hnr j' y' r0 Hjt Hj').
  - intros _. eauto.
Qed.

Lemma write_evolves pend t iter x s s' :
  bthreads s !! t = Some x -> quiet pend t x -> releasing pend (bthreads s) ->
  (forall j y, j ∈ pend -> bthreads s !! j = Some y -> quiet pend j y) ->
  b_loc x = RelWrite iter -> rel_write t iter x s = Some s' ->
  exists pend', same_globals s s' /\ evolves pend pend' (bthreads s) (bthreads s') /\
    releasing pend' (bthreads s').
Proof.
  intros Hx Q HR Hpq Hl Hst. destruct (q_write _ _ _ Q iter Hl) as [Hpend Hnd].
  assert (Hlt : t < length (bthreads s)) by (by eapply lookup_lt_Some).
  assert (Hw : waiting x = false) by (unfold waiting; by rewrite Hl).
  assert (Hp : b_pipe x = 0) by (pose proof (q_pipe _ _ _ Q) as H; rewrite Hw in H; lia).
  pose proof (not_waiting_parked x Hw) as Hpk.
  destruct iter as [|i rest]; cbn [rel_write] in Hst.
  { injection Hst as <-. exists pend. split; [done|]. apply (awake_evolves pend t x); done. }
  exists (filter (fun j => j <> t) rest). case_decide as Hit.
  { injection Hst as <-. split; [done|]. subst i.
    apply (write_evolves_to pend t t rest x s); try done; cbn [bthreads set_thread].
    - apply length_insert.
    - by apply list_lookup_insert_eq.
    - intros j Hj _. by apply list_lookup_insert_ne. }
  destruct (bthreads s !! i) as [y|] eqn:Hy; [|done]. cbn in Hst.
  assert (Qy : quiet pend i y).
  { apply Hpq; [|done]. rewrite Hpend. apply list_elem_of_filter. set_solver. }
  assert (Hli : i < length (bthreads s)) by (by eapply lookup_lt_Some).
  case_decide as Hts; injection Hst as <-; (split; [done|]);
    apply (write_evolves_to pend t i rest x s); try done; cbn [bthreads set_thread];
    rewrite ?length_insert; try done.
  - rewrite list_lookup_insert_ne by done. by apply list_lookup_insert_eq.
  - intros j Hj Hji. by rewrite !list_lookup_insert_ne by done.
  - intros _. exists y. split; [done|]. split; [done|]. rewrite list_lookup_insert_eq by (by rewrite length_insert).
    unfold runs. by rewrite bool_decide_true.
  - by apply list_lookup_insert_eq.
  - intros j Hj Hji. by rewrite list_lookup_insert_ne by done.
  - intros _. exists y. split; [done|]. split; [done|]. rewrite list_lookup_insert_ne by done.
    unfold runs. by rewrite bool_decide_false.
Qed.

(** Any step of a thread that is not in control, except for the two in which
    it meets the control thread. *)
Lemma run_evolves pend t x s s' :
  bthreads s !! t = Some x -> quiet pend t x -> releasing pend (bthreads s) ->
  (forall j y, j ∈ pend -> bthreads s !! j = Some y -> quiet pend j y) ->
  b_loc x <> BlockCas -> b_loc x <> BlockSentinel -> thread_step t x s = Some s' ->
  exists pend', same_globals s s' /\ evolves pend pend' (bthreads s) (bthreads s') /\
    releasing pend' (bthreads s').
Proof.
  intros Hx Q HR Hpq Hn1 Hn2 Hst. unfold thread_step in Hst.
  pose proof (q_loc _ _ _ Q) as Hout. unfold outside in Hout.
  pose proof (q_pipe _ _ _ Q) as Hpi. unfold waiting in Hpi.
  destruct (b_loc x) as [| | | | | | | | | | | | | | | |iter| | |] eqn:Hl; try done.
  - injection Hst as <-. exists pend. by apply pend_evolves.
  - exists pend. eapply (read_evolves _ t BlockResult); eauto. unfold waiting. by rewrite Hl.
  - injection Hst as <-. exists pend. split; [done|].
    destruct (q_result _ _ _ Q Hl) as [He Hc]. unfold block_result. rewrite Hc. cbn [bthreads set_thread].
    apply (awake_evolves pend t x); try done; [|cbn; lia|congruence].
    apply not_waiting_parked. unfold waiting. by rewrite Hl.
  - exists pend. eapply read_evolves; eauto. unfold waiting. by rewrite Hl.
  - by eapply write_evolves.
  - injection Hst as <-. exists pend. split; [done|]. unfold rel_check.
    assert (parked x = false) as Hpk by (apply not_waiting_parked; unfold waiting; by rewrite Hl).
    destruct (quiet_awake _ _ _ Q Hpk) as [_ Hrun]. unfold runs in Hrun. apply bool_decide_eq_true in Hrun.
    rewrite decide_False by congruence. cbn [bthreads set_thread].
    apply (awake_evolves pend t x); try done; [cbn; lia|congruence].
  - injection Hst as <-. exists pend. split; [done|]. cbn [bthreads set_thread].
    apply (awake_evolves pend t x); try done; [|cbn; lia|congruence].
    apply not_waiting_parked. unfold waiting. by rewrite Hl.
Qed.

(** ** The phases are kept *)

(** The fields of an updated state. *)
Ltac bsimp :=
  cbn [sync_var stepping bthreads sentinels set_sync set_thread set_sentinels set_stepping] in *.

(** The debugger suspends neither the thread in control nor one with an event
    of its own. *)
Definition permitted (s : barrier) (l : label) : Prop :=
  match l with
  | Request t u UDI_TS_SUSPENDED =>
      u <> t /\ forall y, bthreads s !! u = Some y -> has_event y = false
  | _ => True
  end.

Lemma runs_false x : runs x = false <-> b_ts x = UDI_TS_SUSPENDED.
Proof. unfold runs. rewrite bool_decide_eq_false. destruct (b_ts x); naive_solver. Qed.

(** A thread that is not in control comes to the barrier. *)
Lemma signal_evolves pend l s s' t x :
  bthreads s !! t = Some x -> quiet pend t x -> releasing pend (bthreads s) -> stepping s = false ->
  (exists g, l = Signal t g) \/ l = Suspend t \/ l = Die t -> step l s = Some s' ->
  same_globals s s' /\ evolves pend pend (bthreads s) (bthreads s') /\ releasing pend (bthreads s').
Proof.
  intros Hx Q HR Hs Hl Hst. pose proof (q_loc _ _ _ Q) as Hout. unfold outside in Hout.
  destruct Hl as [[g ->] | [-> | ->]]; cbn in Hst; rewrite Hx in Hst; cbn in Hst;
    destruct (b_loc x) eqn:E; try done.
  - injection Hst as <-. pose proof (enter_evolves pend t g x (b_kill x) s Hx Q HR E Hs) as H.
    by destruct x.
  - destruct (b_kill x); [|done]. injection Hst as <-. by apply enter_evolves.
  - injection Hst as <-. by apply dying_evolves.
Qed.

(** A collecting thread sees every other thread exactly once. *)
Lemma start_gather pend h x s :
  2 <= length (bthreads s) -> idle pend s -> bthreads s !! h = Some x -> b_loc x = BlockCas ->
  gather pend h (all_threads s) 0 (block_cas h x s).
Proof.
  intros Hlen [H1 H2 H3 H4 Hq] Hx Hl. destruct (Hq h x Hx) as (Q & _ & _).
  assert (Hlt : h < length (bthreads s)) by (by eapply lookup_lt_Some).
  assert (Hw : waiting x = false) by (unfold waiting; by rewrite Hl).
  assert (Hp : b_pipe x = 0) by (pose proof (q_pipe _ _ _ Q) as H; rewrite Hw in H; lia).
  destruct (quiet_awake _ _ _ Q (not_waiting_parked x Hw)) as [Hhp Hrun].
  unfold block_cas. rewrite (proj2 (Nat.leb_gt _ _)) by lia. rewrite H1. cbn.
  split; bsimp; try done.
  - apply releasing_insert; try done. intros y r Hy. simplify_eq. by rewrite Hl.
  - apply NoDup_seq.
  - rewrite list_lookup_insert_eq by done. eexists. split; [done|]. cbn. split; [by left|]. done.
  - intros i y Hi Hy. rewrite list_lookup_insert_ne in Hy by done. destruct (Hq i y Hy) as (Qy & _ & _).
    split; [done|]. intros Hn. exfalso. apply Hn. apply elem_of_seq.
    apply lookup_lt_Some in Hy. lia.
  - rewrite H2. apply total_ext; [done|]. intros j y z Hy Hz. simplify_eq. unfold to_signal, owing.
    case_bool_decide as Hj; [|done]. rewrite list_lookup_insert_ne in Hy by done.
    destruct (Hq j y Hy) as (_ & _ & ->). rewrite bool_decide_true; [done|].
    apply elem_of_seq. apply lookup_lt_Some in Hy. lia.
Qed.

Lemma idle_step pend l s s' :
  2 <= length (bthreads s) -> idle pend s -> step l s = Some s' -> inv s'.
Proof.
  intros Hlen HI Hst. pose proof HI as [H1 H2 H3 H4 Hq].
  assert (Hnc : forall t x, bthreads s !! t = Some x -> b_loc x <> Control).
  { intros t x Hx E. destruct (Hq t x Hx) as (Q & _). pose proof (q_loc _ _ _ Q) as Ho.
    unfold outside in Ho. by rewrite E in Ho. }
  assert (Hsig : forall t, (exists g, l = Signal t g) \/ l = Suspend t \/ l = Die t -> inv s').
  { intros t Hl. assert (is_Some (bthreads s !! t)) as [x Hx].
    { destruct Hl as [[g ->] | [-> | ->]]; cbn in Hst; destruct (bthreads s !! t); done. }
    destruct (Hq t x Hx) as (Q & _).
    destruct (signal_evolves pend l s s' t x) as (A & B & C); eauto.
    apply (inv_idle _ pend). by eapply idle_evolves. }
  destruct l as [t g|t|t|t u st|t cont|t cont|t]; eauto; cbn in Hst;
    destruct (bthreads s !! t) as [x|] eqn:Hx; try done; cbn in Hst.
  - destruct (Hq t x Hx) as (Q & Hns & _).
    destruct (decide (b_loc x = BlockCas)) as [E|Hn].
    + unfold thread_step in Hst. rewrite E in Hst. injection Hst as <-.
      eapply inv_gather, start_gather; eauto.
    + destruct (run_evolves pend t x s s') as (pend' & A & B & C); eauto.
      { intros j y _ Hy. by destruct (Hq j y Hy). }
      apply (inv_idle _ pend'). by eapply idle_evolves.
  - destruct (bthreads s !! u); [|done]. cbn in Hst. rewrite decide_False in Hst by eauto. done.
  - rewrite decide_False in Hst by naive_solver. done.
  - rewrite decide_False in Hst by naive_solver. done.
Qed.

(** A thread other than the collecting one answers, or comes to answer. *)
Lemma gather_update pend h iter k s t x x' n :
  gather pend h iter k s -> t <> h -> bthreads s !! t = Some x -> quiet pend t x' ->
  runs x' = runs x -> b_control x' = b_control x ->
  (forall r, b_loc x <> RelWrite r) -> (forall r, b_loc x' <> RelWrite r) ->
  n + (if owes pend t x then 0 else 1) = sentinels s + (if owes pend t x' then 0 else 1) ->
  gather pend h iter k (set_sentinels n (set_thread t x' s)).
Proof.
  intros [H1 H2 H3 H4 H5 (z & Hz & Hc & Hr & Hp & Hct) Hq Hn] Hth Hx Q' Hrun Hctl Hw Hw' Hsn.
  assert (Hlt : t < length (bthreads s)) by (by eapply lookup_lt_Some).
  split; bsimp; try done.
  - apply releasing_insert; try done. intros y r Hy. simplify_eq. by intros ?%Hw.
  - exists z. rewrite list_lookup_insert_ne by done. auto.
  - intros i y Hi Hy. destruct (decide (i = t)) as [->|Hit].
    + rewrite list_lookup_insert_eq in Hy by done. simplify_eq. split; [done|]. rewrite Hctl. by apply (Hq t x).
    + rewrite list_lookup_insert_ne in Hy by done. auto.
  - assert (total (to_signal h iter) (<[t:=x']> (bthreads s)) = total (to_signal h iter) (bthreads s)) as ->.
    { apply total_ext; [apply length_insert|]. intros j u v Hu Hv.
      destruct (decide (j = t)) as [->|]; [|rewrite list_lookup_insert_ne in Hu by done; by simplify_eq].
      rewrite list_lookup_insert_eq in Hu by done. simplify_eq. unfold to_signal. by rewrite Hrun. }
    pose proof (total_at (owing pend h) (owing pend h) (bthreads s) (<[t:=x']> (bthreads s)) t x x') as Ht.
    assert (forall z, owing pend h t z = if owes pend t z then 1 else 0) as Hw2.
    { intros z'. unfold owing. by rewrite (bool_decide_true (t <> h)). }
    rewrite !Hw2 in Ht.
    specialize (Ht ltac:(by rewrite length_insert) Hx ltac:(by apply list_lookup_insert_eq)).
    specialize (Ht ltac:(intros j u v Hj Hu Hv; rewrite list_lookup_insert_ne in Hv by done; by simplify_eq)).
    destruct (owes pend t x), (owes pend t x'); lia.
Qed.

(** The collecting thread moves: only its own record changes, and possibly
    that of a thread it signals. *)
Lemma gather_head pend h iter k iter' k' s x x' l' n :
  gather pend h iter k s -> bthreads s !! h = Some x -> NoDup iter' -> collects iter' k' (b_loc x') ->
  runs x' = true -> b_pipe x' = 0 -> b_control x' = 1%Z ->
  length l' = length (bthreads s) -> l' !! h = Some x' ->
  (forall i y', i <> h -> l' !! i = Some y' -> exists y, bthreads s !! i = Some y /\
     b_loc y' = b_loc y /\ runs y' = runs y /\ b_pipe y' = b_pipe y /\ has_event y' = has_event y /\
     (b_control y' = b_control y /\ (i ∉ iter' -> i ∉ iter) \/ b_control y' = 0%Z)) ->
  k' + total (to_signal h iter') l' + sentinels s = k + total (to_signal h iter) (bthreads s) + n ->
  gather pend h iter' k' (Barrier (sync_var s) n (stepping s) l').
Proof.
  intros [H1 H2 H3 H4 H5 (x0 & Hx0 & Hc0 & _) Hq Hn] Hx Hnd Hc Hr Hp Hct Hlen Hx' Ho Hsum.
  assert (Hpk : forall i y y', b_loc y' = b_loc y -> b_pipe y' = b_pipe y -> runs y' = runs y ->
    parked y' = parked y /\ waiting y' = waiting y /\ owes pend i y' = owes pend i y).
  { intros i y y' E1 E2 E3. assert (parked y' = parked y) as E by (unfold parked, waiting; by rewrite E1, E2).
    split; [done|]. split; [unfold waiting; by rewrite E1|]. unfold owes. by rewrite E, E3. }
  assert (Hh : forall r, b_loc x' <> RelWrite r) by (intros r; destruct Hc as [-> | [_ ->]]; done).
  split; bsimp; try done.
  - split.
    + intros i j u v r r' Hi Hj Eu Ev.
      destruct (decide (i = h)) as [->|Hih]; [simplify_eq; by destruct (Hh r)|].
      destruct (decide (j = h)) as [->|Hjh]; [simplify_eq; by destruct (Hh r')|].
      destruct (Ho i u Hih Hi) as (y & Hy & Ey & _), (Ho j v Hjh Hj) as (z & Hz & Ez & _).
      apply (r_one _ _ H3 i j y z r r'); congruence.
    + intros Hpd. destruct (r_some _ _ H3 Hpd) as (i & y & r & Hi & Ey).
      destruct (lookup_length_eq l' (bthreads s) i y ltac:(done) Hi) as [y' Hy'].
      exists i, y', r. split; [done|]. destruct (decide (i = h)) as [->|Hih].
      { exfalso. simplify_eq. destruct Hc0 as [E | [_ E]]; congruence. }
      destruct (Ho i y' Hih Hy') as (y2 & Hy2 & Ey2 & _). simplify_eq. congruence.
  - eauto 7.
  - intros i y' Hi Hy'. destruct (Ho i y' Hi Hy') as (y & Hy & E1 & E2 & E3 & E4 & E5).
    destruct (Hq i y Hi Hy) as [Q Qc]. destruct (Hpk i y y' E1 E3 E2) as (P1 & P2 & P3).
    rename E4 into E6.
    assert (b_control y = 0%Z -> b_control y' = 0%Z) as E7 by (destruct E5 as [[-> _] | ->]; done).
    split; [|destruct E5 as [[-> Hin] | ->]; auto].
    destruct Q as [Q1 Q2 Q3 Q4 Q5 Q6 Q7 Q8]. split.
    + unfold outside in *. by rewrite E1.
    + by rewrite P2, E3.
    + rewrite E2, P1, E6. naive_solver.
    + rewrite P1, E6. naive_solver.
    + rewrite E3, E6. naive_solver.
    + rewrite E1, E6. naive_solver.
    + rewrite E1, E6. auto.
    + rewrite E1. auto.
  - assert (total (owing pend h) l' = total (owing pend h) (bthreads s)) as ->; [|lia].
    apply total_ext; [done|]. intros j u v Hu Hv. unfold owing. case_bool_decide as Hj; [|done].
    destruct (Ho j u Hj Hu) as (y & Hy & E1 & E2 & E3 & _). simplify_eq.
    destruct (Hpk j v u E1 E3 E2) as (_ & _ & ->). done.
Qed.

Lemma to_signal_nil h l : total (to_signal h []) l = 0.
Proof. apply total_none. intros j x _. unfold to_signal. by rewrite (bool_decide_false (j ∈ [])), andb_false_r by set_solver. Qed.

Lemma to_signal_ext h it it' j x y :
  (j <> h -> j ∈ it <-> j ∈ it') -> runs x = runs y -> to_signal h it j x = to_signal h it' j y.
Proof.
  intros Hj Hr. unfold to_signal. rewrite Hr. case_bool_decide; [|done].
  by rewrite (bool_decide_ext (j ∈ it) (j ∈ it')) by auto.
Qed.

(** The record of the collecting thread alone has changed. *)
Lemma head_only h (x' : bthread) l i y' :
  h < length l -> i <> h -> <[h := x']> l !! i = Some y' -> l !! i = Some y'.
Proof. intros Hl Hi. by rewrite list_lookup_insert_ne. Qed.

Lemma kill_gather pend h iter k s s' x :
  gather pend h iter k s -> bthreads s !! h = Some x -> b_loc x = BlockKill iter k ->
  block_kill h iter k x s = Some s' -> exists iter' k', gather pend h iter' k' s'.
Proof.
  intros HG Hx Hl Hst. pose proof HG as [_ _ _ Hnd _ (x0 & Hx0 & _ & Hr & Hp & Hct) _ _]. simplify_eq.
  assert (Hlt : h < length (bthreads s)) by (by eapply lookup_lt_Some).
  destruct iter as [|i rest]; cbn in Hst.
  { injection Hst as <-. exists [], k.
    apply (gather_head pend h [] k [] k s x (at_loc (BlockCollect k) x) _ (sentinels s)); try done.
    - by right.
    - apply length_insert.
    - by apply list_lookup_insert_eq.
    - intros i y Hi Hy%head_only; eauto 10.
    - by rewrite !to_signal_nil. }
  apply NoDup_cons in Hnd as [Hir Hnd]. case_decide as Hih.
  { injection Hst as <-. exists rest, k. subst i.
    apply (gather_head pend h (h :: rest) k rest k s x (at_loc (BlockKill rest k) x) _ (sentinels s)); try done.
    - by left.
    - apply length_insert.
    - by apply list_lookup_insert_eq.
    - intros i y Hi Hy%head_only; [|done..]. exists y. repeat split; try done. left. set_solver.
    - do 2 f_equal. apply total_ext; [apply length_insert|]. intros j u v Hu Hv.
      destruct (decide (j = h)) as [->|Hj]; [unfold to_signal; by rewrite bool_decide_false by auto|].
      apply head_only in Hu; [|done..]. simplify_eq. apply to_signal_ext; [set_solver|done]. }
  destruct (bthreads s !! i) as [y|] eqn:Hy; [|done]. cbn in Hst.
  assert (Hli : i < length (bthreads s)) by (by eapply lookup_lt_Some).
  (* the signalled thread, with and without a signal *)
  assert (Hstep : forall b n, (n = if runs y then S k else k) ->
    let x' := at_loc (BlockKill rest n) x in let y' := with_kill b (with_control 0 y) in
    gather pend h rest n (set_thread i y' (set_thread h x' s))).
  { intros b n Hn x' y'. apply (gather_head pend h (i :: rest) k rest n s x x' _ (sentinels s)); try done; bsimp.
    - by left.
    - by rewrite !length_insert.
    - rewrite list_lookup_insert_ne by done. by apply list_lookup_insert_eq.
    - intros j z Hj Hz. destruct (decide (j = i)) as [->|Hji].
      + rewrite list_lookup_insert_eq in Hz by (by rewrite length_insert). simplify_eq.
        exists y. repeat split; try done. by right.
      + rewrite !list_lookup_insert_ne in Hz by done. exists z. repeat split; try done. left. set_solver.
    - pose proof (total_at (to_signal h (i :: rest)) (to_signal h rest) (bthreads s)
        (<[i:=y']> (<[h:=x']> (bthreads s))) i y y') as Ht.
      specialize (Ht ltac:(by rewrite !length_insert) Hy
        ltac:(by rewrite list_lookup_insert_eq by (by rewrite length_insert))).
      specialize (Ht ltac:(intros j u v Hj Hu Hv;
        rewrite list_lookup_insert_ne in Hv by done;
        destruct (decide (j = h)) as [->|Hjh];
        [unfold to_signal; by rewrite bool_decide_false by auto
        |rewrite list_lookup_insert_ne in Hv by done; simplify_eq; apply to_signal_ext; [set_solver|done]])).
      assert (to_signal h rest i y' = 0) as E1.
      { unfold to_signal. by rewrite (bool_decide_false (i ∈ rest)), andb_false_r by done. }
      assert (to_signal h (i :: rest) i y = if runs y then 1 else 0) as E2.
      { unfold to_signal. by rewrite !bool_decide_true by set_solver. }
      rewrite E1, E2 in Ht. destruct (runs y); lia. }
  assert (Hrun : runs y = true <-> b_ts y <> UDI_TS_SUSPENDED).
  { pose proof (runs_false y). destruct (runs y); naive_solver. }
  cbn in Hst. case_decide as Hts; injection Hst as <-; exists rest.
  - exists k. replace (with_control 0 y) with (with_kill (b_kill y) (with_control 0 y)) by done.
    apply Hstep. destruct (runs y); naive_solver.
  - exists (S k). apply Hstep. destruct (runs y); naive_solver.
Qed.

(** All answers are in: every other thread is parked. *)
Lemma gather_complete pend h k s x :
  gather pend h [] k s -> k = 0 -> bthreads s !! h = Some x ->
  stopped h (set_thread h (at_loc Control x) s).
Proof.
  intros HG -> Hx. pose proof HG as [H1 H2 H3 _ _ (x0 & Hx0 & Hc & Hr & Hp & Hct) Hq Hn]. simplify_eq.
  assert (Hlt : h < length (bthreads s)) by (by eapply lookup_lt_Some).
  rewrite to_signal_nil in Hn.
  assert (Hsn : sentinels s = 0) by lia. assert (Hz : total (owing pend h) (bthreads s) = 0) by lia.
  assert (Hpk : forall j y, j <> h -> bthreads s !! j = Some y -> parked y = true).
  { intros j y Hj Hy. pose proof (total_zero _ _ j y Hz Hy) as Ho. unfold owing in Ho.
    rewrite bool_decide_true in Ho by done. unfold owes in Ho. by destruct (parked y). }
  split; bsimp; try done.
  - exists (at_loc Control x). rewrite list_lookup_insert_eq by done. split; [done|]. split; [done|].
    split; [done|]. intros j y Hj Hy%head_only; [|done..]. apply (Hq j y Hj Hy). set_solver.
  - intros j y Hj Hy%head_only; [|done..]. destruct (Hq j y Hj Hy) as [Q _].
    split; [eauto|]. split; [intros E; apply (q_susp _ _ _ Q E)|apply (q_hand _ _ _ Q)].
Qed.

Lemma collect_gather pend h k s s' x :
  gather pend h [] k s -> bthreads s !! h = Some x -> block_collect h k x s = Some s' -> inv s'.
Proof.
  intros HG Hx Hst. destruct k as [|k]; cbn in Hst.
  { injection Hst as <-. eapply inv_stopped, gather_complete; eauto. }
  destruct (sentinels s) as [|n] eqn:Hsn; [done|]. injection Hst as <-.
  pose proof HG as [_ _ _ _ _ (x0 & Hx0 & _ & Hr & Hp & Hct) _ _]. simplify_eq.
  assert (Hlt : h < length (bthreads s)) by (by eapply lookup_lt_Some).
  apply (inv_gather _ pend h [] k).
  apply (gather_head pend h [] (S k) [] k s x (at_loc (BlockCollect k) x) _ n); try done.
  - constructor.
  - by right.
  - apply length_insert.
  - by apply list_lookup_insert_eq.
  - intros i y Hi Hy%head_only; eauto 10.
  - rewrite !to_signal_nil. lia.
Qed.

(** The two steps in which a thread meets the collecting one. *)
Lemma cas_gather pend h iter k s t x :
  2 <= length (bthreads s) -> gather pend h iter k s -> t <> h -> bthreads s !! t = Some x ->
  b_loc x = BlockCas -> gather pend h iter k (block_cas t x s).
Proof.
  intros Hlen HG Ht Hx E. destruct (g_quiet _ _ _ _ _ HG t x Ht Hx) as [Q _]. unfold block_cas.
  rewrite (proj2 (Nat.leb_gt _ _)) by lia. rewrite (g_sync _ _ _ _ _ HG). cbn [Z.eqb].
  assert (waiting x = false) as Hw by (unfold waiting; by rewrite E).
  pose proof (not_waiting_parked x Hw) as Hpk.
  apply (gather_update pend h iter k s t x (at_loc BlockSentinel x) (sentinels s)); try done;
    try (intros r; congruence).
  - eapply quiet_awake_move; eauto; try done.
    pose proof (q_pipe _ _ _ Q) as Hb. rewrite Hw in Hb. cbn. lia.
  - by rewrite !owes_awake.
Qed.

Lemma sentinel_gather pend h iter k s t x :
  gather pend h iter k s -> t <> h -> bthreads s !! t = Some x -> b_loc x = BlockSentinel ->
  gather pend h iter k (block_sentinel t x s).
Proof.
  intros HG Ht Hx E. destruct (g_quiet _ _ _ _ _ HG t x Ht Hx) as [Q _]. unfold block_sentinel.
  assert (waiting x = false) as Hw by (unfold waiting; by rewrite E).
  pose proof (not_waiting_parked x Hw) as Hpk. destruct (quiet_awake _ _ _ Q Hpk) as [Htp Hrun].
  pose proof (q_pipe _ _ _ Q) as Hb. rewrite Hw in Hb. assert (b_pipe x = 0) as Hb0 by lia.
  assert (parked (at_loc BlockPend x) = true) as Hpk' by (unfold parked; cbn; by rewrite Hb0).
  apply (gather_update pend h iter k s t x (at_loc BlockPend x) (S (sentinels s))); try done;
    try (intros r; congruence).
  - split; try done; cbn; try lia. intros E'. change (runs x = false) in E'. congruence.
  - rewrite owes_awake by done. unfold owes. rewrite Hpk', bool_decide_false by done. cbn. lia.
Qed.

Lemma gather_step pend h iter k l s s' :
  2 <= length (bthreads s) -> gather pend h iter k s -> step l s = Some s' -> inv s'.
Proof.
  intros Hlen HG Hst. pose proof HG as [H1 H2 H3 _ Hhp (x0 & Hx0 & Hc & Hr & Hp & Hct) Hq Hn].
  assert (Hnc : forall t x, bthreads s !! t = Some x -> b_loc x <> Control).
  { intros t x Hx E. destruct (decide (t = h)) as [->|Ht].
    - simplify_eq. destruct Hc as [E' | [_ E']]; congruence.
    - destruct (Hq t x Ht Hx) as (Q & _). pose proof (q_loc _ _ _ Q) as Ho. unfold outside in Ho. by rewrite E in Ho. }
  assert (Hsig : forall t, (exists g, l = Signal t g) \/ l = Suspend t \/ l = Die t -> inv s').
  { intros t Hl. assert (is_Some (bthreads s !! t)) as [x Hx].
    { destruct Hl as [[g ->] | [-> | ->]]; cbn in Hst; destruct (bthreads s !! t); done. }
    destruct (decide (t = h)) as [->|Ht].
    { exfalso. simplify_eq. destruct Hl as [[g ->] | [-> | ->]]; cbn in Hst; rewrite Hx0 in Hst; cbn in Hst;
        destruct Hc as [E | [_ E]]; by rewrite E in Hst. }
    destruct (Hq t x Ht Hx) as (Q & _).
    destruct (signal_evolves pend l s s' t x) as (A & B & C); eauto.
    apply (inv_gather _ pend h iter k). by eapply gather_evolves. }
  destruct l as [t g|t|t|t u st|t cont|t cont|t]; eauto; cbn in Hst;
    destruct (bthreads s !! t) as [x|] eqn:Hx; try done; cbn in Hst.
  - destruct (decide (t = h)) as [->|Ht].
    { simplify_eq. unfold thread_step in Hst. destruct Hc as [E | [-> E]]; rewrite E in Hst.
      - destruct (kill_gather _ _ _ _ _ _ _ HG Hx E Hst) as (it & n & HG'). by eapply inv_gather.
      - by eapply collect_gather. }
    destruct (Hq t x Ht Hx) as (Q & _).
    destruct (decide (b_loc x = BlockCas)) as [E|Hn1]; [|destruct (decide (b_loc x = BlockSentinel)) as [E|Hn2]].
    + unfold thread_step in Hst. rewrite E in Hst. injection Hst as <-. by eapply inv_gather, cas_gather.
    + unfold thread_step in Hst. rewrite E in Hst. injection Hst as <-. by eapply inv_gather, sentinel_gather.
    + destruct (run_evolves pend t x s s') as (pend' & A & B & C); eauto.
      { intros j y Hj Hy. destruct (decide (j = h)) as [->|Hjh]; [done|]. by destruct (Hq j y Hjh Hy). }
      apply (inv_gather _ pend' h iter k). by eapply gather_evolves.
  - destruct (bthreads s !! u); [|done]. cbn in Hst. rewrite decide_False in Hst by eauto. done.
  - rewrite decide_False in Hst by naive_solver. done.
  - rewrite decide_False in Hst by naive_solver. done.
Qed.

(** The thread in charge moves. *)
Lemma stopped_move h s x x' b :
  stopped h s -> bthreads s !! h = Some x -> runs x' = true -> (forall j, is_next x' j = is_next x j) ->
  leads h x' (set_stepping b (set_thread h x' s)) -> stopped h (set_stepping b (set_thread h x' s)).
Proof.
  intros [H1 H2 (x0 & Hx0 & _ & _ & Hc) Hp] Hx Hr Hn Hl. assert (x0 = x) as -> by congruence.
  assert (Hlt : h < length (bthreads s)) by (by eapply lookup_lt_Some).
  split; bsimp; try done.
  - exists x'. rewrite list_lookup_insert_eq by done. repeat split; try done.
    intros j y Hj Hy%head_only; [|done..]. rewrite Hn. by apply Hc.
  - intros j y Hj Hy%head_only; [|done..]. exact (Hp j y Hj Hy).
Qed.

(** Another thread changes, without leaving its place. *)
Lemma stopped_other h s t x y y' :
  stopped h s -> bthreads s !! h = Some x -> t <> h -> bthreads s !! t = Some y ->
  parked y' = true -> b_control y' = b_control y -> has_event y' = has_event y ->
  (runs y' = false -> has_event y = false) -> (b_loc y' = RelHandWait -> b_loc y = RelHandWait) ->
  stopped h (set_thread t y' s).
Proof.
  intros [H1 H2 (x0 & Hx0 & Hr & Hl & Hc) Hp] Hx Ht Hy Hpk Hct Hsg Hru Hhw. assert (x0 = x) as -> by congruence.
  assert (Hlt : t < length (bthreads s)) by (by eapply lookup_lt_Some).
  rename Hsg into He.
  assert (Hev : forall j z', j <> h -> <[t := y']> (bthreads s) !! j = Some z' ->
    exists z, bthreads s !! j = Some z /\ has_event z' = has_event z /\ b_control z' = b_control z).
  { intros j z' Hj Hz. destruct (decide (j = t)) as [->|Hjt].
    - rewrite list_lookup_insert_eq in Hz by done. simplify_eq. eauto.
    - rewrite list_lookup_insert_ne in Hz by done. eauto. }
  assert (Hnx : forall n, (exists z, bthreads s !! n = Some z /\ has_event z = true) -> n <> h ->
    exists z, <[t := y']> (bthreads s) !! n = Some z /\ has_event z = true).
  { intros n (z & Hz & Ez) _. destruct (decide (n = t)) as [->|Hnt].
    - exists y'. rewrite list_lookup_insert_eq by done. split; [done|]. simplify_eq. congruence.
    - exists z. by rewrite list_lookup_insert_ne by done. }
  split; bsimp; try done.
  - exists x. rewrite list_lookup_insert_ne by done. split; [done|]. split; [done|]. split.
    + unfold leads in *. destruct (b_loc x); bsimp; try done;
        destruct Hl as (A & B & C & D & E); repeat (split; [done|]).
      * intros j z' Hj Hji Hz. destruct (Hev j z' Hj Hz) as (z & Hz' & -> & _). eauto.
      * destruct E as [E F]. auto.
      * destruct E as [E F]. auto.
      * destruct E as [E F]. auto.
      * intros j z' Hj Hz. destruct (Hev j z' Hj Hz) as (z & Hz' & -> & _). eauto.
    + intros j z' Hj Hz. destruct (Hev j z' Hj Hz) as (z & Hz' & _ & ->). eauto.
  - intros j z Hj Hz. destruct (decide (j = t)) as [->|Hjt].
    + rewrite list_lookup_insert_eq in Hz by done. simplify_eq. split; [done|].
      rewrite He. split; [done|]. intros E. by apply (Hp t y Ht Hy), Hhw.
    + rewrite list_lookup_insert_ne in Hz by done. eauto.
Qed.

Lemma parked_waiting x : parked x = true -> waiting x = true /\ b_pipe x = 0.
Proof. unfold parked. intros [? ?%Nat.eqb_eq]%andb_prop. done. Qed.

(** Control passes to a thread with an event. *)
Lemma wake_stopped h next s s' x :
  stopped h s -> bthreads s !! h = Some x -> b_loc x = RelWake next ->
  rel_wake h next x s = Some s' -> stopped next s'.
Proof.
  intros HS Hx Hl Hst. pose proof HS as [H1 H2 (x0 & Hx0 & Hr & Hld & Hc) Hp]. assert (x0 = x) as -> by congruence.
  unfold leads in Hld. rewrite Hl in Hld. destruct Hld as (Hpi & Hct & Hsp & Hsg & Hnh & y & Hy & He).
  unfold rel_wake in Hst. rewrite Hy in Hst. cbn in Hst. injection Hst as <-.
  assert (Hlt : h < length (bthreads s)) by (by eapply lookup_lt_Some).
  assert (Hln : next < length (bthreads s)) by (by eapply lookup_lt_Some).
  destruct (Hp next y Hnh Hy) as (Hpk & Hsus & Hhw). destruct (parked_waiting y Hpk) as [Hw Hp0].
  pose proof (Hc next y Hnh Hy) as Hcn. unfold is_next in Hcn. rewrite Hl, bool_decide_true in Hcn by done.
  split; bsimp; try done.
  - eexists. rewrite list_lookup_insert_eq by (by rewrite length_insert). split; [done|]. split; [|split].
    + change (runs y = true). destruct (runs y); [done|]. by rewrite Hsus in He.
    + unfold leads, waiting in *. bsimp. cbn. rewrite Hp0.
      destruct (b_loc y) eqn:E; try done. by rewrite Hhw in He.
    + intros j z Hj Hz. rewrite list_lookup_insert_ne in Hz by done.
      assert (is_next (with_pipe (S (b_pipe y)) y) j = false) as ->.
      { unfold is_next, waiting in *. cbn. by destruct (b_loc y). }
      destruct (decide (j = h)) as [->|Hjh].
      * rewrite list_lookup_insert_eq in Hz by done. by simplify_eq.
      * rewrite list_lookup_insert_ne in Hz by done. rewrite (Hc j z Hjh Hz). unfold is_next.
        by rewrite Hl, bool_decide_false by done.
  - intros j z Hj Hz. rewrite list_lookup_insert_ne in Hz by done. destruct (decide (j = h)) as [->|Hjh].
    + rewrite list_lookup_insert_eq in Hz by done. simplify_eq.
      change (has_event (at_loc RelHandWait x)) with (has_event x). rewrite Hsg.
      split; [|done]. unfold parked. cbn. by rewrite Hpi.
    + rewrite list_lookup_insert_ne in Hz by done. eauto.
Qed.

(** The barrier is opened. *)
Lemma clear_stopped h s x :
  stopped h s -> bthreads s !! h = Some x -> b_loc x = RelClear -> exists pend, idle pend (rel_clear h x s).
Proof.
  intros HS Hx Hl. pose proof HS as [H1 H2 (x0 & Hx0 & Hr & Hld & Hc) Hp]. assert (x0 = x) as -> by congruence.
  unfold leads in Hld. rewrite Hl in Hld. destruct Hld as (Hpi & Hct & Hsp & Hsg & Hne).
  assert (Hlt : h < length (bthreads s)) by (by eapply lookup_lt_Some).
  set (pend := filter (fun j => j <> h) (all_threads s)). exists pend.
  assert (Hnw : forall j y r, j <> h -> bthreads s !! j = Some y -> b_loc y <> RelWrite r).
  { intros j y r Hj Hy E. destruct (Hp j y Hj Hy) as [Hpk _]. destruct (parked_waiting y Hpk) as [Hw _].
    unfold waiting in Hw. by rewrite E in Hw. }
  unfold rel_clear. split; bsimp; try done.
  - by rewrite H1.
  - split.
    + intros i j u v r r' Hi Hj Eu Ev. transitivity h; [|symmetry].
      * destruct (decide (i = h)); [done|]. apply head_only in Hi; [|done..]. by destruct (Hnw i u r).
      * destruct (decide (j = h)); [done|]. apply head_only in Hj; [|done..]. by destruct (Hnw j v r').
    + intros _. eexists h, _, _. by rewrite list_lookup_insert_eq.
  - intros i y Hy. destruct (decide (i = h)) as [->|Hih].
    + rewrite list_lookup_insert_eq in Hy by done. simplify_eq. split; [|split; [done|]].
      * assert (h ∉ pend) by (unfold pend; rewrite list_elem_of_filter; tauto).
        split; try done; cbn; try lia.
        -- intros E. change (runs x = false) in E. congruence.
        -- intros r [= <-]. split; [done|]. apply NoDup_seq.
      * rewrite owes_awake by done. by symmetry.
    + apply head_only in Hy; [|done..]. destruct (Hp i y Hih Hy) as (Hpk & Hsus & Hhw).
      destruct (parked_waiting y Hpk) as [Hw Hp0]. specialize (Hc i y Hih Hy).
      unfold is_next in Hc. rewrite Hl in Hc. pose proof (Hne i y Hih Hy) as He.
      assert (Hip : i ∈ pend).
      { unfold pend. apply list_elem_of_filter. split; [done|]. apply elem_of_seq.
        apply lookup_lt_Some in Hy. lia. }
      split; [|split].
      * split; try done.
        -- unfold waiting, outside in *. by destruct (b_loc y).
        -- rewrite Hw. lia.
        -- intros r E. by destruct (Hnw i y r).
      * intros E. unfold waiting in Hw. by rewrite E in Hw.
      * unfold owes. rewrite Hpk, bool_decide_true by done. done.
Qed.

Lemma is_next_none x j : (forall n, b_loc x <> RelWake n) -> is_next x j = false.
Proof. unfold is_next. intros H. destruct (b_loc x); try done. by destruct (H next). Qed.

(** The thread in charge moves, and is not about to wake another. *)
Lemma stopped_goes h s x x' :
  stopped h s -> bthreads s !! h = Some x -> runs x' = true ->
  (forall n, b_loc x <> RelWake n) -> (forall n, b_loc x' <> RelWake n) ->
  leads h x' (set_thread h x' s) -> stopped h (set_thread h x' s).
Proof.
  intros HS Hx Hr Hn Hn' Hl. change (stopped h (set_stepping (stepping s) (set_thread h x' s))).
  eapply stopped_move; eauto. intros j. by rewrite !is_next_none.
Qed.

Lemma scan_stopped h iter s s' x :
  stopped h s -> bthreads s !! h = Some x -> b_loc x = RelScan iter ->
  rel_scan h iter x s = Some s' -> stopped h s'.
Proof.
  intros HS Hx E Hst. pose proof HS as [H1 H2 (x0 & Hx0 & Hr & Hld & Hc) Hp].
  assert (x0 = x) as -> by congruence. unfold leads in Hld. rewrite E in Hld.
  destruct Hld as (Hpi & Hct & Hsp & Hsg & Hev).
  assert (Hlt : h < length (bthreads s)) by (by eapply lookup_lt_Some).
  assert (Hgo : forall l, (forall n, l <> RelWake n) -> leads h (at_loc l x) (set_thread h (at_loc l x) s) ->
    stopped h (set_thread h (at_loc l x) s)).
  { intros l A B. eapply stopped_goes; eauto. by rewrite E. }
  (* what is left to scan has shrunk to [it] *)
  assert (Hscan : forall it, (forall j y, j <> h -> j ∉ it -> bthreads s !! j = Some y -> has_event y = false) ->
    leads h (at_loc (RelScan it) x) (set_thread h (at_loc (RelScan it) x) s)).
  { intros it Hit. unfold leads. bsimp. cbn. repeat split; try done.
    intros j y Hj Hji Hy%head_only; [eauto|done..]. }
  destruct iter as [|i rest]; cbn in Hst.
  { injection Hst as <-. apply Hgo; [done|]. unfold leads. bsimp. cbn. repeat split; try done.
    intros j y Hj Hy%head_only; [|done..]. apply (Hev j y); [done|set_solver|done]. }
  case_decide as Hih.
  { injection Hst as <-. apply Hgo; [done|]. apply Hscan. intros j y Hj Hji Hy.
    apply (Hev j y); [done|set_solver|done]. }
  destruct (bthreads s !! i) as [y|] eqn:Hy; [|done]. cbn in Hst. injection Hst as <-.
  destruct (has_event y) eqn:He; (apply Hgo; [done|]).
  - unfold leads. bsimp. cbn. repeat split; try done. exists y. by rewrite list_lookup_insert_ne by done.
  - apply Hscan. intros j z Hj Hji Hz. destruct (decide (j = i)) as [->|]; [by simplify_eq|].
    apply (Hev j z); [done|set_solver|done].
Qed.

Lemma hand_stopped h next s s' x :
  stopped h s -> bthreads s !! h = Some x -> b_loc x = RelHand next ->
  rel_hand h next x s = Some s' -> stopped h s'.
Proof.
  intros HS Hx E Hst. pose proof HS as [H1 H2 (x0 & Hx0 & Hr & Hld & Hc) Hp].
  assert (x0 = x) as -> by congruence. unfold leads in Hld. rewrite E in Hld.
  destruct Hld as (Hpi & Hct & Hsp & Hsg & Hnh & y & Hy & He).
  unfold rel_hand in Hst. rewrite Hy in Hst. cbn in Hst. injection Hst as <-.
  pose proof (Hc next y Hnh Hy) as Hcy. unfold is_next in Hcy. rewrite E in Hcy. rewrite Hcy.
  assert (Hlt : h < length (bthreads s)) by (by eapply lookup_lt_Some).
  assert (Hln : next < length (bthreads s)) by (by eapply lookup_lt_Some).
  split; bsimp; try done.
  - exists (at_loc (RelWake next) x). rewrite list_lookup_insert_ne, list_lookup_insert_eq by done.
    split; [done|]. split; [done|]. split.
    + unfold leads. bsimp. cbn. repeat split; try done. eexists.
      rewrite list_lookup_insert_eq by (by rewrite length_insert). done.
    + intros j z Hj Hz. unfold is_next. cbn [b_loc at_loc]. destruct (decide (j = next)) as [->|Hjn].
      * rewrite list_lookup_insert_eq in Hz by (by rewrite length_insert). simplify_eq. by rewrite bool_decide_true.
      * rewrite !list_lookup_insert_ne in Hz by done. rewrite bool_decide_false by done.
        rewrite (Hc j z Hj Hz). unfold is_next. by rewrite E.
  - intros j z Hj Hz. destruct (decide (j = next)) as [->|Hjn].
    + rewrite list_lookup_insert_eq in Hz by (by rewrite length_insert). simplify_eq. exact (Hp next y Hj Hy).
    + rewrite !list_lookup_insert_ne in Hz by done. exact (Hp j z Hj Hz).
Qed.

(** The steps of the thread in charge. *)
Lemma charge_step h s s' x :
  stopped h s -> bthreads s !! h = Some x -> thread_step h x s = Some s' -> inv s'.
Proof.
  intros HS Hx Hst. pose proof HS as [H1 H2 (x0 & Hx0 & Hr & Hld & Hc) Hp].
  assert (x0 = x) as -> by congruence.
  assert (Hgo : forall y, runs y = true -> (forall n, b_loc x <> RelWake n) -> (forall n, b_loc y <> RelWake n) ->
    leads h y (set_thread h y s) -> inv (set_thread h y s)).
  { intros y A B C D. apply (inv_stopped _ h). by eapply stopped_goes. }
  unfold thread_step in Hst. unfold leads in Hld. destruct (b_loc x) eqn:E; try done.
  - injection Hst as <-. apply Hgo; try done; unfold leads; cbn; tauto.
  - destruct Hld as (Hpi & Hct & Hsp). unfold read_control in Hst. rewrite Hpi in Hst. injection Hst as <-.
    apply Hgo; try done; unfold leads; cbn; tauto.
  - destruct Hld as (Hpi & Hct & Hsp). injection Hst as <-. unfold block_result. rewrite Hct. cbn [Z.eqb].
    apply Hgo; try done; unfold leads; cbn; tauto.
  - by eapply inv_stopped, scan_stopped.
  - destruct Hld as (Hpi & Hct & Hsp & Hsg & Hnh & y & Hy & He). injection Hst as <-. unfold rel_yield.
    rewrite Hct. apply Hgo; try done. unfold leads. bsimp. cbn.
    repeat split; try done. exists y. by rewrite list_lookup_insert_ne by done.
  - by eapply inv_stopped, hand_stopped.
  - by eapply inv_stopped, wake_stopped.
  - injection Hst as <-. destruct (clear_stopped h s x HS Hx E) as [pend HI]. by eapply inv_idle.
Qed.

(** A signal reaches the thread that steps over a breakpoint. *)
Lemma enter_stopped h s x y g :
  stopped h s -> bthreads s !! h = Some x -> b_loc x = Stepping -> b_loc y = Stepping ->
  b_ts y = b_ts x -> b_pipe y = b_pipe x -> b_control y = b_control x -> stopped h (enter h g y s).
Proof.
  intros HS Hx E Ey Et Ep Ec. pose proof HS as [H1 H2 (x0 & Hx0 & Hr & Hld & Hc) Hp].
  assert (x0 = x) as -> by congruence. unfold leads in Hld. rewrite E in Hld. destruct Hld as (Hpi & Hct & Hsp).
  unfold enter. rewrite Hsp.
  assert (forall z, b_ts z = b_ts x -> runs z = true) as Hrz by (intros z Hz; unfold runs; by rewrite Hz).
  destruct (_ && _); (eapply stopped_goes; [done|done|by apply Hrz|congruence|..]);
    unfold leads; cbn; rewrite ?Ey, ?Ep, ?Ec, ?Hsp; done.
Qed.

(** ** A refused continue request *)

(** The locations of a thread that went back to application code without
    releasing the others. *)
Definition adrift (l : loc) : bool :=
  match l with User | BlockCas | BlockSentinel | BlockPend | BlockWait | Leave => true | _ => false end.

Record abandoned (h : nat) (s : barrier) : Prop := {
  a_sync : sync_var s = 1%Z;
  a_stepping : stepping s = false;
  a_head : exists x, bthreads s !! h = Some x /\ b_pipe x = 0 /\ adrift (b_loc x) = true;
  a_parked : forall j y, j <> h -> bthreads s !! j = Some y -> parked y = true
}.

Lemma abandoned_head h s x' n :
  abandoned h s -> b_pipe x' = 0 -> adrift (b_loc x') = true ->
  abandoned h (set_sentinels n (set_thread h x' s)).
Proof.
  intros [H1 H2 (x & Hx & _) Hp] Hpi Hl. assert (h < length (bthreads s)) by (by eapply lookup_lt_Some).
  split; bsimp; try done.
  - exists x'. by rewrite list_lookup_insert_eq.
  - intros j y Hj Hy%head_only; [|done..]. by eapply Hp.
Qed.

Lemma abandoned_other h s t y :
  abandoned h s -> t <> h -> parked y = true -> abandoned h (set_thread t y s).
Proof.
  intros [H1 H2 (x & Hx & Hh) Hp] Ht Hy. split; bsimp; try done.
  - exists x. by rewrite list_lookup_insert_ne.
  - intros j z Hj [(-> & -> & _)|[_ Hz]]%list_lookup_insert_Some; [done|]. by eapply Hp.
Qed.

(** The refusal ends the thread's time in charge. *)
Lemma failed_abandoned h s s' :
  stopped h s -> forall t, step (Failed t false) s = Some s' -> abandoned h s'.
Proof.
  intros [H1 _ (x & Hx & _ & Hl & _) Hp] t Hst. cbn in Hst.
  destruct (bthreads s !! t) as [y|] eqn:Hy; [|done]. cbn in Hst. case_decide as E; [|done].
  injection Hst as <-. destruct E as [E _]. assert (h < length (bthreads s)) by (by eapply lookup_lt_Some).
  assert (t = h) as ->.
  { destruct (decide (t = h)) as [|Ht]; [done|]. destruct (Hp t y Ht Hy) as [Hpk _].
    apply parked_waiting in Hpk as [Hw _]. unfold waiting in Hw. by rewrite E in Hw. }
  simplify_eq. unfold leads in Hl. rewrite E in Hl. unfold failed. split; bsimp; try done.
  - eexists. rewrite list_lookup_insert_eq by done. split; [done|]. cbn. tauto.
  - intros j z Hj Hz%head_only; [|done..]. by apply (Hp j z).
Qed.

(** Nothing can open the barrier any more. *)
Lemma abandoned_step h l s s' :
  2 <= length (bthreads s) -> abandoned h s -> step l s = Some s' -> abandoned h s'.
Proof.
  intros Hlen HA Hst. pose proof HA as [H1 H2 (x & Hx & Hpi & Hl) Hp].
  assert (Hat : forall t y, bthreads s !! t = Some y -> waiting y = false -> t = h /\ y = x).
  { intros t y Hy Hw. destruct (decide (t = h)) as [->|Ht]; [by simplify_eq|].
    specialize (Hp t y Ht Hy). apply parked_waiting in Hp as [Hw' _]. congruence. }
  assert (Hnc : forall t y, bthreads s !! t = Some y -> b_loc y <> Control).
  { intros t y Hy E. destruct (Hat t y Hy) as [-> ->]; [unfold waiting; by rewrite E|]. by rewrite E in Hl. }
  assert (Hhead : forall x' n, b_pipe x' = 0 -> adrift (b_loc x') = true ->
    abandoned h (set_sentinels n (set_thread h x' s))) by (intros; by apply abandoned_head).
  assert (Henter : forall g y, b_pipe y = 0 -> b_loc y = User -> abandoned h (enter h g y s)).
  { intros g y Hy E. unfold enter. rewrite H2.
    destruct (_ && _); apply (Hhead _ (sentinels s)); cbn; by rewrite ?E. }
  destruct l as [t g|t|t|t u st|t cont|t cont|t]; cbn in Hst;
    destruct (bthreads s !! t) as [y|] eqn:Hy; try done; cbn in Hst.
  1, 2, 7: destruct (b_loc y) eqn:E; try done;
    (destruct (Hat t y Hy) as [-> ->]; [unfold waiting; by rewrite E|]); try (by rewrite E in Hl).
  - injection Hst as <-. by apply Henter.
  - destruct (b_kill x); [|done]. injection Hst as <-. by apply Henter.
  - injection Hst as <-. by apply (Hhead _ (sentinels s)).
  - destruct (decide (t = h)) as [->|Ht].
    + assert (y = x) as -> by congruence. unfold thread_step, block_cas, read_control in Hst.
      rewrite (proj2 (Nat.leb_gt _ _)) in Hst by lia. rewrite H1, Hpi in Hst.
      destruct (b_loc x) eqn:E; try done; injection Hst as <-;
        first [by apply (Hhead _ (sentinels s)) | by apply (Hhead _ (S (sentinels s)))].
    + pose proof (Hp t y Ht Hy) as Hpk. destruct (parked_waiting y Hpk) as [Hwt Hp0].
      unfold thread_step, waiting, read_control in *. rewrite Hp0 in Hst.
      destruct (b_loc y) eqn:E; try done. injection Hst as <-. apply abandoned_other; try done.
      unfold parked. cbn. by rewrite Hp0.
  - destruct (bthreads s !! u); [|done]. cbn in Hst. rewrite decide_False in Hst by eauto. done.
  - rewrite decide_False in Hst by naive_solver. done.
  - rewrite decide_False in Hst by naive_solver. done.
Qed.

(** The debugger's continue requests are served. *)
Definition served (l : label) : Prop :=
  match l with Failed _ false => False | _ => True end.

Lemma stopped_step h l s s' :
  stopped h s -> permitted s l -> served l -> step l s = Some s' -> inv s'.
Proof.
  intros HS HP Hok Hst. pose proof HS as [H1 H2 (x & Hx & Hr & Hld & Hc) Hp].
  assert (Hlt : h < length (bthreads s)) by (by eapply lookup_lt_Some).
  assert (Hw : forall t y, t <> h -> bthreads s !! t = Some y -> waiting y = true).
  { intros t y Ht Hy. by apply parked_waiting, (Hp t y). }
  assert (Hnw : forall t y l, bthreads s !! t = Some y -> b_loc y = l ->
    match l with BlockPend | BlockWait | RelHandWait => False | _ => True end -> t = h).
  { intros t y l' Hy E Hl. destruct (decide (t = h)) as [|Ht]; [done|]. pose proof (Hw t y Ht Hy) as Hwt.
    unfold waiting in Hwt. rewrite E in Hwt. by destruct l'. }
  destruct l as [t g|t|t|t u st|t cont|t cont|t]; cbn in Hst;
    destruct (bthreads s !! t) as [y|] eqn:Hy; try done; cbn in Hst.
  - destruct (b_loc y) eqn:E; try done; assert (t = h) as -> by eauto;
      assert (y = x) as -> by congruence; unfold leads in Hld; rewrite E in Hld; try done.
    injection Hst as <-. eapply inv_stopped, enter_stopped; eauto; done.
  - destruct (b_loc y) eqn:E; try done; assert (t = h) as -> by eauto;
      assert (y = x) as -> by congruence; unfold leads in Hld; rewrite E in Hld; try done.
    destruct (b_kill x); [|done]. injection Hst as <-. eapply inv_stopped, enter_stopped; eauto; done.
  - destruct (decide (t = h)) as [->|Ht].
    { assert (y = x) as -> by congruence. by eapply charge_step. }
    destruct (Hp t y Ht Hy) as (Hpk & Hsus & Hhw). destruct (parked_waiting y Hpk) as [Hwt Hp0].
    unfold thread_step in Hst. unfold waiting in Hwt. destruct (b_loc y) eqn:E; try done;
      unfold read_control in Hst; rewrite ?Hp0 in Hst; try done.
    injection Hst as <-. apply (inv_stopped _ h). eapply (stopped_other h s t x y); eauto; try done.
    unfold parked, waiting. cbn. by rewrite Hp0.
  - destruct (bthreads s !! u) as [z|] eqn:Hz; [|done]. cbn in Hst. case_decide as E; [|done].
    injection Hst as <-. assert (t = h) as -> by (by eapply (Hnw t y Control)). assert (y = x) as -> by congruence.
    apply (inv_stopped _ h). destruct (decide (u = h)) as [->|Hu].
    + assert (z = x) as -> by congruence. destruct st; [|by destruct HP].
      change (stopped h (set_stepping (stepping s) (set_thread h (with_ts UDI_TS_RUNNING x) s))).
      eapply stopped_move; [done|done|done|done|]. unfold leads in *. cbn. rewrite E in *. done.
    + destruct (Hp u z Hu Hz) as (Hpk & Hsus & Hhw). eapply (stopped_other h s u x z); eauto; try done.
      intros Hru. destruct st; [done|]. by apply HP.
  - case_decide as E; [|done]. destruct E as [E Hstk]. injection Hst as <-.
    assert (t = h) as -> by (by eapply (Hnw t y Control)). assert (y = x) as -> by congruence. unfold leads in Hld. rewrite E in Hld.
    apply (inv_stopped _ h). unfold handled. eapply stopped_move; [done|done|done| |].
    + intros j. unfold is_next. rewrite E. by destruct cont.
    + unfold leads. destruct cont; cbn; [tauto|]. destruct Hld as [Hpi Hct]. repeat split; try done.
      intros j z Hj Hji Hz. exfalso. apply Hji, elem_of_seq.
      rewrite list_lookup_insert_ne in Hz by done. apply lookup_lt_Some in Hz. lia.
  - case_decide as E; [|done]. destruct E as [E _]. injection Hst as <-. destruct cont; [|done].
    assert (t = h) as -> by (by eapply (Hnw t y Control)). assert (y = x) as -> by congruence.
    unfold leads in Hld. rewrite E in Hld. apply (inv_stopped _ h). unfold failed.
    eapply stopped_move; [done|done|done| |]; [|unfold leads; cbn; tauto].
    intros j. unfold is_next. by rewrite E.
  - exfalso. destruct (b_loc y) eqn:E; try done. assert (t = h) as -> by eauto.
    assert (y = x) as -> by congruence. unfold leads in Hld. by rewrite E in Hld.
Qed.

(** ** Theorems *)

(** One step of the threads, with a permitted request. *)
Definition interleave (s s' : barrier) : Prop :=
  exists l, permitted s l /\ step l s = Some s'.

(** The thread is between the return of [block_other_threads] and the hand
    over, or runs application code for one instruction. *)
Definition in_charge (x : bthread) : bool :=
  match b_loc x with
  | Control | Stepping | RelScan _ | RelYield _ | RelHand _ | RelWake _ | RelClear => true
  | _ => false
  end.

Lemma set_threads_length t x s : length (bthreads (set_thread t x s)) = length (bthreads s).
Proof. apply length_insert. Qed.

Lemma step_length l s s' : step l s = Some s' -> length (bthreads s') = length (bthreads s).
Proof.
  destruct l as [t g|t|t|t u st|t cont|t cont|t]; cbn; destruct (bthreads s !! t) as [x|]; try done; cbn.
  - destruct (b_loc x); try done; intros [= <-]; unfold enter; repeat case_match; apply length_insert.
  - destruct (b_loc x); try done; (destruct (b_kill x); [|done]); intros [= <-]; unfold enter;
      repeat case_match; apply length_insert.
  - unfold thread_step, block_cas, block_kill, block_collect, read_control, rel_scan, rel_hand, rel_wake, rel_write.
    repeat (case_match; try done); cbn; intros; simplify_option_eq; bsimp; by rewrite ?length_insert.
  - destruct (bthreads s !! u); [|done]. cbn. case_decide; [|done]. intros [= <-]. apply length_insert.
  - case_decide; [|done]. intros [= <-]. apply length_insert.
  - case_decide; [|done]. intros [= <-]. apply length_insert.
  - destruct (b_loc x); try done. intros [= <-]. apply length_insert.
Qed.

Lemma started_inv n : inv (started n).
Proof.
  apply (inv_idle _ []). split; try done.
  - split; [|done]. intros i j x y r r' Hx _ E _. apply lookup_replicate in Hx as [-> _]. done.
  - intros i x [-> _]%lookup_replicate. split; [|done]. split; try done; cbn; try lia. set_solver.
Qed.

Lemma inv_step l s s' :
  2 <= length (bthreads s) -> inv s -> permitted s l -> served l -> step l s = Some s' -> inv s'.
Proof.
  intros Hn [pend HI|pend h iter k HG|h HS] HP Hok Hst.
  - by eapply idle_step.
  - by eapply gather_step.
  - by eapply stopped_step.
Qed.

(** A thread in [Control] is in charge. *)
Lemma control_stopped s t x :
  inv s -> bthreads s !! t = Some x -> b_loc x = Control -> exists h, stopped h s.
Proof.
  intros Hi Hx E. assert (outside x = false) as Ho by (unfold outside; by rewrite E).
  destruct Hi as [pend HI|pend h iter k HG|h HS]; [exfalso..|by exists h].
  - destruct (i_quiet _ _ HI t x Hx) as (Q & _). apply q_loc in Q. congruence.
  - destruct (decide (t = h)) as [->|Ht].
    + destruct (g_head _ _ _ _ _ HG) as (z & Hz & Hc & _). simplify_eq. destruct Hc as [E'|[_ E']]; congruence.
    + destruct (g_quiet _ _ _ _ _ HG t x Ht Hx) as (Q & _). apply q_loc in Q. congruence.
Qed.

Lemma refused_abandoned t s s' : inv s -> step (Failed t false) s = Some s' -> exists h, abandoned h s'.
Proof.
  intros Hi Hst. assert (exists h, stopped h s) as [h HS]; [|exists h; by eapply failed_abandoned].
  cbn in Hst. destruct (bthreads s !! t) as [x|] eqn:Hx; [|done]. cbn in Hst. case_decide as E; [|done].
  by eapply control_stopped, E.
Qed.

Lemma reachable_inv n s :
  2 <= n -> rtc interleave (started n) s -> (inv s \/ exists h, abandoned h s) /\ length (bthreads s) = n.
Proof.
  intros Hn. apply (rtc_ind_r (fun s => (inv s \/ exists h, abandoned h s) /\ length (bthreads s) = n)).
  { split; [left; apply started_inv|]. apply length_replicate. }
  intros s1 s2 _ (l & HP & Hst) [IH Hl].
  split; [|by rewrite (step_length _ _ _ Hst)].
  assert (2 <= length (bthreads s1)) as Hn1 by lia.
  destruct IH as [HI|[h HA]]; [|right; exists h; by eapply abandoned_step].
  destruct l as [| | | | |t []|]; try (left; by eapply inv_step).
  right. by eapply refused_abandoned.
Qed.

(** In the abandoned phase nobody is in charge, and nobody is let go. *)
Lemma abandoned_held h s :
  abandoned h s ->
  (forall i j x y, bthreads s !! i = Some x -> bthreads s !! j = Some y -> in_charge x = true ->
     i <> j -> parked y = true) /\
  (forall i x, bthreads s !! i = Some x -> b_loc x = BlockResult -> has_event x = true ->
     b_control x = 1%Z).
Proof.
  intros [_ _ (z & Hz & _ & Hl) Hp].
  assert (forall i x, bthreads s !! i = Some x -> in_charge x = false /\ b_loc x <> BlockResult) as H.
  { intros i x Hx. destruct (decide (i = h)) as [->|Hi].
    - assert (z = x) as -> by congruence. unfold in_charge, adrift in *. by destruct (b_loc x).
    - specialize (Hp i x Hi Hx). apply parked_waiting in Hp as [Hw _]. unfold waiting, in_charge in *.
      by destruct (b_loc x). }
  split; [intros i j x y Hx _ Hc | intros i x Hx E]; destruct (H i x Hx); congruence.
Qed.

(** C5: the barrier stops the world. However the threads, their signals and
    the debugger's requests interleave, while one thread handles an event,
    steps over a breakpoint or passes control on, every other thread is held
    in the signal handler; in particular no two threads are in charge. And a
    thread that came with an event of its own, or to report that it ends, is not
    let go before it was in charge: no event is lost. The debugger must not suspend the thread in
    charge or a thread with an event. *)
Theorem barrier_stops_the_world (n : nat) (s : barrier) :
  2 <= n -> rtc interleave (started n) s ->
  (forall i j x y, bthreads s !! i = Some x -> bthreads s !! j = Some y -> in_charge x = true ->
     i <> j -> parked y = true) /\
  (forall i x, bthreads s !! i = Some x -> b_loc x = BlockResult -> has_event x = true ->
     b_control x = 1%Z).
Proof.
  intros Hn Hr. destruct (reachable_inv n s Hn Hr) as [[HI|[h HA]] _]; [|by eapply abandoned_held].
  assert (Hq : forall pend i x, quiet pend i x -> in_charge x = false /\
    (b_loc x = BlockResult -> has_event x = true -> b_control x = 1%Z)).
  { intros pend i x Q. split.
    - pose proof (q_loc _ _ _ Q) as Ho. unfold outside, in_charge in *. by destruct (b_loc x).
    - intros E He. destruct (q_result _ _ _ Q E) as [He' _]. congruence. }
  destruct HI as [pend [_ _ _ _ HQ] | pend h iter k HG | h HS].
  - split.
    + intros i j x y Hx _ Hc. destruct (Hq pend i x) as [E _]; [by apply HQ|congruence].
    + intros i x Hx. apply (Hq pend i). by apply HQ.
  - destruct HG as [_ _ _ _ _ (z & Hz & Hcol & _) HQ _].
    assert (in_charge z = false /\ b_loc z <> BlockResult) as [Hz1 Hz2].
    { unfold in_charge. destruct Hcol as [-> | [_ ->]]; done. }
    split.
    + intros i j x y Hx _ Hc. destruct (decide (i = h)) as [->|Hi]; [congruence|].
      destruct (Hq pend i x) as [E _]; [by apply HQ|congruence].
    + intros i x Hx. destruct (decide (i = h)) as [->|Hi]; [congruence|].
      apply (Hq pend i). by apply HQ.
  - destruct HS as [_ _ (z & Hz & _ & Hld & _) Hp].
    assert (Hw : forall i x, i <> h -> bthreads s !! i = Some x -> waiting x = true).
    { intros i x Hi Hx. by apply parked_waiting, (Hp i x). }
    split.
    + intros i j x y Hx Hy Hc Hij. destruct (decide (i = h)) as [->|Hi]; [by apply (Hp j y)|].
      pose proof (Hw i x Hi Hx) as Hwx. unfold waiting, in_charge in *. by destruct (b_loc x).
    + intros i x Hx E He. destruct (decide (i = h)) as [->|Hi].
      * simplify_eq. unfold leads in Hld. rewrite E in Hld. tauto.
      * pose proof (Hw i x Hi Hx) as Hwx. unfold waiting in Hwx. by rewrite E in Hwx.
Qed.

(** ** Interleavings to evaluate *)

Module BarrierDemo.
Definition SIGTRAP : Z := 5.

(** Thread [t] hits a breakpoint and the threads [others] are collected. *)
Definition stop (t : nat) (others : list nat) : list label :=
  [Signal t SIGTRAP; Run t] ++ replicate (length others + 2) (Run t) ++
  flat_map (fun o => [Suspend o; Run o; Run o; Run o]) others ++
  replicate (length others + 1) (Run t).

(** The steps of [t] from the end of the event to the start of the loop that
    releases the others. *)
Definition open_barrier (t n : nat) : list label := Handled t false :: replicate (n + 2) (Run t).

Definition no_suspend (l : label) : bool :=
  match l with Request _ _ UDI_TS_SUSPENDED => false | _ => true end.

Lemma run_interleaves ls s s' :
  forallb no_suspend ls = true -> run ls s = Some s' -> rtc interleave s s'.
Proof.
  revert s. induction ls as [|l ls IH]; intros s Hls Hr; cbn in *; [by simplify_eq|].
  apply andb_prop in Hls as [Hl Hls]. destruct (step l s) as [s1|] eqn:E; [|done].
  eapply rtc_l; [|by apply IH]. exists l. split; [|done]. by destruct l as [| | |? ? []| | |].
Qed.

Definition three_stopped : barrier := default (started 3) (run (stop 0 [1; 2]) (started 3)).

Lemma barrier_stops_the_world_witness :
  (b_loc <$> bthreads three_stopped !! 0) = Some Control /\
  (parked <$> bthreads three_stopped !! 1) = Some true.
Proof.
  split; [vm_compute; reflexivity|].
  assert (2 <= 3) as Hn by lia.
  assert (rtc interleave (started 3) three_stopped) as Hr.
  { apply (run_interleaves (stop 0 [1; 2])); vm_compute; reflexivity. }
  destruct (barrier_stops_the_world 3 three_stopped Hn Hr) as [Hx _].
  destruct (bthreads three_stopped !! 1) as [y|] eqn:Hy; [|vm_compute in Hy; discriminate].
  cbn. f_equal. eapply (Hx 0 1 _ y); [vm_compute; reflexivity|exact Hy|reflexivity|lia].
Defined.

(** The debugger suspends thread 2, and the thread 0 it is talking to. While
    thread 0 is still releasing the others, thread 1 hits a breakpoint and the
    debugger lets thread 2 go: thread 0 releases it at once. *)
Definition race : list label :=
  stop 0 [1; 2] ++ [Request 0 2 UDI_TS_SUSPENDED; Request 0 0 UDI_TS_SUSPENDED] ++
  open_barrier 0 3 ++ [Run 0; Run 0; Run 1; Run 1; Run 1] ++
  [Signal 1 SIGTRAP; Run 1] ++ replicate 5 (Run 1) ++
  [Request 1 2 UDI_TS_RUNNING; Run 0; Run 2; Run 2; Run 2].

(** Two threads are both hit, and control passes from 0 to 1. Thread 1 still
    has the suspend signal of the first round pending when thread 0 sends the
    next one: one signal arrives, and it is taken for the old one. *)
Definition merged : list label :=
  [Signal 0 SIGTRAP; Run 0; Signal 1 SIGTRAP; Run 1] ++ replicate 3 (Run 0) ++ [Run 1; Run 1] ++
  [Run 0; Run 0] ++ [Handled 0 false] ++ replicate 5 (Run 0) ++ [Run 1; Run 1] ++
  [Handled 1 false] ++ replicate 4 (Run 1) ++ [Run 1; Run 0; Run 0; Signal 0 SIGTRAP; Run 0] ++
  replicate 3 (Run 0) ++ replicate 4 (Run 1) ++ [Suspend 1].
End BarrierDemo.

(** Without any suspend request and with every continue request served, a thread
    can wait for an answer that nobody has been asked for: thread 0 collects, and
    thread 1 runs application code with no suspend signal on its way, because the
    signal of this round was merged with an older one and ignored. *)
Example signal_merged :
  exists s x y, run BarrierDemo.merged (started 2) = Some s /\ bthreads s = [x; y] /\
    b_loc x = BlockCollect 1 /\ sentinels s = 0 /\ b_loc y = User /\ b_kill y = false.
Proof. eexists _, _, _. split; [vm_compute; reflexivity|]. repeat split; reflexivity. Qed.

(** When the debugger suspends the thread in control, a thread it resumes later
    can run while another one is in control: the condition on suspend requests is
    necessary. *)
Example control_suspended :
  exists s x y, run BarrierDemo.race (started 3) = Some s /\
    bthreads s !! 1 = Some x /\ b_loc x = Control /\ bthreads s !! 2 = Some y /\ b_loc y = User.
Proof. eexists _, _, _. split; [vm_compute; reflexivity|]. repeat split; reflexivity. Qed.
