(* ===== verification/BarrierLive.v ===== *)
(** * The barrier comes to rest

    Liveness of the step relation of Barrier.v, on top of its invariant: the
    steps the library makes on its own, and the delivery of the suspend
    signals, come to an end, and where they end no thread is held without
    reason. The exceptions are a refused continue request and the lost suspend
    signal of [signal_merged]; the latter cannot happen when a thread takes control
    only after the last round of signals is over. *)

From stdpp Require Import base list relations well_founded.
From S2P Require Import Prelude Types Barrier BarrierSpec.

Local Open Scope nat_scope.

(** A step of a thread in the library, or the delivery of a suspend signal. *)
Definition settles (s s' : barrier) : Prop :=
  exists t, step (Run t) s = Some s' \/ step (Suspend t) s = Some s'.

(** ** Termination *)

(** How many steps a thread has before it at most, if nobody takes control. A
    pending suspend signal will bring it through the handler. *)
Definition loc_weight (n : nat) (l : loc) : nat :=
  match l with
  | User | Stepping | Control => 0
  | Leave => 1
  | BlockResult => 2
  | BlockWait => 3
  | BlockPend => 4
  | BlockSentinel => 5
  | BlockCas => 6
  | BlockKill iter k => 9 * length iter + k + 2
  | BlockCollect k => k + 1
  | RelWait | RelHandWait => 2
  | RelCheck => 3
  | RelWrite iter => length iter + 4
  | RelClear => n + 5
  | RelWake _ => 3
  | RelHand _ => 4
  | RelYield _ => 5
  | RelScan iter => length iter + n + 6
  end.

Definition weight (n : nat) (x : bthread) : nat :=
  loc_weight n (b_loc x) + if b_kill x then 7 else 0.

(** A thread that can open the barrier. *)
Definition opener (x : bthread) : nat :=
  match b_loc x with RelScan _ | RelYield _ | RelHand _ | RelWake _ | RelClear => 1 | _ => 0 end.

(** How often control can still be taken without a further event. *)
Definition tickets (s : barrier) : nat :=
  (if (sync_var s =? 0)%Z then 1 else 0) + total (fun _ => opener) (bthreads s).

Definition work (s : barrier) : nat :=
  total (fun _ => weight (length (bthreads s))) (bthreads s).

Definition decreases (s s' : barrier) : Prop :=
  tickets s' < tickets s \/ (tickets s' <= tickets s /\ work s' < work s).

Lemma total_insert (f : bthread -> nat) l t x x' :
  l !! t = Some x -> total (fun _ => f) (<[t := x']> l) + f x = total (fun _ => f) l + f x'.
Proof.
  intros Hx. symmetry. apply (total_at (fun _ => f) (fun _ => f) l (<[t := x']> l) t x x').
  - by rewrite length_insert.
  - done.
  - apply list_lookup_insert_eq. by eapply lookup_lt_Some.
  - intros j u v Hj Hu Hv. rewrite list_lookup_insert_ne in Hv by done. congruence.
Qed.

(** One thread moves, without a change of [sync_var]. *)
Lemma move_decreases t x x' s s' :
  bthreads s !! t = Some x -> bthreads s' = <[t := x']> (bthreads s) -> sync_var s' = sync_var s ->
  opener x' <= opener x -> weight (length (bthreads s)) x' < weight (length (bthreads s)) x ->
  decreases s s'.
Proof.
  intros Hx Hs Hv Ho Hw. right. unfold tickets, work. rewrite Hv, Hs, length_insert.
  pose proof (total_insert opener _ t x x' Hx). pose proof (total_insert (weight (length (bthreads s))) _ t x x' Hx). lia.
Qed.

(** It also changes another one. *)
Lemma move_two_decreases t i x x' y y' s s' :
  bthreads s !! t = Some x -> bthreads s !! i = Some y -> i <> t ->
  bthreads s' = <[i := y']> (<[t := x']> (bthreads s)) -> sync_var s' = sync_var s ->
  opener x' + opener y' <= opener x + opener y ->
  weight (length (bthreads s)) x' + weight (length (bthreads s)) y'
  < weight (length (bthreads s)) x + weight (length (bthreads s)) y ->
  decreases s s'.
Proof.
  intros Hx Hy Hi Hs Hv Ho Hw. right. unfold tickets, work. rewrite Hv, Hs, !length_insert.
  assert (<[t := x']> (bthreads s) !! i = Some y) as Hy' by (by rewrite list_lookup_insert_ne).
  pose proof (total_insert opener _ t x x' Hx). pose proof (total_insert (weight (length (bthreads s))) _ t x x' Hx).
  pose proof (total_insert opener _ i y y' Hy'). pose proof (total_insert (weight (length (bthreads s))) _ i y y' Hy').
  lia.
Qed.

(** The next thread in line is not the one that hands control over. *)
Definition passes_on (t : nat) (x : bthread) : Prop :=
  forall next, b_loc x = RelHand next \/ b_loc x = RelWake next -> next <> t.

Ltac moves x := eapply move_decreases; [match goal with H : _ !! _ = Some x |- _ => exact H end|reflexivity|reflexivity| |];
  unfold weight, opener; destruct x; cbn in *; simplify_eq/=; repeat case_match; lia.

Lemma run_decreases t x s s' :
  bthreads s !! t = Some x -> passes_on t x -> thread_step t x s = Some s' -> decreases s s'.
Proof.
  intros Hx Hp. unfold thread_step. destruct (b_loc x) eqn:Hl; try done; intros Hs.
  - injection Hs as <-. unfold block_cas. case_match; [moves x|].
    destruct (sync_var s =? 0)%Z eqn:Hv; [|moves x].
    left. unfold tickets, block_cas. cbn [set_sync set_thread sync_var bthreads]. unfold cas. rewrite Hv. cbn.
    pose proof (total_insert opener _ t x (at_loc (BlockKill (all_threads s) 0) (with_control 1 x)) Hx) as Ho.
    assert (opener x = 0) as E by (unfold opener; by rewrite Hl). rewrite E in Ho. cbn [opener at_loc b_loc] in Ho. lia.
  - unfold block_kill in Hs. destruct iter as [|i rest]; [injection Hs as <-; moves x|].
    case_decide as Hi; [injection Hs as <-; moves x|].
    destruct (bthreads s !! i) as [y|] eqn:Hy; [|done]. cbn in Hs.
    case_decide; injection Hs as <-; (eapply move_two_decreases; [exact Hx|exact Hy|done|reflexivity|reflexivity| |];
      unfold weight, opener; destruct x, y; cbn in *; simplify_eq/=; repeat case_match; lia).
  - unfold block_collect in Hs. destruct remaining; [injection Hs as <-; moves x|].
    destruct (sentinels s); [done|]. injection Hs as <-. moves x.
  - injection Hs as <-. moves x.
  - injection Hs as <-. moves x.
  - unfold read_control in Hs. destruct (b_pipe x); [done|]. injection Hs as <-. moves x.
  - injection Hs as <-. unfold block_result. case_match; moves x.
  - unfold rel_scan in Hs. destruct iter as [|i rest]; [injection Hs as <-; moves x|].
    case_decide as Hi; [injection Hs as <-; moves x|].
    destruct (bthreads s !! i) as [y|] eqn:Hy; [|done]. cbn in Hs. injection Hs as <-. case_match; moves x.
  - injection Hs as <-. moves x.
  - unfold rel_hand in Hs. destruct (bthreads s !! next) as [y|] eqn:Hy; [|done]. cbn in Hs. injection Hs as <-.
    eapply move_two_decreases; [exact Hx|exact Hy|apply Hp; auto|reflexivity|reflexivity| |];
      unfold weight, opener; destruct x, y; cbn in *; simplify_eq/=; repeat case_match; lia.
  - unfold rel_wake in Hs. destruct (bthreads s !! next) as [y|] eqn:Hy; [|done]. cbn in Hs. injection Hs as <-.
    eapply move_two_decreases; [exact Hx|exact Hy|apply Hp; auto|reflexivity|reflexivity| |];
      unfold weight, opener; destruct x, y; cbn in *; simplify_eq/=; repeat case_match; lia.
  - unfold read_control in Hs. destruct (b_pipe x); [done|]. injection Hs as <-. moves x.
  - injection Hs as <-. unfold rel_clear. set (x' := at_loc (RelWrite (all_threads s)) x).
    assert (opener x = 1 /\ opener x' = 0) as [E1 E2] by (unfold opener; by rewrite Hl).
    assert (weight (length (bthreads s)) x' < weight (length (bthreads s)) x) as E3.
    { unfold weight, x', all_threads. rewrite Hl. cbn. rewrite length_seq. lia. }
    pose proof (total_insert opener _ t x x' Hx). pose proof (total_insert (weight (length (bthreads s))) _ t x x' Hx).
    right. unfold tickets, work, cas. cbn [set_sync set_thread sync_var bthreads]. rewrite length_insert.
    destruct (Z.eqb_spec (sync_var s) 1), (Z.eqb_spec (sync_var s) 0); try lia; cbn; lia.
  - unfold rel_write in Hs. destruct iter as [|i rest]; [injection Hs as <-; moves x|].
    case_decide as Hi; [injection Hs as <-; moves x|].
    destruct (bthreads s !! i) as [y|] eqn:Hy; [|done]. cbn in Hs.
    case_decide; injection Hs as <-; [|moves x].
    eapply move_two_decreases; [exact Hx|exact Hy|done|reflexivity|reflexivity| |];
      unfold weight, opener; destruct x, y; cbn in *; simplify_eq/=; repeat case_match; lia.
  - injection Hs as <-. unfold rel_check. case_decide; moves x.
  - unfold read_control in Hs. destruct (b_pipe x); [done|]. injection Hs as <-. moves x.
  - injection Hs as <-. moves x.
Qed.

Lemma suspend_decreases t s s' : step (Suspend t) s = Some s' -> decreases s s'.
Proof.
  cbn [step]. destruct (bthreads s !! t) as [x|] eqn:Hx; [|done]. cbn.
  destruct (b_loc x) eqn:Hl; try done; destruct (b_kill x) eqn:Hk; try done; intros [= <-]; unfold enter;
    repeat case_match; moves x.
Qed.

Lemma settles_interleave s s' : settles s s' -> interleave s s'.
Proof. intros (t & [H|H]); [exists (Run t)|exists (Suspend t)]; done. Qed.

Lemma passes_on_inv s t x :
  inv s \/ (exists h, abandoned h s) -> bthreads s !! t = Some x -> passes_on t x.
Proof.
  intros Hi Hx next Hn.
  assert (outside x = false /\ waiting x = false) as [Ho Hw] by (unfold outside, waiting; by destruct Hn as [-> | ->]).
  destruct Hi as [[pend HI|pend h iter k HG|h HS]|[h HA]].
  - destruct (i_quiet _ _ HI t x Hx) as (Q & _). apply q_loc in Q. congruence.
  - destruct (decide (t = h)) as [->|Ht].
    + destruct (g_head _ _ _ _ _ HG) as (z & Hz & Hc & _). simplify_eq. destruct Hc as [E|[_ E]]; destruct Hn; congruence.
    + destruct (g_quiet _ _ _ _ _ HG t x Ht Hx) as (Q & _). apply q_loc in Q. congruence.
  - destruct (decide (t = h)) as [->|Ht].
    + destruct (s_head _ _ HS) as (z & Hz & _ & Hl & _). simplify_eq. unfold leads in Hl.
      destruct Hn as [E|E]; rewrite E in Hl; tauto.
    + destruct (s_parked _ _ HS t x Ht Hx) as (Hp & _). apply parked_waiting in Hp as [Hp _]. congruence.
  - destruct (decide (t = h)) as [->|Ht].
    + destruct (a_head _ _ HA) as (z & Hz & _ & Hl). simplify_eq. by destruct Hn as [E|E]; rewrite E in Hl.
    + pose proof (a_parked _ _ HA t x Ht Hx) as Hp. apply parked_waiting in Hp as [Hp _]. congruence.
Qed.

Lemma settles_decreases s s' :
  inv s \/ (exists h, abandoned h s) -> settles s s' -> decreases s s'.
Proof.
  intros Hi (t & [H|H]); [|by eapply suspend_decreases].
  cbn in H. destruct (bthreads s !! t) as [x|] eqn:Hx; [|done]. cbn in H.
  by eapply run_decreases, H; [|eapply passes_on_inv].
Qed.

Section Reachable.
Context (n : nat) (Hn : 2 <= n).

Lemma settling_ends : forall a b s,
  rtc interleave (started n) s -> tickets s <= a -> work s <= b -> sn settles s.
Proof.
  induction a as [a IHa] using lt_wf_ind. induction b as [b IHb] using lt_wf_ind.
  intros s Hr Ha Hb. constructor. intros s' Hs. unfold flip in Hs.
  assert (rtc interleave (started n) s') as Hr' by (eapply rtc_r; [exact Hr|by apply settles_interleave]).
  destruct (reachable_inv n s Hn Hr) as [Hi _].
  destruct (settles_decreases s s' Hi Hs) as [Hd|[Hd Hw]].
  - eapply (IHa (tickets s')); [lia|exact Hr'|lia|reflexivity].
  - eapply (IHb (work s')); [lia|exact Hr'|lia|reflexivity].
Qed.
End Reachable.

(** ** Where the steps end *)

(** The lists that are walked are lists of threads. *)
Definition iter_of (l : loc) : list nat :=
  match l with BlockKill iter _ | RelScan iter | RelWrite iter => iter | _ => [] end.

Definition in_list (n : nat) (x : bthread) : Prop := Forall (fun i => i < n) (iter_of (b_loc x)).

Definition walks_threads (s : barrier) : Prop := Forall (in_list (length (bthreads s))) (bthreads s).

Lemma walks_insert s t x l :
  Forall (in_list (length (bthreads s))) l -> in_list (length (bthreads s)) x ->
  Forall (in_list (length (bthreads s))) (<[t := x]> l).
Proof. intros Hl Hx. by apply Forall_insert. Qed.

Lemma all_threads_valid s : Forall (fun i => i < length (bthreads s)) (all_threads s).
Proof. apply Forall_forall. intros i Hi. apply elem_of_seq in Hi. lia. Qed.

Lemma walks_step l s s' : walks_threads s -> step l s = Some s' -> walks_threads s'.
Proof.
  intros Hv Hs. unfold walks_threads. rewrite (step_length _ _ _ Hs).
  assert (forall i y, bthreads s !! i = Some y -> in_list (length (bthreads s)) y) as Hin.
  { intros i y Hy. by eapply (proj1 (Forall_lookup _ _) Hv). }
  assert (forall i y (r : list nat) x, bthreads s !! i = Some y -> iter_of (b_loc y) = x :: r ->
    Forall (fun i => i < length (bthreads s)) r) as Htl.
  { intros i y r x Hy Hr. pose proof (Hin i y Hy) as H. unfold in_list in H. rewrite Hr in H. by apply Forall_cons in H as [_ H]. }
  pose proof (all_threads_valid s) as Hall.
  destruct l as [t g|t|t|t u st|t cont|t cont|t]; cbn in Hs; destruct (bthreads s !! t) as [x|] eqn:Hx; try done; cbn in Hs.
  - destruct (b_loc x) eqn:Hl; try done; injection Hs as <-; unfold enter; repeat case_match; cbn [set_thread bthreads];
      apply walks_insert; try done; unfold in_list; cbn; rewrite ?Hl; constructor.
  - destruct (b_loc x) eqn:Hl; try done; (destruct (b_kill x); [|done]); injection Hs as <-; unfold enter;
      repeat case_match; cbn [set_thread bthreads]; apply walks_insert; try done; unfold in_list; cbn; rewrite ?Hl; constructor.
  - specialize (Htl t x). specialize (Hin t x Hx) as Hix. unfold in_list in Hix.
    unfold thread_step, block_cas, block_kill, block_collect, read_control, rel_scan, rel_hand, rel_wake, rel_write in Hs.
    destruct (b_loc x) eqn:Hl; try done; cbn in Htl, Hix;
      repeat (case_match; try done); cbn in Hs; simplify_option_eq; bsimp;
      repeat apply walks_insert; try done;
      first [ match goal with H : bthreads s !! ?i = Some ?y |- in_list _ ?z => exact (Hin i y H) end
            | unfold in_list; cbn; try (case_match; cbn); first [constructor | exact Hall | by eapply Htl] ].
  - destruct (bthreads s !! u) as [y|] eqn:Hy; [|done]. cbn in Hs. case_decide; [|done]. injection Hs as <-.
    apply walks_insert; [done|]. exact (Hin u y Hy).
  - case_decide; [|done]. injection Hs as <-. unfold handled. bsimp. apply walks_insert; [done|].
    unfold in_list. cbn. destruct cont; [constructor|exact Hall].
  - case_decide; [|done]. injection Hs as <-. unfold failed. bsimp. apply walks_insert; [done|].
    unfold in_list. cbn. destruct cont; constructor.
  - destruct (b_loc x); try done. injection Hs as <-. apply walks_insert; [done|]. constructor.
Qed.

Lemma reachable_walks n s : rtc interleave (started n) s -> walks_threads s.
Proof.
  apply (rtc_ind_r walks_threads).
  - apply Forall_forall. intros x Hx. apply elem_of_replicate in Hx as [-> _]. constructor.
  - intros s1 s2 _ (l & _ & Hst) IH. by eapply walks_step.
Qed.

(** Every running thread is in application code, and the others are parked. *)
Definition at_rest (s : barrier) : Prop :=
  forall i x, bthreads s !! i = Some x ->
    if runs x then b_loc x = User /\ b_kill x = false else parked x = true.

(** The debugger is asked what to do, or one thread steps over a breakpoint. *)
Definition attended (s : barrier) : Prop :=
  exists h x, bthreads s !! h = Some x /\ (b_loc x = Control \/ b_loc x = Stepping) /\
    forall j y, j <> h -> bthreads s !! j = Some y -> parked y = true.

(** A continue request was refused: one thread went back to application code
    with the barrier closed, all others are held, and it is held like them as
    soon as a signal reaches it. *)
Definition deserted (s : barrier) : Prop :=
  sync_var s = 1%Z /\ stepping s = false /\
  exists h x, bthreads s !! h = Some x /\
    ((b_loc x = User /\ b_kill x = false) \/ parked x = true) /\
    forall j y, j <> h -> bthreads s !! j = Some y -> parked y = true.

(** The control thread waits for the answer of a thread that was not asked. *)
Definition signal_lost (s : barrier) : Prop :=
  exists h x k i y, bthreads s !! h = Some x /\ b_loc x = BlockCollect (S k) /\ sentinels s = 0 /\
    i <> h /\ bthreads s !! i = Some y /\ b_loc y = User /\ b_kill y = false.

Lemma stuck_run s t x : nf settles s -> bthreads s !! t = Some x -> thread_step t x s = None.
Proof.
  intros Hnf Hx. destruct (thread_step t x s) as [s'|] eqn:E; [|done]. destruct Hnf.
  exists s', t. left. cbn. by rewrite Hx.
Qed.

Lemma stuck_kill s t x :
  nf settles s -> bthreads s !! t = Some x -> b_loc x = User \/ b_loc x = Stepping -> b_kill x = false.
Proof.
  intros Hnf Hx Hl. destruct (b_kill x) eqn:E; [|done]. destruct Hnf.
  eexists _, t. right. cbn. rewrite Hx. cbn. destruct Hl as [-> | ->]; rewrite E; done.
Qed.

(** A thread that cannot make a step on its own. *)
Definition blocked (s : barrier) (x : bthread) : Prop :=
  match b_loc x with
  | User | Stepping | Control => True
  | BlockCollect k => k <> 0 /\ sentinels s = 0
  | BlockWait | RelHandWait | RelWait => b_pipe x = 0
  | RelHand next | RelWake next => bthreads s !! next = None
  | _ => False
  end.

Lemma stuck_blocked s t x :
  walks_threads s -> bthreads s !! t = Some x -> thread_step t x s = None -> blocked s x.
Proof.
  intros Hv Hx. pose proof (proj1 (Forall_lookup _ _) Hv t x Hx) as Hi. unfold in_list in Hi.
  assert (forall i r, iter_of (b_loc x) = i :: r -> exists y, bthreads s !! i = Some y) as Hy.
  { intros i r E. rewrite E in Hi. apply Forall_cons in Hi as [Hi _]. by apply lookup_lt_is_Some_2. }
  clear Hi. unfold thread_step, blocked, block_kill, block_collect, read_control, rel_scan, rel_hand, rel_wake, rel_write.
  destruct (b_loc x) as [| |[|i r]|[]| | | | | | |[|i r]| | | | | |[|i r]| | |]; try done; cbn in Hy;
    try (destruct (Hy i r eq_refl) as [y ->]); cbn; repeat (case_match; try done); eauto.
  all: by destruct (bthreads s !! next).
Qed.

Lemma total_some f l : total f l <> 0 -> exists i x, l !! i = Some x /\ f i x <> 0.
Proof.
  revert f. induction l as [|y l IH]; intros f Hf; [done|]. rewrite total_cons in Hf.
  destruct (decide (f 0 y = 0)) as [E|E]; [|by exists 0, y].
  destruct (IH (fun i => f (S i))) as (i & x & Hx & Hfx); [lia|]. by exists (S i), x.
Qed.

(** A thread that is not in control and not parked can go on, unless it is in
    application code. *)
Lemma stuck_quiet pend s i x :
  quiet pend i x -> blocked s x -> parked x = false -> b_loc x = User.
Proof.
  intros Q Hb Hp. pose proof (q_loc _ _ _ Q) as Ho. unfold outside, blocked, parked, waiting in *.
  destruct (b_loc x); try done; rewrite Hb in Hp; done.
Qed.

Lemma releaser_goes pend s :
  walks_threads s -> nf settles s -> releasing pend (bthreads s) -> pend = [].
Proof.
  intros Hv Hnf [_ R]. destruct pend as [|j pend]; [done|]. destruct R as (i & x & r & Hx & Hl); [done|].
  pose proof (stuck_blocked s i x Hv Hx (stuck_run s i x Hnf Hx)) as Hb. unfold blocked in Hb. by rewrite Hl in Hb.
Qed.

Lemma idle_stuck pend s : walks_threads s -> nf settles s -> idle pend s -> at_rest s.
Proof.
  intros Hv Hnf [_ _ _ HR HQ] i x Hx. rewrite (releaser_goes pend s Hv Hnf HR) in HQ.
  destruct (HQ i x Hx) as (Q & _ & Ho). pose proof (stuck_blocked s i x Hv Hx (stuck_run s i x Hnf Hx)) as Hb.
  destruct (runs x) eqn:Hr; [|by apply (q_susp _ _ _ Q)].
  assert (parked x = false) as Hp.
  { unfold owes in Ho. destruct (parked x); [|done]. by rewrite bool_decide_eq_false_2 in Ho by set_solver. }
  pose proof (stuck_quiet _ _ _ _ Q Hb Hp) as Hl. split; [done|]. eapply stuck_kill; eauto.
Qed.

Lemma gather_stuck pend h iter k s :
  walks_threads s -> nf settles s -> gather pend h iter k s ->
  iter = [] /\ exists x k' i y, bthreads s !! h = Some x /\ b_loc x = BlockCollect (S k') /\ sentinels s = 0 /\
    i <> h /\ bthreads s !! i = Some y /\ b_loc y = User /\ b_kill y = false.
Proof.
  intros Hv Hnf HG. rewrite (releaser_goes pend s Hv Hnf (g_releasing _ _ _ _ _ HG)) in HG.
  destruct (g_head _ _ _ _ _ HG) as (x & Hx & Hc & _).
  pose proof (stuck_blocked s h x Hv Hx (stuck_run s h x Hnf Hx)) as Hb. unfold blocked in Hb.
  destruct Hc as [E|[-> E]]; rewrite E in Hb; [done|]. destruct Hb as [Hk Hs].
  pose proof (g_count _ _ _ _ _ HG) as Hn. rewrite to_signal_nil, Hs in Hn.
  destruct (total_some (owing [] h) (bthreads s)) as (i & y & Hy & Hw); [lia|]. unfold owing in Hw.
  case_bool_decide as Hi; [|done].
  cbn in Hw.
  destruct (g_quiet _ _ _ _ _ HG i y Hi Hy) as (Q & _).
  assert (parked y = false) as Hp.
  { unfold owes in Hw. destruct (parked y); [|done]. by rewrite bool_decide_eq_false_2 in Hw by set_solver. }
  pose proof (stuck_quiet _ _ _ _ Q (stuck_blocked s i y Hv Hy (stuck_run s i y Hnf Hy)) Hp) as Hl.
  destruct k as [|k]; [done|]. split; [done|].
  exists x, k, i, y. do 6 (split; [done|]). eapply stuck_kill; eauto.
Qed.

Lemma stopped_stuck h s : walks_threads s -> nf settles s -> stopped h s -> attended s.
Proof.
  intros Hv Hnf HS. destruct (s_head _ _ HS) as (x & Hx & _ & Hl & _).
  exists h, x. split; [done|]. split; [|intros j y Hj Hy; by apply (s_parked _ _ HS j y)].
  pose proof (stuck_blocked s h x Hv Hx (stuck_run s h x Hnf Hx)) as Hb. unfold blocked, leads in *.
  destruct (b_loc x); try done; auto; destruct Hl as (Hl1 & Hl2); try congruence;
    destruct Hl2 as (_ & _ & _ & _ & y & Hy & _); congruence.
Qed.

Lemma abandoned_stuck h s : walks_threads s -> nf settles s -> abandoned h s -> deserted s.
Proof.
  intros Hv Hnf [H1 H2 (x & Hx & Hpi & Hl) Hp]. split; [done|]. split; [done|]. exists h, x.
  split; [done|]. split; [|done].
  pose proof (stuck_blocked s h x Hv Hx (stuck_run s h x Hnf Hx)) as Hb. unfold blocked, adrift in *.
  destruct (b_loc x) eqn:E; try done.
  - left. split; [done|]. eapply stuck_kill; eauto.
  - right. unfold parked, waiting. by rewrite E, Hpi.
Qed.

(** When every continue request is served, the phases are those of [inv]. *)
Definition served_interleave (s s' : barrier) : Prop :=
  exists l, permitted s l /\ served l /\ step l s = Some s'.

Lemma served_reachable n s : rtc served_interleave (started n) s -> rtc interleave (started n) s.
Proof. apply rtc_subrel. intros s1 s2 (l & Hp & _ & Hs). by exists l. Qed.

Lemma served_inv n s : 2 <= n -> rtc served_interleave (started n) s -> inv s.
Proof.
  intros Hn Hr. assert (inv s /\ length (bthreads s) = n) as [H _]; [|exact H]. revert s Hr.
  apply (rtc_ind_r (fun s => inv s /\ length (bthreads s) = n)).
  - split; [apply started_inv|apply length_replicate].
  - intros s1 s2 _ (l & HP & Hok & Hst) [IH Hl]. split; [|by rewrite (step_length _ _ _ Hst)].
    eapply inv_step; eauto. lia.
Qed.

Lemma inv_stuck s :
  walks_threads s -> nf settles s -> inv s -> at_rest s \/ attended s \/ signal_lost s.
Proof.
  intros Hw Hnf [pend HI|pend h iter k HG|h HS].
  - left. by eapply idle_stuck.
  - right. right. destruct (gather_stuck _ _ _ _ _ Hw Hnf HG) as (_ & H). by exists h.
  - right. left. by eapply stopped_stuck.
Qed.

(** ** No signal is lost between rounds *)

(** The signals of the last round have arrived and every running thread is back
    in application code, or has come with an event. *)
Definition round_over (s : barrier) : Prop :=
  forall i x, bthreads s !! i = Some x -> runs x = true ->
    (b_loc x = User \/ b_loc x = BlockCas) /\ b_kill x = false.

(** A thread takes control only then, nobody but the library sends its signal,
    every continue request is served and no thread ends. *)
Definition timely (s : barrier) (l : label) : Prop :=
  match l with
  | Signal _ g => g <> THREAD_SUSPEND_SIGNAL /\ g <> 0%Z
  | Run t => forall x, bthreads s !! t = Some x -> b_loc x = BlockCas -> sync_var s = 0%Z -> round_over s
  | Failed _ false | Die _ => False
  | _ => True
  end.

Definition timely_interleave (s s' : barrier) : Prop :=
  exists l, permitted s l /\ timely s l /\ step l s = Some s'.

Lemma timely_reachable n s : rtc timely_interleave (started n) s -> rtc interleave (started n) s.
Proof. apply rtc_subrel. intros s1 s2 (l & Hp & _ & Hs). by exists l. Qed.

Lemma timely_served s l : timely s l -> served l.
Proof. by destruct l as [| | | | |? []|]. Qed.

Definition suspended_by (x : bthread) : bool := (b_signal x =? THREAD_SUSPEND_SIGNAL)%Z.

(** Outside of a round a pending suspend signal is one the thread knows of. *)
Definition balanced (x : bthread) : Prop :=
  match b_loc x with
  | BlockKill _ _ | BlockCollect _ | BlockSentinel => False
  | BlockPend => b_suspend_pending x = false /\ b_kill x = negb (suspended_by x)
  | BlockCas => b_kill x = b_suspend_pending x /\ suspended_by x = false
  | _ => b_kill x = b_suspend_pending x
  end.

(** In a round: a thread is asked once, behind [iter], and answers the signal or,
    with an event of its own, knows that it is on its way. *)
Definition asked (iter : list nat) (i : nat) (x : bthread) : Prop :=
  b_pipe x = 0 /\ (suspended_by x = true -> b_loc x = User \/ i ∉ iter) /\
  match b_loc x with
  | User => b_suspend_pending x = false /\ b_kill x = bool_decide (i ∉ iter)
  | BlockCas | BlockSentinel | BlockPend =>
      b_suspend_pending x = false /\ b_kill x = bool_decide (i ∉ iter) && negb (suspended_by x)
  | BlockWait =>
      b_suspend_pending x = negb (suspended_by x) /\ b_kill x = bool_decide (i ∉ iter) && negb (suspended_by x)
  | _ => False
  end.

(** *** Outside of a round *)

Lemma rest_step l s s' :
  Forall balanced (bthreads s) -> timely s l -> step l s = Some s' ->
  Forall balanced (bthreads s') \/
  exists t x, l = Run t /\ bthreads s !! t = Some x /\ b_loc x = BlockCas.
Proof.
  intros Hb Ht Hs.
  assert (forall i y, bthreads s !! i = Some y -> balanced y) as Hat by (intros i y; by apply Forall_lookup_1).
  destruct l as [t g|t|t|t u st|t cont|t cont|t]; cbn in Hs; destruct (bthreads s !! t) as [x|] eqn:Hx; try done; cbn in Hs;
    pose proof (Hat t x Hx) as Hbx; unfold balanced in Hbx.
  - left. destruct Ht as [Hg _]. apply Z.eqb_neq in Hg.
    destruct (b_loc x) eqn:Hl; try done; injection Hs as <-; unfold enter; rewrite Hg; cbn [andb];
      case_match; bsimp; (apply Forall_insert; [done|]); unfold balanced, suspended_by; cbn; rewrite ?Hg; done.
  - left. destruct (b_loc x) eqn:Hl; try done; destruct (b_kill x) eqn:Hk; try done; injection Hs as <-; unfold enter;
      rewrite Z.eqb_refl; cbn [andb b_suspend_pending with_kill]; rewrite <- Hbx; bsimp; (apply Forall_insert; [done|]);
      unfold balanced; cbn; by rewrite Hl.
  - unfold thread_step in Hs. destruct (b_loc x) eqn:Hl; try done; [right; eauto|..]; left;
      unfold read_control, rel_scan, rel_hand, rel_wake, rel_write in Hs;
      repeat (case_match; try done); cbn in Hs; simplify_option_eq; bsimp; repeat apply Forall_insert; try done;
      unfold balanced, block_pend, block_result, rel_check, suspended_by in *; cbn; try done;
      first [by eapply Hat | by destruct Hbx | match goal with |- context [if ?b then _ else _] => by destruct b end].
  - destruct (bthreads s !! u) as [y|] eqn:Hy; [|done]. cbn in Hs. case_decide; [|done]. injection Hs as <-. left.
    bsimp. apply Forall_insert; [done|]. exact (Hat u y Hy).
  - case_decide as Hl; [|done]. injection Hs as <-. left. unfold handled. bsimp. apply Forall_insert; [done|].
    unfold balanced. cbn. rewrite (proj1 Hl) in Hbx. by destruct cont.
  - destruct cont; [|done]. case_decide as Hl; [|done]. injection Hs as <-. left. unfold failed. bsimp.
    apply Forall_insert; [done|]. unfold balanced. cbn. by rewrite (proj1 Hl) in Hbx.
Qed.

(** *** In a round *)

Definition in_round (h : nat) (iter : list nat) (s : barrier) : Prop :=
  (exists x, bthreads s !! h = Some x /\ b_kill x = false /\ b_suspend_pending x = false) /\
  forall i y, i <> h -> bthreads s !! i = Some y -> if runs y then asked iter i y else balanced y.

Inductive tracked (s : barrier) : Prop :=
| tracked_idle pend : idle pend s -> Forall balanced (bthreads s) -> tracked s
| tracked_round pend h iter k : gather pend h iter k s -> in_round h iter s -> tracked s
| tracked_stopped h : stopped h s -> Forall balanced (bthreads s) -> tracked s.

(** The phase of a state follows from its threads. *)
Lemma inv_rest s : inv s -> Forall balanced (bthreads s) -> tracked s.
Proof.
  intros [pend HI|pend h iter k HG|h HS] Hb; [by eapply tracked_idle| |by eapply tracked_stopped].
  destruct (g_head _ _ _ _ _ HG) as (x & Hx & Hc & _). pose proof (Forall_lookup_1 _ _ _ _ Hb Hx) as Hbx.
  unfold balanced in Hbx. by destruct Hc as [E|[_ E]]; rewrite E in Hbx.
Qed.

Lemma inv_collects s h x iter k :
  inv s -> bthreads s !! h = Some x -> collects iter k (b_loc x) -> exists pend, gather pend h iter k s.
Proof.
  intros Hi Hx Hc. assert (outside x = false /\ waiting x = false) as [Ho Hw].
  { unfold outside, waiting. by destruct Hc as [-> |[_ ->]]. }
  destruct Hi as [pend HI|pend h' iter' k' HG|h' HS].
  - destruct (i_quiet _ _ HI h x Hx) as (Q & _). apply q_loc in Q. congruence.
  - destruct (decide (h = h')) as [->|Hh].
    + destruct (g_head _ _ _ _ _ HG) as (z & Hz & Hc' & _). simplify_eq. exists pend.
      assert (iter' = iter /\ k' = k) as [-> ->]; [|done].
      destruct Hc as [E|[-> E]], Hc' as [E'|[-> E']]; rewrite E in E'; by simplify_eq.
    + destruct (g_quiet _ _ _ _ _ HG h x Hh Hx) as (Q & _). apply q_loc in Q. congruence.
  - destruct (decide (h = h')) as [->|Hh].
    + destruct (s_head _ _ HS) as (z & Hz & _ & Hl & _). simplify_eq. unfold leads in Hl.
      by destruct Hc as [E|[_ E]]; rewrite E in Hl.
    + destruct (s_parked _ _ HS h x Hh Hx) as (Hp & _). apply parked_waiting in Hp as [Hp _]. congruence.
Qed.

Lemma start_round pend h x s :
  2 <= length (bthreads s) -> idle pend s -> Forall balanced (bthreads s) -> round_over s ->
  bthreads s !! h = Some x -> b_loc x = BlockCas -> in_round h (all_threads s) (block_cas h x s).
Proof.
  intros Hn HI Hb Hover Hx Hl. unfold block_cas.
  rewrite (proj2 (Nat.leb_gt _ _)) by lia. rewrite (i_sync _ _ HI). cbn.
  assert (forall i y, bthreads s !! i = Some y -> quiet pend i y /\ balanced y) as Hq.
  { intros i y Hy. split; [by apply (i_quiet _ _ HI)|by eapply Forall_lookup_1]. }
  assert (h < length (bthreads s)) as Hlt by (by eapply lookup_lt_Some).
  split; bsimp.
  - eexists. split; [by apply list_lookup_insert_eq|]. cbn. destruct (Hq h x Hx) as [Q Hbx].
    assert (parked x = false) as Hp by (unfold parked, waiting; by rewrite Hl).
    destruct (quiet_awake _ _ _ Q Hp) as [_ Hr]. destruct (Hover h x Hx Hr) as [_ Hk].
    unfold balanced in Hbx. rewrite Hl in Hbx. destruct Hbx. split; congruence.
  - intros i y Hi Hy. rewrite list_lookup_insert_ne in Hy by done. destruct (Hq i y Hy) as [Q Hby].
    destruct (runs y) eqn:Hr; [|done]. destruct (Hover i y Hy Hr) as [Hly Hk]. unfold asked.
    assert (i ∈ all_threads s) as Hin by (apply elem_of_seq; apply lookup_lt_Some in Hy; lia).
    rewrite bool_decide_eq_false_2 by tauto. pose proof (q_pipe _ _ _ Q) as Hp. unfold waiting, balanced in *.
    destruct Hly as [E|E]; rewrite E in *; (split; [lia|]); [by split; [left|split; [congruence|]]|].
    destruct Hby as [Hk' Hs]. rewrite Hs. split; [done|]. split; [congruence|done].
Qed.

(** A thread other than the control thread moves. *)
Lemma round_move h iter t x' s s' :
  in_round h iter s -> t <> h -> bthreads s' = <[t := x']> (bthreads s) ->
  (if runs x' then asked iter t x' else balanced x') ->
  in_round h iter s' /\ bthreads s' !! h = bthreads s !! h.
Proof.
  intros [Hh Ho] Ht Hs Hx'. split; [|rewrite Hs; by rewrite list_lookup_insert_ne]. split.
  - rewrite Hs. by rewrite list_lookup_insert_ne.
  - intros i y Hi Hy. rewrite Hs in Hy. apply list_lookup_insert_Some in Hy as [(-> & -> & _)|[_ Hy]]; [done|]. by apply Ho.
Qed.

Lemma answer_step pend h iter k t x l s s' :
  2 <= length (bthreads s) -> gather pend h iter k s -> in_round h iter s -> t <> h -> bthreads s !! t = Some x ->
  l = Run t \/ l = Suspend t \/ (exists g, l = Signal t g) -> timely s l -> step l s = Some s' ->
  in_round h iter s' /\ bthreads s' !! h = bthreads s !! h.
Proof.
  intros Hn HG HR Ht Hx Hl Htm Hs. pose proof (proj2 HR t x Ht Hx) as Ha.
  destruct (g_quiet _ _ _ _ _ HG t x Ht Hx) as [Q _].
  assert (runs x = false -> waiting x = true /\ b_pipe x = 0) as Hns.
  { intros Hr. destruct (q_susp _ _ _ Q Hr) as (Hp & _). by apply parked_waiting. }
  assert (forall x', runs x' = runs x -> bthreads s' = <[t := x']> (bthreads s) ->
    (runs x = true -> asked iter t x') -> (runs x = false -> balanced x') ->
    in_round h iter s' /\ bthreads s' !! h = bthreads s !! h) as Hmove.
  { intros x' Hr' He H1 H2. apply (round_move h iter t x' s); try done. rewrite Hr'. destruct (runs x); auto. }
  destruct Hl as [-> |[-> |[g ->]]]; cbn in Hs; rewrite Hx in Hs; cbn in Hs.
  - unfold thread_step in Hs. destruct (runs x) eqn:Hr.
    + destruct Ha as (Hp & Hsig & Ha). destruct (b_loc x) eqn:Hlx; try done.
      * injection Hs as <-. unfold block_cas in *. rewrite (proj2 (Nat.leb_gt _ _)) in * by lia.
        rewrite (g_sync _ _ _ _ _ HG) in *. cbn in *. eapply Hmove; [|reflexivity| |]; [done| |done].
        intros _. split; [done|]. by split; [cbn; intros Hg; destruct (Hsig Hg); [done|by right]|].
      * injection Hs as <-. eapply Hmove; [|reflexivity| |]; [done| |done].
        intros _. split; [done|]. by split; [cbn; intros Hg; destruct (Hsig Hg); [done|by right]|].
      * injection Hs as <-. eapply Hmove; [|reflexivity| |]; [done| |done].
        intros _. split; [done|]. split; [cbn; intros Hg; destruct (Hsig Hg); [done|by right]|]. cbn. by destruct Ha.
      * unfold read_control in Hs. by rewrite Hp in Hs.
    + destruct (Hns eq_refl) as [Hw Hp]. unfold waiting, balanced in *. destruct (b_loc x) eqn:Hlx; try done;
        unfold read_control in Hs; try (by rewrite Hp in Hs).
      injection Hs as <-. eapply Hmove; [|reflexivity|done|]; [done|]. intros _. unfold balanced. cbn. by destruct Ha.
  - assert (b_loc x = User /\ b_kill x = true) as [Hlx Hk].
    { pose proof (q_loc _ _ _ Q) as Ho. unfold outside in Ho. destruct (b_loc x); try done; by destruct (b_kill x). }
    destruct (runs x) eqn:Hr; [|by destruct (Hns eq_refl) as [Hw _]; unfold waiting in Hw; rewrite Hlx in Hw].
    destruct Ha as (Hp & Hsig & Ha). rewrite Hlx in Ha, Hs. rewrite Hk in Ha, Hs. destruct Ha as [Hsp Hi].
    injection Hs as <-. unfold enter in *. cbn [b_suspend_pending with_kill] in *. rewrite Hsp, andb_false_r in *.
    rewrite (g_stepping _ _ _ _ _ HG) in *. symmetry in Hi. apply bool_decide_eq_true_1 in Hi.
    eapply Hmove; [|reflexivity| |done]; [done|]. intros _. split; [done|]. split; [by right|]. cbn.
    split; [done|]. by rewrite andb_false_r.
  - destruct Htm as [Hg _]. apply Z.eqb_neq in Hg.
    assert (b_loc x = User) as Hlx.
    { pose proof (q_loc _ _ _ Q) as Ho. unfold outside in Ho. by destruct (b_loc x). }
    destruct (runs x) eqn:Hr; [|by destruct (Hns eq_refl) as [Hw _]; unfold waiting in Hw; rewrite Hlx in Hw].
    destruct Ha as (Hp & Hsig & Ha). rewrite Hlx in Ha, Hs. destruct Ha as [Hsp Hk].
    injection Hs as <-. unfold enter in *. rewrite Hg in *. cbn [andb] in *. rewrite (g_stepping _ _ _ _ _ HG) in *.
    eapply Hmove; [|reflexivity| |done]; [done|]. intros _. unfold asked, suspended_by. cbn. rewrite Hg, Hk.
    split; [done|]. split; [done|]. split; [done|]. by rewrite andb_true_r.
Qed.

(** The control thread moves: a thread is asked when it has been behind. *)
Lemma asked_next iter i j y : i <> j -> asked (i :: iter) j y <-> asked iter j y.
Proof.
  intros Hij. unfold asked.
  assert (forall P : Prop, (P \/ j ∉ i :: iter) <-> (P \/ j ∉ iter)) as E1 by (intros; set_solver).
  rewrite E1. rewrite (bool_decide_ext (j ∉ i :: iter) (j ∉ iter)) by set_solver. done.
Qed.

Lemma asked_signalled iter i y c :
  NoDup (i :: iter) -> asked (i :: iter) i y -> asked iter i (with_kill true (with_control c y)).
Proof.
  intros Hnd (Hp & Hsig & Ha). apply NoDup_cons in Hnd as [Hi _]. unfold asked, suspended_by in *.
  cbn [b_pipe b_loc b_suspend_pending b_kill b_signal with_kill with_control] in *.
  rewrite bool_decide_eq_false_2 in Ha by set_solver. rewrite bool_decide_eq_true_2 by done.
  split; [done|]. split; [auto|].
  destruct (b_loc y) eqn:Hl; try done; [tauto|..];
    (destruct (b_signal y =? THREAD_SUSPEND_SIGNAL)%Z;
       [exfalso; destruct (Hsig eq_refl) as [E|E]; [done|set_solver]|tauto]).
Qed.

Lemma kill_round pend h iter k x s s' :
  gather pend h iter k s -> in_round h iter s -> bthreads s !! h = Some x -> b_loc x = BlockKill iter k ->
  block_kill h iter k x s = Some s' ->
  exists iter' k' x', bthreads s' !! h = Some x' /\ collects iter' k' (b_loc x') /\ in_round h iter' s'.
Proof.
  intros HG HR Hx Hl Hs. pose proof HR as [(x0 & Hx0 & Hk & Hsp) Ho]. simplify_eq.
  assert (h < length (bthreads s)) as Hlt by (by eapply lookup_lt_Some).
  assert (forall iter' l' (s1 : barrier), bthreads s1 = <[h := at_loc l' x]> (bthreads s) ->
    (forall i y, i <> h -> bthreads s !! i = Some y -> runs y = true -> asked iter i y -> asked iter' i y) ->
    bthreads s1 !! h = Some (at_loc l' x) /\ in_round h iter' s1) as Hhead.
  { intros iter' l' s1 He Ha. rewrite He. assert (<[h := at_loc l' x]> (bthreads s) !! h = Some (at_loc l' x)) as Hh
      by (by apply list_lookup_insert_eq). split; [done|]. split; [rewrite He; by exists (at_loc l' x)|].
    intros i y Hi Hy. rewrite He, list_lookup_insert_ne in Hy by done. specialize (Ho i y Hi Hy).
    destruct (runs y) eqn:Hr; [|done]. by apply (Ha i y). }
  unfold block_kill in Hs. destruct iter as [|i rest].
  { injection Hs as <-. destruct (Hhead [] (BlockCollect k) (set_thread h (at_loc (BlockCollect k) x) s) eq_refl) as [H1 H2]; [auto|].
    exists [], k, (at_loc (BlockCollect k) x). split; [done|]. split; [by right|done]. }
  case_decide as Hih.
  { injection Hs as <-. subst i. destruct (Hhead rest (BlockKill rest k) (set_thread h (at_loc (BlockKill rest k) x) s) eq_refl) as [H1 H2].
    { intros j y Hj _ _. by apply asked_next. }
    exists rest, k, (at_loc (BlockKill rest k) x). split; [done|]. split; [by left|done]. }
  destruct (bthreads s !! i) as [y|] eqn:Hy; [|done]. cbn in Hs. pose proof (Ho i y Hih Hy) as Hoy.
  assert (forall l' y' (s1 : barrier), bthreads s1 = <[i := y']> (<[h := at_loc l' x]> (bthreads s)) ->
    (exists k', l' = BlockKill rest k') -> (if runs y' then asked rest i y' else balanced y') ->
    exists iter' k' x', bthreads s1 !! h = Some x' /\ collects iter' k' (b_loc x') /\ in_round h iter' s1) as Hboth.
  { intros l' y' s1 He [k' ->] Hy'. exists rest, k', (at_loc (BlockKill rest k') x). rewrite He.
    rewrite list_lookup_insert_ne by done. split; [by apply list_lookup_insert_eq|]. split; [by left|].
    split; [rewrite He, list_lookup_insert_ne by done; exists (at_loc (BlockKill rest k') x); by rewrite list_lookup_insert_eq|].
    intros j z Hj Hz. rewrite He in Hz. apply list_lookup_insert_Some in Hz as [(-> & -> & _)|[Hij Hz]]; [done|].
    rewrite list_lookup_insert_ne in Hz by done. specialize (Ho j z Hj Hz). destruct (runs z); [|done].
    by apply (asked_next rest i j z). }
  unfold runs in Hoy. case_decide as Hts; injection Hs as <-; eapply Hboth; try reflexivity; eauto.
  - unfold runs. cbn [b_ts with_control]. rewrite bool_decide_eq_false_2 in * by (cbn in Hts; congruence). exact Hoy.
  - unfold runs. cbn [b_ts with_kill with_control] in *.
    rewrite bool_decide_eq_true_2 in * by (destruct (b_ts y); try done). apply asked_signalled; [|done].
    apply (g_iter _ _ _ _ _ HG).
Qed.

Lemma collect_round pend h k x s s' :
  gather pend h [] k s -> in_round h [] s -> bthreads s !! h = Some x -> block_collect h k x s = Some s' ->
  tracked s' \/ exists k' x', bthreads s' !! h = Some x' /\ collects [] k' (b_loc x') /\ in_round h [] s'.
Proof.
  intros HG HR Hx Hs. pose proof HR as [(x0 & Hx0 & Hk & Hsp) Ho]. simplify_eq.
  assert (h < length (bthreads s)) as Hlt by (by eapply lookup_lt_Some). destruct k as [|k]; cbn in Hs.
  - injection Hs as <-. left. pose proof (gather_complete pend h 0 s x HG eq_refl Hx) as HS. eapply tracked_stopped; [done|].
    apply Forall_lookup. intros i y Hy. destruct (decide (i = h)) as [->|Hi].
    { cbn in Hy. rewrite list_lookup_insert_eq in Hy by done. simplify_eq. unfold balanced. cbn. congruence. }
    destruct (s_parked _ _ HS i y Hi Hy) as (Hp & _). apply parked_waiting in Hp as [Hw _].
    cbn in Hy. rewrite list_lookup_insert_ne in Hy by done. specialize (Ho i y Hi Hy).
    destruct (runs y); [|done]. destruct Ho as (_ & _ & Ho). unfold balanced, waiting in *.
    rewrite bool_decide_eq_true_2 in Ho by set_solver. cbn [andb] in Ho. destruct (b_loc y); try done; destruct Ho as [Ho1 Ho2]; congruence.
  - destruct (sentinels s); [done|]. injection Hs as <-. right. exists k, (at_loc (BlockCollect k) x). bsimp.
    rewrite list_lookup_insert_eq by done. split; [done|]. split; [by right|]. split; bsimp.
    + exists (at_loc (BlockCollect k) x). by rewrite list_lookup_insert_eq.
    + intros i y Hi Hy. rewrite list_lookup_insert_ne in Hy by done. by apply Ho.
Qed.

Lemma tracked_step l s s' :
  2 <= length (bthreads s) -> tracked s -> permitted s l -> timely s l -> step l s = Some s' -> tracked s'.
Proof.
  intros Hn [pend HI Hb|pend h iter k HG HR|h HS Hb] HP Htm Hs.
  - pose proof (idle_step pend l s s' Hn HI Hs) as Hinv.
    destruct (rest_step l s s' Hb Htm Hs) as [Hb'|(t & x & -> & Hx & Hl)]; [by apply inv_rest|].
    cbn in Hs. rewrite Hx in Hs. cbn in Hs. unfold thread_step in Hs. rewrite Hl in Hs. injection Hs as <-.
    eapply tracked_round; [by eapply start_gather|]. eapply start_round; eauto. by eapply Htm; [| |apply (i_sync _ _ HI)].
  - pose proof (gather_step pend h iter k l s s' Hn HG Hs) as Hinv.
    destruct (g_head _ _ _ _ _ HG) as (x & Hx & Hc & _).
    assert (forall t y, bthreads s !! t = Some y -> b_loc y <> Control) as Hnc.
    { intros t y Hy E. destruct (decide (t = h)) as [->|Ht].
      - simplify_eq. destruct Hc as [E'|[_ E']]; congruence.
      - destruct (g_quiet _ _ _ _ _ HG t y Ht Hy) as (Q & _). apply q_loc in Q. unfold outside in Q. by rewrite E in Q. }
    assert ((exists iter' k' x', bthreads s' !! h = Some x' /\ collects iter' k' (b_loc x') /\ in_round h iter' s') ->
      tracked s') as Hround.
    { intros (iter' & k' & x' & Hx' & Hc' & HR'). destruct (inv_collects s' h x' iter' k' Hinv Hx' Hc') as [pend' HG'].
      by eapply tracked_round. }
    assert (exists t, (l = Run t \/ l = Suspend t \/ exists g, l = Signal t g) /\ is_Some (bthreads s !! t))
      as (t & Hl & [y Hy]).
    { destruct l as [t g|t|t|t u st|t cont|t cont|t]; cbn in Hs; destruct (bthreads s !! t) as [y|] eqn:Hy; try done; cbn in Hs;
        try (exists t; rewrite Hy; by eauto).
      - destruct (bthreads s !! u); [|done]. cbn in Hs. rewrite decide_False in Hs by eauto. done.
      - rewrite decide_False in Hs by naive_solver. done.
      - rewrite decide_False in Hs by naive_solver. done. }
    destruct (decide (t = h)) as [->|Ht].
    + simplify_eq. destruct Hl as [-> |[-> |[g ->]]]; cbn in Hs; rewrite Hx in Hs; cbn in Hs; unfold thread_step in Hs;
        destruct Hc as [E|[-> E]]; rewrite E in Hs; try done.
      * apply Hround. eapply kill_round; eauto.
      * destruct (collect_round pend h k x s s' HG HR Hx Hs) as [|(k' & x' & H)]; [done|]. apply Hround. by exists [], k', x'.
    + destruct (answer_step pend h iter k t y l s s' Hn HG HR Ht Hy Hl Htm Hs) as [HR' Hh].
      apply Hround. exists iter, k, x. by rewrite Hh.
  - pose proof (stopped_step h l s s' HS HP (timely_served s l Htm) Hs) as Hinv.
    destruct (rest_step l s s' Hb Htm Hs) as [Hb'|(t & x & -> & Hx & Hl)]; [by apply inv_rest|]. exfalso.
    destruct (decide (t = h)) as [->|Ht].
    + destruct (s_head _ _ HS) as (z & Hz & _ & Hld & _). simplify_eq. unfold leads in Hld. by rewrite Hl in Hld.
    + destruct (s_parked _ _ HS t x Ht Hx) as (Hp & _). apply parked_waiting in Hp as [Hp _].
      unfold waiting in Hp. by rewrite Hl in Hp.
Qed.

Lemma timely_tracked n s : 2 <= n -> rtc timely_interleave (started n) s -> tracked s.
Proof.
  intros Hn Hr. assert (tracked s /\ length (bthreads s) = n) as [H _]; [|exact H]. revert s Hr.
  apply (rtc_ind_r (fun s => tracked s /\ length (bthreads s) = n)).
  - split; [|apply length_replicate]. apply inv_rest; [apply started_inv|].
    apply Forall_forall. intros x Hx. apply elem_of_replicate in Hx as [-> _]. done.
  - intros s1 s2 _ (l & HP & Ht & Hst) [IH Hl]. split; [|by rewrite (step_length _ _ _ Hst)].
    eapply tracked_step; eauto. lia.
Qed.

Lemma timely_stuck n s :
  2 <= n -> rtc timely_interleave (started n) s -> nf settles s -> at_rest s \/ attended s.
Proof.
  intros Hn Hs Hnf. pose proof (reachable_walks n s (timely_reachable n s Hs)) as Hw.
  destruct (timely_tracked n s Hn Hs) as [pend HI _|pend h iter k HG HR|h HS _].
  - left. by eapply idle_stuck.
  - exfalso. destruct (gather_stuck _ _ _ _ _ Hw Hnf HG) as (-> & x & k' & i & y & _ & _ & _ & Hi & Hy & Hl & Hk).
    pose proof (proj2 HR i y Hi Hy) as Ha. destruct (g_quiet _ _ _ _ _ HG i y Hi Hy) as [Q _].
    assert (parked y = false) as Hp by (unfold parked, waiting; by rewrite Hl).
    destruct (quiet_awake _ _ _ Q Hp) as [_ Hr']. rewrite Hr' in Ha. destruct Ha as (_ & _ & Ha). rewrite Hl in Ha.
    rewrite bool_decide_eq_true_2 in Ha by set_solver. destruct Ha. congruence.
  - right. by eapply stopped_stuck.
Qed.

(** C7: the barrier comes to rest. From every state the threads can reach, the
    steps of the library and the delivery of its suspend signals come to an end
    in whatever order they are made, unless a further event, a request or the
    end of the event keeps them going. Where they end, either every thread that
    the debugger has not suspended is back in application code; or one thread is
    with the debugger, or steps over a breakpoint, and all others are held; or the
    control thread waits for a thread that runs and was never asked, because a
    suspend signal was lost; or a continue request was refused, and the thread
    that served it is back in application code, or held itself, with the barrier
    closed and all others held. The last is impossible when every continue request
    is served; the last two are when in addition no thread ends, nobody else sends
    the suspend signal and control is taken only after the last round, with its
    signals delivered and the running threads back or there with an event. *)
Theorem barrier_settles (n : nat) (s : barrier) :
  2 <= n -> rtc interleave (started n) s ->
  sn settles s /\
  (forall s', rtc settles s s' -> nf settles s' ->
     at_rest s' \/ attended s' \/ signal_lost s' \/ deserted s') /\
  (forall s', rtc served_interleave (started n) s' -> nf settles s' ->
     at_rest s' \/ attended s' \/ signal_lost s') /\
  (forall s', rtc timely_interleave (started n) s' -> nf settles s' -> at_rest s' \/ attended s').
Proof.
  intros Hn Hr. split; [by eapply settling_ends|]. split; [|split].
  - intros s' Hs Hnf. assert (rtc interleave (started n) s') as Hr'.
    { transitivity s; [exact Hr|]. eapply rtc_subrel; [|exact Hs]. apply settles_interleave. }
    pose proof (reachable_walks n s' Hr') as Hw.
    destruct (reachable_inv n s' Hn Hr') as [[Hi|[h HA]] _].
    + destruct (inv_stuck s' Hw Hnf Hi) as [|[|]]; auto.
    + right. right. right. by eapply abandoned_stuck.
  - intros s' Hs Hnf. apply inv_stuck; [by eapply reachable_walks, served_reachable|done|by eapply served_inv].
  - intros s' Hs Hnf. eapply timely_stuck; eauto.
Qed.

(** ** Three threads *)

Module LiveDemo.
Import BarrierDemo.

Lemma three_stopped_reachable : rtc interleave (started 3) three_stopped.
Proof. apply (run_interleaves (stop 0 [1; 2])); vm_compute; reflexivity. Qed.

(** The debugger's continue request is refused. *)
Definition refused : barrier :=
  default three_stopped (run [Failed 0 false; Run 0] three_stopped).

Lemma refused_reachable : rtc interleave (started 3) refused.
Proof.
  transitivity three_stopped; [exact three_stopped_reachable|].
  apply (run_interleaves [Failed 0 false; Run 0]); vm_compute; reflexivity.
Qed.

(** Decides whether a state of three threads is at rest, by trying their steps. *)
Ltac three_rest := intros (?s & ?t & ?H);
  match goal with t : nat |- _ => destruct t as [|[|[|t]]] end;
  match goal with H : _ \/ _ |- _ => vm_compute in H; destruct H; discriminate end.

(** Of a thread that is not at [l]. *)
Ltac not_there H := exfalso;
  try match type of H with _ !! ?i = Some _ => is_var i; destruct i as [|[|[|i]]] end;
  vm_compute in H; try discriminate H; injection H as <-;
  repeat match goal with E : _ \/ _ |- _ => destruct E | E : _ /\ _ |- _ => destruct E end; discriminate.

(** Thread 0 is with the debugger, 1 and 2 are held; at the start all run; when
    the request is refused 0 runs and 1 and 2 stay where they are. *)
Lemma barrier_settles_witness :
  sn settles three_stopped /\ attended three_stopped /\ at_rest (started 3) /\ deserted refused.
Proof.
  assert (2 <= 3) as Hn by lia.
  destruct (barrier_settles 3 three_stopped Hn three_stopped_reachable) as (Hsn & Hend & Hserved & Htimely).
  destruct (barrier_settles 3 refused Hn refused_reachable) as (_ & Hend' & _).
  split; [exact Hsn|]. split; [|split].
  - destruct (Hend three_stopped) as [Hr|[Ha|[(h & x & k & i & y & Hx & Hl & _)|(_ & _ & h & x & Hx & Hl & Hp)]]].
    + reflexivity.
    + three_rest.
    + exfalso. destruct (bthreads three_stopped !! 0) as [x|] eqn:E; [|vm_compute in E; discriminate E].
      pose proof (Hr 0 x E) as H. vm_compute in E. injection E as <-. destruct H as [H _]. discriminate H.
    + exact Ha.
    + not_there Hx.
    + exfalso. destruct h as [|h].
      * not_there Hx.
      * assert (is_Some (bthreads three_stopped !! 0)) as [y E] by (vm_compute; eauto).
        pose proof (Hp 0 y (O_S h) E) as H. vm_compute in E. injection E as <-. discriminate H.
  - destruct (Htimely (started 3)) as [Hr|(h & x & Hx & Hl & _)].
    + reflexivity.
    + three_rest.
    + exact Hr.
    + not_there Hx.
  - destruct (Hend' refused) as [Hr|[(h & x & Hx & Hl & _)|[(h & x & k & i & y & Hx & Hl & _)|Hd]]].
    + reflexivity.
    + three_rest.
    + exfalso. destruct (bthreads refused !! 1) as [x|] eqn:E; [|vm_compute in E; discriminate E].
      pose proof (Hr 1 x E) as H. vm_compute in E. injection E as <-. destruct H as [H _]. discriminate H.
    + not_there Hx.
    + not_there Hx.
    + exact Hd.
Defined.
End LiveDemo.
