(* ===== verification/Format.v ===== *)
(** * Signal-safe formatted output: the logging section of udirt.c

    Every printing function of the source takes a callback and its context.
    Here the context is a value of some type [S], a callback maps a context
    and the bytes handed to it to the next context, and [None] stands for
    behaviour C leaves undefined (a directive without its argument, a format
    that ends in a bare [%], the negation of [INT_MIN]). *)

From Stdlib Require Import Ascii String.
From S2P Require Import Prelude External Types.
Local Open Scope Z_scope.

Definition LEFT_SQ : list Z := cstr "[".
Definition RIGHT_SQ : list Z := cstr "]".
Definition COLON : list Z := cstr ":".
Definition LF : list Z := [10].
Definition HEX_PREFIX : list Z := cstr "0x".
Definition NEG : list Z := cstr "-".
Definition SPACE : list Z := cstr " ".

(** A variadic argument: an integer of any width, or a [char *]. *)
Inductive va : Type := VInt (z : Z) | VStr (s : list Z).

Section Callbacks.
Context {S : Type} (cb : S -> list Z -> S).

(** The digit loop of [udi_log_integer]: [buf] filled from its low end, at
    most [room] digits. *)
Fixpoint integer_digits (room : nat) (value : Z) : list Z :=
  match room with
  | O => []
  | Datatypes.S room' =>
      (Z.rem value 10 + chr "0") ::
      (let value' := Z.quot value 10 in
       if 0 <? value' then integer_digits room' value' else [])
  end.

Definition udi_log_integer (ctx : S) (value : Z) : option S :=
  if value =? INT_MIN then None
  else
    let buf := integer_digits 10 (if value <? 0 then - value else value) in
    let ctx := if value <? 0 then cb ctx NEG else ctx in
    Some (foldl (fun c d => cb c [d]) ctx (rev buf)).

Definition udi_log_nibble (ctx : S) (nibble : Z) : S :=
  cb ctx [if nibble <? 10 then nibble + chr "0" else nibble - 10 + chr "a"].

Definition udi_log_byte (ctx : S) (byte : Z) : S :=
  let ctx := udi_log_nibble ctx (Z.shiftr (Z.land byte 0xf0) 4) in
  udi_log_nibble ctx (Z.land byte 0x0f).

(** The loop runs with [shift] = 56, 48, .., 8: [n] is [shift / 8]. *)
Fixpoint udi_log_64bit_loop (n : nat) (ctx : S) (address : Z) : S :=
  match n with
  | O => ctx
  | Datatypes.S n' =>
      let shift := 8 * Z.of_nat n in
      let ctx := udi_log_byte ctx (Z.land (u8 (Z.shiftr address shift)) 0xff) in
      udi_log_64bit_loop n' ctx address
  end.

Definition udi_log_64bit (ctx : S) (address : Z) : S :=
  udi_log_byte (udi_log_64bit_loop 7 ctx address) (Z.land (u8 address) 0xff).

Definition udi_log_address (ctx : S) (address : Z) : S :=
  udi_log_64bit (cb ctx HEX_PREFIX) address.

Definition udi_log_string (ctx : S) (string : list Z) : S := cb ctx string.

Definition udi_log_size_t (ctx : S) (value : Z) : option S :=
  udi_log_integer ctx (i32 value).

Definition udi_log_error `{Libc} (ctx : S) (error : Z) : S :=
  udi_log_string ctx (strerror_r error).

(** One directive: the switch on the character after a [%]. *)
Definition udi_log_directive `{Libc} (ctx : S) (c : Z) (args : list va)
    : option (S * list va) :=
  if c =? chr "a" then
    match args with VInt z :: args => Some (udi_log_address ctx (u64 z), args) | _ => None end
  else if c =? chr "e" then
    match args with VInt z :: args => Some (udi_log_error ctx (i32 z), args) | _ => None end
  else if c =? chr "s" then
    match args with VStr s :: args => Some (udi_log_string ctx s, args) | _ => None end
  else if c =? chr "d" then
    match args with
    | VInt z :: args => (fun ctx => (ctx, args)) <$> udi_log_integer ctx (i32 z)
    | _ => None
    end
  else if c =? chr "b" then
    match args with VInt z :: args => Some (udi_log_byte ctx (u8 z), args) | _ => None end
  else if c =? chr "l" then
    match args with
    | VInt z :: args => (fun ctx => (ctx, args)) <$> udi_log_size_t ctx (u64 z)
    | _ => None
    end
  else if c =? chr "x" then
    match args with VInt z :: args => Some (udi_log_64bit ctx (u64 z), args) | _ => None end
  else Some (cb ctx [c], args).

Fixpoint udi_log_varargs `{Libc} (ctx : S) (format : list Z) (args : list va) : option S :=
  match format with
  | [] => Some ctx
  | c :: format' =>
      if c =? chr "%" then
        match format' with
        | [] => None
        | k :: format'' =>
            match udi_log_directive ctx k args with
            | Some (ctx', args') => udi_log_varargs ctx' format'' args'
            | None => None
            end
        end
      else udi_log_varargs (cb ctx [c]) format' args
  end.
End Callbacks.

(** ** The two sinks: the log and a bounded string *)

(** [udi_log_formatted] between [udi_log_lock] and [udi_log_unlock]; the
    context is whatever [write_log] appends to. *)
Definition udi_log_formatted `{Libc} {S} (write_log : S -> list Z -> S) (ctx : S)
    (format : string) (file : string) (line : Z) (args : list va) : option S :=
  let ctx := udi_log_string write_log ctx (cstr file) in
  let ctx := write_log ctx LEFT_SQ in
  ctx ← udi_log_integer write_log ctx line;
  let ctx := write_log ctx RIGHT_SQ in
  let ctx := write_log ctx COLON in
  let ctx := write_log ctx SPACE in
  ctx ← udi_log_varargs write_log ctx (cstr format) args;
  Some (write_log ctx LF).

Definition udi_log_formatted_noprefix `{Libc} {S} (write_log : S -> list Z -> S) (ctx : S)
    (format : string) (args : list va) : option S :=
  udi_log_varargs write_log ctx (cstr format) args.

Record str_ctx : Type := StrCtx { sc_str : list Z; sc_size : Z; sc_idx : Z }.

(** [memcpy] into a buffer at an index. *)
Definition copy_into (buf : list Z) (at_ : nat) (data : list Z) : list Z :=
  take at_ buf ++ data ++ drop (at_ + length data) buf.

Definition write_string (ctx : str_ctx) (data : list Z) : str_ctx :=
  let len := Z.of_nat (length data) in
  let copy_len := if sc_size ctx <? sc_idx ctx + len then sc_size ctx - sc_idx ctx else len in
  if 0 <? copy_len then
    StrCtx (copy_into (sc_str ctx) (Z.to_nat (sc_idx ctx)) (take (Z.to_nat copy_len) data))
           (sc_size ctx) (sc_idx ctx + copy_len)
  else ctx.

Definition udi_formatted_str `{Libc} (str : list Z) (size : Z) (format : string)
    (args : list va) : option (list Z) :=
  ctx ← udi_log_varargs write_string (StrCtx str (u64 (size - 1)) 0) (cstr format) args;
  Some (copy_into (sc_str ctx) (Z.to_nat (sc_idx ctx)) [0]).

(** The bytes of a buffer up to its terminator. *)
Fixpoint c_string (buf : list Z) : list Z :=
  match buf with
  | [] => []
  | c :: buf' => if c =? 0 then [] else c :: c_string buf'
  end.

(** ** A callback sees the same chunks whatever it does with them *)

Section Homomorphism.
Context {S1 S2 : Type} (cb1 : S1 -> list Z -> S1) (cb2 : S2 -> list Z -> S2).
Context (f : S1 -> S2) (Hf : forall s d, f (cb1 s d) = cb2 (f s) d).

Lemma foldl_hom (ds : list Z) s :
  foldl (fun c d => cb2 c [d]) (f s) ds = f (foldl (fun c d => cb1 c [d]) s ds).
Proof. revert s. induction ds as [|d ds IH]; intros s; cbn; [done|]. now rewrite <- Hf. Qed.

Lemma integer_hom s v :
  udi_log_integer cb2 (f s) v = f <$> udi_log_integer cb1 s v.
Proof.
  unfold udi_log_integer. destruct (v =? INT_MIN); [done|].
  destruct (v <? 0); cbn [fmap option_fmap option_map];
    now rewrite <- ?Hf, foldl_hom.
Qed.

Lemma byte_hom s b : udi_log_byte cb2 (f s) b = f (udi_log_byte cb1 s b).
Proof. unfold udi_log_byte, udi_log_nibble. now rewrite !Hf. Qed.

Lemma bit64_hom s a : udi_log_64bit cb2 (f s) a = f (udi_log_64bit cb1 s a).
Proof.
  unfold udi_log_64bit. rewrite <- byte_hom. f_equal.
  generalize 7%nat. intros n. revert s. induction n as [|n IH]; intros s; [done|].
  cbn [udi_log_64bit_loop]. now rewrite byte_hom, IH.
Qed.

Lemma directive_hom `{Libc} s c args :
  udi_log_directive cb2 (f s) c args
  = (fun '(s', args') => (f s', args')) <$> udi_log_directive cb1 s c args.
Proof.
  unfold udi_log_directive, udi_log_address, udi_log_error, udi_log_string, udi_log_size_t.
  repeat (case_match; [destruct args as [|[z|z] args]; cbn;
    rewrite ?integer_hom, ?byte_hom, <- ?Hf, ?bit64_hom; try done;
    destruct (udi_log_integer cb1 s _); reflexivity|]).
  cbn. now rewrite <- Hf.
Qed.

Lemma varargs_hom `{Libc} format s args :
  udi_log_varargs cb2 (f s) format args = f <$> udi_log_varargs cb1 s format args.
Proof.
  revert s args. induction format as [format IH] using (induction_ltof1 _ (@length Z)).
  unfold ltof in IH. intros s args. destruct format as [|c format]; [done|]. cbn.
  destruct (c =? chr "%").
  - destruct format as [|k format]; [done|]. rewrite directive_hom.
    destruct (udi_log_directive cb1 s k args) as [[s' args']|]; [|done]. cbn.
    apply IH. cbn. lia.
  - rewrite <- Hf. apply IH. cbn. lia.
Qed.
End Homomorphism.

(** The chunks a format hands to its callback, and the text they make up. *)
Definition chunks `{Libc} (format : list Z) (args : list va) : option (list (list Z)) :=
  udi_log_varargs (fun acc d => acc ++ [d]) [] format args.

Definition formatted `{Libc} (format : list Z) (args : list va) : option (list Z) :=
  @concat Z <$> chunks format args.

Lemma varargs_chunks `{Libc} {S} (cb : S -> list Z -> S) s format args :
  udi_log_varargs cb s format args = foldl cb s <$> chunks format args.
Proof.
  unfold chunks.
  change s with (foldl cb s []) at 1.
  apply (varargs_hom _ cb (fun ds => foldl cb s ds)). intros acc d.
  now rewrite foldl_app.
Qed.

Lemma formatted_append `{Libc} format args :
  udi_log_varargs (@app Z) [] format args = formatted format args.
Proof.
  rewrite varargs_chunks. unfold formatted. destruct (chunks format args) as [ds|]; [|done].
  cbn. f_equal. rewrite <- (app_nil_l (concat ds)). generalize (@nil Z).
  induction ds as [|d ds IH]; intros l; cbn; [now rewrite app_nil_r|].
  now rewrite IH, app_assoc.
Qed.

(** Whether the directives of a format find the arguments they need: then the
    format produces a text, whatever the callback. *)
Definition directive_ok (c : Z) (args : list va) : option (list va) :=
  let int := match args with VInt _ :: args => Some args | _ => None end in
  let str := match args with VStr _ :: args => Some args | _ => None end in
  let num := match args with
             | VInt z :: args => if i32 z =? INT_MIN then None else Some args
             | _ => None
             end in
  if c =? chr "a" then int
  else if c =? chr "e" then int
  else if c =? chr "s" then str
  else if c =? chr "d" then num
  else if c =? chr "b" then int
  else if c =? chr "l" then num
  else if c =? chr "x" then int
  else Some args.

Fixpoint args_ok (format : list Z) (args : list va) : bool :=
  match format with
  | [] => true
  | c :: format' =>
      if c =? chr "%" then
        match format' with
        | [] => false
        | k :: format'' =>
            match directive_ok k args with
            | Some args' => args_ok format'' args'
            | None => false
            end
        end
      else args_ok format' args
  end.

Lemma i32_u64 z : i32 (u64 z) = i32 z.
Proof.
  unfold i32, u64. f_equal. rewrite (Z.add_mod (z mod 2 ^ 64)), (Z.add_mod z) by lia.
  do 2 f_equal. change (2 ^ 64) with (2 ^ 32 * 2 ^ 32).
  rewrite Z.rem_mul_r by lia. rewrite (Z.mul_comm (2 ^ 32)), Z_mod_plus_full. apply Z.mod_mod. lia.
Qed.

Lemma i32_i32 z : i32 (i32 z) = i32 z.
Proof. apply i32_small. unfold i32, INT_MIN, INT_MAX. pose proof (Z.mod_pos_bound (z + 2 ^ 31) (2 ^ 32) ltac:(lia)). lia. Qed.

Lemma integer_ok {S} (cb : S -> list Z -> S) s v :
  (v =? INT_MIN) = false -> exists s', udi_log_integer cb s v = Some s'.
Proof. unfold udi_log_integer. intros ->. eauto. Qed.

Lemma directive_ok_Some `{Libc} {S} (cb : S -> list Z -> S) s c args args' :
  directive_ok c args = Some args' -> exists s', udi_log_directive cb s c args = Some (s', args').
Proof.
  unfold directive_ok, udi_log_directive, udi_log_size_t.
  repeat (case_match; [intros Hd; destruct args as [|[z|z] args]; try discriminate Hd;
    try (injection Hd as <-; eexists; reflexivity); rewrite ?i32_u64;
    destruct (i32 z =? INT_MIN) eqn:E; try discriminate Hd; injection Hd as <-;
    destruct (integer_ok cb s _ E) as [s' ->]; eexists; reflexivity|]).
  intros Hd. injection Hd as <-. eauto.
Qed.

Lemma args_ok_varargs `{Libc} {S} (cb : S -> list Z -> S) format s args :
  args_ok format args = true -> is_Some (udi_log_varargs cb s format args).
Proof.
  revert s args. induction format as [format IH] using (induction_ltof1 _ (@length Z)).
  unfold ltof in IH. intros s args. destruct format as [|c format]; cbn; [eauto|].
  destruct (c =? chr "%"); [|apply IH; cbn; lia].
  destruct format as [|k format]; [discriminate|].
  destruct (directive_ok k args) as [args'|] eqn:E; [|discriminate].
  destruct (directive_ok_Some cb s k args args' E) as [s' ->]. apply IH. cbn. lia.
Qed.

Lemma args_ok_formatted `{Libc} format args :
  args_ok format args = true -> is_Some (formatted format args).
Proof. intros Ho. rewrite <- formatted_append. now apply args_ok_varargs. Qed.

(** ** The bounded string sink *)

Lemma copy_into_length buf n data :
  (n + length data <= length buf)%nat -> length (copy_into buf n data) = length buf.
Proof. intros H. unfold copy_into. rewrite !length_app, length_take, length_drop. lia. Qed.

Lemma copy_into_app buf n d1 d2 :
  (n + length d1 <= length buf)%nat ->
  copy_into (copy_into buf n d1) (n + length d1) d2 = copy_into buf n (d1 ++ d2).
Proof.
  intros H. unfold copy_into. rewrite length_app.
  assert (Hl : length (take n buf ++ d1) = (n + length d1)%nat)
    by (rewrite length_app, length_take; lia).
  replace (take n buf ++ d1 ++ drop (n + length d1) buf)
    with ((take n buf ++ d1) ++ drop (n + length d1) buf) by now rewrite app_assoc.
  rewrite take_app_length' by lia. rewrite drop_app_ge by lia.
  rewrite drop_drop, Hl, <- !app_assoc. do 4 f_equal. lia.
Qed.

(** The state of the sink after the text [out]. *)
Definition sink (buf : list Z) (size : nat) (out : list Z) : str_ctx :=
  StrCtx (copy_into buf 0 (take size out)) (Z.of_nat size)
         (Z.of_nat (length (take size out))).

Lemma write_string_sink buf size out d :
  (size <= length buf)%nat ->
  write_string (sink buf size out) d = sink buf size (out ++ d).
Proof.
  intros Hs. unfold write_string, sink. cbn [sc_str sc_size sc_idx].
  set (k := length (take size out)).
  assert (Hk : (k <= size)%nat) by (unfold k; rewrite length_take; lia).
  assert (Hd : take size (out ++ d) = take size out ++ take (size - k) d).
  { unfold k. rewrite take_app, length_take. f_equal. f_equal. lia. }
  set (n := length (take (size - k) d)).
  assert (Hn : n = Nat.min (size - k) (length d)) by (unfold n; now rewrite length_take).
  replace (if Z.of_nat size <? Z.of_nat k + Z.of_nat (length d)
           then Z.of_nat size - Z.of_nat k else Z.of_nat (length d)) with (Z.of_nat n)
    by (destruct (Z.ltb_spec (Z.of_nat size) (Z.of_nat k + Z.of_nat (length d))); lia).
  rewrite Hd. destruct (Z.ltb_spec 0 (Z.of_nat n)).
  - rewrite !Nat2Z.id. f_equal.
    + assert (Ht : take n d = take (size - k) d).
      { rewrite Hn. destruct (Nat.le_ge_cases (size - k) (length d)).
        - now rewrite Nat.min_l by lia.
        - rewrite Nat.min_r by lia. rewrite !take_ge by lia. done. }
      rewrite Ht. apply (copy_into_app buf 0 (take size out)). fold k. lia.
    + rewrite length_app. fold k n. lia.
  - assert (take (size - k) d = []) as -> by (apply nil_length_inv; fold n; lia).
    now rewrite app_nil_r.
Qed.

Lemma foldl_sink buf size ds :
  (size <= length buf)%nat ->
  foldl write_string (StrCtx buf (Z.of_nat size) 0) ds = sink buf size (concat ds).
Proof.
  intros Hs. replace (StrCtx buf (Z.of_nat size) 0) with (sink buf size [])
    by (unfold sink; now rewrite take_nil).
  rewrite <- (app_nil_l (concat ds)). generalize (@nil Z).
  induction ds as [|d ds IH]; intros out; cbn [concat foldl].
  - now rewrite app_nil_r.
  - now rewrite write_string_sink, IH, app_assoc.
Qed.

Lemma formatted_str_spec `{Libc} (str : list Z) (size : Z) (format : string)
    (args : list va) (out : list Z) :
  1 <= size < 2 ^ 64 -> size <= Z.of_nat (length str) ->
  formatted (cstr format) args = Some out ->
  let cut := take (Z.to_nat (size - 1)) out in
  exists buf, udi_formatted_str str size format args = Some buf /\
    buf = cut ++ [0] ++ drop (length cut + 1) str /\
    length buf = length str.
Proof.
  intros Hs Hl Hout cut. unfold udi_formatted_str. rewrite varargs_chunks.
  unfold formatted in Hout. destruct (chunks (cstr format) args) as [ds|]; [|done].
  cbn in Hout. injection Hout as <-. cbn.
  rewrite u64_small by lia.
  set (n := Z.to_nat (size - 1)) in *. replace (size - 1) with (Z.of_nat n) by lia.
  rewrite foldl_sink by lia. unfold sink. cbn [sc_str sc_idx]. fold cut.
  rewrite Nat2Z.id.
  assert (Hcut : (length cut <= n)%nat) by (unfold cut; rewrite length_take; lia).
  eexists. split; [reflexivity|].
  change (copy_into (copy_into str 0 cut) (length cut) [0])
    with (copy_into (copy_into str 0 cut) (0 + length cut) [0]).
  rewrite copy_into_app by lia. split.
  - unfold copy_into. cbn. rewrite length_app. now rewrite <- app_assoc.
  - apply copy_into_length. rewrite length_app. cbn. lia.
Qed.

(** [udi_formatted_str] into a buffer of [size] bytes (1 or more) stores
    the formatted text cut to [size - 1] bytes and a terminator, and leaves
    every byte behind the terminator, and so every byte past [size], as it
    was: no format and no argument makes it write outside the buffer. *)
Theorem udi_formatted_str_bounded `{Libc} (str : list Z) (size : Z) (format : string)
    (args : list va) (out : list Z) :
  1 <= size < 2 ^ 64 -> size <= Z.of_nat (length str) ->
  formatted (cstr format) args = Some out ->
  let cut := take (Z.to_nat (size - 1)) out in
  exists buf, udi_formatted_str str size format args = Some buf /\
    buf = cut ++ [0] ++ drop (length cut + 1) str /\
    length buf = length str.
Proof. apply formatted_str_spec. Qed.

Lemma udi_formatted_str_bounded_witness :
  udi_formatted_str (replicate 20 7) 16 "%x"%string (H := flat_libc) [VInt 0x7fff7b218000]
  = Some (cstr "00007fff7b21800" ++ [0] ++ replicate 4 7).
Proof.
  destruct (udi_formatted_str_bounded (H := flat_libc) (replicate 20 7) 16 "%x"%string
              [VInt 0x7fff7b218000] (cstr "00007fff7b218000"))
    as (buf & -> & -> & _); [lia|cbn; lia|vm_compute; reflexivity|].
  vm_compute. reflexivity.
Defined.

Lemma c_string_app cut rest : c_string (cut ++ 0 :: rest) = c_string cut.
Proof. induction cut as [|c cut IH]; cbn; [done|]. now rewrite IH. Qed.

(** ** Decimal output *)

(** Reading a decimal numeral back. *)
Definition digits_value (ds : list Z) : Z :=
  foldl (fun acc d => 10 * acc + (d - chr "0")) 0 ds.

Definition decimal_value (s : list Z) : Z :=
  match s with
  | c :: ds => if c =? chr "-" then - digits_value ds else digits_value s
  | [] => 0
  end.

(** Replace the character constants by their codes. *)
Ltac chars :=
  change (chr "0") with 48 in *; change (chr "9") with 57 in *;
  change (chr "a") with 97 in *; change (chr "-") with 45 in *.

Definition is_digit (d : Z) : Prop := chr "0" <= d <= chr "9".

Lemma digits_value_snoc ds d :
  digits_value (ds ++ [d]) = 10 * digits_value ds + (d - chr "0").
Proof. unfold digits_value. now rewrite foldl_app. Qed.

Lemma integer_digits_correct room v :
  0 <= v < 10 ^ Z.of_nat (S room) ->
  digits_value (rev (integer_digits (S room) v)) = v /\
  Forall is_digit (integer_digits (S room) v).
Proof.
  revert v. induction room as [|room IH]; intros v Hv.
  - cbn [integer_digits]. rewrite Z.rem_mod_nonneg, Z.quot_div_nonneg by lia.
    change (10 ^ Z.of_nat 1) with 10 in Hv.
    rewrite (Z.div_small v 10), (Z.mod_small v 10) by lia.
    cbn [Z.ltb Z.compare rev app]. unfold digits_value, is_digit. cbn [foldl]. chars.
    split; [lia|]. constructor; [lia|constructor].
  - remember (S room) as n eqn:Hn. cbn [integer_digits].
    rewrite Z.rem_mod_nonneg, Z.quot_div_nonneg by lia.
    pose proof (Z.mod_pos_bound v 10 ltac:(lia)).
    pose proof (Z.div_mod v 10 ltac:(lia)).
    assert (Hd : is_digit (v mod 10 + chr "0")) by (unfold is_digit; chars; lia).
    destruct (Z.ltb_spec 0 (v / 10)).
    + destruct (IH (v / 10)) as [IH1 IH2].
      { split; [lia|]. apply Z.div_lt_upper_bound; [lia|].
        rewrite <- Z.pow_succ_r by lia.
        replace (Z.succ (Z.of_nat n)) with (Z.of_nat (S n)) by lia. lia. }
      cbn [rev]. rewrite digits_value_snoc, IH1. split; [lia|]. now constructor.
    + split; [|constructor; [exact Hd|constructor]].
      unfold digits_value. cbn [rev app foldl]. chars. lia.
Qed.

Lemma udi_log_integer_text v :
  v <> INT_MIN ->
  udi_log_integer (@app Z) [] v =
    Some ((if v <? 0 then NEG else []) ++ rev (integer_digits 10 (Z.abs v))).
Proof.
  intros Hv. unfold udi_log_integer. rewrite (proj2 (Z.eqb_neq _ _)) by done.
  replace (if v <? 0 then - v else v) with (Z.abs v)
    by (destruct (Z.ltb_spec v 0); lia).
  f_equal. replace (if v <? 0 then [] ++ NEG else []) with (if v <? 0 then NEG else [])
    by now destruct (v <? 0).
  generalize (rev (integer_digits 10 (Z.abs v))) as ds.
  generalize (if v <? 0 then NEG else []) as l.
  intros l ds. revert l. induction ds as [|d ds IH]; intros l; cbn; [now rewrite app_nil_r|].
  now rewrite IH, <- app_assoc.
Qed.

(** For every [int] but [INT_MIN], [udi_log_integer] prints a decimal
    numeral that reads back as the argument, made of an optional sign and at
    most ten digits (the size of its buffer). *)
Theorem udi_log_integer_roundtrip (v : Z) :
  INT_MIN < v <= INT_MAX ->
  exists out, udi_log_integer (@app Z) [] v = Some out /\
    decimal_value out = v /\ (1 <= length out <= 11)%nat.
Proof.
  unfold INT_MAX. intros Hv. rewrite udi_log_integer_text by lia.
  destruct (integer_digits_correct 9 (Z.abs v)) as [Hval Hdig].
  { unfold INT_MIN in Hv. change (10 ^ Z.of_nat 10) with 10000000000. lia. }
  assert (Hlen : (1 <= length (integer_digits 10 (Z.abs v)) <= 10)%nat).
  { generalize (Z.abs v). clear. intros v. split; [cbn; lia|].
    assert (H : forall n w, (length (integer_digits n w) <= n)%nat).
    { induction n as [|n IH]; intros w; cbn; [lia|].
      destruct (0 <? Z.quot w 10); cbn; [specialize (IH (Z.quot w 10))|]; lia. }
    apply H. }
  eexists. split; [reflexivity|]. rewrite length_app, length_rev. split.
  - destruct (Z.ltb_spec v 0).
    + change (- digits_value (rev (integer_digits 10 (Z.abs v))) = v). lia.
    + cbn [app]. destruct (rev (integer_digits 10 (Z.abs v))) as [|d ds] eqn:E.
      { cbn in Hval. cbn. lia. }
      assert (Hd : is_digit d).
      { apply Forall_rev in Hdig. rewrite E in Hdig. now inversion Hdig. }
      unfold decimal_value, is_digit in *. chars.
      rewrite (proj2 (Z.eqb_neq _ _)) by lia. lia.
  - destruct (v <? 0); cbn [length NEG cstr]; lia.
Qed.

Lemma udi_log_integer_roundtrip_witness :
  exists out, udi_log_integer (@app Z) [] (-123) = Some out /\ decimal_value out = -123.
Proof.
  destruct (udi_log_integer_roundtrip (-123)) as (out & H & Hv & _).
  { unfold INT_MIN, INT_MAX. lia. }
  exists out. now split.
Defined.

(** ** Hexadecimal output *)

Definition nibble_char (n : Z) : Z := if n <? 10 then n + chr "0" else n - 10 + chr "a".
Definition char_nibble (c : Z) : Z := if c <? chr "a" then c - chr "0" else c - chr "a" + 10.

Definition hex_value (s : list Z) : Z := foldl (fun acc c => 16 * acc + char_nibble c) 0 s.

Lemma char_nibble_char n : 0 <= n < 16 -> char_nibble (nibble_char n) = n.
Proof.
  intros H. unfold char_nibble, nibble_char. chars.
  destruct (Z.ltb_spec n 10).
  - rewrite (proj2 (Z.ltb_lt _ _)) by lia. lia.
  - rewrite (proj2 (Z.ltb_ge _ _)) by lia. lia.
Qed.

Lemma udi_log_byte_text acc b :
  0 <= b < 256 ->
  udi_log_byte (@app Z) acc b = acc ++ [nibble_char (b / 16); nibble_char (b mod 16)].
Proof.
  intros Hb. unfold udi_log_byte, udi_log_nibble. rewrite <- app_assoc. cbn.
  rewrite Z.shiftr_land. change (Z.shiftr 240 4) with (Z.ones 4).
  change 15 with (Z.ones 4). rewrite !Z.land_ones, Z.shiftr_div_pow2 by lia.
  change (2 ^ 4) with 16. rewrite (Z.mod_small (b / 16)); [done|].
  split; [apply Z.div_pos; lia|apply Z.div_lt_upper_bound; lia].
Qed.

Lemma hex_value_byte acc b :
  0 <= b < 256 ->
  hex_value (udi_log_byte (@app Z) acc b) = 256 * hex_value acc + b.
Proof.
  intros Hb. rewrite udi_log_byte_text by done. unfold hex_value. rewrite foldl_app. cbn.
  pose proof (Z.div_mod b 16 ltac:(lia)). pose proof (Z.mod_pos_bound b 16 ltac:(lia)).
  assert (0 <= b / 16 < 16)
    by (split; [apply Z.div_pos; lia|apply Z.div_lt_upper_bound; lia]).
  rewrite !char_nibble_char by lia. lia.
Qed.

Lemma land_255_u8 z : Z.land (u8 z) 255 = u8 z.
Proof.
  change 255 with (Z.ones 8). rewrite Z.land_ones by lia. unfold u8. now rewrite Z.mod_mod.
Qed.

Lemma udi_log_64bit_loop_value n acc a :
  0 <= a ->
  hex_value (udi_log_64bit_loop (@app Z) n acc a)
  = 256 ^ Z.of_nat n * hex_value acc + (a / 256) mod 256 ^ Z.of_nat n.
Proof.
  intros Ha. revert acc. induction n as [|n IH]; intros acc.
  { change (256 ^ Z.of_nat 0) with 1. rewrite Z.mod_1_r. cbn [udi_log_64bit_loop]. lia. }
  assert (Hp : 0 < 256 ^ Z.of_nat n) by (apply Z.pow_pos_nonneg; lia).
  cbn [udi_log_64bit_loop]. rewrite IH, land_255_u8.
  rewrite hex_value_byte by apply u8_range.
  unfold u8. rewrite Z.shiftr_div_pow2 by lia.
  replace (2 ^ (8 * Z.of_nat (S n))) with (256 * 256 ^ Z.of_nat n)
    by (rewrite Nat2Z.inj_succ, Z.pow_mul_r, Z.pow_succ_r by lia; reflexivity).
  change (2 ^ 8) with 256.
  rewrite <- Z.div_div by lia.
  rewrite Nat2Z.inj_succ, Z.pow_succ_r by lia.
  rewrite (Z.mul_comm 256 (256 ^ _)).
  rewrite Z.rem_mul_r by lia. ring.
Qed.

Lemma udi_log_64bit_value a :
  0 <= a < 2 ^ 64 -> hex_value (udi_log_64bit (@app Z) [] a) = a.
Proof.
  intros Ha. unfold udi_log_64bit. rewrite land_255_u8, hex_value_byte by apply u8_range.
  rewrite udi_log_64bit_loop_value by lia. change (hex_value []) with 0.
  change (256 ^ Z.of_nat 7) with (2 ^ 56). unfold u8. change (2 ^ 8) with 256.
  rewrite (Z.mod_small (a / 256)).
  - pose proof (Z.div_mod a 256 ltac:(lia)). lia.
  - split; [apply Z.div_pos; lia|apply Z.div_lt_upper_bound; lia].
Qed.
