(* ===== verification/Memory.v ===== *)
(** * Abortable memory access: udirt.c and the fault handling of udirt-posix.c

    [read_memory] and [write_memory] copy bytes between the library and an
    arbitrary debuggee address. The copy may fault; the library's own signal
    handler then either unprotects the page and retries the byte, or moves
    the pc to [abort_label]. The handler's share of that protocol is
    [decode_memory_access_event]. *)

From Stdlib Require Import String.
From S2P Require Import Prelude External Types Format.

(** ** The innermost runtime state: the caller's error message, the allocator *)

(** [errmsg] is the text of the [udi_errmsg] passed down the call chain;
    [allocs] tells for the calls of [udi_malloc] to come whether they succeed
    (they do once it is empty). *)
Record rt : Type := Rt { errmsg : list Z; allocs : list bool }.

Definition udi_malloc : ST rt bool := fun s =>
  match allocs s with
  | [] => Ret true s
  | b :: bs => Ret b (Rt (errmsg s) bs)
  end.

(** The text [udi_set_errmsg] leaves in a [udi_errmsg]. *)
Definition errmsg_text `{Libc} (format : string) (args : list va) : option (list Z) :=
  c_string <$> udi_formatted_str (replicate (Z.to_nat ERRMSG_SIZE) 0) ERRMSG_SIZE format args.

Definition udi_set_errmsg `{Libc} (format : string) (args : list va) : ST rt unit := fun s =>
  match errmsg_text format args with
  | Some m => Ret tt (Rt m (allocs s))
  | None => Undef BadFormat
  end.

#[global] Arguments errmsg_text : simpl never.

(** ** State of the memory access component *)

Record access : Type := Access {
  a_rt : rt;
  space : aspace;
  mem_access_addr : Z;
  mem_access_size : Z;
  aborting_mem_access : bool;
  performing_mem_access : bool;
  failed_si_code : Z;
  sigmask : gset Z;
  (** what the coming calls of [setsigmask] return (0 once it is empty) *)
  sigmask_rc : list Z
}.

Definition put_rt (r : rt) (s : access) : access :=
  Access r (space s) (mem_access_addr s) (mem_access_size s) (aborting_mem_access s)
    (performing_mem_access s) (failed_si_code s) (sigmask s) (sigmask_rc s).
Definition put_space (x : aspace) (s : access) : access :=
  Access (a_rt s) x (mem_access_addr s) (mem_access_size s) (aborting_mem_access s)
    (performing_mem_access s) (failed_si_code s) (sigmask s) (sigmask_rc s).
Definition put_target (a n : Z) (s : access) : access :=
  Access (a_rt s) (space s) a n (aborting_mem_access s)
    (performing_mem_access s) (failed_si_code s) (sigmask s) (sigmask_rc s).
Definition put_aborting (b : bool) (s : access) : access :=
  Access (a_rt s) (space s) (mem_access_addr s) (mem_access_size s) b
    (performing_mem_access s) (failed_si_code s) (sigmask s) (sigmask_rc s).
Definition put_performing (b : bool) (s : access) : access :=
  Access (a_rt s) (space s) (mem_access_addr s) (mem_access_size s) (aborting_mem_access s)
    b (failed_si_code s) (sigmask s) (sigmask_rc s).
Definition put_si_code (c : Z) (s : access) : access :=
  Access (a_rt s) (space s) (mem_access_addr s) (mem_access_size s) (aborting_mem_access s)
    (performing_mem_access s) c (sigmask s) (sigmask_rc s).
Definition put_sigmask (m : gset Z) (rc : list Z) (s : access) : access :=
  Access (a_rt s) (space s) (mem_access_addr s) (mem_access_size s) (aborting_mem_access s)
    (performing_mem_access s) (failed_si_code s) m rc.

Definition on_rt {A} (m : ST rt A) : ST access A := zoom a_rt put_rt m.

Definition get_mem_access_addr : ST access Z := gets mem_access_addr.
Definition get_mem_access_size : ST access Z := gets mem_access_size.
Definition is_performing_mem_access : ST access bool := gets performing_mem_access.

(** [abort_mem_access] also returns the address of [abort_label]; that the
    handler resumes there is the [me_abort] flag of [mem_event] below. *)
Definition abort_mem_access : ST access unit := modify (put_aborting true).

(** ** Signals around a memory access *)

Definition SIGBUS : Z := 7.
Definition SIGSEGV : Z := 11.

Inductive sig_how : Type := SIG_BLOCK | SIG_UNBLOCK | SIG_SETMASK.

(** [setsigmask how new_set old_set]; [None] is a [NULL] set. *)
Definition setsigmask (how : sig_how) (new_set : option (gset Z)) : ST access (Z * gset Z) :=
  fun s =>
    let '(rc, rcs) := match sigmask_rc s with [] => (0, []) | rc :: rcs => (rc, rcs) end in
    if rc =? 0 then
      let m := match new_set, how with
               | None, _ => sigmask s
               | Some x, SIG_BLOCK => sigmask s ∪ x
               | Some x, SIG_UNBLOCK => sigmask s ∖ x
               | Some x, SIG_SETMASK => x
               end in
      Ret (rc, sigmask s) (put_sigmask m rcs s)
    else Ret (rc, ∅) (put_sigmask (sigmask s) rcs s).

(** The result is the original set, [None] on failure. *)
Definition pre_mem_access_hook : ST access (option (gset Z)) :=
  let* ok := on_rt udi_malloc in
  if negb ok then ret None
  else
    let* (rc, original_set) := setsigmask SIG_BLOCK None in
    if negb (rc =? 0) then ret None
    else
      let segv_set := original_set ∖ {[SIGSEGV; SIGBUS]} in
      let* (rc, original_set) := setsigmask SIG_SETMASK (Some segv_set) in
      if negb (rc =? 0) then ret None
      else ret (Some original_set).

Definition post_mem_access_hook (original_set : gset Z) : ST access Z :=
  let* (rc, _) := setsigmask SIG_SETMASK (Some original_set) in
  ret (if rc =? 0 then 0 else -1).

Definition get_mem_errstr (si_code : Z) : string :=
  if si_code =? SEGV_MAPERR then "address not mapped in process"%string
  else "unknown memory error"%string.

(** ** The fault handler *)

Record mem_event : Type := MemEvent {
  me_wait : bool;      (** [*wait_for_request] stays set *)
  me_abort : bool;     (** the pc of the context was set to [abort_label] *)
  me_result : Z
}.

Section Access.
Context `{Libc}.

Definition page_align (a : Z) : Z := Z.land a (Z.lnot (page_size - 1)).

Definition decode_memory_access_event (si_code : Z) : ST access mem_event :=
  let* performing := is_performing_mem_access in
  if performing then
    let* result :=
      if si_code =? SEGV_ACCERR then
        let* addr := get_mem_access_addr in
        let* size := get_mem_access_size in
        let* sp := gets space in
        match mprotect sp (page_align addr) size PROT_RWX with
        | inr errno =>
            on_rt (udi_set_errmsg "failed to modify permissions for memory access: %e"
                     [VInt errno]) ;;;
            ret RESULT_ERROR
        | inl sp' => modify (put_space sp') ;;; ret RESULT_SUCCESS
        end
      else ret RESULT_ERROR in
    if negb (result =? RESULT_SUCCESS) then
      abort_mem_access ;;;
      modify (put_si_code si_code) ;;;
      ret (MemEvent false true RESULT_SUCCESS)
    else ret (MemEvent false false RESULT_SUCCESS)
  else ret (MemEvent true false RESULT_SUCCESS).

(** ** The copy *)

(** One side of a copy: a debuggee address, or the library's own buffer. *)
Inductive place : Type := Debuggee (a : Z) | Library.

Definition load_place (src : place) (buf : list Z) (i : nat) (s : access) : option (Z + Z) :=
  match src with
  | Debuggee a => Some (load (space s) (u64 (a + Z.of_nat i)))
  | Library => inl <$> buf !! i
  end.

Definition store_place (dest : place) (buf : list Z) (i : nat) (b : Z) (s : access)
    : option ((list Z * access) + Z) :=
  match dest with
  | Debuggee a =>
      Some (match store (space s) (u64 (a + Z.of_nat i)) b with
            | inl sp => inl (buf, put_space sp s)
            | inr code => inr code
            end)
  | Library => if decide (i < length buf)%nat then Some (inl (<[i := b]> buf, s)) else None
  end.

(** [dest[i] = src[i]]: [inr] is a fault, [None] an access outside the
    library's buffer. *)
Definition copy_byte (dest src : place) (buf : list Z) (i : nat) (s : access)
    : option ((list Z * access) + Z) :=
  match load_place src buf i s with
  | None => None
  | Some (inr code) => Some (inr code)
  | Some (inl b) => store_place dest buf i b s
  end.

(** The [for] loop of [abortable_memcpy], up to [abort_label]. *)
Fixpoint copy_loop (fuel : nat) (dest src : place) (n i : nat) (buf : list Z)
    : ST access (list Z) := fun s =>
  match fuel with
  | O => Running s
  | S fuel' =>
      if decide (i < n)%nat then
        match copy_byte dest src buf i s with
        | None => Undef OutOfBounds
        | Some (inl (buf', s')) => copy_loop fuel' dest src n (S i) buf' s'
        | Some (inr code) =>
            match decode_memory_access_event code s with
            | Ret ev s' =>
                if me_abort ev then Ret buf s'
                else copy_loop fuel' dest src n i buf s'
            | Undef u => Undef u
            | Aborted s' => Aborted s'
            | Running s' => Running s'
            end
        end
      else Ret buf s
  end.

(** A byte needs at most one retry when the retry can succeed at all. *)
Definition copy_fuel (n : nat) : nat := S (2 * n).

Definition abortable_memcpy (dest src : place) (buf : list Z) (n : nat)
    : ST access (Z * list Z) :=
  let* buf := copy_loop (copy_fuel n) dest src n 0 buf in
  let* aborting := gets aborting_mem_access in
  if aborting then modify (put_aborting false) ;;; ret (-1, buf)
  else ret (0, buf).

Definition udi_memcpy (dest src : place) (buf : list Z) (num_bytes : nat)
    : ST access (Z * list Z) :=
  let* pre_access_result := pre_mem_access_hook in
  match pre_access_result with
  | None =>
      on_rt (udi_set_errmsg "pre memory access hook failed" []) ;;;
      ret (-1, buf)
  | Some original_set =>
      modify (put_performing true) ;;;
      let* (mem_result, buf) := abortable_memcpy dest src buf num_bytes in
      modify (put_performing false) ;;;
      let* post := post_mem_access_hook original_set in
      if negb (post =? 0) then
        on_rt (udi_set_errmsg "post memory access hook failed" []) ;;;
        ret (-1, buf)
      else ret (mem_result, buf)
  end.

(** [read_memory] fills a library buffer, whose new contents it returns. *)
Definition read_memory (dest : list Z) (src : Z) (num_bytes : nat) : ST access (Z * list Z) :=
  modify (put_target src (Z.of_nat num_bytes)) ;;;
  udi_memcpy Library (Debuggee src) dest num_bytes.

Definition write_memory (dest : Z) (src : list Z) (num_bytes : nat) : ST access Z :=
  modify (put_target dest (Z.of_nat num_bytes)) ;;;
  let* (result, _) := udi_memcpy (Debuggee dest) Library src num_bytes in
  ret result.
End Access.

(** ** Frame and invariant *)

(** Nothing interferes with an access: allocation and [setsigmask] succeed and
    no other access is under way. Every access starts and ends so. *)
Record calm (s : access) : Prop := {
  calm_allocs : allocs (a_rt s) = [];
  calm_rc : sigmask_rc s = [];
  calm_aborting : aborting_mem_access s = false;
  calm_performing : performing_mem_access s = false
}.

(** What a copy in progress leaves alone. *)
Definition same_frame (s s' : access) : Prop :=
  allocs (a_rt s') = allocs (a_rt s) /\ sigmask s' = sigmask s /\
  sigmask_rc s' = sigmask_rc s /\
  performing_mem_access s' = performing_mem_access s /\
  mem_access_addr s' = mem_access_addr s /\ mem_access_size s' = mem_access_size s.

#[export] Instance same_frame_refl : Reflexive same_frame.
Proof. now intros s. Qed.

#[export] Instance same_frame_trans : Transitive same_frame.
Proof. unfold same_frame. intros s1 s2 s3. intuition congruence. Qed.

Section Facts.
Context `{LC : Libc}.

(** The message a well-formed format leaves. *)
Definition errmsg_of (format : string) (args : list va) : list Z :=
  default [] (errmsg_text format args).

#[global] Arguments errmsg_of : simpl never.

Lemma set_errmsg_ok format args (r : rt) :
  is_Some (formatted (cstr format) args) ->
  udi_set_errmsg format args r = Ret tt (Rt (errmsg_of format args) (allocs r)).
Proof.
  intros [out Hout]. unfold udi_set_errmsg, errmsg_of, errmsg_text.
  destruct (formatted_str_spec (replicate (Z.to_nat ERRMSG_SIZE) 0) ERRMSG_SIZE
              format args out) as (buf & -> & _ & _).
  - unfold ERRMSG_SIZE. lia.
  - rewrite length_replicate. lia.
  - done.
  - reflexivity.
Qed.

Lemma decode_fault_frame code s ev s' :
  decode_memory_access_event code s = Ret ev s' -> same_frame s s'.
Proof.
  unfold decode_memory_access_event, is_performing_mem_access, get_mem_access_addr,
    get_mem_access_size, abort_mem_access.
  intros Hd. minv. destruct (performing_mem_access _) eqn:Hp; [|now minv].
  minv. destruct (negb _) eqn:E; minv.
  - destruct (code =? SEGV_ACCERR); minv; [|now unfold same_frame].
    destruct (mprotect _ _ _ _) as [sp'|errno]; minv; [discriminate|].
    unfold on_rt in *. minv. unfold udi_set_errmsg in *.
    destruct (errmsg_text _ _); [|discriminate]. minv. now unfold same_frame.
  - destruct (code =? SEGV_ACCERR); minv; [|done].
    destruct (mprotect _ _ _ _) as [sp'|errno]; minv; [now unfold same_frame|].
    discriminate.
Qed.

Lemma copy_byte_frame dest src buf i s buf' s' :
  copy_byte dest src buf i s = Some (inl (buf', s')) ->
  same_frame s s' /\ aborting_mem_access s' = aborting_mem_access s.
Proof.
  unfold copy_byte. destruct (load_place src buf i s) as [[b|c]|]; try discriminate.
  destruct dest as [a|]; cbn.
  - destruct (store _ _ _); [|discriminate]. inversion 1; subst. now split.
  - case_decide; [|discriminate]. inversion 1; subst. now split.
Qed.

Lemma decode_fault_performing code s ev s' :
  performing_mem_access s = true ->
  decode_memory_access_event code s = Ret ev s' ->
  me_abort ev = false -> aborting_mem_access s' = aborting_mem_access s.
Proof.
  unfold decode_memory_access_event, is_performing_mem_access, get_mem_access_addr,
    get_mem_access_size.
  intros Hp Hd Ha. minv. rewrite Hp in *. minv.
  destruct (negb _) eqn:E; minv; [discriminate|].
  destruct (code =? SEGV_ACCERR); minv; [|done].
  destruct (mprotect _ _ _ _) as [sp'|errno]; minv; [done|discriminate].
Qed.

Lemma copy_loop_frame fuel dest src n i buf s buf' s' :
  copy_loop fuel dest src n i buf s = Ret buf' s' -> same_frame s s'.
Proof.
  revert i buf s. induction fuel as [|fuel IH]; intros i buf s; cbn [copy_loop]; [discriminate|].
  case_decide; [|inversion 1; now subst].
  destruct (copy_byte dest src buf i s) as [[[buf1 s1]|code]|] eqn:Hc; [| |discriminate].
  - intros Hr. apply IH in Hr. apply copy_byte_frame in Hc as [Hc _]. etransitivity; eassumption.
  - destruct (decode_memory_access_event code s) as [ev s1| | |] eqn:Hd; try discriminate.
    apply decode_fault_frame in Hd. destruct (me_abort ev).
    + intros Hr. injection Hr as <- <-. exact Hd.
    + intros Hr. apply IH in Hr. etransitivity; eassumption.
Qed.

Lemma abortable_memcpy_frame dest src buf n s r buf' s' :
  abortable_memcpy dest src buf n s = Ret (r, buf') s' ->
  same_frame s s' /\ aborting_mem_access s' = false.
Proof.
  unfold abortable_memcpy. intros Hr. minv. apply copy_loop_frame in Hm.
  destruct (aborting_mem_access s1) eqn:Ha; minv; [|done].
  split; [|done]. etrans; [exact Hm|]. now unfold same_frame.
Qed.

(** The state in which the copy of a calm access starts. *)
Definition opened (s : access) : access :=
  put_performing true (put_sigmask (sigmask s ∖ {[SIGSEGV; SIGBUS]}) [] s).

Definition closed (s0 s : access) : access :=
  put_sigmask (sigmask s0) [] (put_performing false s).

Lemma pre_hook_calm s :
  calm s ->
  pre_mem_access_hook s
  = Ret (Some (sigmask s)) (put_sigmask (sigmask s ∖ {[SIGSEGV; SIGBUS]}) [] s).
Proof.
  intros [Ha Hrc _ _]. destruct s as [[em al] sp ma ms ab pe si m rc].
  cbn in Ha, Hrc. subst. reflexivity.
Qed.

Lemma post_hook_calm s m :
  sigmask_rc s = [] -> post_mem_access_hook m s = Ret 0 (put_sigmask m [] s).
Proof. intros H. unfold post_mem_access_hook, setsigmask, bind. now rewrite H. Qed.

Lemma udi_memcpy_calm dest src buf n s r buf' s' :
  calm s ->
  abortable_memcpy dest src buf n (opened s) = Ret (r, buf') s' ->
  udi_memcpy dest src buf n s = Ret (r, buf') (closed s s').
Proof.
  intros Hs Hc. pose proof Hc as Hf. apply abortable_memcpy_frame in Hf as [Hf _].
  unfold udi_memcpy. mstep_with (pre_hook_calm s Hs). mstep.
  unfold opened in Hc. mstep_with Hc. mstep.
  rewrite (bind_Ret _ _ _ _ _ (post_hook_calm (put_performing false s') (sigmask s)
             ltac:(destruct Hf as (_ & _ & Hf & _); exact Hf))).
  reflexivity.
Qed.
End Facts.

(** A well-typed literal format always produces a text. *)
Ltac fmt_ok :=
  first [ eexists; reflexivity
        | apply args_ok_formatted; cbn [cstr args_ok]; reflexivity ].

(** ** What a copy reads and writes *)

Definition peek (sp : aspace) (a : Z) : Z := default 0 (as_bytes sp !! a).

Definition peeks (sp : aspace) (a : Z) (n : nat) : list Z :=
  (fun j => peek sp (a + Z.of_nat j)) <$> seq 0 n.

Fixpoint poke_bytes (m : gmap Z Z) (a : Z) (bs : list Z) : gmap Z Z :=
  match bs with
  | [] => m
  | b :: bs' => poke_bytes (<[a := b]> m) (a + 1) bs'
  end.

Definition pokes (sp : aspace) (a : Z) (bs : list Z) : aspace :=
  ASpace (poke_bytes (as_bytes sp) a bs) (as_prot sp).

Lemma peeks_S sp a n : peeks sp a (S n) = peek sp a :: peeks sp (a + 1) n.
Proof.
  unfold peeks. cbn [seq fmap list_fmap]. f_equal; [f_equal; lia|].
  rewrite <- (fmap_S_seq 0 n), <- list_fmap_compose. apply list_fmap_ext.
  intros i j _. cbn. f_equal. lia.
Qed.

Lemma peeks_length sp a n : length (peeks sp a n) = n.
Proof. unfold peeks. now rewrite length_fmap, length_seq. Qed.

Lemma poke_bytes_before m a bs x : x < a -> poke_bytes m a bs !! x = m !! x.
Proof.
  revert m a. induction bs as [|b bs IH]; intros m a Hx; cbn; [done|].
  rewrite IH by lia. rewrite lookup_insert_ne by lia. done.
Qed.

Lemma poke_bytes_lookup m a bs x :
  poke_bytes m a bs !! x =
    if decide (a <= x < a + Z.of_nat (length bs)) then bs !! Z.to_nat (x - a) else m !! x.
Proof.
  revert m a. induction bs as [|b bs IH]; intros m a; cbn [poke_bytes].
  { case_decide; [cbn in *; lia|done]. }
  rewrite IH. cbn [length]. destruct (decide (x = a)) as [->|Hne].
  - rewrite decide_False by lia. rewrite decide_True by lia.
    rewrite Z.sub_diag. cbn. now rewrite lookup_insert_eq.
  - case_decide.
    + rewrite decide_True by lia. replace (Z.to_nat (x - a)) with (S (Z.to_nat (x - (a + 1)))) by lia.
      done.
    + rewrite decide_False by lia. now rewrite lookup_insert_ne by lia.
Qed.

Section Copy.
Context `{LO : LibcOk}.

Definition readable (sp : aspace) (a : Z) : Prop :=
  exists p, as_prot sp !! (a / page_size) = Some p /\ p_read p = true.
Definition writable (sp : aspace) (a : Z) : Prop :=
  exists p, as_prot sp !! (a / page_size) = Some p /\ p_write p = true.

Lemma load_readable sp a : readable sp a -> load sp a = inl (peek sp a).
Proof. intros (p & Hp & Hr). unfold load. now rewrite Hp, Hr. Qed.

Lemma store_writable sp a b : writable sp a -> store sp a b = inl (pokes sp a [b]).
Proof. intros (p & Hp & Hw). unfold store. now rewrite Hp, Hw. Qed.

Lemma copy_read_ok fuel a n i buf s :
  0 <= a -> a + Z.of_nat n <= 2 ^ 64 ->
  (i <= n <= length buf)%nat -> (n - i < fuel)%nat ->
  (forall j, (i <= j < n)%nat -> readable (space s) (a + Z.of_nat j)) ->
  copy_loop fuel Library (Debuggee a) n i buf s
  = Ret (take i buf ++ peeks (space s) (a + Z.of_nat i) (n - i) ++ drop n buf) s.
Proof.
  intros Ha Hw. revert i buf. induction fuel as [|fuel IH]; intros i buf Hi Hf Hr; [lia|].
  cbn [copy_loop]. case_decide as Hin.
  - unfold copy_byte, load_place, store_place.
    rewrite u64_small, load_readable by (try apply Hr; lia).
    rewrite decide_True by lia. rewrite IH; [|rewrite length_insert; lia|lia|].
    2: { intros j Hj. apply Hr. lia. }
    f_equal. replace (n - i)%nat with (S (n - S i)) by lia. rewrite peeks_S.
    replace (a + Z.of_nat i + 1) with (a + Z.of_nat (S i)) by lia.
    rewrite (take_S_r _ _ (peek (space s) (a + Z.of_nat i))) by
      (rewrite list_lookup_insert_eq; [done|lia]).
    rewrite take_insert_ge, drop_insert_lt by lia. now rewrite <- app_assoc.
  - replace (n - i)%nat with 0%nat by lia. replace i with n by lia.
    change (peeks (space s) (a + Z.of_nat n) 0) with (@nil Z). cbn [app].
    now rewrite take_drop.
Qed.

Lemma copy_write_ok fuel a n i buf s :
  0 <= a -> a + Z.of_nat n <= 2 ^ 64 ->
  (i <= n <= length buf)%nat -> (n - i < fuel)%nat ->
  (forall j, (i <= j < n)%nat -> writable (space s) (a + Z.of_nat j)) ->
  copy_loop fuel (Debuggee a) Library n i buf s
  = Ret buf (put_space (pokes (space s) (a + Z.of_nat i) (take (n - i) (drop i buf))) s).
Proof.
  intros Ha Hw. revert i s. induction fuel as [|fuel IH]; intros i s Hi Hf Hr; [lia|].
  cbn [copy_loop]. case_decide as Hin.
  - destruct (lookup_lt_is_Some_2 buf i) as [b Hb]; [lia|].
    unfold copy_byte, load_place, store_place. rewrite Hb. cbn [fmap option_fmap option_map].
    rewrite u64_small, store_writable by (try apply Hr; lia).
    rewrite IH; [|lia|lia|].
    2: { intros j Hj. exact (Hr j ltac:(lia)). }
    f_equal. rewrite (drop_S buf b i) by done.
    replace (n - i)%nat with (S (n - S i)) by lia. cbn [take].
    unfold put_space, pokes. cbn [space as_bytes as_prot poke_bytes a_rt mem_access_addr
      mem_access_size aborting_mem_access performing_mem_access failed_si_code sigmask sigmask_rc].
    replace (a + Z.of_nat (S i)) with (a + Z.of_nat i + 1) by lia. reflexivity.
  - replace (n - i)%nat with 0%nat by lia. cbn [take]. unfold pokes. cbn [poke_bytes].
    now destruct s as [? [? ?] ? ? ? ? ? ? ?].
Qed.
End Copy.

(** ** Faults *)

Section Faults.
Context `{LO : LibcOk}.

Lemma page_align_div a : 0 <= a -> page_align a / page_size = a / page_size.
Proof.
  intros Ha. unfold page_align. destruct page_size_pow2 as (k & Hk & ->).
  replace (2 ^ k - 1) with (Z.ones k) by (rewrite Z.ones_equiv; lia).
  rewrite <- Z.ldiff_land, Z.ldiff_ones_r by lia.
  rewrite Z.shiftl_mul_pow2, Z.shiftr_div_pow2 by lia.
  apply Z.div_mul. apply Z.pow_nonzero; lia.
Qed.

Lemma decode_fault_retry s sp' :
  performing_mem_access s = true ->
  mprotect (space s) (page_align (mem_access_addr s)) (mem_access_size s) PROT_RWX = inl sp' ->
  decode_memory_access_event SEGV_ACCERR s
  = Ret (MemEvent false false RESULT_SUCCESS) (put_space sp' s).
Proof.
  intros Hp Hm. unfold decode_memory_access_event, is_performing_mem_access,
    get_mem_access_addr, get_mem_access_size, bind, gets. rewrite Hp. cbn. now rewrite Hm.
Qed.

Lemma decode_fault_denied s errno :
  performing_mem_access s = true ->
  mprotect (space s) (page_align (mem_access_addr s)) (mem_access_size s) PROT_RWX = inr errno ->
  decode_memory_access_event SEGV_ACCERR s
  = Ret (MemEvent false true RESULT_SUCCESS)
      (put_si_code SEGV_ACCERR (put_aborting true
        (put_rt (Rt (errmsg_of "failed to modify permissions for memory access: %e"%string
                       [VInt errno]) (allocs (a_rt s))) s))).
Proof.
  intros Hp Hm. unfold decode_memory_access_event, is_performing_mem_access,
    get_mem_access_addr, get_mem_access_size. mstep. rewrite Hp.
  unfold bind at 1. cbn -[udi_set_errmsg on_rt errmsg_of]. rewrite Hm.
  unfold on_rt at 1, zoom at 1, bind at 1. rewrite set_errmsg_ok by fmt_ok. reflexivity.
Qed.

Lemma decode_fault_unmapped s :
  performing_mem_access s = true ->
  decode_memory_access_event SEGV_MAPERR s
  = Ret (MemEvent false true RESULT_SUCCESS)
      (put_si_code SEGV_MAPERR (put_aborting true s)).
Proof.
  intros Hp. unfold decode_memory_access_event, is_performing_mem_access. mstep.
  now rewrite Hp.
Qed.

(** A copy between the library and the debuggee address [a]. *)
Definition copies (dest src : place) (a : Z) : Prop :=
  (dest = Library /\ src = Debuggee a) \/ (dest = Debuggee a /\ src = Library).

(** [mprotect] on the aligned address reaches the last page of the access. *)
Definition covered (a : Z) (n : nat) : Prop :=
  (a + Z.of_nat n - 1) / page_size <= (page_align a + Z.of_nat n - 1) / page_size.

Lemma covered_in_range a n j :
  0 <= a -> covered a n -> (j < n)%nat ->
  page_in_range (page_align a) (Z.of_nat n) ((a + Z.of_nat j) / page_size).
Proof.
  intros Ha Hc Hj. unfold page_in_range, covered in *. rewrite page_align_div by done.
  pose proof page_size_pos. split.
  - apply Z.div_le_mono; lia.
  - etransitivity; [|exact Hc]. apply Z.div_le_mono; lia.
Qed.

(** The bytes [i .. k-1] have been copied. *)
Definition transferred (dest : place) (a : Z) (i k : nat) (buf : list Z) (m : gmap Z Z)
    (buf' : list Z) (m' : gmap Z Z) : Prop :=
  match dest with
  | Library =>
      buf' = take i buf ++
             ((fun j => default 0 (m !! (a + Z.of_nat j))) <$> seq i (k - i)) ++ drop k buf /\
      m' = m
  | Debuggee _ =>
      buf' = buf /\ m' = poke_bytes m (a + Z.of_nat i) (take (k - i) (drop i buf))
  end.

Lemma transferred_none dest a i buf m : transferred dest a i i buf m buf m.
Proof.
  unfold transferred. rewrite Nat.sub_diag. destruct dest; cbn; [done|].
  now rewrite take_drop.
Qed.

(** One byte of a copy: either the page decides that it faults, or it is
    moved. *)
Lemma copy_byte_cases dest src a n i buf s :
  copies dest src a -> 0 <= a -> a + Z.of_nat n <= 2 ^ 64 ->
  (i < n <= length buf)%nat ->
  let pg := (a + Z.of_nat i) / page_size in
  match as_prot (space s) !! pg with
  | None => copy_byte dest src buf i s = Some (inr SEGV_MAPERR)
  | Some p =>
      (copy_byte dest src buf i s = Some (inr SEGV_ACCERR) /\ p <> PROT_RWX) \/
      exists buf' m', copy_byte dest src buf i s
                      = Some (inl (buf', put_space (ASpace m' (as_prot (space s))) s)) /\
        length buf' = length buf /\
        forall k bufk mk, (i < k <= n)%nat ->
          transferred dest a (S i) k buf' m' bufk mk ->
          transferred dest a i k buf (as_bytes (space s)) bufk mk
  end.
Proof.
  intros Hc Ha Hw Hi pg. destruct (lookup_lt_is_Some_2 buf i) as [b Hb]; [lia|].
  unfold copy_byte.
  destruct Hc as [[-> ->]|[-> ->]]; unfold load_place, store_place;
    rewrite ?Hb, u64_small by lia; cbn [fmap option_fmap option_map];
    unfold load, store; fold pg; destruct (as_prot (space s) !! pg) as [[pr pw pe]|];
    try done; cbn [p_read p_write].
  - destruct pr; [right|left; done]. rewrite decide_True by lia.
    exists (<[i := default 0 (as_bytes (space s) !! (a + Z.of_nat i))]> buf), (as_bytes (space s)).
    split; [now destruct s as [? [? ?] ? ? ? ? ? ? ?]|]. rewrite length_insert.
    split; [done|]. intros k bufk mk Hk [-> ->]. split; [|done].
    rewrite (take_S_r _ _ (default 0 (as_bytes (space s) !! (a + Z.of_nat i)))) by
      (rewrite list_lookup_insert_eq; [done|lia]).
    rewrite take_insert_ge, drop_insert_lt by lia. rewrite <- app_assoc. cbn.
    replace (k - i)%nat with (S (k - S i)) by lia. reflexivity.
  - destruct pw; [right|left; done]. do 2 eexists. split; [reflexivity|]. split; [done|].
    intros k bufk mk Hk [-> ->]. split; [done|].
    rewrite (drop_S buf b i) by done. replace (k - i)%nat with (S (k - S i)) by lia.
    cbn [take poke_bytes]. f_equal. lia.
Qed.

(** Where a copy ends: at its last byte, or at the byte [k] that cannot be
    accessed. *)
Inductive copy_end (a : Z) (n k : nat) (s s' : access) : Prop :=
| copy_complete :
    k = n -> aborting_mem_access s' = aborting_mem_access s ->
    a_rt s' = a_rt s -> failed_si_code s' = failed_si_code s -> copy_end a n k s s'
| copy_unmapped :
    (k < n)%nat -> aborting_mem_access s' = true -> a_rt s' = a_rt s ->
    failed_si_code s' = SEGV_MAPERR ->
    as_prot (space s') !! ((a + Z.of_nat k) / page_size) = None -> copy_end a n k s s'
| copy_denied errno :
    (k < n)%nat -> aborting_mem_access s' = true ->
    failed_si_code s' = SEGV_ACCERR ->
    mprotect (space s') (page_align a) (Z.of_nat n) PROT_RWX = inr errno ->
    a_rt s' = Rt (errmsg_of "failed to modify permissions for memory access: %e"%string
                    [VInt errno]) (allocs (a_rt s)) -> copy_end a n k s s'.

Definition keeps_mapped (s s' : access) : Prop :=
  forall pg, is_Some (as_prot (space s) !! pg) -> is_Some (as_prot (space s') !! pg).

Lemma mprotect_keeps_mapped s a n p sp' :
  mprotect (space s) a n p = inl sp' -> keeps_mapped s (put_space sp' s).
Proof.
  intros Hm pg Hpg. cbn.
  destruct (decide (a / page_size <= pg <= (a + n - 1) / page_size)) as [Hin|Hout].
  - rewrite (mprotect_in _ _ _ _ _ _ Hm Hin). done.
  - rewrite (mprotect_out _ _ _ _ _ _ Hm Hout). done.
Qed.

(** The whole effect of the copy loop; the fuel [2 * (n - i) + 1] is enough
    whenever [mprotect] covers the access. *)
Lemma copy_loop_spec dest src a n :
  copies dest src a -> 0 <= a -> a + Z.of_nat n <= 2 ^ 64 -> covered a n ->
  forall fuel i buf s,
    performing_mem_access s = true -> mem_access_addr s = a ->
    mem_access_size s = Z.of_nat n -> (i <= n <= length buf)%nat ->
    (2 * (n - i) < fuel)%nat ->
    exists k buf' s', copy_loop fuel dest src n i buf s = Ret buf' s' /\
      (i <= k <= n)%nat /\ copy_end a n k s s' /\ keeps_mapped s s' /\
      transferred dest a i k buf (as_bytes (space s)) buf' (as_bytes (space s')).
Proof.
  intros Hc Ha Hw Hcov fuel. induction (lt_wf fuel) as [fuel _ IH].
  intros i buf s Hp Hma Hms Hn Hf. destruct fuel as [|fuel]; [lia|]. cbn [copy_loop].
  case_decide as Hi.
  2: { exists n, buf, s. split; [done|]. split; [lia|]. split; [now constructor|].
       split; [now intros pg|]. replace i with n by lia. apply transferred_none. }
  pose proof (copy_byte_cases dest src a n i buf s Hc Ha Hw ltac:(lia)) as Hb. cbn zeta in Hb.
  destruct (as_prot (space s) !! _) as [p|] eqn:Hpg.
  2: { rewrite Hb, decode_fault_unmapped by done. cbn [me_abort].
       exists i. do 2 eexists. split; [reflexivity|]. split; [lia|].
       split; [apply copy_unmapped; [lia|reflexivity..|exact Hpg]|]. split; [now intros pg|]. apply transferred_none. }
  destruct Hb as [[Hb _]|(buf' & m' & Hb & Hl & Ht)].
  2: { rewrite Hb.
       destruct (IH fuel ltac:(lia) (S i) buf' (put_space (ASpace m' (as_prot (space s))) s))
         as (k & b2 & s2 & -> & Hk & He & Hm & Htr); [done..|lia|lia|].
       exists k, b2, s2. split; [done|]. split; [lia|].
       split; [destruct He; [apply copy_complete|apply copy_unmapped|eapply copy_denied]; eauto|].
       split; [exact Hm|]. apply Ht; [lia|exact Htr]. }
  rewrite Hb. destruct (mprotect (space s) (page_align (mem_access_addr s))
                          (mem_access_size s) PROT_RWX) as [sp'|errno] eqn:Hmp.
  2: { rewrite (decode_fault_denied _ _ Hp Hmp). cbn [me_abort].
       exists i. do 2 eexists. split; [reflexivity|]. split; [lia|].
       rewrite Hma, Hms in Hmp. split; [eapply copy_denied; [lia|reflexivity..|exact Hmp|reflexivity]|].
       split; [now intros pg|]. apply transferred_none. }
  rewrite (decode_fault_retry _ _ Hp Hmp). cbn [me_abort].
  destruct fuel as [|fuel]; [lia|]. cbn [copy_loop]. rewrite decide_True by lia.
  pose proof (copy_byte_cases dest src a n i buf (put_space sp' s) Hc Ha Hw ltac:(lia)) as Hb2.
  cbn zeta in Hb2. cbn [space put_space] in Hb2.
  rewrite (mprotect_in _ _ _ _ _ _ Hmp) in Hb2
    by (rewrite Hma, Hms; apply covered_in_range; auto).
  destruct Hb2 as [[_ Hne]|(buf' & m' & Hb2 & Hl & Ht)]; [congruence|].
  rewrite Hb2.
  destruct (IH fuel ltac:(lia) (S i) buf'
              (put_space (ASpace m' (as_prot sp')) (put_space sp' s)))
    as (k & b2 & s2 & -> & Hk & He & Hm & Htr); [done..|lia|lia|].
  exists k, b2, s2. split; [done|]. split; [lia|].
  split; [destruct He; [apply copy_complete|apply copy_unmapped|eapply copy_denied]; eauto|].
  split.
  - intros pg Hpg2. apply Hm. now apply (mprotect_keeps_mapped _ _ _ _ _ Hmp).
  - rewrite <- (mprotect_bytes _ _ _ _ _ Hmp). apply Ht; [lia|exact Htr].
Qed.
End Faults.

(** ** Specifications of [read_memory] and [write_memory] *)

Section Specs.
Context `{LO : LibcOk}.

(** How an access of [n] bytes at [a] ends after [k] bytes with the C result
    [r]. *)
Inductive access_result (a : Z) (n k : nat) (r : Z) (s s' : access) : Prop :=
| access_ok :
    k = n -> r = 0 -> a_rt s' = a_rt s -> failed_si_code s' = failed_si_code s ->
    access_result a n k r s s'
| access_unmapped :
    (k < n)%nat -> r = -1 -> a_rt s' = a_rt s -> failed_si_code s' = SEGV_MAPERR ->
    as_prot (space s') !! ((a + Z.of_nat k) / page_size) = None ->
    access_result a n k r s s'
| access_denied errno :
    (k < n)%nat -> r = -1 -> failed_si_code s' = SEGV_ACCERR ->
    mprotect (space s') (page_align a) (Z.of_nat n) PROT_RWX = inr errno ->
    a_rt s' = Rt (errmsg_of "failed to modify permissions for memory access: %e"%string
                    [VInt errno]) (allocs (a_rt s)) ->
    access_result a n k r s s'.

Lemma put_aborting_id b s : aborting_mem_access s = b -> put_aborting b s = s.
Proof. destruct s. cbn. now intros ->. Qed.

Lemma calm_put_target a n s : calm s -> calm (put_target a n s).
Proof. now intros []. Qed.

Lemma udi_memcpy_spec dest src a n buf s :
  copies dest src a -> 0 <= a -> a + Z.of_nat n <= 2 ^ 64 -> covered a n ->
  (n <= length buf)%nat -> calm s ->
  mem_access_addr s = a -> mem_access_size s = Z.of_nat n ->
  exists k r buf' s', udi_memcpy dest src buf n s = Ret (r, buf') s' /\ (k <= n)%nat /\
    calm s' /\ sigmask s' = sigmask s /\ keeps_mapped s s' /\
    access_result a n k r s s' /\
    transferred dest a 0 k buf (as_bytes (space s)) buf' (as_bytes (space s')).
Proof.
  intros Hc Ha Hw Hcov Hn Hs Hma Hms.
  destruct (copy_loop_spec dest src a n Hc Ha Hw Hcov (copy_fuel n) 0 buf (opened s))
    as (k & buf' & s1 & Hcl & Hk & He & Hm & Ht); [done..|lia|unfold copy_fuel; lia|].
  pose proof (copy_loop_frame _ _ _ _ _ _ _ _ _ Hcl) as (Hf1 & Hf2 & Hf3 & _).
  assert (Hab : exists r, abortable_memcpy dest src buf n (opened s)
            = Ret (r, buf') (put_aborting false s1) /\ access_result a n k r s s1).
  { unfold abortable_memcpy. mstep_with Hcl. mstep. destruct Hs as [? ? Hab ?].
    destruct He as [-> He1 ? ?|? -> ? ? ?|errno ? -> ? ? ?].
    - change (aborting_mem_access (opened s)) with (aborting_mem_access s) in He1.
      rewrite put_aborting_id, He1, Hab by congruence.
      exists 0. split; [reflexivity|now apply access_ok].
    - exists (-1). split; [reflexivity|]. now apply access_unmapped.
    - exists (-1). split; [reflexivity|]. eapply access_denied; eauto. }
  destruct Hab as (r & Hab & Hr). apply udi_memcpy_calm in Hab; [|done].
  exists k, r, buf'. eexists. split; [exact Hab|]. split; [lia|].
  split; [|split; [reflexivity|split; [exact Hm|split; [|exact Ht]]]].
  - destruct Hs. split; [|reflexivity..]. cbn. now rewrite Hf1.
  - destruct Hr; [now apply access_ok|now apply access_unmapped|eapply access_denied; eauto].
Qed.

Lemma covered_one a : 0 <= a -> covered a 1.
Proof.
  intros Ha. unfold covered. rewrite !Z.add_simpl_r, page_align_div by done. done.
Qed.

(** Why the byte at [a] could not be accessed: its page is not mapped, or its
    protection cannot be lifted. *)
Definition byte_inaccessible (a : Z) (sp : aspace) : Prop :=
  as_prot sp !! (a / page_size) = None \/ exists errno, mprotect sp (page_align a) 1 PROT_RWX = inr errno.

Lemma access_one a r s s' :
  access_result a 1 0 r s s' -> r = -1 /\ byte_inaccessible a (space s').
Proof.
  intros [Hk _|_ -> _ _ Hpg|errno _ -> _ Hmp _]; [discriminate| |]; (split; [done|]).
  - left. now rewrite Z.add_0_r in Hpg.
  - right. now exists errno.
Qed.

(** One byte is read or written completely or not at all. *)
Lemma read_byte_spec dest a s :
  calm s -> 0 <= a < 2 ^ 64 -> dest <> [] ->
  exists r buf s', read_memory dest a 1 s = Ret (r, buf) s' /\ calm s' /\
    as_bytes (space s') = as_bytes (space s) /\
    ((r = 0 /\ buf = peek (space s) a :: drop 1 dest) \/
     (r = -1 /\ buf = dest /\ byte_inaccessible a (space s'))).
Proof.
  intros Hs Ha Hd. unfold read_memory. mstep.
  destruct (udi_memcpy_spec Library (Debuggee a) a 1 dest (put_target a (Z.of_nat 1) s))
    as (k & r & buf & s' & -> & Hk & Hc & Hm & _ & Hr & [Hb Hsp]);
    [now left|lia|lia|apply covered_one; lia|destruct dest; [done|cbn; lia]
    |now apply calm_put_target|reflexivity|reflexivity|].
  exists r, buf, s'. split; [done|]. split; [done|]. split; [exact Hsp|].
  destruct k as [|k].
  - right. destruct (access_one _ _ _ _ Hr) as [-> Hin]. split; [done|]. split; [exact Hb|exact Hin].
  - left. destruct Hr; try lia. split; [done|]. replace k with 0%nat in Hb by lia.
    rewrite Hb. cbn. unfold peek. now rewrite Z.add_0_r.
Qed.

Lemma write_byte_spec a b src s :
  calm s -> 0 <= a < 2 ^ 64 ->
  exists r s', write_memory a (b :: src) 1 s = Ret r s' /\ calm s' /\
    ((r = 0 /\ as_bytes (space s') = <[a := b]> (as_bytes (space s))) \/
     (r = -1 /\ as_bytes (space s') = as_bytes (space s) /\ byte_inaccessible a (space s'))).
Proof.
  intros Hs Ha. unfold write_memory. mstep.
  destruct (udi_memcpy_spec (Debuggee a) Library a 1 (b :: src) (put_target a (Z.of_nat 1) s))
    as (k & r & buf & s' & Hu & Hk & Hc & Hm & _ & Hr & [Hb Hsp]);
    [now right|lia|lia|apply covered_one; lia|cbn; lia
    |now apply calm_put_target|reflexivity|reflexivity|].
  exists r, s'. split; [now mstep_with Hu|]. split; [done|]. destruct k as [|k].
  - right. destruct (access_one _ _ _ _ Hr) as [-> Hin]. split; [done|]. split; [exact Hsp|exact Hin].
  - left. destruct Hr; try lia. split; [done|]. replace k with 0%nat in Hsp by lia.
    rewrite Hsp. cbn. now rewrite Z.add_0_r.
Qed.

Lemma read_memory_calm (dest : list Z) (src : Z) (n : nat) (s : access) :
  calm s -> 0 <= src -> src + Z.of_nat n <= 2 ^ 64 -> covered src n ->
  (n <= length dest)%nat ->
  exists k r buf s', read_memory dest src n s = Ret (r, buf) s' /\
    calm s' /\ sigmask s' = sigmask s /\
    access_result src n k r (put_target src (Z.of_nat n) s) s' /\
    as_bytes (space s') = as_bytes (space s) /\
    buf = peeks (space s) src k ++ drop k dest.
Proof.
  intros Hs Ha Hw Hcov Hn. unfold read_memory. mstep.
  destruct (udi_memcpy_spec Library (Debuggee src) src n dest
              (put_target src (Z.of_nat n) s))
    as (k & r & buf & s' & -> & Hk & Hc & Hm & _ & Hr & [Hb Hsp]);
    [now left|done|done|done|done|now apply calm_put_target|reflexivity|reflexivity|].
  exists k, r, buf, s'. split; [done|]. split; [done|]. split; [exact Hm|].
  split; [exact Hr|]. split; [exact Hsp|]. rewrite Hb. cbn [take app].
  now rewrite Nat.sub_0_r.
Qed.

Lemma write_memory_calm (dest : Z) (src : list Z) (n : nat) (s : access) :
  calm s -> 0 <= dest -> dest + Z.of_nat n <= 2 ^ 64 -> covered dest n ->
  (n <= length src)%nat ->
  exists k r s', write_memory dest src n s = Ret r s' /\
    calm s' /\ sigmask s' = sigmask s /\
    access_result dest n k r (put_target dest (Z.of_nat n) s) s' /\
    as_bytes (space s') = poke_bytes (as_bytes (space s)) dest (take k src).
Proof.
  intros Hs Ha Hw Hcov Hn. unfold write_memory. mstep.
  destruct (udi_memcpy_spec (Debuggee dest) Library dest n src
              (put_target dest (Z.of_nat n) s))
    as (k & r & buf & s' & Hu & Hk & Hc & Hm & _ & Hr & [Hb Hsp]);
    [now right|done|done|done|done|now apply calm_put_target|reflexivity|reflexivity|].
  exists k, r, s'. split; [now mstep_with Hu|]. split; [done|]. split; [exact Hm|].
  split; [exact Hr|]. rewrite Hsp. cbn [drop]. rewrite Nat.sub_0_r, Z.add_0_r. done.
Qed.

(** C3: a [read_memory] whose range is covered by the [mprotect] of the fault
    handler always returns. It copies the first [k] bytes of the debuggee,
    where [k] is the whole length exactly when the result is 0; on failure
    byte [k] is unmapped or its protection could not be lifted, and
    [failed_si_code] says which. The debuggee's bytes, the signal mask and
    the idle state of the component are as before. *)
Theorem read_memory_spec (dest : list Z) (src : Z) (n : nat) (s : access) :
  calm s -> 0 <= src -> src + Z.of_nat n <= 2 ^ 64 -> covered src n ->
  (n <= length dest)%nat ->
  exists k r buf s', read_memory dest src n s = Ret (r, buf) s' /\
    calm s' /\ sigmask s' = sigmask s /\
    access_result src n k r (put_target src (Z.of_nat n) s) s' /\
    as_bytes (space s') = as_bytes (space s) /\
    buf = peeks (space s) src k ++ drop k dest.
Proof. apply read_memory_calm. Qed.

(** C4: a [write_memory] under the same conditions always returns; exactly
    the first [k] source bytes have reached the debuggee, all of them when
    the result is 0, and no other byte of the debuggee has changed. *)
Theorem write_memory_spec (dest : Z) (src : list Z) (n : nat) (s : access) :
  calm s -> 0 <= dest -> dest + Z.of_nat n <= 2 ^ 64 -> covered dest n ->
  (n <= length src)%nat ->
  exists k r s', write_memory dest src n s = Ret r s' /\
    calm s' /\ sigmask s' = sigmask s /\
    access_result dest n k r (put_target dest (Z.of_nat n) s) s' /\
    as_bytes (space s') = poke_bytes (as_bytes (space s)) dest (take k src).
Proof. apply write_memory_calm. Qed.

(** An access that runs into a protected page beyond the range the fault
    handler unprotects never ends: the handler reports success, the byte
    faults again, whatever the number of retries. *)
Theorem straddling_access_never_returns (a : Z) (n k : nat) (buf : list Z) (s : access) (p : prot) :
  0 <= a -> a + Z.of_nat n <= 2 ^ 64 -> (k < n)%nat ->
  performing_mem_access s = true -> mem_access_addr s = a -> mem_access_size s = Z.of_nat n ->
  (forall sp, (forall pg, is_Some (as_prot (space s) !! pg) -> is_Some (as_prot sp !! pg)) ->
     exists sp', mprotect sp (page_align a) (Z.of_nat n) PROT_RWX = inl sp') ->
  as_prot (space s) !! ((a + Z.of_nat k) / page_size) = Some p -> p_read p = false ->
  ~ page_in_range (page_align a) (Z.of_nat n) ((a + Z.of_nat k) / page_size) ->
  forall fuel, exists s', copy_loop fuel Library (Debuggee a) n k buf s = Running s'.
Proof.
  intros Ha Hw Hk Hp Hma Hms Hmp Hpg Hpr Hout fuel. revert s Hp Hma Hms Hmp Hpg.
  induction fuel as [|fuel IH]; intros s Hp Hma Hms Hmp Hpg; cbn [copy_loop]; [eauto|].
  rewrite decide_True by lia.
  assert (copy_byte Library (Debuggee a) buf k s = Some (inr SEGV_ACCERR)) as ->.
  { unfold copy_byte, load_place, load. rewrite u64_small by lia. now rewrite Hpg, Hpr. }
  destruct (Hmp (space s) ltac:(done)) as [sp' Hsp].
  pose proof (mprotect_keeps_mapped _ _ _ _ _ Hsp) as Hkm.
  rewrite (decode_fault_retry s sp') by (rewrite ?Hma, ?Hms; done). cbn [me_abort].
  apply IH; [done..| |].
  - intros sp Hsp2. apply Hmp. intros pg Hpg2. apply Hsp2. now apply Hkm.
  - cbn. now rewrite (mprotect_out _ _ _ _ _ _ Hsp Hout).
Qed.
End Specs.

(** ** A small address space to evaluate the component on *)

Module MemoryDemo.
#[export] Existing Instance flat_libc.
#[export] Existing Instance flat_libc_ok.

Definition RW : prot := Prot true true false.
Definition NONE : prot := Prot false false false.

(** Page 0 is readable and writable, page 1 is protected, the rest unmapped. *)
Definition space0 : aspace :=
  ASpace (poke_bytes ∅ 16 [10; 20; 30; 40]) (<[0 := RW]> (<[1 := NONE]> ∅)).

Definition idle (sp : aspace) : access := Access (Rt [] []) sp 0 0 false false 0 ∅ [].
Definition access0 : access := idle space0.

Lemma idle_calm sp : calm (idle sp).
Proof. now split. Qed.

Lemma read_memory_spec_witness :
  exists k r buf s', read_memory (replicate 4 0) 16 4 access0 = Ret (r, buf) s' /\
    access_result 16 4 k r (put_target 16 4 access0) s'.
Proof.
  destruct (read_memory_spec (replicate 4 0) 16 4 access0)
    as (k & r & buf & s' & H & _ & _ & Hr & _); [apply idle_calm|lia|lia| |cbn; lia|].
  - vm_compute. discriminate.
  - eauto 6.
Defined.

Lemma write_memory_spec_witness :
  exists k r s', write_memory 4096 [7; 8] 2 access0 = Ret r s' /\
    as_bytes (space s') = poke_bytes (as_bytes space0) 4096 (take k [7; 8]).
Proof.
  destruct (write_memory_spec 4096 [7; 8] 2 access0)
    as (k & r & s' & H & _ & _ & _ & Hb); [apply idle_calm|lia|lia| |cbn; lia|].
  - vm_compute. discriminate.
  - eauto.
Defined.

(** The write lifts the protection of page 1; a read of page 2 fails. *)
Example write_protected :
  exists s', write_memory 4096 [7; 8] 2 access0 = Ret 0 s' /\ peeks (space s') 4096 2 = [7; 8].
Proof. eexists. split; vm_compute; reflexivity. Qed.

Example read_unmapped :
  exists s', read_memory [0; 0] 8191 2 access0 = Ret (-1, [0; 0]) s' /\
    failed_si_code s' = SEGV_MAPERR.
Proof. eexists. split; vm_compute; reflexivity. Qed.

(** Eight bytes from 4092: the handler unprotects [0 .. 7] only. *)
Definition straddle : access := put_performing true (put_target 4092 8 access0).

Lemma straddling_access_never_returns_witness :
  exists s', copy_loop 1000 Library (Debuggee 4092) 8 4 (replicate 8 0) straddle = Running s'.
Proof.
  apply (straddling_access_never_returns 4092 8 4 (replicate 8 0) straddle NONE);
    try reflexivity; try lia.
  - intros sp Hsp. cbn. unfold flat_mprotect. vm_compute (page_align _ mod _ =? _).
    vm_compute (seqZ _ _). cbn [forallb].
    rewrite bool_decide_eq_true_2; [eexists; reflexivity|].
    apply Hsp. eexists. reflexivity.
  - intros [_ H]. vm_compute in H. congruence.
Defined.
End MemoryDemo.
