(* ===== verification/Breakpoints.v ===== *)
(** * Breakpoints: the hash table of udirt.c and the x86 breakpoint instruction

    Breakpoints are heap blocks linked into the 256 buckets of [breakpoints].
    A block is named by its pointer, a block that was freed is absent from
    [bp_heap]; the loops over a bucket are pointer walks. The functions of
    udirt-x86.c that put the breakpoint instruction into the debuggee and take
    it out again are here too, since [install_breakpoint] and
    [remove_breakpoint] only wrap them. *)

From Stdlib Require Import String.
From stdpp Require Import gmap.
From S2P Require Import Prelude External Types Format Memory.

(** A pointer to a heap block; [NULL] is [None] where it can occur. *)
Abbreviation ptr := nat (only parsing).

Record breakpoint : Type := Breakpoint {
  saved_bytes : list Z;
  address : Z;
  in_memory : bool;
  bp_thread : option ptr;
  next_breakpoint : option ptr
}.

Definition set_saved (x : list Z) (b : breakpoint) : breakpoint :=
  Breakpoint x (address b) (in_memory b) (bp_thread b) (next_breakpoint b).
Definition set_in_memory (x : bool) (b : breakpoint) : breakpoint :=
  Breakpoint (saved_bytes b) (address b) x (bp_thread b) (next_breakpoint b).
Definition set_bp_thread (x : option ptr) (b : breakpoint) : breakpoint :=
  Breakpoint (saved_bytes b) (address b) (in_memory b) x (next_breakpoint b).
Definition set_next (x : option ptr) (b : breakpoint) : breakpoint :=
  Breakpoint (saved_bytes b) (address b) (in_memory b) (bp_thread b) x.

Record bps : Type := Bps {
  b_acc : access;
  breakpoints : list (option ptr);
  bp_heap : gmap ptr breakpoint;
  bp_fresh : ptr
}.

Definition put_acc (a : access) (s : bps) : bps :=
  Bps a (breakpoints s) (bp_heap s) (bp_fresh s).
Definition put_table (t : list (option ptr)) (s : bps) : bps :=
  Bps (b_acc s) t (bp_heap s) (bp_fresh s).
Definition put_heap (h : gmap ptr breakpoint) (s : bps) : bps :=
  Bps (b_acc s) (breakpoints s) h (bp_fresh s).

Definition on_acc {A} (m : ST access A) : ST bps A := zoom b_acc put_acc m.

(** ** Access to the heap and to the table *)

Definition bp_load (p : ptr) : ST bps breakpoint := fun s =>
  match bp_heap s !! p with
  | Some b => Ret b s
  | None => Undef UseAfterFree
  end.

Definition bp_update (p : ptr) (f : breakpoint -> breakpoint) : ST bps unit :=
  let* b := bp_load p in
  modify (fun s => put_heap (<[p := f b]> (bp_heap s)) s).

Definition bp_free (p : ptr) : ST bps unit :=
  modify (fun s => put_heap (delete p (bp_heap s)) s).

(** [udi_malloc(sizeof(breakpoint))] followed by the initialisation of the
    block; pointers are not reused. *)
Definition bp_alloc (b : breakpoint) : ST bps ptr := fun s =>
  Ret (bp_fresh s)
    (Bps (b_acc s) (breakpoints s) (<[bp_fresh s := b]> (bp_heap s)) (S (bp_fresh s))).

Definition bucket (hash : Z) : ST bps (option ptr) := fun s =>
  match breakpoints s !! Z.to_nat hash with
  | Some head => Ret head s
  | None => Undef OutOfBounds
  end.

Definition set_bucket (hash : Z) (head : option ptr) : ST bps unit := fun s =>
  match breakpoints s !! Z.to_nat hash with
  | Some _ => Ret tt (put_table (<[Z.to_nat hash := head]> (breakpoints s)) s)
  | None => Undef OutOfBounds
  end.

(** ** udirt.c *)

Definition BREAKPOINT_HASH_SIZE : Z := 256.

Definition breakpoint_hash (address : Z) : Z := u32 (address mod BREAKPOINT_HASH_SIZE).

(** No chain is longer than the heap: the fuel of the pointer walks. *)
Definition walk_fuel (s : bps) : nat := S (size (bp_heap s)).

(** The [while(1)] loop of [create_breakpoint]. *)
Fixpoint create_walk (fuel : nat) (tmp_breakpoint new_breakpoint : ptr) : ST bps ptr :=
  match fuel with
  | O => running
  | S fuel' =>
      let* tmp := bp_load tmp_breakpoint in
      let* new := bp_load new_breakpoint in
      if address tmp =? address new then
        bp_free new_breakpoint ;;; ret tmp_breakpoint
      else
        match next_breakpoint tmp with
        | None => bp_update tmp_breakpoint (set_next (Some new_breakpoint)) ;;; ret new_breakpoint
        | Some next => create_walk fuel' next new_breakpoint
        end
  end.

Definition create_breakpoint (breakpoint_addr : Z) : ST bps (option ptr) :=
  let* ok := on_acc (on_rt udi_malloc) in
  if negb ok then ret None
  else
    let* new_breakpoint :=
      bp_alloc (Breakpoint (replicate 8 0) breakpoint_addr false None None) in
    let hash := breakpoint_hash breakpoint_addr in
    let* current_bp := bucket hash in
    match current_bp with
    | None =>
        set_bucket hash (Some new_breakpoint) ;;;
        bp_update new_breakpoint (set_next None) ;;;
        ret (Some new_breakpoint)
    | Some current_bp =>
        let* fuel := gets walk_fuel in
        let* p := create_walk fuel current_bp new_breakpoint in
        ret (Some p)
    end.

(** The loop of [find_breakpoint]. *)
Fixpoint find_walk (fuel : nat) (tmp_breakpoint : option ptr) (breakpoint_addr : Z)
    : ST bps (option ptr) :=
  match fuel with
  | O => running
  | S fuel' =>
      match tmp_breakpoint with
      | None => ret None
      | Some p =>
          let* tmp := bp_load p in
          if address tmp =? breakpoint_addr then ret (Some p)
          else find_walk fuel' (next_breakpoint tmp) breakpoint_addr
      end
  end.

Definition find_breakpoint (breakpoint_addr : Z) : ST bps (option ptr) :=
  let* tmp_breakpoint := bucket (breakpoint_hash breakpoint_addr) in
  let* fuel := gets walk_fuel in
  find_walk fuel tmp_breakpoint breakpoint_addr.

Section Install.
Context `{Libc}.

(** ** udirt-x86.c *)

Definition BREAKPOINT_INSN : Z := 0xcc.

Definition write_breakpoint_instruction (bp : ptr) : ST bps Z :=
  let* b := bp_load bp in
  if in_memory b then ret 0
  else
    let* (result, buf) := on_acc (read_memory (saved_bytes b) (address b) 1) in
    bp_update bp (set_saved buf) ;;;
    if negb (result =? 0) then ret result
    else
      let* b := bp_load bp in
      on_acc (write_memory (address b) [BREAKPOINT_INSN] 1).

Definition write_saved_bytes (bp : ptr) : ST bps Z :=
  let* b := bp_load bp in
  if negb (in_memory b) then ret 0
  else on_acc (write_memory (address b) (saved_bytes b) 1).

(** ** udirt.c, continued *)

Definition install_breakpoint (bp : ptr) : ST bps Z :=
  let* b := bp_load bp in
  if in_memory b then ret 0
  else
    let* result := write_breakpoint_instruction bp in
    (if result =? 0 then bp_update bp (set_in_memory true) else ret tt) ;;;
    ret result.

Definition remove_breakpoint (bp : ptr) : ST bps Z :=
  let* b := bp_load bp in
  if negb (in_memory b) then ret 0
  else
    let* result := write_saved_bytes bp in
    (if result =? 0 then bp_update bp (set_in_memory false) else ret tt) ;;;
    ret result.

Definition remove_breakpoint_for_continue (bp : ptr) : ST bps Z :=
  let* b := bp_load bp in
  if negb (in_memory b) then ret 0
  else write_saved_bytes bp.

(** The loop of [delete_breakpoint]: the previous and the current block. *)
Fixpoint delete_walk (fuel : nat) (prev_breakpoint tmp_breakpoint : option ptr) (bp : ptr)
    : ST bps (option ptr * option ptr) :=
  match fuel with
  | O => running
  | S fuel' =>
      match tmp_breakpoint with
      | None => ret (prev_breakpoint, None)
      | Some p =>
          let* tmp := bp_load p in
          let* b := bp_load bp in
          if address tmp =? address b then ret (prev_breakpoint, Some p)
          else delete_walk fuel' (Some p) (next_breakpoint tmp) bp
      end
  end.

Definition delete_breakpoint (bp : ptr) : ST bps Z :=
  let* remove_result := remove_breakpoint bp in
  if negb (remove_result =? 0) then ret remove_result
  else
    let* b := bp_load bp in
    let hash := breakpoint_hash (address b) in
    let* head := bucket hash in
    let* fuel := gets walk_fuel in
    let* (prev_breakpoint, tmp_breakpoint) := delete_walk fuel head head bp in
    match tmp_breakpoint, prev_breakpoint with
    | Some tmp_breakpoint, Some prev_breakpoint =>
        (if Nat.eqb prev_breakpoint tmp_breakpoint then set_bucket hash None
         else
           let* tmp := bp_load tmp_breakpoint in
           bp_update prev_breakpoint (set_next (next_breakpoint tmp))) ;;;
        bp_free tmp_breakpoint ;;;
        ret 0
    | _, _ =>
        let* b := bp_load bp in
        on_acc (on_rt (udi_set_errmsg "failed to delete breakpoint at %a" [VInt (address b)])) ;;;
        ret (-1)
    end.
End Install.

(** ** The invariant of the table *)

Abbreviation bp_chain := (chain next_breakpoint).

Definition addr_of (h : gmap ptr breakpoint) (p : ptr) : option Z := address <$> h !! p.

(** A breakpoint that belongs into bucket [i]. *)
Record bp_ok (i : nat) (b : breakpoint) : Prop := {
  ok_range : 0 <= address b < 2 ^ 64;
  ok_hash : Z.to_nat (breakpoint_hash (address b)) = i;
  ok_saved : length (saved_bytes b) = 8%nat
}.

(** The blocks of bucket [i], in order. *)
Definition members (s : bps) (i : nat) (ps : list ptr) : Prop :=
  exists head, breakpoints s !! i = Some head /\ bp_chain (bp_heap s) head ps.

Record bucket_ok (h : gmap ptr breakpoint) (i : nat) (ps : list ptr) : Prop := {
  bucket_distinct : NoDup (addr_of h <$> ps);
  bucket_bps : forall p, p ∈ ps -> exists b, h !! p = Some b /\ bp_ok i b
}.

(** The invariant: every bucket is a finite chain of live blocks with distinct
    addresses, all hashing to it, and no block is newer than the allocator. *)
Record wf (s : bps) : Prop := {
  wf_length : length (breakpoints s) = Z.to_nat BREAKPOINT_HASH_SIZE;
  wf_fresh : forall p, is_Some (bp_heap s !! p) -> (p < bp_fresh s)%nat;
  wf_bucket : forall i, (i < Z.to_nat BREAKPOINT_HASH_SIZE)%nat ->
    exists ps, members s i ps /\ bucket_ok (bp_heap s) i ps
}.

(** The finite map from addresses to blocks the table implements. *)
Definition models (s : bps) (m : gmap Z ptr) : Prop :=
  wf s /\
  forall a p, m !! a = Some p <->
    exists i ps, members s i ps /\ p ∈ ps /\ addr_of (bp_heap s) p = Some a.

Lemma breakpoint_hash_lt a : (Z.to_nat (breakpoint_hash a) < Z.to_nat BREAKPOINT_HASH_SIZE)%nat.
Proof.
  unfold breakpoint_hash, u32, BREAKPOINT_HASH_SIZE.
  pose proof (Z.mod_pos_bound a 256 ltac:(lia)). rewrite Z.mod_small by lia. lia.
Qed.
#[export] Hint Resolve breakpoint_hash_lt : udi.

Lemma members_det s i ps ps' : members s i ps -> members s i ps' -> ps = ps'.
Proof. intros (h & Hh & Hc) (h' & Hh' & Hc'). simplify_eq. eauto using chain_det. Qed.

Lemma bucket_ok_NoDup h i ps : bucket_ok h i ps -> NoDup ps.
Proof. intros [Hd _]. eauto using NoDup_fmap_1. Qed.

Lemma wf_members s a :
  wf s -> exists head ps, bucket (breakpoint_hash a) s = Ret head s /\
    breakpoints s !! Z.to_nat (breakpoint_hash a) = Some head /\
    bp_chain (bp_heap s) head ps /\ bucket_ok (bp_heap s) (Z.to_nat (breakpoint_hash a)) ps /\
    (length ps < walk_fuel s)%nat.
Proof.
  intros Hw. destruct (wf_bucket s Hw (Z.to_nat (breakpoint_hash a))) as (ps & (head & Hh & Hc) & Hok);
    [apply breakpoint_hash_lt|].
  exists head, ps. unfold bucket. rewrite Hh. do 4 (split; [done|]).
  unfold walk_fuel. pose proof (chain_short _ _ _ Hc (bucket_ok_NoDup _ _ _ Hok)). lia.
Qed.

(** A member of any bucket is in the bucket of its address. *)
Lemma members_hash s i ps p a :
  wf s -> members s i ps -> p ∈ ps -> addr_of (bp_heap s) p = Some a ->
  i = Z.to_nat (breakpoint_hash a).
Proof.
  intros Hw Hm Hp Ha.
  assert (i < Z.to_nat BREAKPOINT_HASH_SIZE)%nat as Hi.
  { destruct Hm as (head & Hh & _). rewrite <- (wf_length s Hw). eauto using lookup_lt_Some. }
  destruct (wf_bucket s Hw i Hi) as (ps' & Hm' & [_ Hok]).
  rewrite (members_det _ _ _ _ Hm Hm') in Hp. destruct (Hok p Hp) as (b & Hb & Hbk).
  unfold addr_of in Ha. rewrite Hb in Ha. cbn in Ha. simplify_eq. symmetry. apply Hbk.
Qed.

Lemma models_lookup s m a p head ps :
  models s m -> breakpoints s !! Z.to_nat (breakpoint_hash a) = Some head ->
  bp_chain (bp_heap s) head ps ->
  m !! a = Some p <-> p ∈ ps /\ addr_of (bp_heap s) p = Some a.
Proof.
  intros [Hw Hm] Hh Hc. rewrite Hm. split.
  - intros (i & ps' & Hmem & Hp & Ha). pose proof (members_hash _ _ _ _ _ Hw Hmem Hp Ha) as ->.
    rewrite <- (members_det s _ ps' ps Hmem); [done|]. now exists head.
  - intros [Hp Ha]. exists (Z.to_nat (breakpoint_hash a)), ps. split; [now exists head|done].
Qed.

(** ** The walks *)

Lemma bp_load_ok s p b : bp_heap s !! p = Some b -> bp_load p s = Ret b s.
Proof. intros H. unfold bp_load. now rewrite H. Qed.

Lemma bp_update_ok s p b f :
  bp_heap s !! p = Some b -> bp_update p f s = Ret tt (put_heap (<[p := f b]> (bp_heap s)) s).
Proof. intros H. unfold bp_update. now mstep_with (bp_load_ok _ _ _ H). Qed.

Lemma find_walk_spec a s : forall fuel o ps,
  bp_chain (bp_heap s) o ps -> (length ps < fuel)%nat ->
  exists r, find_walk fuel o a s = Ret r s /\
    match r with
    | Some p => p ∈ ps /\ addr_of (bp_heap s) p = Some a
    | None => forall p, p ∈ ps -> addr_of (bp_heap s) p <> Some a
    end.
Proof.
  intros fuel o ps H. revert fuel.
  induction H as [|p b ps Hp Hc IH]; intros [|fuel] Hf; cbn in Hf; try lia; cbn [find_walk].
  - exists None. split; [done|]. intros p Hp. inversion Hp.
  - mstep_with (bp_load_ok _ _ _ Hp). destruct (Z.eqb_spec (address b) a) as [<-|Hne].
    + exists (Some p). split; [done|]. split; [left|]. unfold addr_of. now rewrite Hp.
    + destruct (IH fuel ltac:(lia)) as (r & -> & Hr). exists r. split; [done|].
      destruct r as [q|].
      * destruct Hr. split; [now right|done].
      * intros q Hq. inversion Hq; subst; [|now apply Hr].
        unfold addr_of. rewrite Hp. cbn. congruence.
Qed.

Lemma find_breakpoint_models s m a :
  models s m -> find_breakpoint a s = Ret (m !! a) s.
Proof.
  intros Hm. destruct (wf_members s a (proj1 Hm)) as (head & ps & Hb & Hh & Hc & Hok & Hf).
  unfold find_breakpoint. mstep_with Hb. mstep.
  destruct (find_walk_spec a s _ _ _ Hc Hf) as (r & -> & Hr). f_equal.
  pose proof (fun p => models_lookup s m a p head ps Hm Hh Hc) as Hl.
  destruct r as [p|].
  - symmetry. now apply Hl.
  - destruct (m !! a) as [q|]; [|done]. destruct (proj1 (Hl q) eq_refl) as [Hq1 Hq2].
    now destruct (Hr q Hq1).
Qed.

Lemma create_walk_spec new nb s : forall fuel p ps,
  bp_heap s !! new = Some nb -> bp_chain (bp_heap s) (Some p) ps -> (length ps <= fuel)%nat ->
  (exists q, q ∈ ps /\ addr_of (bp_heap s) q = Some (address nb) /\
     create_walk fuel p new s = Ret q (put_heap (delete new (bp_heap s)) s)) \/
  ((forall q, q ∈ ps -> addr_of (bp_heap s) q <> Some (address nb)) /\
   exists ps0 last bl, ps = ps0 ++ [last] /\ bp_heap s !! last = Some bl /\
     create_walk fuel p new s
     = Ret new (put_heap (<[last := set_next (Some new) bl]> (bp_heap s)) s)).
Proof.
  induction fuel as [|fuel IH]; intros p ps Hnew Hc Hf;
    inversion Hc as [|? b ps' Hp Hc']; subst; cbn in Hf; [lia|].
  cbn [create_walk]. mstep_with (bp_load_ok _ _ _ Hp). mstep_with (bp_load_ok _ _ _ Hnew).
  destruct (Z.eqb_spec (address b) (address nb)) as [He|Hne].
  { left. exists p. split; [left|]. split; [unfold addr_of; rewrite Hp; cbn; congruence|done]. }
  assert (addr_of (bp_heap s) p <> Some (address nb)) as Hpa
    by (unfold addr_of; rewrite Hp; cbn; congruence).
  destruct (next_breakpoint b) as [q|].
  - destruct (IH q ps' Hnew Hc' ltac:(lia)) as [(r & Hr & Ha & ->)|(Hno & ps0 & la & bl & -> & Hl & ->)].
    + left. exists r. split; [now right|done].
    + right. split; [|now exists (p :: ps0), la, bl].
      intros r Hr. inversion Hr; subst; auto.
  - inversion Hc'; subst. right. split.
    + intros r Hr. apply list_elem_of_singleton in Hr. now subst.
    + exists [], p, b. split; [done|]. split; [done|].
      now mstep_with (bp_update_ok _ _ _ (set_next (Some new)) Hp).
Qed.

(** ** Preservation of the invariant *)

(** Two heaps with the same links and addresses. *)
Definition same_links (h h' : gmap ptr breakpoint) : Prop :=
  forall p, match h !! p, h' !! p with
            | Some b, Some b' =>
                address b' = address b /\ next_breakpoint b' = next_breakpoint b /\
                length (saved_bytes b') = length (saved_bytes b)
            | None, None => True
            | _, _ => False
            end.

Lemma same_links_Some h h' p b :
  same_links h h' -> h !! p = Some b ->
  exists b', h' !! p = Some b' /\ address b' = address b /\
    next_breakpoint b' = next_breakpoint b /\ length (saved_bytes b') = length (saved_bytes b).
Proof. intros Hs Hp. specialize (Hs p). rewrite Hp in Hs. destruct (h' !! p); [eauto|done]. Qed.

#[export] Instance same_links_sym : Symmetric same_links.
Proof.
  intros h h' Hs p. specialize (Hs p). destruct (h !! p), (h' !! p); try done. intuition congruence.
Qed.

Lemma same_links_insert h p b b' :
  h !! p = Some b -> address b' = address b -> next_breakpoint b' = next_breakpoint b ->
  length (saved_bytes b') = length (saved_bytes b) -> same_links h (<[p := b']> h).
Proof.
  intros Hp Ha Hn Hl q. destruct (decide (q = p)) as [->|Hne].
  - now rewrite lookup_insert_eq, Hp.
  - rewrite lookup_insert_ne by done. now destruct (h !! q).
Qed.

Lemma same_links_addr h h' p : same_links h h' -> addr_of h' p = addr_of h p.
Proof.
  intros Hs. specialize (Hs p). unfold addr_of. destruct (h !! p), (h' !! p); try done.
  cbn. f_equal. apply Hs.
Qed.

Lemma same_links_chain h h' o ps : same_links h h' -> bp_chain h o ps -> bp_chain h' o ps.
Proof.
  intros Hs. apply chain_frame. intros p b _ Hp.
  destruct (same_links_Some _ _ _ _ Hs Hp) as (b' & ? & _ & ? & _). eauto.
Qed.

Lemma same_links_bucket h h' i ps : same_links h h' -> bucket_ok h i ps -> bucket_ok h' i ps.
Proof.
  intros Hs [Hd Hb]. split.
  - erewrite list_fmap_ext; [exact Hd|]. intros j p _. now apply same_links_addr.
  - intros p Hp. destruct (Hb p Hp) as (b & Hpb & [H1 H2 H3]).
    destruct (same_links_Some _ _ _ _ Hs Hpb) as (b' & Hb' & Ha & _ & Hl).
    exists b'. split; [done|]. split; congruence.
Qed.

Lemma same_links_members s s' i ps :
  breakpoints s' = breakpoints s -> same_links (bp_heap s) (bp_heap s') ->
  members s i ps -> members s' i ps.
Proof.
  intros Ht Hs (head & Hh & Hc). exists head. rewrite Ht. eauto using same_links_chain.
Qed.

(** An update that keeps the links keeps the map. *)
Lemma models_same_links s s' m :
  models s m -> breakpoints s' = breakpoints s -> (bp_fresh s <= bp_fresh s')%nat ->
  same_links (bp_heap s) (bp_heap s') -> models s' m.
Proof.
  intros [[Hl Hf Hb] Hm] Ht Hfr Hs. split; [split|].
  - congruence.
  - intros p [b Hp]. destruct (same_links_Some _ _ _ _ (symmetry Hs) Hp) as (b' & Hb' & _).
    specialize (Hf p). rewrite Hb' in Hf. specialize (Hf ltac:(eauto)). lia.
  - intros i Hi. destruct (Hb i Hi) as (ps & Hmem & Hok). exists ps.
    eauto using same_links_members, same_links_bucket.
  - intros a p. rewrite Hm. split; intros (i & ps & Hmem & Hp & Ha); exists i, ps.
    + split; [eauto using same_links_members|]. now rewrite (same_links_addr _ _ _ Hs).
    + split; [eapply same_links_members; [|symmetry; exact Hs|]; eauto|].
      now rewrite (same_links_addr _ _ _ Hs) in Ha.
Qed.

(** An update of bucket [i] alone changes the map at the addresses of [i]. *)
Lemma models_bucket s s' m m' i ps :
  models s m -> length (breakpoints s') = length (breakpoints s) ->
  (forall p, is_Some (bp_heap s' !! p) -> (p < bp_fresh s')%nat) ->
  members s' i ps -> bucket_ok (bp_heap s') i ps ->
  (forall j, j <> i -> breakpoints s' !! j = breakpoints s !! j) ->
  (forall q b, bp_heap s !! q = Some b -> Z.to_nat (breakpoint_hash (address b)) <> i ->
     bp_heap s' !! q = Some b) ->
  (forall a p, Z.to_nat (breakpoint_hash a) = i ->
     m' !! a = Some p <-> p ∈ ps /\ addr_of (bp_heap s') p = Some a) ->
  (forall a, Z.to_nat (breakpoint_hash a) <> i -> m' !! a = m !! a) -> models s' m'.
Proof.
  intros Hmod Hl Hf Hmem Hok Ht Hh Hm1 Hm2. pose proof (proj1 Hmod) as Hwf.
  assert (Hother : forall j qs, j <> i -> members s j qs -> bucket_ok (bp_heap s) j qs ->
            members s' j qs /\ bucket_ok (bp_heap s') j qs /\
            forall q, q ∈ qs -> bp_heap s' !! q = bp_heap s !! q).
  { intros j qs Hj (head & Hhd & Hc) [Hd Hb].
    assert (Hq : forall q, q ∈ qs -> bp_heap s' !! q = bp_heap s !! q).
    { intros q Hq. destruct (Hb q Hq) as (b & Hqb & [_ Hhash _]). rewrite Hqb.
      apply Hh; [done|congruence]. }
    split; [|split; [|done]].
    - exists head. rewrite Ht by done. split; [done|]. eapply chain_frame; [|exact Hc].
      intros q b Hin Hqb. exists b. now rewrite Hq.
    - split.
      + erewrite list_fmap_ext; [exact Hd|]. intros k q Hk. unfold addr_of.
        now rewrite Hq by eauto using list_elem_of_lookup_2.
      + intros q Hin. rewrite Hq by done. auto. }
  assert (Hwf' : wf s').
  { split; [now rewrite Hl, (wf_length s)|done|]. intros j Hj.
    destruct (decide (j = i)) as [->|Hne]; [eauto|].
    destruct (wf_bucket s Hwf j Hj) as (qs & H1 & H2). exists qs.
    destruct (Hother j qs) as (? & ? & _); auto. }
  split; [done|]. intros a p. destruct (decide (Z.to_nat (breakpoint_hash a) = i)) as [He|Hne].
  - rewrite (Hm1 a p He). split.
    + intros [Hp Ha]. exists i, ps. auto.
    + intros (j & qs & Hj & Hp & Ha). pose proof (members_hash _ _ _ _ _ Hwf' Hj Hp Ha) as ->.
      rewrite He in Hj. now rewrite <- (members_det _ _ _ _ Hj Hmem).
  - rewrite (Hm2 a Hne). destruct (wf_members s a Hwf) as (head & qs & _ & Hhd & Hc & Hqok & _).
    rewrite (models_lookup s m a p head qs Hmod Hhd Hc).
    destruct (Hother _ qs Hne) as (Hmem' & _ & Hq); [now exists head|done|].
    split.
    + intros [Hp Ha]. do 2 eexists. split; [exact Hmem'|]. split; [done|].
      unfold addr_of. now rewrite Hq.
    + intros (j & qs' & Hj & Hp & Ha). pose proof (members_hash _ _ _ _ _ Hwf' Hj Hp Ha) as ->.
      rewrite (members_det _ _ _ _ Hj Hmem') in Hp. split; [done|].
      unfold addr_of in *. now rewrite <- Hq.
Qed.

(** ** [create_breakpoint] *)

(** Everything of a breakpoint but its link. *)
Definition payload (b : breakpoint) : list Z * Z * bool * option ptr :=
  (saved_bytes b, address b, in_memory b, bp_thread b).

(** The blocks of [h] are in [h'] with the same payload. *)
Definition keeps_payloads (h h' : gmap ptr breakpoint) : Prop :=
  forall q b, h !! q = Some b -> exists b', h' !! q = Some b' /\ payload b' = payload b.

Definition new_breakpoint_block (a : Z) : breakpoint :=
  Breakpoint (replicate 8 0) a false None None.

Definition allocated (a : Z) (s : bps) : bps :=
  Bps (b_acc s) (breakpoints s) (<[bp_fresh s := new_breakpoint_block a]> (bp_heap s))
    (S (bp_fresh s)).

Lemma wf_fresh_None s : wf s -> bp_heap s !! bp_fresh s = None.
Proof.
  intros Hw. destruct (bp_heap s !! bp_fresh s) eqn:E; [|done].
  pose proof (wf_fresh s Hw (bp_fresh s) ltac:(eauto)). lia.
Qed.

Lemma malloc_ok s : allocs (a_rt (b_acc s)) = [] -> on_acc (on_rt udi_malloc) s = Ret true s.
Proof.
  intros H. unfold on_acc, on_rt, zoom, udi_malloc. rewrite H.
  now destruct s as [[[? ?] ? ? ? ? ? ? ? ?] ? ? ?].
Qed.

Lemma chain_allocated s a o ps :
  wf s -> bp_chain (bp_heap s) o ps -> bp_chain (bp_heap (allocated a s)) o ps.
Proof.
  intros Hw. apply chain_frame. intros p b _ Hp. exists b. split; [|done]. cbn.
  rewrite lookup_insert_ne; [done|]. intros <-. now rewrite (wf_fresh_None s Hw) in Hp.
Qed.

(** A block appended to the bucket of a new address adds the address to the map. *)
Lemma models_append s s' m a head ps :
  models s m -> breakpoints s !! Z.to_nat (breakpoint_hash a) = Some head ->
  bp_chain (bp_heap s) head ps -> bucket_ok (bp_heap s) (Z.to_nat (breakpoint_hash a)) ps ->
  m !! a = None -> 0 <= a < 2 ^ 64 ->
  length (breakpoints s') = length (breakpoints s) -> bp_fresh s' = S (bp_fresh s) ->
  (forall j, j <> Z.to_nat (breakpoint_hash a) -> breakpoints s' !! j = breakpoints s !! j) ->
  members s' (Z.to_nat (breakpoint_hash a)) (ps ++ [bp_fresh s]) ->
  bp_heap s' !! bp_fresh s = Some (new_breakpoint_block a) ->
  (forall q, q <> bp_fresh s -> q ∉ ps -> bp_heap s' !! q = bp_heap s !! q) ->
  keeps_payloads (bp_heap s) (bp_heap s') ->
  models s' (<[a := bp_fresh s]> m).
Proof.
  intros Hm Hh Hc Hok Hma Ha Hlen Hfs Htab Hmem Hnew Hout Hin. pose proof (proj1 Hm) as Hw.
  pose proof (fun p => models_lookup s m a p head ps Hm Hh Hc) as Hl.
  assert (Hadr : forall q, q ∈ ps -> addr_of (bp_heap s') q = addr_of (bp_heap s) q).
  { intros q Hq. destruct (bucket_bps _ _ _ Hok q Hq) as (b & Hqb & _).
    destruct (Hin q b Hqb) as (b' & Hqb' & Hpl). unfold addr_of. rewrite Hqb, Hqb'.
    cbn. injection Hpl. congruence. }
  assert (Hna : addr_of (bp_heap s') (bp_fresh s) = Some a) by (unfold addr_of; now rewrite Hnew).
  eapply (models_bucket s s' m); eauto.
  - intros p [b Hp]. rewrite Hfs. destruct (decide (p = bp_fresh s)) as [->|Hne]; [lia|].
    destruct (decide (p ∈ ps)) as [Hpi|Hpi].
    + pose proof (wf_fresh s Hw p (chain_live _ _ _ _ Hc Hpi)). lia.
    + rewrite Hout in Hp by done. pose proof (wf_fresh s Hw p ltac:(eauto)). lia.
  - split.
    + rewrite fmap_app. cbn. rewrite Hna. apply NoDup_app.
      erewrite list_fmap_ext with (g := addr_of (bp_heap s));
        [|intros k q Hk; apply Hadr; eauto using list_elem_of_lookup_2].
      split; [apply Hok|]. split; [|apply NoDup_singleton].
      intros x Hx. apply list_elem_of_fmap in Hx as (q & -> & Hq).
      intros Hxa. apply list_elem_of_singleton in Hxa.
      pose proof (proj2 (Hl q) (conj Hq Hxa)). congruence.
    + intros p Hp. apply elem_of_app in Hp as [Hp|Hp].
      * destruct (bucket_bps _ _ _ Hok p Hp) as (b & Hpb & [? ? ?]).
        destruct (Hin p b Hpb) as (b' & Hb' & Hpl). exists b'. split; [done|].
        injection Hpl. intros. split; congruence.
      * apply list_elem_of_singleton in Hp as ->. eexists. split; [exact Hnew|]. now split.
  - intros q b Hq Hne. rewrite Hout; [done| |].
    + intros ->. rewrite (wf_fresh_None s Hw) in Hq. done.
    + intros Hqp. destruct (bucket_bps _ _ _ Hok q Hqp) as (b' & Hb' & [_ Hbh _]). congruence.
  - intros x p Hx. rewrite elem_of_app, list_elem_of_singleton.
    destruct (decide (x = a)) as [->|Hxa].
    + rewrite lookup_insert_eq. split; [intros ?; simplify_eq; auto|].
      intros [[Hp| ->] Hpa]; [|done]. rewrite Hadr in Hpa by done.
      pose proof (proj2 (Hl p) (conj Hp Hpa)). congruence.
    + rewrite lookup_insert_ne by done.
      rewrite (models_lookup s m x p head ps Hm ltac:(now rewrite Hx) Hc).
      split; [intros [Hp Hpx]; rewrite Hadr; auto|].
      intros [[Hp| ->] Hpx]; [now rewrite <- Hadr|congruence].
  - intros x Hx. apply lookup_insert_ne. congruence.
Qed.

(** The state [create_breakpoint] leaves when the address is new. *)
Definition appended (a : Z) (s : bps) (head : option ptr) (ps : list ptr) (s' : bps) : Prop :=
  match head with
  | None => s' = put_heap (<[bp_fresh s := new_breakpoint_block a]> (bp_heap (allocated a s)))
                   (put_table (<[Z.to_nat (breakpoint_hash a) := Some (bp_fresh s)]> (breakpoints s))
                      (allocated a s))
  | Some _ => exists ps0 la bl, ps = ps0 ++ [la] /\ bp_heap s !! la = Some bl /\
      s' = put_heap (<[la := set_next (Some (bp_fresh s)) bl]> (bp_heap (allocated a s)))
             (allocated a s)
  end.

Lemma create_breakpoint_cases s m a head ps :
  models s m -> allocs (a_rt (b_acc s)) = [] ->
  breakpoints s !! Z.to_nat (breakpoint_hash a) = Some head -> bp_chain (bp_heap s) head ps ->
  bucket_ok (bp_heap s) (Z.to_nat (breakpoint_hash a)) ps ->
  match m !! a with
  | Some p => create_breakpoint a s
              = Ret (Some p) (Bps (b_acc s) (breakpoints s) (bp_heap s) (S (bp_fresh s)))
  | None => exists s', create_breakpoint a s = Ret (Some (bp_fresh s)) s' /\ appended a s head ps s'
  end.
Proof.
  intros Hm Hal Hh Hc Hok. pose proof (proj1 Hm) as Hw.
  pose proof (wf_fresh_None s Hw) as Hfr.
  pose proof (fun p => models_lookup s m a p head ps Hm Hh Hc) as Hl.
  assert (Hne : forall p, p ∈ ps -> bp_fresh s <> p).
  { intros p Hp <-. apply (chain_live _ _ _ _ Hc) in Hp as [? ?]. congruence. }
  assert (Haddr : forall p, p ∈ ps ->
            addr_of (bp_heap (allocated a s)) p = addr_of (bp_heap s) p).
  { intros p Hp. unfold addr_of. cbn. rewrite lookup_insert_ne; auto. }
  assert (Hnew : bp_heap (allocated a s) !! bp_fresh s = Some (new_breakpoint_block a))
    by apply lookup_insert_eq.
  assert (Hal' : bp_alloc (new_breakpoint_block a) s = Ret (bp_fresh s) (allocated a s)) by done.
  unfold create_breakpoint. mstep_with (malloc_ok s Hal). cbn [negb]. fold (new_breakpoint_block a).
  mstep_with Hal'.
  assert (Hb' : bucket (breakpoint_hash a) (allocated a s) = Ret head (allocated a s))
    by (unfold bucket; cbn; now rewrite Hh).
  mstep_with Hb'. destruct head as [cur|].
  - mstep. pose proof (chain_allocated s a _ _ Hw Hc) as Hc'.
    assert (Hf : (length ps <= walk_fuel (allocated a s))%nat).
    { pose proof (chain_short _ _ _ Hc' (bucket_ok_NoDup _ _ _ Hok)). unfold walk_fuel. lia. }
    destruct (create_walk_spec (bp_fresh s) _ (allocated a s) _ _ _ Hnew Hc' Hf)
      as [(q & Hq & Hqa & Hcw)|(Hno & ps0 & la & bl & -> & Hla & Hcw)]; mstep_with Hcw.
    + rewrite Haddr in Hqa by done. rewrite (proj2 (Hl q)) by done. unfold put_heap, ret. cbn.
      now rewrite delete_insert_id.
    + destruct (m !! a) as [p|] eqn:Hma.
      { destruct (proj1 (Hl p) eq_refl) as [Hp Hpa]. rewrite <- Haddr in Hpa by done.
        now destruct (Hno p Hp). }
      eexists. split; [reflexivity|]. exists ps0, la, bl. split; [done|]. split; [|done].
      cbn in Hla. rewrite lookup_insert_ne in Hla; [done|]. apply Hne. set_solver.
  - inversion Hc; subst. destruct (m !! a) as [p|] eqn:Hma.
    { destruct (proj1 (Hl p) eq_refl) as [Hp _]. inversion Hp. }
    unfold set_bucket, bind at 1. cbn [allocated breakpoints]. rewrite Hh.
    unfold bp_update. rewrite bind_assoc. unfold bp_load, bind at 1. cbn [put_table bp_heap].
    rewrite Hnew. eexists. split; reflexivity.
Qed.

Lemma appended_ok s s' m a head ps :
  models s m -> breakpoints s !! Z.to_nat (breakpoint_hash a) = Some head ->
  bp_chain (bp_heap s) head ps -> bucket_ok (bp_heap s) (Z.to_nat (breakpoint_hash a)) ps ->
  m !! a = None -> 0 <= a < 2 ^ 64 -> appended a s head ps s' ->
  models s' (<[a := bp_fresh s]> m) /\ b_acc s' = b_acc s /\
  bp_heap s' !! bp_fresh s = Some (new_breakpoint_block a) /\
  keeps_payloads (bp_heap s) (bp_heap s').
Proof.
  intros Hm Hh Hc Hok Hma Ha Hap. pose proof (proj1 Hm) as Hw.
  pose proof (wf_fresh_None s Hw) as Hfr.
  assert (Hlt : (Z.to_nat (breakpoint_hash a) < length (breakpoints s))%nat)
    by eauto using lookup_lt_Some.
  assert (Hne : forall p b, bp_heap s !! p = Some b -> bp_fresh s <> p) by congruence.
  destruct head as [cur|]; cbn in Hap.
  - destruct Hap as (ps0 & la & bl & -> & Hla & ->).
    assert (Hkp : keeps_payloads (bp_heap s)
              (<[la := set_next (Some (bp_fresh s)) bl]> (bp_heap (allocated a s)))).
    { intros q b Hq. destruct (decide (q = la)) as [->|Hql].
      - rewrite lookup_insert_eq. simplify_eq. eauto.
      - rewrite lookup_insert_ne by done. cbn. rewrite lookup_insert_ne by eauto. eauto. }
    assert (Hnb : (<[la := set_next (Some (bp_fresh s)) bl]> (bp_heap (allocated a s)))
                  !! bp_fresh s = Some (new_breakpoint_block a)).
    { rewrite lookup_insert_ne by (apply not_eq_sym; eauto). apply lookup_insert_eq. }
    split; [|done]. eapply models_append; eauto.
    + exists (Some cur). split; [exact Hh|]. rewrite <- app_assoc.
      eapply (chain_snoc set_next); [done|apply chain_allocated; eauto|eapply bucket_ok_NoDup, Hok| | |apply lookup_insert_eq|done].
      * intros Hin. apply (chain_live _ _ _ _ Hc) in Hin as [? ?]. congruence.
      * cbn. rewrite lookup_insert_ne; eauto.
    + intros q Hq Hqp. cbn. rewrite lookup_insert_ne by set_solver. now rewrite lookup_insert_ne.
  - subst s'. inversion Hc; subst.
    assert (Hnb : forall h : gmap ptr breakpoint, (<[bp_fresh s := new_breakpoint_block a]> h) !! bp_fresh s
                  = Some (new_breakpoint_block a)) by (intros; apply lookup_insert_eq).
    assert (Hkp : keeps_payloads (bp_heap s)
              (<[bp_fresh s := new_breakpoint_block a]> (bp_heap (allocated a s)))).
    { intros q b Hq. cbn. rewrite !lookup_insert_ne by eauto. eauto. }
    split; [|split; [done|split; [apply Hnb|exact Hkp]]].
    eapply models_append; eauto.
    + cbn. apply length_insert.
    + intros j Hj. cbn. now rewrite list_lookup_insert_ne.
    + exists (Some (bp_fresh s)). cbn. rewrite list_lookup_insert_eq by done. split; [done|].
      econstructor; [apply Hnb|constructor].
    + apply Hnb.
    + intros q Hq _. cbn. now rewrite !lookup_insert_ne.
Qed.

(** ** Installing and removing *)

Section Planting.
Context `{LO : LibcOk}.

(** The link structure, the allocator and the table are as before; only the
    block [p] may have changed, and it is still at its address. *)
Record only_bp (p : ptr) (s s' : bps) : Prop := {
  ob_table : breakpoints s' = breakpoints s;
  ob_fresh : bp_fresh s' = bp_fresh s;
  ob_links : same_links (bp_heap s) (bp_heap s');
  ob_other : forall q, q <> p -> bp_heap s' !! q = bp_heap s !! q
}.

Lemma only_bp_acc p s a : only_bp p s (put_acc a s).
Proof. split; try done. intros q. cbn. now destruct (bp_heap s !! q). Qed.

Lemma only_bp_update p s a b b' :
  bp_heap s !! p = Some b -> address b' = address b ->
  next_breakpoint b' = next_breakpoint b -> length (saved_bytes b') = length (saved_bytes b) ->
  only_bp p s (put_heap (<[p := b']> (bp_heap s)) (put_acc a s)).
Proof.
  intros Hp Ha Hn Hl. split; try done; cbn.
  - now apply same_links_insert with b.
  - intros q Hq. now rewrite lookup_insert_ne.
Qed.

Lemma only_bp_models p s s' m : only_bp p s s' -> models s m -> models s' m.
Proof. intros [? Hf ? _] Hm. eapply models_same_links; eauto. now rewrite Hf. Qed.

(** The outcome of putting the breakpoint instruction at [address b]: the
    byte that was there is saved, or nothing has happened in memory. *)
Lemma install_breakpoint_spec s p b :
  calm (b_acc s) -> bp_heap s !! p = Some b -> in_memory b = false ->
  0 <= address b < 2 ^ 64 -> saved_bytes b <> [] ->
  exists r s' b', install_breakpoint p s = Ret r s' /\ only_bp p s s' /\ calm (b_acc s') /\
    bp_heap s' !! p = Some b' /\ bp_thread b' = bp_thread b /\
    let sp := space (b_acc s) in
    let sp' := space (b_acc s') in
    ((r = 0 /\ in_memory b' = true /\ saved_bytes b' !! 0%nat = Some (peek sp (address b)) /\
      as_bytes sp' = <[address b := BREAKPOINT_INSN]> (as_bytes sp)) \/
     (r = -1 /\ in_memory b' = false /\ as_bytes sp' = as_bytes sp /\ byte_inaccessible (address b) sp')).
Proof.
  intros Hcalm Hp Hmem Ha Hsv. unfold install_breakpoint, write_breakpoint_instruction.
  mstep_with (bp_load_ok _ _ _ Hp). rewrite Hmem. rewrite bind_assoc.
  mstep_with (bp_load_ok _ _ _ Hp). rewrite Hmem. rewrite bind_assoc.
  destruct (read_byte_spec (saved_bytes b) (address b) (b_acc s) Hcalm Ha Hsv)
    as (r1 & buf & a1 & Hr1 & Hc1 & Hb1 & Hcase1).
  mstep_with (zoom_Ret b_acc put_acc _ _ _ _ Hr1).
  set (s1 := put_acc a1 s). assert (Hp1 : bp_heap s1 !! p = Some b) by done.
  assert (Hbuf : length buf = length (saved_bytes b)).
  { destruct Hcase1 as [[_ ->]|(_ & -> & _)]; [|done]. destruct (saved_bytes b); [done|].
    cbn. now rewrite drop_0. }
  rewrite bind_assoc. mstep_with (bp_update_ok _ _ _ (set_saved buf) Hp1).
  set (s2 := put_heap (<[p := set_saved buf b]> (bp_heap s1)) s1).
  assert (Hp2 : bp_heap s2 !! p = Some (set_saved buf b)) by apply lookup_insert_eq.
  destruct Hcase1 as [[-> Hbf]|(-> & -> & Hin1)]; cbn [negb Z.eqb].
  - rewrite bind_assoc. mstep_with (bp_load_ok _ _ _ Hp2).
    destruct (write_byte_spec (address (set_saved buf b)) BREAKPOINT_INSN [] a1 Hc1 Ha)
      as (r2 & a2 & Hr2 & Hc2 & Hcase2).
    mstep_with (zoom_Ret b_acc put_acc _ s2 _ _ Hr2).
    destruct Hcase2 as [[-> Hb2]|(-> & Hb2 & Hin2)]; cbn [Z.eqb].
    + rewrite (bind_Ret _ _ _ _ _ (bp_update_ok (put_acc a2 s2) p _ (set_in_memory true) Hp2)).
      do 3 eexists. split; [reflexivity|]. split; [|split; [done|]].
      * cbn. rewrite insert_insert_eq. now apply (only_bp_update p s a2 b).
      * cbn. rewrite lookup_insert_eq. split; [done|]. split; [done|]. left.
        split; [done|]. split; [done|]. rewrite Hbf. split; [done|]. now rewrite Hb2, Hb1.
    + do 3 eexists. split; [reflexivity|]. split; [|split; [done|]].
      * now apply (only_bp_update p s a2 b).
      * split; [exact Hp2|]. split; [done|]. right. cbn. now rewrite Hb2, Hb1.
  - mstep. do 3 eexists. split; [reflexivity|]. split; [|split; [done|]].
    + now apply (only_bp_update p s a1 b).
    + split; [exact Hp2|]. split; [done|]. right. auto.
Qed.

(** Putting the saved byte back, with or without clearing [in_memory]. *)
Lemma write_saved_bytes_spec s p b c cs :
  calm (b_acc s) -> bp_heap s !! p = Some b -> in_memory b = true ->
  0 <= address b < 2 ^ 64 -> saved_bytes b = c :: cs ->
  exists r a', write_saved_bytes p s = Ret r (put_acc a' s) /\ calm a' /\
    let sp := space (b_acc s) in
    ((r = 0 /\ as_bytes (space a') = <[address b := c]> (as_bytes sp)) \/
     (r = -1 /\ as_bytes (space a') = as_bytes sp)).
Proof.
  intros Hcalm Hp Hmem Ha Hsv. unfold write_saved_bytes.
  mstep_with (bp_load_ok _ _ _ Hp). rewrite Hmem, Hsv. cbn [negb].
  destruct (write_byte_spec (address b) c cs (b_acc s) Hcalm Ha) as (r & a' & Hr & Hc & Hcase).
  exists r, a'. split; [exact (zoom_Ret b_acc put_acc _ s _ _ Hr)|]. split; [done|]. naive_solver.
Qed.

Lemma remove_breakpoint_spec s p b c cs :
  calm (b_acc s) -> bp_heap s !! p = Some b -> in_memory b = true ->
  0 <= address b < 2 ^ 64 -> saved_bytes b = c :: cs ->
  exists r s' b', remove_breakpoint p s = Ret r s' /\ only_bp p s s' /\ calm (b_acc s') /\
    bp_heap s' !! p = Some b' /\ saved_bytes b' = saved_bytes b /\ bp_thread b' = bp_thread b /\
    let sp := space (b_acc s) in
    let sp' := space (b_acc s') in
    ((r = 0 /\ in_memory b' = false /\ as_bytes sp' = <[address b := c]> (as_bytes sp)) \/
     (r = -1 /\ in_memory b' = true /\ as_bytes sp' = as_bytes sp)).
Proof.
  intros Hcalm Hp Hmem Ha Hsv.
  destruct (write_saved_bytes_spec s p b c cs Hcalm Hp Hmem Ha Hsv) as (r & a' & Hw & Hc & Hcase).
  unfold remove_breakpoint. mstep_with (bp_load_ok _ _ _ Hp). rewrite Hmem. cbn [negb].
  mstep_with Hw. assert (Hp' : bp_heap (put_acc a' s) !! p = Some b) by done.
  destruct Hcase as [[-> Hb]|[-> Hb]]; cbn [Z.eqb].
  - mstep_with (bp_update_ok _ _ _ (set_in_memory false) Hp').
    do 3 eexists. split; [reflexivity|]. split; [|split; [done|]].
    + now apply (only_bp_update p s a' b).
    + cbn. rewrite lookup_insert_eq. do 3 (split; [done|]). left. auto.
  - mstep. do 3 eexists. split; [reflexivity|]. split; [apply only_bp_acc|]. split; [done|].
    split; [exact Hp|]. do 2 (split; [done|]). right. auto.
Qed.
End Planting.

(** ** Deleting *)

Lemma delete_walk_found bp b s : forall pre fuel prev o post,
  bp_heap s !! bp = Some b -> bp_chain (bp_heap s) o (pre ++ bp :: post) ->
  (forall q, q ∈ pre -> addr_of (bp_heap s) q <> Some (address b)) ->
  (length pre < fuel)%nat ->
  delete_walk fuel prev o bp s = Ret (from_option Some prev (last pre), Some bp) s.
Proof.
  induction pre as [|q pre IH]; intros [|fuel] prev o post Hb Hc Hno Hf; cbn in Hf; try lia;
    inversion Hc as [|? c ? Hq Hc']; subst; cbn [delete_walk].
  - mstep_with (bp_load_ok _ _ _ Hb). mstep_with (bp_load_ok _ _ _ Hb). now rewrite Z.eqb_refl.
  - mstep_with (bp_load_ok _ _ _ Hq). mstep_with (bp_load_ok _ _ _ Hb).
    destruct (Z.eqb_spec (address c) (address b)) as [He|_].
    { destruct (Hno q); [left|]. unfold addr_of. rewrite Hq. cbn. congruence. }
    rewrite (IH fuel (Some q) (next_breakpoint c) post Hb Hc') by (try lia; set_solver).
    rewrite last_cons. now destruct (last pre).
Qed.

(** The map without the addresses that hash like [a]. *)
Definition drop_bucket (a : Z) (m : gmap Z ptr) : gmap Z ptr :=
  filter (fun '(x, _) => breakpoint_hash x <> breakpoint_hash a) m.

(** What [delete_breakpoint] does to the map: the address goes, and when its
    block is the first of its bucket, so does every address of the bucket. *)
Definition after_delete (s : bps) (a : Z) (p : ptr) (m : gmap Z ptr) : gmap Z ptr :=
  if decide (breakpoints s !! Z.to_nat (breakpoint_hash a) = Some (Some p))
  then drop_bucket a m else delete a m.

Lemma breakpoint_hash_inj a x :
  Z.to_nat (breakpoint_hash a) = Z.to_nat (breakpoint_hash x) -> breakpoint_hash a = breakpoint_hash x.
Proof.
  unfold breakpoint_hash, u32, BREAKPOINT_HASH_SIZE.
  pose proof (Z.mod_pos_bound (a mod 256) (2 ^ 32) ltac:(lia)).
  pose proof (Z.mod_pos_bound (x mod 256) (2 ^ 32) ltac:(lia)). lia.
Qed.

Lemma drop_bucket_in a m x :
  Z.to_nat (breakpoint_hash x) = Z.to_nat (breakpoint_hash a) -> drop_bucket a m !! x = None.
Proof.
  intros Hx. apply breakpoint_hash_inj in Hx. apply map_lookup_filter_None. right.
  intros p _ Hne. now apply Hne.
Qed.

Lemma drop_bucket_out a m x :
  Z.to_nat (breakpoint_hash x) <> Z.to_nat (breakpoint_hash a) -> drop_bucket a m !! x = m !! x.
Proof.
  intros Hx. apply option_eq. intros p. unfold drop_bucket. rewrite map_lookup_filter_Some.
  split; [now intros [? _]|]. intros Hp. split; [done|]. congruence.
Qed.

(** The two ways in which the block is taken out of its bucket. *)
Definition unlinked (s : bps) (a : Z) (p : ptr) (pre post : list ptr) (s' : bps) : Prop :=
  match last pre with
  | None =>
      s' = put_heap (delete p (bp_heap s))
             (put_table (<[Z.to_nat (breakpoint_hash a) := None]> (breakpoints s)) s)
  | Some q => exists bq b, bp_heap s !! q = Some bq /\ bp_heap s !! p = Some b /\
      s' = put_heap (delete p (<[q := set_next (next_breakpoint b) bq]> (bp_heap s))) s
  end.

Section Deleting.
Context `{LO : LibcOk}.

(** The block of a map entry, seen in its bucket. *)
Lemma models_split s m a p :
  models s m -> m !! a = Some p ->
  exists head pre post b,
    breakpoints s !! Z.to_nat (breakpoint_hash a) = Some head /\
    bp_chain (bp_heap s) head (pre ++ p :: post) /\
    bucket_ok (bp_heap s) (Z.to_nat (breakpoint_hash a)) (pre ++ p :: post) /\
    (length (pre ++ p :: post) < walk_fuel s)%nat /\
    bp_heap s !! p = Some b /\ address b = a /\
    (forall q, q ∈ pre -> addr_of (bp_heap s) q <> Some a).
Proof.
  intros Hm Ha. destruct (wf_members s a (proj1 Hm)) as (head & ps & _ & Hh & Hc & Hok & Hf).
  destruct (proj1 (models_lookup s m a p head ps Hm Hh Hc) Ha) as [Hp Hpa].
  apply list_elem_of_split in Hp as (pre & post & ->).
  unfold addr_of in Hpa. destruct (bp_heap s !! p) as [b|] eqn:Hb; [|done]. cbn in Hpa.
  exists head, pre, post, b. do 5 (split; [done|]). split; [congruence|].
  intros q Hq Hqa. pose proof (bucket_distinct _ _ _ Hok) as Hd. rewrite fmap_app in Hd.
  apply NoDup_app in Hd as (_ & Hd & _). apply (Hd (Some a)).
  - rewrite <- Hqa. now apply list_elem_of_fmap_2.
  - rewrite fmap_cons. unfold addr_of at 1. rewrite Hb, <- Hpa. left.
Qed.

Lemma delete_after_remove s s1 m a p :
  models s1 m -> m !! a = Some p -> remove_breakpoint p s = Ret 0 s1 ->
  exists head pre post s', delete_breakpoint p s = Ret 0 s' /\
    breakpoints s1 !! Z.to_nat (breakpoint_hash a) = Some head /\
    bp_chain (bp_heap s1) head (pre ++ p :: post) /\ unlinked s1 a p pre post s'.
Proof.
  intros Hm Ha Hr.
  destruct (models_split s1 m a p Hm Ha) as (head & pre & post & b & Hh & Hc & Hok & Hf & Hb & Hba & Hno).
  exists head, pre, post. unfold delete_breakpoint. mstep_with Hr. cbn [negb Z.eqb].
  mstep_with (bp_load_ok _ _ _ Hb). rewrite Hba.
  assert (Hbk : bucket (breakpoint_hash a) s1 = Ret head s1) by (unfold bucket; now rewrite Hh).
  mstep_with Hbk. mstep.
  rewrite length_app in Hf. cbn in Hf.
  rewrite (bind_Ret _ _ _ _ _ (delete_walk_found p b s1 pre (walk_fuel s1) head head post Hb Hc
             ltac:(now rewrite Hba) ltac:(lia))).
  unfold unlinked. destruct (last pre) as [q|] eqn:Hlast; cbn [from_option].
  - pose proof Hlast as Hin. apply last_Some_elem_of in Hin.
    destruct (bucket_bps _ _ _ Hok q) as (bq & Hq & _); [set_solver|].
    assert (q <> p) as Hqp.
    { intros ->. apply (Hno p Hin). unfold addr_of. rewrite Hb. cbn. congruence. }
    apply Nat.eqb_neq in Hqp as ->. rewrite bind_assoc. mstep_with (bp_load_ok _ _ _ Hb).
    mstep_with (bp_update_ok _ _ _ (set_next (next_breakpoint b)) Hq).
    eexists. split; [reflexivity|]. eauto 8.
  - apply last_None in Hlast as ->. inversion Hc; subst. rewrite Nat.eqb_refl.
    unfold set_bucket, bind at 1. rewrite Hh. eexists. split; [reflexivity|]. auto.
Qed.

(** The blocks other than [p] survive with their payload. *)
Definition forgets (p : ptr) (h h' : gmap ptr breakpoint) : Prop :=
  h' !! p = None /\ forall q b, q <> p -> h !! q = Some b ->
    exists b', h' !! q = Some b' /\ payload b' = payload b.

Lemma unlinked_forgets s a p pre post s' :
  unlinked s a p pre post s' -> forgets p (bp_heap s) (bp_heap s') /\ b_acc s' = b_acc s.
Proof.
  unfold unlinked. destruct (last pre) as [q|].
  - intros (bq & b & Hq & Hp & ->). split; [|done]. split; [apply lookup_delete_eq|].
    intros x bx Hx Hxb. cbn. rewrite lookup_delete_ne by done.
    destruct (decide (x = q)) as [->|Hne]; [rewrite lookup_insert_eq; simplify_eq; eauto|].
    rewrite lookup_insert_ne; eauto.
  - intros ->. split; [|done]. split; [apply lookup_delete_eq|].
    intros x bx Hx Hxb. cbn. rewrite lookup_delete_ne; eauto.
Qed.

Lemma forgets_addr p h h' i ps q :
  forgets p h h' -> bucket_ok h i ps -> q ∈ ps -> q <> p -> addr_of h' q = addr_of h q.
Proof.
  intros [_ Hf] Hok Hq Hne. destruct (bucket_bps _ _ _ Hok q Hq) as (b & Hb & _).
  destruct (Hf q b Hne Hb) as (b' & Hb' & Hp). unfold addr_of. rewrite Hb, Hb'. cbn.
  injection Hp. congruence.
Qed.

Lemma forgets_bucket p h h' i ps ps' :
  forgets p h h' -> bucket_ok h i ps -> (forall q, q ∈ ps' -> q ∈ ps /\ q <> p) ->
  sublist ps' ps -> bucket_ok h' i ps'.
Proof.
  intros Hfg Hok Hin Hsub. split.
  - erewrite list_fmap_ext with (g := addr_of h).
    + eapply sublist_NoDup; [apply Hok|]. now apply fmap_sublist.
    + intros k q Hk. apply list_elem_of_lookup_2 in Hk. destruct (Hin q Hk).
      eapply forgets_addr; eauto.
  - intros q Hq. destruct (Hin q Hq) as [Hqp Hne].
    destruct (bucket_bps _ _ _ Hok q Hqp) as (b & Hb & [? ? ?]).
    destruct Hfg as [_ Hfg]. destruct (Hfg q b Hne Hb) as (b' & Hb' & Hpl).
    exists b'. split; [done|]. injection Hpl. intros. split; congruence.
Qed.

Lemma unlinked_out s a p pre post s' q b :
  unlinked s a p pre post s' -> q ∉ pre -> q <> p ->
  bp_heap s !! q = Some b -> bp_heap s' !! q = Some b.
Proof.
  unfold unlinked. destruct (last pre) as [x|] eqn:Hx.
  - apply last_Some_elem_of in Hx. intros (bq & c & _ & _ & ->) Hq Hne Hb. cbn.
    rewrite lookup_delete_ne, lookup_insert_ne; [done|set_solver..].
  - intros -> Hq Hne Hb. cbn. now rewrite lookup_delete_ne.
Qed.

Lemma unlinked_frame s a p pre post s' :
  unlinked s a p pre post s' ->
  length (breakpoints s') = length (breakpoints s) /\ bp_fresh s' = bp_fresh s /\
  (forall j, j <> Z.to_nat (breakpoint_hash a) -> breakpoints s' !! j = breakpoints s !! j) /\
  (forall x, is_Some (bp_heap s' !! x) -> is_Some (bp_heap s !! x)).
Proof.
  unfold unlinked. destruct (last pre) as [y|].
  - intros (bq & c & Hy & _ & ->). repeat split; try done. cbn.
    intros x [bx Hx]. apply lookup_delete_Some in Hx as [_ Hx].
    destruct (decide (y = x)) as [->|Hne]; [eauto|]. rewrite lookup_insert_ne in Hx; eauto.
  - intros ->. cbn. rewrite length_insert. repeat split.
    + intros j Hj. now rewrite list_lookup_insert_ne.
    + intros x [bx Hx]. apply lookup_delete_Some in Hx as [_ Hx]. eauto.
Qed.

(** The bucket that is left. *)
Definition remaining (pre post : list ptr) : list ptr :=
  match last pre with None => [] | Some _ => pre ++ post end.

Lemma remaining_in p pre post q :
  NoDup (pre ++ p :: post) -> q ∈ remaining pre post -> q ∈ pre ++ p :: post /\ q <> p.
Proof.
  intros Hnd. apply NoDup_app in Hnd as (_ & Hd & Hnd). apply NoDup_cons in Hnd as [Hnd _].
  unfold remaining. destruct (last pre); [|intros Hq; inversion Hq].
  rewrite !elem_of_app. intros Hq. split; [set_solver|]. intros ->.
  destruct Hq as [Hq|Hq]; [|done]. apply (Hd p Hq). left.
Qed.

Lemma unlinked_members s a p head pre post s' :
  breakpoints s !! Z.to_nat (breakpoint_hash a) = Some head ->
  bp_chain (bp_heap s) head (pre ++ p :: post) -> NoDup (pre ++ p :: post) ->
  unlinked s a p pre post s' ->
  members s' (Z.to_nat (breakpoint_hash a)) (remaining pre post).
Proof.
  intros Hh Hc Hnd Hu. unfold unlinked in Hu. unfold remaining.
  destruct (last pre) as [y|] eqn:Hy.
  - destruct Hu as (bq & c & Hyb & Hpb & ->). exists head. split; [exact Hh|].
    apply last_Some in Hy as (pre0 & ->). cbn. rewrite <- app_assoc in Hc, Hnd |- *.
    now apply (chain_unlink set_next).
  - subst s'. exists None. cbn. rewrite list_lookup_insert_eq by eauto using lookup_lt_Some.
    split; [done|constructor].
Qed.

Lemma unlinked_models s m a p head pre post s' :
  models s m -> m !! a = Some p ->
  breakpoints s !! Z.to_nat (breakpoint_hash a) = Some head ->
  bp_chain (bp_heap s) head (pre ++ p :: post) -> unlinked s a p pre post s' ->
  models s' (after_delete s a p m).
Proof.
  intros Hm Ha Hh Hc Hu. pose proof (proj1 Hm) as Hw.
  destruct (wf_members s a Hw) as (head' & ps & _ & Hh' & Hc' & Hok & _).
  rewrite Hh in Hh'. injection Hh' as <-. rewrite (chain_det _ _ _ _ Hc' Hc) in Hok. clear ps Hc'.
  pose proof (bucket_ok_NoDup _ _ _ Hok) as Hnd.
  destruct (unlinked_forgets _ _ _ _ _ _ Hu) as [Hfg _].
  assert (Hpa : addr_of (bp_heap s) p = Some a) by now apply (models_lookup s m a p _ _ Hm Hh Hc).
  destruct (unlinked_frame _ _ _ _ _ _ Hu) as (Hlen & Hfr & Htab & Hlive).
  pose proof (fun q => remaining_in p pre post q Hnd) as Hps.
  apply (models_bucket s s' m _ (Z.to_nat (breakpoint_hash a)) (remaining pre post) Hm);
    [done| | | |done| | |].
  - intros x Hx. rewrite Hfr. apply (wf_fresh s Hw). auto.
  - eapply unlinked_members; eauto.
  - eapply forgets_bucket; eauto. unfold remaining. destruct (last pre); [|apply sublist_nil_l].
    apply sublist_app; [done|]. now constructor.
  - intros q b Hq Hne. eapply unlinked_out; eauto.
    + intros Hqp. destruct (bucket_bps _ _ _ Hok q) as (b' & Hb' & [_ Hbh _]); [set_solver|congruence].
    + intros ->. unfold addr_of in Hpa. rewrite Hq in Hpa. cbn in Hpa. congruence.
  - intros x q Hx. rewrite <- Hx in Hh, Hok.
    pose proof (models_lookup s m x q _ _ Hm Hh Hc) as Hl.
    pose proof (chain_head_last _ _ _ _ _ Hc Hnd) as Hhead.
    unfold after_delete. rewrite <- Hx, Hh. specialize (Hps q). unfold remaining in *.
    destruct (last pre) as [y|] eqn:Hy.
    + rewrite decide_False by
        (intros He; simplify_eq; destruct Hhead as [Hhd _]; discriminate (Hhd eq_refl)).
      rewrite lookup_delete_Some, Hl. split.
      * intros (Hxa & Hq & Hqx). assert (q <> p) as Hqp by congruence.
        split; [rewrite elem_of_app in *; set_solver|]. now rewrite (forgets_addr p _ _ _ _ q Hfg Hok).
      * intros [Hq Hqx]. destruct (Hps Hq) as [Hq1 Hq2].
        rewrite (forgets_addr p _ _ _ _ q Hfg Hok) in Hqx by done.
        split; [|auto]. intros ->. pose proof (proj2 Hl (conj Hq1 Hqx)). congruence.
    + rewrite decide_True by (f_equal; now apply Hhead). rewrite drop_bucket_in by done.
      split; [done|]. intros [Hq _]. inversion Hq.
  - intros x Hx. unfold after_delete. case_decide; [now apply drop_bucket_out|].
    apply lookup_delete_ne. congruence.
Qed.
End Deleting.
