(* ===== verification/BreakpointSpec.v ===== *)
(** * What the breakpoint component promises

    The abstract breakpoint component is a finite map from addresses to "is
    the breakpoint in memory", next to the unmodified code bytes [orig] of the
    debuggee. [represents] relates it to the hash table, the heap and the
    memory of Breakpoints.v, and [run_ops_refine] is the simulation. *)

From stdpp Require Import gmap.
From S2P Require Import Prelude External Types Format Memory Breakpoints.

(** ** The operations a debugger can ask for *)

Inductive bp_op : Type :=
| Create (a : Z) | Install (a : Z) | Remove (a : Z) | Delete (a : Z).

(** The lookup that [read_breakpoint] of udirt-msg.c does first; a [NULL]
    breakpoint is dereferenced by the operation that follows. *)
Definition with_breakpoint {A} (a : Z) (k : ptr -> ST bps A) : ST bps A :=
  let* bp := find_breakpoint a in
  match bp with
  | None => undef NullDeref
  | Some bp => k bp
  end.

Section Ops.
Context `{Libc}.

Definition run_op (op : bp_op) : ST bps Z :=
  match op with
  | Create a =>
      let* bp := create_breakpoint a in
      ret (match bp with Some _ => 0 | None => -1 end)
  | Install a => with_breakpoint a install_breakpoint
  | Remove a => with_breakpoint a remove_breakpoint
  | Delete a => with_breakpoint a delete_breakpoint
  end.

Fixpoint run_ops (ops : list bp_op) : ST bps (list Z) :=
  match ops with
  | [] => ret []
  | op :: ops =>
      let* r := run_op op in
      let* rs := run_ops ops in
      ret (r :: rs)
  end.
End Ops.

(** ** The abstract component *)

(** An operation that fails (memory that cannot be accessed) has no effect. *)
Inductive abs_step (A : gmap Z bool) : bp_op -> Z -> gmap Z bool -> Prop :=
| step_create_new a : A !! a = None -> abs_step A (Create a) 0 (<[a := false]> A)
| step_create_old a i : A !! a = Some i -> abs_step A (Create a) 0 A
| step_install a i : A !! a = Some i -> abs_step A (Install a) 0 (<[a := true]> A)
| step_install_fail a : A !! a = Some false -> abs_step A (Install a) (-1) A
| step_remove a i : A !! a = Some i -> abs_step A (Remove a) 0 (<[a := false]> A)
| step_remove_fail a : A !! a = Some true -> abs_step A (Remove a) (-1) A
| step_delete a i : A !! a = Some i -> abs_step A (Delete a) 0 (delete a A)
| step_delete_fail a : A !! a = Some true -> abs_step A (Delete a) (-1) A.

Inductive abs_steps : gmap Z bool -> list bp_op -> list Z -> gmap Z bool -> Prop :=
| steps_nil A : abs_steps A [] [] A
| steps_cons A op r A1 ops rs A2 :
    abs_step A op r A1 -> abs_steps A1 ops rs A2 -> abs_steps A (op :: ops) (r :: rs) A2.

(** A breakpoint may be deleted when it is alone in its bucket. *)
Definition alone (A : gmap Z bool) (a : Z) : Prop :=
  forall x, is_Some (A !! x) -> breakpoint_hash x = breakpoint_hash a -> x = a.

Definition permitted (A : gmap Z bool) (op : bp_op) : Prop :=
  match op with
  | Create a => 0 <= a < 2 ^ 64
  | Install a | Remove a => is_Some (A !! a)
  | Delete a => is_Some (A !! a) /\ alone A a
  end.

Fixpoint permitted_run (A : gmap Z bool) (ops : list bp_op) : Prop :=
  match ops with
  | [] => True
  | op :: ops => permitted A op /\ forall r A', abs_step A op r A' -> permitted_run A' ops
  end.

(** ** The representation relation *)

Section Represents.
Context `{LO : LibcOk}.
Variable orig : Z -> Z.

(** The breakpoints whose byte has been put back for a moment, so that the
    debuggee can execute the instruction under them. *)
Variable lift : gset Z.

(** The byte the debuggee has at [x]. *)
Definition planted (x : Z) : Z := if decide (x ∈ lift) then orig x else BREAKPOINT_INSN.
Definition overlay (A : gmap Z bool) (x : Z) : Z :=
  match A !! x with Some true => planted x | _ => orig x end.

Record represents_by (m : gmap Z ptr) (s : bps) (A : gmap Z bool) : Prop := {
  rep_calm : calm (b_acc s);
  rep_models : models s m;
  rep_flags : forall a, A !! a = (p ← m !! a; in_memory <$> bp_heap s !! p);
  rep_saved : forall a p b, m !! a = Some p -> bp_heap s !! p = Some b ->
    in_memory b = true -> saved_bytes b !! 0%nat = Some (orig a);
  rep_memory : forall x, peek (space (b_acc s)) x = overlay A x
}.

Definition represents (s : bps) (A : gmap Z bool) : Prop := exists m, represents_by m s A.

(** The block of an address of the map. *)
Lemma models_block s m a p :
  models s m -> m !! a = Some p ->
  exists b, bp_heap s !! p = Some b /\ address b = a /\ 0 <= a < 2 ^ 64 /\
    length (saved_bytes b) = 8%nat.
Proof.
  intros Hm Ha. destruct (models_split s m a p Hm Ha) as (hd & pre & post & b & _ & _ & Hok & _ & Hb & Hba & _).
  exists b. split; [done|]. split; [done|].
  destruct (bucket_bps _ _ _ Hok p) as (b' & Hb' & [? _ ?]); [set_solver|]. simplify_eq. done.
Qed.

Lemma models_inj s m a x p : models s m -> m !! a = Some p -> m !! x = Some p -> a = x.
Proof.
  intros Hm Ha Hx. destruct (models_block s m a p Hm Ha) as (b & Hb & <- & _).
  destruct (models_block s m x p Hm Hx) as (b' & Hb' & <- & _). congruence.
Qed.

Lemma represents_registered m s A a :
  represents_by m s A -> is_Some (A !! a) ->
  exists p b, m !! a = Some p /\ bp_heap s !! p = Some b /\ address b = a /\
    0 <= a < 2 ^ 64 /\ length (saved_bytes b) = 8%nat /\ A !! a = Some (in_memory b).
Proof.
  intros Hr [i Hi]. rewrite (rep_flags _ _ _ Hr) in Hi. destruct (m !! a) as [p|] eqn:Hp; [|done].
  destruct (models_block s m a p (rep_models _ _ _ Hr) Hp) as (b & Hb & Hba & Hrg & Hl).
  exists p, b. rewrite (rep_flags _ _ _ Hr), Hp. cbn. rewrite Hb. split_and!; done || lia.
Qed.

Lemma peek_insert sp sp' a c x :
  as_bytes sp' = <[a := c]> (as_bytes sp) ->
  peek sp' x = if decide (x = a) then c else peek sp x.
Proof.
  intros Hb. unfold peek. rewrite Hb. case_decide; subst; [now rewrite lookup_insert_eq|].
  now rewrite lookup_insert_ne.
Qed.

Lemma peek_same sp sp' x : as_bytes sp' = as_bytes sp -> peek sp' x = peek sp x.
Proof. unfold peek. now intros ->. Qed.

(** An operation on the block of [a] alone carries the representation over. *)
Lemma represents_update m s A a p s' b' :
  represents_by m s A -> m !! a = Some p -> only_bp p s s' -> calm (b_acc s') ->
  bp_heap s' !! p = Some b' ->
  (in_memory b' = true -> saved_bytes b' !! 0%nat = Some (orig a)) ->
  peek (space (b_acc s')) a = (if in_memory b' then planted a else orig a) ->
  (forall x, x <> a -> peek (space (b_acc s')) x = peek (space (b_acc s)) x) ->
  represents_by m s' (<[a := in_memory b']> A).
Proof.
  intros [Hc Hm Hf Hs Hmem] Ha Hob Hc' Hb' Hsv Hpa Hpx. split; [done| | | |].
  - eauto using only_bp_models.
  - intros x. destruct (decide (x = a)) as [->|Hne].
    + rewrite lookup_insert_eq, Ha. cbn. now rewrite Hb'.
    + rewrite lookup_insert_ne, Hf by done. destruct (m !! x) as [q|] eqn:Hq; [|done]. cbn.
      rewrite (ob_other _ _ _ Hob q); [done|]. intros ->. apply Hne. symmetry. eauto using models_inj.
  - intros x q b Hx Hq Hi. destruct (decide (x = a)) as [->|Hne]; [simplify_eq; auto|].
    rewrite (ob_other _ _ _ Hob q) in Hq; [eauto|].
    intros ->. apply Hne. symmetry. eauto using models_inj.
  - intros x. unfold overlay. destruct (decide (x = a)) as [->|Hne].
    + now rewrite lookup_insert_eq, Hpa.
    + rewrite Hpx, Hmem by done. unfold overlay. now rewrite lookup_insert_ne by done.
Qed.

(** ** The simulation, operation by operation *)

Lemma with_breakpoint_ok {B} m s A a p (k : ptr -> ST bps B) :
  represents_by m s A -> m !! a = Some p -> with_breakpoint a k s = k p s.
Proof.
  intros Hr Ha. unfold with_breakpoint.
  rewrite (bind_Ret _ _ _ _ _ (find_breakpoint_models s m a (rep_models _ _ _ Hr))).
  now rewrite Ha.
Qed.

Lemma represents_same m s A a i :
  represents_by m s A -> A !! a = Some i -> represents_by m s (<[a := i]> A).
Proof. intros Hr Hi. now rewrite insert_id. Qed.

(** The block of [a] can be unlinked without losing the rest of its bucket:
    it is not the first one, or the only one. *)
Definition removable (s : bps) (A : gmap Z bool) (a : Z) (p : ptr) : Prop :=
  breakpoints s !! Z.to_nat (breakpoint_hash a) = Some (Some p) -> alone A a.

Lemma appended_alone m s A a head ps s' :
  represents_by m s A -> breakpoints s !! Z.to_nat (breakpoint_hash a) = Some head ->
  bp_chain (bp_heap s) head ps -> appended a s head ps s' ->
  removable s' (<[a := false]> A) a (bp_fresh s).
Proof.
  intros Hr Hh Hc Hap Hhd. destruct head as [cur|].
  - destruct Hap as (ps0 & la & bl & _ & _ & ->). cbn in Hhd. rewrite Hh in Hhd. simplify_eq.
    inversion Hc as [|? b ? Hb _]; subst. pose proof (wf_fresh_None s (proj1 (rep_models _ _ _ Hr))). congruence.
  - inversion Hc; subst. intros x Hx Hxa. destruct (decide (x = a)) as [->|Hne]; [done|].
    rewrite lookup_insert_ne in Hx by done.
    destruct (represents_registered m s A x Hr Hx) as (p & b & Hp & _).
    rewrite <- Hxa in Hh.
    apply (models_lookup s m x p None [] (rep_models _ _ _ Hr) Hh) in Hp as [Hp _]; [|done]. inversion Hp.
Qed.

Lemma create_refines_new m s A a :
  represents_by m s A -> A !! a = None -> 0 <= a < 2 ^ 64 ->
  exists q s', create_breakpoint a s = Ret (Some q) s' /\ m !! a = None /\
    represents_by (<[a := q]> m) s' (<[a := false]> A) /\ removable s' (<[a := false]> A) a q /\
    keeps_payloads (bp_heap s) (bp_heap s').
Proof.
  intros Hr HA Ha. pose proof Hr as Hrep. destruct Hr as [Hc Hm Hf Hs Hmem].
  destruct (wf_members s a (proj1 Hm)) as (head & ps & _ & Hh & Hch & Hok & _).
  pose proof (create_breakpoint_cases s m a head ps Hm (calm_allocs _ Hc) Hh Hch Hok) as Hcr.
  destruct (m !! a) as [p|] eqn:Hma.
  { destruct (models_block s m a p Hm Hma) as (b & Hb & _). rewrite Hf, Hma in HA. cbn in HA. now rewrite Hb in HA. }
  destruct Hcr as (s' & Hcr & Hap).
  destruct (appended_ok s s' m a head ps Hm Hh Hch Hok Hma Ha Hap) as (Hm' & Hacc & Hnew & Hkp).
  exists (bp_fresh s), s'. split; [done|]. split; [done|]. split; [split; [now rewrite Hacc|done| | |]|split; [|exact Hkp]].
  - intros x. destruct (decide (x = a)) as [->|Hne].
    + rewrite !lookup_insert_eq. cbn. rewrite Hnew. done.
    + rewrite !lookup_insert_ne, Hf by done. destruct (m !! x) as [q|] eqn:Hq; [|done]. cbn.
      destruct (models_block s m x q Hm Hq) as (b & Hb & _).
      destruct (Hkp q b Hb) as (b' & Hb' & Hpl). rewrite Hb, Hb'. cbn. injection Hpl. congruence.
  - intros x q b Hx Hq Hi. apply lookup_insert_Some in Hx as [[<- <-]|[Hne Hx]].
    + rewrite Hnew in Hq. simplify_eq.
    + destruct (models_block s m x q Hm Hx) as (c & Hcq & _).
      destruct (Hkp q c Hcq) as (b' & Hb' & Hpl). injection Hpl. intros.
      rewrite <- (Hs x q c Hx Hcq) by congruence. congruence.
  - intros x. rewrite Hacc, Hmem. unfold overlay.
    destruct (decide (x = a)) as [->|Hne]; [|now rewrite lookup_insert_ne].
    now rewrite lookup_insert_eq, HA.
  - eapply appended_alone; eauto.
Qed.

Lemma create_refines s A a :
  represents s A -> 0 <= a < 2 ^ 64 ->
  exists s' A', run_op (Create a) s = Ret 0 s' /\ abs_step A (Create a) 0 A' /\ represents s' A'.
Proof.
  intros [m Hr] Ha. cbn [run_op]. destruct (A !! a) as [i|] eqn:HA.
  - destruct (represents_registered m s A a Hr ltac:(eauto)) as (p & b & Hma & Hb & _).
    destruct Hr as [Hc Hm Hf Hs Hmem].
    destruct (wf_members s a (proj1 Hm)) as (head & ps & _ & Hh & Hch & Hok & _).
    pose proof (create_breakpoint_cases s m a head ps Hm (calm_allocs _ Hc) Hh Hch Hok) as Hcr.
    rewrite Hma in Hcr. mstep_with Hcr. do 2 eexists. split; [reflexivity|].
    split; [eapply step_create_old; exact HA|].
    exists m. split; try done. eapply models_same_links; [exact Hm|done|cbn; lia|].
    intros q. cbn. now destruct (bp_heap s !! q).
  - destruct (create_refines_new m s A a Hr HA Ha) as (q & s' & Hcr & _ & Hr' & _ & _). mstep_with Hcr.
    do 2 eexists. split; [reflexivity|]. split; [now apply step_create_new|]. eexists. exact Hr'.
Qed.

Lemma install_refines_at m s A a p :
  represents_by m s A -> m !! a = Some p -> is_Some (A !! a) -> a ∉ lift ->
  exists r s', install_breakpoint p s = Ret r s' /\ breakpoints s' = breakpoints s /\
    ((r = 0 /\ represents_by m s' (<[a := true]> A)) \/
     (r = -1 /\ A !! a = Some false /\ represents_by m s' A)).
Proof.
  intros Hr Hp Ha Hni.
  destruct (represents_registered m s A a Hr Ha) as (p' & b & Hp' & Hb & Hba & Hrg & Hl & HA).
  rewrite Hp in Hp'. injection Hp' as <-.
  destruct (in_memory b) eqn:Hi.
  - unfold install_breakpoint. mstep_with (bp_load_ok _ _ _ Hb). rewrite Hi.
    exists 0, s. split; [done|]. split; [done|]. left. split; [done|]. now apply represents_same.
  - destruct (install_breakpoint_spec s p b (rep_calm _ _ _ Hr) Hb Hi)
      as (r & s' & b' & Hrun & Hob & Hc' & Hb' & _ & Hcase); [now subst|now destruct (saved_bytes b)|].
    pose proof (rep_memory _ _ _ Hr a) as Hov. unfold overlay in Hov. rewrite HA in Hov.
    rewrite Hba in Hcase. exists r, s'. split; [exact Hrun|]. split; [apply Hob|].
    destruct Hcase as [(-> & Hi' & Hsv & Hby)|(-> & Hi' & Hby & _)]; [left|right]; (split; [done|]).
    + rewrite <- Hi'. eapply represents_update; eauto; rewrite ?Hi'.
      * intros _. now rewrite Hsv, Hov.
      * unfold planted. rewrite (decide_False (P := a ∈ lift)) by done.
        now rewrite (peek_insert _ _ _ _ _ Hby), decide_True.
      * intros x Hx. now rewrite (peek_insert _ _ _ _ _ Hby), decide_False.
    + split; [done|]. rewrite <- (insert_id A a false HA), <- Hi'.
      eapply represents_update; eauto; rewrite ?Hi'; [done| |].
      * now rewrite (peek_same _ _ _ Hby).
      * intros x _. now apply peek_same.
Qed.

Lemma install_refines s A a :
  represents s A -> is_Some (A !! a) -> a ∉ lift ->
  exists r s' A', run_op (Install a) s = Ret r s' /\ abs_step A (Install a) r A' /\ represents s' A'.
Proof.
  intros [m Hr] Ha Hni. destruct (represents_registered m s A a Hr Ha) as (p & b & Hp & _).
  cbn [run_op]. rewrite (with_breakpoint_ok m s A a p) by done.
  destruct (install_refines_at m s A a p Hr Hp Ha Hni) as (r & s' & Hrun & _ & [[-> H']|(-> & HA & H')]);
    do 3 eexists; (split; [exact Hrun|]).
  - destruct Ha as [i Ha]. split; [eapply step_install; exact Ha|]. now exists m.
  - split; [now apply step_install_fail|]. now exists m.
Qed.

(** The code of [remove_breakpoint], seen on the abstract state; the flag and
    the table are updated by [delete_breakpoint] too. *)
Lemma remove_refines_at m s A a p :
  represents_by m s A -> m !! a = Some p -> is_Some (A !! a) ->
  exists r s', remove_breakpoint p s = Ret r s' /\ breakpoints s' = breakpoints s /\
    ((r = 0 /\ represents_by m s' (<[a := false]> A)) \/
     (r = -1 /\ A !! a = Some true /\ represents_by m s' A)).
Proof.
  intros Hr Hp Ha.
  destruct (represents_registered m s A a Hr Ha) as (p' & b & Hp' & Hb & Hba & Hrg & Hl & HA).
  rewrite Hp in Hp'. injection Hp' as <-.
  destruct (in_memory b) eqn:Hi.
  - destruct (saved_bytes b) as [|c cs] eqn:Hsv; [done|].
    pose proof (rep_saved _ _ _ Hr _ _ _ Hp Hb Hi) as Hor. rewrite Hsv in Hor. cbn in Hor. injection Hor as Hor.
    destruct (remove_breakpoint_spec s p b _ cs (rep_calm _ _ _ Hr) Hb Hi ltac:(now subst) Hsv)
      as (r & s' & b' & Hrun & Hob & Hc' & Hb' & Hsv' & _ & Hcase).
    rewrite Hba, Hor in Hcase. exists r, s'. split; [done|]. split; [apply Hob|].
    destruct Hcase as [(-> & Hi' & Hby)|(-> & Hi' & Hby)]; [left|right]; (split; [done|]).
    + rewrite <- Hi'. eapply represents_update; eauto; rewrite ?Hi'; [done| |].
      * now rewrite (peek_insert _ _ _ _ _ Hby), decide_True.
      * intros x Hx. now rewrite (peek_insert _ _ _ _ _ Hby), decide_False.
    + split; [done|]. rewrite <- (insert_id A _ _ HA), <- Hi'.
      eapply represents_update; eauto; rewrite ?Hi'.
      * intros _. rewrite Hsv', Hsv. cbn. now f_equal.
      * rewrite (peek_same _ _ _ Hby), (rep_memory _ _ _ Hr). unfold overlay. now rewrite HA.
      * intros x _. now apply peek_same.
  - exists 0, s. unfold remove_breakpoint. mstep_with (bp_load_ok _ _ _ Hb). rewrite Hi.
    split; [done|]. split; [done|]. left. split; [done|]. now apply represents_same.
Qed.

Lemma remove_refines s A a :
  represents s A -> is_Some (A !! a) ->
  exists r s' A', run_op (Remove a) s = Ret r s' /\ abs_step A (Remove a) r A' /\ represents s' A'.
Proof.
  intros [m Hr] Ha. destruct (represents_registered m s A a Hr Ha) as (p & b & Hp & _).
  cbn [run_op]. rewrite (with_breakpoint_ok m s A a p) by done. destruct Ha as [i Ha].
  destruct (remove_refines_at m s A a p Hr Hp ltac:(eauto)) as (r & s' & Hrun & _ & [[-> H']|(-> & HA & H')]);
    do 3 eexists; (split; [exact Hrun|]).
  - split; [eapply step_remove; exact Ha|]. now exists m.
  - split; [now apply step_remove_fail|]. now exists m.
Qed.

Lemma delete_refines_at m s A a p :
  represents_by m s A -> m !! a = Some p -> is_Some (A !! a) -> removable s A a p ->
  exists r s', delete_breakpoint p s = Ret r s' /\
    ((r = 0 /\ represents_by (delete a m) s' (delete a A)) \/
     (r = -1 /\ A !! a = Some true /\ represents_by m s' A)).
Proof.
  intros Hr Hp Ha Hal.
  destruct (remove_refines_at m s A a p Hr Hp Ha) as (r & s1 & Hrun & Htb & [[-> H1]|(-> & HA & H1)]).
  2: { do 2 eexists. split; [unfold delete_breakpoint; now mstep_with Hrun|]. right. auto. }
  destruct (delete_after_remove s s1 m a p (rep_models _ _ _ H1) Hp Hrun)
    as (head & pre & post & s' & Hd & Hh & Hch & Hu).
  do 2 eexists. split; [exact Hd|]. left. split; [done|].
  pose proof (unlinked_models s1 m a p head pre post s' (rep_models _ _ _ H1) Hp Hh Hch Hu) as Hm'.
  destruct (unlinked_forgets _ _ _ _ _ _ Hu) as [[Hfp Hfo] Hacc].
  assert (after_delete s1 a p m = delete a m) as He.
  { unfold after_delete. case_decide as Hhd; [|done]. rewrite Htb in Hhd. specialize (Hal Hhd). apply map_eq. intros x.
    destruct (decide (x = a)) as [->|Hne]; [rewrite lookup_delete_eq; now apply drop_bucket_in|].
    rewrite lookup_delete_ne by done.
    destruct (decide (breakpoint_hash x = breakpoint_hash a)) as [Hx|Hx].
    - rewrite drop_bucket_in by congruence. destruct (m !! x) as [q|] eqn:Hq; [|done].
      destruct Hne. apply Hal; [|done]. rewrite (rep_flags _ _ _ Hr), Hq. cbn.
      destruct (models_block s m x q (rep_models _ _ _ Hr) Hq) as (c & -> & _). eauto.
    - apply drop_bucket_out. intros Hn. now apply Hx, breakpoint_hash_inj. }
  rewrite He in Hm'. destruct H1 as [Hc1 Hm1 Hf1 Hs1 Hmem1].
  assert (Hq : forall x q, x <> a -> m !! x = Some q -> exists c c', bp_heap s1 !! q = Some c /\
             bp_heap s' !! q = Some c' /\ payload c' = payload c).
  { intros x q Hx Hxq. destruct (models_block s1 m x q Hm1 Hxq) as (c & Hcq & _).
    destruct (Hfo q c) as (c' & ? & ?); [|done|eauto 6]. intros ->. apply Hx. eauto using models_inj. }
  split; [now rewrite Hacc|done| | |].
  - intros x. destruct (decide (x = a)) as [->|Hne]; [now rewrite !lookup_delete_eq|].
    rewrite !lookup_delete_ne by done. rewrite <- (lookup_insert_ne A a x false), Hf1 by done.
    destruct (m !! x) as [q|] eqn:Hxq; [|done]. cbn.
    destruct (Hq x q Hne Hxq) as (c & c' & -> & -> & Hpl). cbn. injection Hpl. congruence.
  - intros x q c Hx Hqc Hi. apply lookup_delete_Some in Hx as [Hne Hx].
    destruct (Hq x q ltac:(done) Hx) as (d & d' & Hd1 & Hd' & Hpl). injection Hpl. intros.
    rewrite <- (Hs1 x q d Hx Hd1) by congruence. congruence.
  - intros x. rewrite Hacc, Hmem1. unfold overlay. destruct (decide (x = a)) as [->|Hne].
    + now rewrite lookup_insert_eq, lookup_delete_eq.
    + now rewrite lookup_insert_ne, lookup_delete_ne.
Qed.

Lemma delete_refines s A a :
  represents s A -> is_Some (A !! a) -> alone A a ->
  exists r s' A', run_op (Delete a) s = Ret r s' /\ abs_step A (Delete a) r A' /\ represents s' A'.
Proof.
  intros [m Hr] Ha Hal. destruct (represents_registered m s A a Hr Ha) as (p & b & Hp & _).
  cbn [run_op]. rewrite (with_breakpoint_ok m s A a p) by done.
  destruct (delete_refines_at m s A a p Hr Hp Ha (fun _ => Hal)) as (r & s' & Hrun & [[-> H']|(-> & HA & H')]);
    do 3 eexists; (split; [exact Hrun|]).
  - destruct Ha as [i Ha]. split; [eapply step_delete; exact Ha|]. eexists. exact H'.
  - split; [now apply step_delete_fail|]. now exists m.
Qed.
End Represents.

(** ** Stepping over a breakpoint *)

Section Lifting.
Context `{LO : LibcOk}.
Variable orig : Z -> Z.

(** Only the breakpoints in memory are lifted. *)
Lemma represents_lift lift lift' m s A :
  (forall x, A !! x = Some true -> x ∈ lift <-> x ∈ lift') ->
  represents_by orig lift m s A -> represents_by orig lift' m s A.
Proof.
  intros Hl [Hc Hm Hf Hs Hmem]. split; try done. intros x. rewrite Hmem. unfold overlay, planted.
  destruct (A !! x) as [[]|] eqn:HA; try done. specialize (Hl x HA).
  repeat case_decide; done || tauto.
Qed.

(** [remove_breakpoint_for_continue] lifts a breakpoint. *)
Lemma lift_refines lift m s A a p :
  represents_by orig lift m s A -> m !! a = Some p -> A !! a = Some true ->
  exists r s', remove_breakpoint_for_continue p s = Ret r s' /\ breakpoints s' = breakpoints s /\
    bp_heap s' = bp_heap s /\
    ((r = 0 /\ represents_by orig ({[a]} ∪ lift) m s' A) \/
     (r = -1 /\ represents_by orig lift m s' A)).
Proof.
  intros Hr Hp HA.
  destruct (represents_registered orig lift m s A a Hr ltac:(eauto)) as (p' & b & Hp' & Hb & Hba & Hrg & Hl & HA').
  rewrite Hp in Hp'. injection Hp' as <-. rewrite HA in HA'. injection HA' as Hi. symmetry in Hi.
  destruct (saved_bytes b) as [|c cs] eqn:Hsv; [done|].
  pose proof (rep_saved _ _ _ _ _ Hr _ _ _ Hp Hb Hi) as Hor. rewrite Hsv in Hor. cbn in Hor. injection Hor as ->.
  destruct (write_saved_bytes_spec s p b _ cs (rep_calm _ _ _ _ _ Hr) Hb Hi ltac:(now subst) Hsv)
    as (r & acc & Hw & Hc & Hcase). rewrite Hba in Hcase.
  exists r, (put_acc acc s). unfold remove_breakpoint_for_continue. mstep_with (bp_load_ok _ _ _ Hb). rewrite Hi.
  split; [exact Hw|]. split; [done|]. split; [done|]. destruct Hr as [_ Hm Hf Hs Hmem].
  assert (models (put_acc acc s) m) by (eapply only_bp_models; [apply (only_bp_acc p)|done]).
  destruct Hcase as [[-> Hby]|[-> Hby]]; [left|right]; (split; [done|]); split; try done; intros x; cbn.
  - rewrite (peek_insert _ _ _ _ _ Hby), Hmem. unfold overlay, planted.
    case_decide as Hx; [subst x; rewrite HA, decide_True; [done|set_solver]|].
    destruct (A !! x) as [[]|]; try done. repeat case_decide; set_solver.
  - rewrite (peek_same _ _ _ Hby). apply Hmem.
Qed.

(** Clearing the flag of a lifted breakpoint, before it is planted again. *)
Lemma unlift_refines lift m s A a p :
  represents_by orig lift m s A -> m !! a = Some p -> A !! a = Some true -> a ∈ lift ->
  exists s', bp_update p (set_in_memory false) s = Ret tt s' /\ breakpoints s' = breakpoints s /\
    represents_by orig (lift ∖ {[a]}) m s' (<[a := false]> A).
Proof.
  intros Hr Hp HA Hin.
  destruct (represents_registered orig lift m s A a Hr ltac:(eauto)) as (p' & b & Hp' & Hb & Hba & _).
  rewrite Hp in Hp'. injection Hp' as <-.
  eexists. split; [exact (bp_update_ok _ _ _ _ Hb)|]. split; [done|].
  apply (represents_lift lift).
  { intros x Hx. apply lookup_insert_Some in Hx as [[_ ?]|[Hne _]]; [done|]. set_solver. }
  change false with (in_memory (set_in_memory false b)).
  eapply represents_update; [exact Hr|exact Hp| | |apply lookup_insert_eq|done| |done]; cbn.
  - apply (only_bp_update p s (b_acc s) b); done.
  - apply Hr.
  - rewrite (rep_memory _ _ _ _ _ Hr). unfold overlay, planted. now rewrite HA, decide_True.
Qed.
End Lifting.

(** ** Theorems *)

(** The table as it is at start-up. *)
Definition no_breakpoints (a : access) : bps :=
  Bps a (replicate (Z.to_nat BREAKPOINT_HASH_SIZE) None) ∅ 0.

Lemma no_breakpoints_models a : models (no_breakpoints a) ∅.
Proof.
  assert (Hmem : forall i ps, members (no_breakpoints a) i ps -> ps = []).
  { intros i ps (head & Hh & Hc). apply lookup_replicate in Hh as [-> _]. now inversion Hc. }
  split; [split|].
  - apply length_replicate.
  - intros p [b Hb]. discriminate.
  - intros i Hi. exists []. split.
    + exists None. split; [now apply lookup_replicate|constructor].
    + split; [constructor|]. intros p Hp. inversion Hp.
  - intros x p. split; [done|]. intros (i & ps & Hps & Hp & _). apply Hmem in Hps as ->. inversion Hp.
Qed.

Lemma no_breakpoints_represents a :
  calm a -> represents (peek (space a)) ∅ (no_breakpoints a) ∅.
Proof.
  intros Hc. exists ∅. split; try done. apply no_breakpoints_models.
Qed.

Section Theorems.
Context `{LO : LibcOk}.

Lemma run_op_refines orig s A op :
  represents orig ∅ s A -> permitted A op ->
  exists r s' A', run_op op s = Ret r s' /\ abs_step A op r A' /\ represents orig ∅ s' A'.
Proof.
  intros Hr Hp. destruct op as [a|a|a|a].
  - destruct (create_refines orig ∅ s A a Hr Hp) as (s' & A' & ?). eauto.
  - apply install_refines; [done|done|set_solver].
  - now apply remove_refines.
  - destruct Hp. now apply delete_refines.
Qed.

(** C1: the breakpoint component refines its abstract specification: any
    sequence of permitted operations returns (no undefined behaviour, no
    endless walk), its results are results of the abstract component, and
    afterwards the table, the flags, the saved bytes and the debuggee's code
    again represent the abstract state: a byte of code is the breakpoint
    instruction at the installed breakpoints and unmodified elsewhere. *)
Theorem run_ops_refine (orig : Z -> Z) (ops : list bp_op) (s : bps) (A : gmap Z bool) :
  represents orig ∅ s A -> permitted_run A ops ->
  exists rs s' A', run_ops ops s = Ret rs s' /\ abs_steps A ops rs A' /\ represents orig ∅ s' A'.
Proof.
  revert s A. induction ops as [|op ops IH]; intros s A Hr Hp.
  { exists [], s, A. split; [done|]. split; [constructor|done]. }
  destruct Hp as [Hop Hnext].
  destruct (run_op_refines orig s A op Hr Hop) as (r & s1 & A1 & H1 & Hs1 & Hr1).
  destruct (IH s1 A1 Hr1 (Hnext r A1 Hs1)) as (rs & s2 & A2 & H2 & Hs2 & Hr2).
  exists (r :: rs), s2, A2. split; [|split; [econstructor; eauto|done]].
  cbn [run_ops]. mstep_with H1. now mstep_with H2.
Qed.

(** The table is a map: after [create_breakpoint a], [find_breakpoint a]
    is the block that was returned, the one already there if there was one,
    and no other lookup changes. *)
Theorem create_find_roundtrip (s : bps) (m : gmap Z ptr) (a : Z) :
  models s m -> allocs (a_rt (b_acc s)) = [] -> 0 <= a < 2 ^ 64 ->
  exists p s', create_breakpoint a s = Ret (Some p) s' /\
    p = default (bp_fresh s) (m !! a) /\
    forall x, find_breakpoint x s' = Ret (if decide (x = a) then Some p else m !! x) s'.
Proof.
  intros Hm Hal Ha.
  destruct (wf_members s a (proj1 Hm)) as (head & ps & _ & Hh & Hch & Hok & _).
  pose proof (create_breakpoint_cases s m a head ps Hm Hal Hh Hch Hok) as Hcr.
  destruct (m !! a) as [p|] eqn:Hma.
  - exists p. eexists. split; [exact Hcr|]. split; [done|]. intros x.
    rewrite (find_breakpoint_models _ m); [case_decide; congruence|].
    eapply models_same_links; [exact Hm|done|cbn; lia|]. intros q. cbn. now destruct (bp_heap s !! q).
  - destruct Hcr as (s' & Hcr & Hap). exists (bp_fresh s), s'. split; [done|]. split; [done|].
    intros x. destruct (appended_ok s s' m a head ps Hm Hh Hch Hok Hma Ha Hap) as [Hm' _].
    rewrite (find_breakpoint_models _ _ x Hm'), lookup_insert.
    repeat case_decide; congruence.
Qed.

(** C30: deleting a breakpoint that is not in memory succeeds and keeps the
    invariant of the table; the other breakpoints are still found, unless
    the deleted one was the first of its bucket ([after_delete]). *)
Theorem delete_breakpoint_effect (s : bps) (m : gmap Z ptr) (a : Z) (p : ptr) (b : breakpoint) :
  models s m -> m !! a = Some p -> bp_heap s !! p = Some b -> in_memory b = false ->
  exists s', delete_breakpoint p s = Ret 0 s' /\ wf s' /\ bp_heap s' !! p = None /\
    forall x, find_breakpoint x s' = Ret (after_delete s a p m !! x) s'.
Proof.
  intros Hm Ha Hb Hi.
  assert (Hrun : remove_breakpoint p s = Ret 0 s).
  { unfold remove_breakpoint. mstep_with (bp_load_ok _ _ _ Hb). now rewrite Hi. }
  destruct (delete_after_remove s s m a p Hm Ha Hrun) as (head & pre & post & s' & Hd & Hh & Hch & Hu).
  pose proof (unlinked_models s m a p head pre post s' Hm Ha Hh Hch Hu) as Hm'.
  destruct (unlinked_forgets _ _ _ _ _ _ Hu) as [[Hfp _] _].
  exists s'. split; [done|]. split; [apply Hm'|]. split; [done|].
  intros x. now apply find_breakpoint_models.
Qed.

(** Deleting the first block of a bucket loses the others: a breakpoint
    in the same bucket is no longer found, although it still occupies the
    heap, is still marked as in memory and the code still holds its
    breakpoint instruction. *)
Theorem delete_head_drops_bucket (s : bps) (m : gmap Z ptr) (a x : Z) (p q : ptr)
    (b c : breakpoint) :
  models s m -> m !! a = Some p -> bp_heap s !! p = Some b -> in_memory b = false ->
  breakpoints s !! Z.to_nat (breakpoint_hash a) = Some (Some p) ->
  m !! x = Some q -> x <> a -> breakpoint_hash x = breakpoint_hash a ->
  bp_heap s !! q = Some c ->
  exists s' c', delete_breakpoint p s = Ret 0 s' /\ find_breakpoint x s' = Ret None s' /\
    b_acc s' = b_acc s /\ bp_heap s' !! q = Some c' /\ in_memory c' = in_memory c.
Proof.
  intros Hm Ha Hb Hi Hhead Hx Hne Hhash Hc.
  assert (Hrun : remove_breakpoint p s = Ret 0 s).
  { unfold remove_breakpoint. mstep_with (bp_load_ok _ _ _ Hb). now rewrite Hi. }
  destruct (delete_after_remove s s m a p Hm Ha Hrun) as (head & pre & post & s' & Hd & Hh & Hch & Hu).
  pose proof (unlinked_models s m a p head pre post s' Hm Ha Hh Hch Hu) as Hm'.
  destruct (unlinked_forgets _ _ _ _ _ _ Hu) as [[_ Hfo] Hacc].
  destruct (Hfo q c) as (c' & Hc' & Hpl); [|done|].
  { intros ->. apply Hne. symmetry. eauto using models_inj. }
  exists s', c'. split; [done|]. split; [|split; [done|split; [done|injection Hpl; congruence]]].
  rewrite (find_breakpoint_models _ _ x Hm'). unfold after_delete.
  rewrite decide_True by done. now rewrite drop_bucket_in by congruence.
Qed.

(** Installing a breakpoint and removing it again leaves every byte of
    the debuggee as it was. Both operations always return; an install that
    fails has not changed the code either, and in between the code differs
    only in the breakpoint instruction. *)
Theorem install_remove_roundtrip (s : bps) (p : ptr) (b : breakpoint) :
  calm (b_acc s) -> bp_heap s !! p = Some b -> in_memory b = false ->
  0 <= address b < 2 ^ 64 -> saved_bytes b <> [] ->
  exists r s1, install_breakpoint p s = Ret r s1 /\
    (forall x, peek (space (b_acc s1)) x =
       if decide (r = 0 /\ x = address b) then BREAKPOINT_INSN else peek (space (b_acc s)) x) /\
    exists r' s2, remove_breakpoint p s1 = Ret r' s2 /\
      (r' = 0 -> forall x, peek (space (b_acc s2)) x = peek (space (b_acc s)) x).
Proof.
  intros Hc Hb Hi Ha Hsv.
  destruct (install_breakpoint_spec s p b Hc Hb Hi Ha Hsv)
    as (r & s1 & b1 & Hrun & Hob & Hc1 & Hb1 & _ & Hcase). exists r, s1. split; [done|].
  destruct (same_links_Some _ _ _ _ (ob_links _ _ _ Hob) Hb) as (b1' & Hb1' & Ha1 & _).
  rewrite Hb1 in Hb1'. injection Hb1' as <-.
  destruct Hcase as [(-> & Hi1 & Hsv1 & Hby)|(-> & Hi1 & Hby & _)].
  - split.
    { intros x. rewrite (peek_insert _ _ _ _ _ Hby). repeat case_decide; tauto. }
    destruct (saved_bytes b1) as [|c cs] eqn:Hs1; [done|]. cbn in Hsv1. injection Hsv1 as ->.
    destruct (remove_breakpoint_spec s1 p b1 _ cs Hc1 Hb1 Hi1 ltac:(now rewrite Ha1) Hs1)
      as (r' & s2 & b2 & Hrm & _ & _ & _ & _ & _ & Hcase2). exists r', s2. split; [done|].
    intros ->. destruct Hcase2 as [(_ & _ & Hby2)|(? & _)]; [|done]. intros x.
    rewrite (peek_insert _ _ _ _ _ Hby2), (peek_insert _ _ _ _ _ Hby), Ha1.
    case_decide; congruence.
  - split; [intros x; rewrite (peek_same _ _ _ Hby); case_decide; [lia|done]|].
    exists 0, s1. unfold remove_breakpoint. mstep_with (bp_load_ok _ _ _ Hb1). rewrite Hi1.
    split; [done|]. intros _ x. now apply peek_same.
Qed.
End Theorems.

(** ** A concrete table *)

Module BreakpointDemo.
Import MemoryDemo.

Definition start : bps := no_breakpoints access0.

(** Two breakpoints of one bucket: the first can be deleted, then the other
    is lost. *)
Example head_deleted :
  exists s, run_ops [Create 16; Create 272; Install 272; Delete 16] start = Ret [0; 0; 0; 0] s /\
    find_breakpoint 272 s = Ret None s.
Proof. eexists. split; vm_compute; reflexivity. Qed.

(** Deleting in the other order is fine. *)
Example tail_deleted :
  exists s, run_ops [Create 16; Create 272; Delete 272; Install 16; Remove 16] start
            = Ret [0; 0; 0; 0; 0] s /\ find_breakpoint 16 s = Ret (Some 0%nat) s.
Proof. eexists. split; vm_compute; reflexivity. Qed.

Definition two : bps :=
  Bps access0 (<[16%nat := Some 0%nat]> (replicate 256 None))
    {[ 0%nat := Breakpoint (replicate 8 0) 16 false None (Some 1%nat);
       1%nat := Breakpoint (10 :: replicate 7 0) 272 true None None ]} 2.

Definition two_map : gmap Z ptr := {[ 16 := 0%nat; 272 := 1%nat ]}.

Lemma two_models : models two two_map.
Proof.
  assert (Hc : bp_chain (bp_heap two) (Some 0%nat) [0%nat; 1%nat])
    by (repeat (econstructor; [reflexivity|]); constructor).
  assert (Hmem : forall i ps, members two i ps -> ps = [] \/ (i = 16%nat /\ ps = [0%nat; 1%nat])).
  { intros i ps (head & Hh & Hch). cbn [two breakpoints] in Hh.
    destruct (decide (i = 16%nat)) as [->|Hne].
    - right. split; [done|]. assert (head = Some 0%nat) as -> by (vm_compute in Hh; congruence).
      eauto using chain_det.
    - left. rewrite list_lookup_insert_ne in Hh by done. apply lookup_replicate in Hh as [-> _].
      now inversion Hch. }
  split; [split|].
  - reflexivity.
  - intros p [b Hb]. cbn [two bp_heap] in Hb.
    apply lookup_insert_Some in Hb as [[<- _]|[_ Hb]]; [cbn; lia|].
    apply lookup_singleton_Some in Hb as [<- _]. cbn. lia.
  - intros i Hi. destruct (decide (i = 16%nat)) as [->|Hne].
    + exists [0%nat; 1%nat]. split; [now exists (Some 0%nat)|]. split.
      * vm_compute. repeat constructor; set_solver.
      * intros p Hp. repeat (apply elem_of_cons in Hp as [->|Hp]); [| |inversion Hp];
          eexists; (split; [reflexivity|]); split; vm_compute; try lia; done.
    + exists []. split; [|split; [constructor|intros p Hp; inversion Hp]].
      exists None. split; [|constructor]. cbn [two breakpoints].
      rewrite list_lookup_insert_ne by done. now apply lookup_replicate.
  - intros a p. split.
    + intros Ha. unfold two_map in Ha. apply lookup_insert_Some in Ha as [[<- <-]|[_ Ha]].
      * exists 16%nat, [0%nat; 1%nat]. split; [now exists (Some 0%nat)|]. split; [set_solver|reflexivity].
      * apply lookup_singleton_Some in Ha as [<- <-].
        exists 16%nat, [0%nat; 1%nat]. split; [now exists (Some 0%nat)|]. split; [set_solver|reflexivity].
    + intros (i & ps & Hps & Hp & Ha). apply Hmem in Hps as [->|[_ ->]]; [inversion Hp|].
      repeat (apply elem_of_cons in Hp as [->|Hp]); [| |inversion Hp];
        cbn in Ha; injection Ha as <-; reflexivity.
Qed.

Lemma run_ops_refine_witness :
  exists rs s' A', run_ops [Create 16; Install 16; Delete 16] start = Ret rs s' /\
    represents (peek space0) ∅ s' A'.
Proof.
  destruct (run_ops_refine (peek space0) [Create 16; Install 16; Delete 16] start ∅)
    as (rs & s' & A' & Hrun & _ & Hr).
  - exact (no_breakpoints_represents access0 (idle_calm space0)).
  - split; [cbn; lia|]. intros r A1 Hs1. inversion Hs1; subst; [|discriminate].
    split; [cbn; now rewrite lookup_insert_eq|]. intros r2 A2 Hs2.
    assert (A2 = <[16 := true]> (<[16 := false]> ∅) \/ A2 = <[16 := false]> ∅) as HA2
      by (inversion Hs2; auto).
    split; [|done]. destruct HA2 as [->| ->]; (split; [rewrite lookup_insert_eq; eauto|]);
      intros x Hx _; destruct (decide (x = 16)); [done| |done|];
      rewrite !lookup_insert_ne in Hx by done; destruct Hx; discriminate.
  - exists rs, s', A'. split; [exact Hrun|exact Hr].
Defined.

Lemma create_find_roundtrip_witness :
  exists p s', create_breakpoint 528 two = Ret (Some p) s' /\ find_breakpoint 528 s' = Ret (Some p) s'.
Proof.
  destruct (create_find_roundtrip two two_map 528 two_models eq_refl ltac:(lia))
    as (p & s' & Hc & _ & Hf).
  exists p, s'. split; [exact Hc|]. exact (Hf 528).
Defined.

Lemma delete_breakpoint_effect_witness :
  exists s', delete_breakpoint 0 two = Ret 0 s' /\ wf s'.
Proof.
  destruct (delete_breakpoint_effect two two_map 16 0 (Breakpoint (replicate 8 0) 16 false None (Some 1%nat))
              two_models eq_refl eq_refl eq_refl) as (s' & Hd & Hw & _).
  exists s'. split; [exact Hd|exact Hw].
Defined.

Lemma delete_head_drops_bucket_witness :
  exists s' c', delete_breakpoint 0 two = Ret 0 s' /\ find_breakpoint 272 s' = Ret None s' /\
    bp_heap s' !! 1%nat = Some c' /\ in_memory c' = true.
Proof.
  destruct (delete_head_drops_bucket two two_map 16 272 0 1
              (Breakpoint (replicate 8 0) 16 false None (Some 1%nat))
              (Breakpoint (10 :: replicate 7 0) 272 true None None)
              two_models eq_refl eq_refl eq_refl eq_refl eq_refl ltac:(lia) eq_refl eq_refl)
    as (s' & c' & Hd & Hf & _ & Hc & Hi).
  exists s', c'. split; [exact Hd|]. split; [exact Hf|]. split; [exact Hc|exact Hi].
Defined.

Lemma install_remove_roundtrip_witness :
  exists r s1, install_breakpoint 0 two = Ret r s1 /\
    forall x, peek (space (b_acc s1)) x =
       if decide (r = 0 /\ x = 16) then BREAKPOINT_INSN else peek space0 x.
Proof.
  destruct (install_remove_roundtrip two 0 (Breakpoint (replicate 8 0) 16 false None (Some 1%nat)))
    as (r & s1 & Hi & Hx & _); [apply idle_calm|reflexivity|reflexivity|cbn; lia|discriminate|].
  exists r, s1. split; [exact Hi|exact Hx].
Defined.
End BreakpointDemo.
