(* ===== verification/Registers.v ===== *)
(** * Registers: udirt-linux-x86.c and the register functions of udirt.c and
    udirt-x86.c

    A [ucontext] is the array [uc_mcontext.gregs] of a signal context. Its
    elements are of type [greg_t], a signed integer of the word size, so they
    are kept as signed numbers; the accessors convert. An index that glibc does
    not define for the word size is [-1], as in the source. *)

From Stdlib Require Import String.
From S2P Require Import Prelude External Types Format Memory.

(** ** The target *)

(** [WORDSIZE] is [__WORDSIZE] of the build. *)
Class Target : Type := { WORDSIZE : Z }.
Class TargetOk `{Target} : Prop := { wordsize_cases : WORDSIZE = 64 \/ WORDSIZE = 32 }.

(** The register names of libudis86 that the source mentions. *)
Inductive ud_type : Type :=
| UD_NONE
| UD_R_AL | UD_R_AH | UD_R_AX | UD_R_EAX | UD_R_RAX | UD_R_CL
| UD_R_CH | UD_R_CX | UD_R_ECX | UD_R_RCX | UD_R_DL | UD_R_DH
| UD_R_EDX | UD_R_RDX | UD_R_BL | UD_R_BH | UD_R_EBX | UD_R_RBX
| UD_R_RIP | UD_R_SPL | UD_R_SP | UD_R_ESP | UD_R_RSP | UD_R_BPL
| UD_R_BP | UD_R_EBP | UD_R_RBP | UD_R_SIL | UD_R_SI | UD_R_ESI
| UD_R_RSI | UD_R_DIL | UD_R_DI | UD_R_EDI | UD_R_RDI | UD_R_R8B
| UD_R_R8W | UD_R_R8D | UD_R_R8 | UD_R_R9B | UD_R_R9W | UD_R_R9D
| UD_R_R9 | UD_R_R10B | UD_R_R10W | UD_R_R10D | UD_R_R10 | UD_R_R11B
| UD_R_R11W | UD_R_R11D | UD_R_R11 | UD_R_R12B | UD_R_R12W | UD_R_R12D
| UD_R_R12 | UD_R_R13B | UD_R_R13W | UD_R_R13D | UD_R_R13 | UD_R_R14B
| UD_R_R14W | UD_R_R14D | UD_R_R14 | UD_R_R15B | UD_R_R15W | UD_R_R15D
| UD_R_R15
| UD_R_DX | UD_R_BX
| UD_OP_REG | UD_OP_MEM | UD_OP_JIMM
| UD_other (code : Z).

#[global] Instance ud_type_eq_dec : EqDecision ud_type.
Proof. solve_decision. Defined.

Record ucontext : Type := UContext { gregs : list Z }.

Section Offsets.
Context `{Target}.

(** The indices of <sys/ucontext.h>. *)
Definition REG_GS : Z := if WORDSIZE =? 64 then -1 else 0.
Definition REG_FS : Z := if WORDSIZE =? 64 then -1 else 1.
Definition REG_ES : Z := if WORDSIZE =? 64 then -1 else 2.
Definition REG_DS : Z := if WORDSIZE =? 64 then -1 else 3.
Definition REG_EDI : Z := if WORDSIZE =? 64 then -1 else 4.
Definition REG_ESI : Z := if WORDSIZE =? 64 then -1 else 5.
Definition REG_EBP : Z := if WORDSIZE =? 64 then -1 else 6.
Definition REG_ESP : Z := if WORDSIZE =? 64 then -1 else 7.
Definition REG_EBX : Z := if WORDSIZE =? 64 then -1 else 8.
Definition REG_EDX : Z := if WORDSIZE =? 64 then -1 else 9.
Definition REG_ECX : Z := if WORDSIZE =? 64 then -1 else 10.
Definition REG_EAX : Z := if WORDSIZE =? 64 then -1 else 11.
Definition REG_CS : Z := if WORDSIZE =? 64 then -1 else 15.
Definition REG_SS : Z := if WORDSIZE =? 64 then -1 else 18.
Definition REG_EIP : Z := if WORDSIZE =? 64 then -1 else 14.
Definition REG_EFL : Z := if WORDSIZE =? 64 then 17 else 16.
Definition REG_R8 : Z := if WORDSIZE =? 64 then 0 else -1.
Definition REG_R9 : Z := if WORDSIZE =? 64 then 1 else -1.
Definition REG_R10 : Z := if WORDSIZE =? 64 then 2 else -1.
Definition REG_R11 : Z := if WORDSIZE =? 64 then 3 else -1.
Definition REG_R12 : Z := if WORDSIZE =? 64 then 4 else -1.
Definition REG_R13 : Z := if WORDSIZE =? 64 then 5 else -1.
Definition REG_R14 : Z := if WORDSIZE =? 64 then 6 else -1.
Definition REG_R15 : Z := if WORDSIZE =? 64 then 7 else -1.
Definition REG_RDI : Z := if WORDSIZE =? 64 then 8 else -1.
Definition REG_RSI : Z := if WORDSIZE =? 64 then 9 else -1.
Definition REG_RBP : Z := if WORDSIZE =? 64 then 10 else -1.
Definition REG_RBX : Z := if WORDSIZE =? 64 then 11 else -1.
Definition REG_RDX : Z := if WORDSIZE =? 64 then 12 else -1.
Definition REG_RAX : Z := if WORDSIZE =? 64 then 13 else -1.
Definition REG_RCX : Z := if WORDSIZE =? 64 then 14 else -1.
Definition REG_RSP : Z := if WORDSIZE =? 64 then 15 else -1.
Definition REG_RIP : Z := if WORDSIZE =? 64 then 16 else -1.
Definition REG_CSGSFS : Z := if WORDSIZE =? 64 then 18 else -1.

Definition X86_GS_OFFSET : Z := REG_GS.
Definition X86_FS_OFFSET : Z := REG_FS.
Definition X86_ES_OFFSET : Z := REG_ES.
Definition X86_DS_OFFSET : Z := REG_DS.
Definition X86_EDI_OFFSET : Z := REG_EDI.
Definition X86_ESI_OFFSET : Z := REG_ESI.
Definition X86_EBP_OFFSET : Z := REG_EBP.
Definition X86_ESP_OFFSET : Z := REG_ESP.
Definition X86_EBX_OFFSET : Z := REG_EBX.
Definition X86_EDX_OFFSET : Z := REG_EDX.
Definition X86_ECX_OFFSET : Z := REG_ECX.
Definition X86_EAX_OFFSET : Z := REG_EAX.
Definition X86_CS_OFFSET : Z := REG_CS.
Definition X86_SS_OFFSET : Z := REG_SS.
Definition X86_EIP_OFFSET : Z := REG_EIP.
Definition X86_FLAGS_OFFSET : Z := REG_EFL.
Definition X86_64_R8_OFFSET : Z := REG_R8.
Definition X86_64_R9_OFFSET : Z := REG_R9.
Definition X86_64_R10_OFFSET : Z := REG_R10.
Definition X86_64_R11_OFFSET : Z := REG_R11.
Definition X86_64_R12_OFFSET : Z := REG_R12.
Definition X86_64_R13_OFFSET : Z := REG_R13.
Definition X86_64_R14_OFFSET : Z := REG_R14.
Definition X86_64_R15_OFFSET : Z := REG_R15.
Definition X86_64_RDI_OFFSET : Z := REG_RDI.
Definition X86_64_RSI_OFFSET : Z := REG_RSI.
Definition X86_64_RBP_OFFSET : Z := REG_RBP.
Definition X86_64_RBX_OFFSET : Z := REG_RBX.
Definition X86_64_RDX_OFFSET : Z := REG_RDX.
Definition X86_64_RAX_OFFSET : Z := REG_RAX.
Definition X86_64_RCX_OFFSET : Z := REG_RCX.
Definition X86_64_RSP_OFFSET : Z := REG_RSP.
Definition X86_64_RIP_OFFSET : Z := REG_RIP.
Definition X86_64_CSGSFS_OFFSET : Z := REG_CSGSFS.
Definition X86_64_FLAGS_OFFSET : Z := REG_EFL.

(** [NGREG] of <sys/ucontext.h>. *)
Definition NGREG : Z := if WORDSIZE =? 64 then 23 else 19.

Definition get_architecture : udi_arch_e :=
  if WORDSIZE =? 64 then UDI_ARCH_X86_64 else UDI_ARCH_X86.

(** Conversions between [greg_t] and the unsigned types. *)
Definition to_greg (v : Z) : Z := if WORDSIZE =? 64 then i64 v else i32 v.
Definition ulong (v : Z) : Z := if WORDSIZE =? 64 then u64 v else u32 v.

(** ** Access to the array *)

Definition greg (offset : Z) (c : ucontext) : option Z :=
  if offset <? 0 then None else gregs c !! Z.to_nat offset.

Definition set_greg (offset v : Z) (c : ucontext) : option ucontext :=
  match greg offset c with
  | None => None
  | Some _ => Some (UContext (<[Z.to_nat offset := to_greg v]> (gregs c)))
  end.

Definition pc_offset : Z := if WORDSIZE =? 64 then X86_64_RIP_OFFSET else X86_EIP_OFFSET.

(** ** The program counter and the flags *)

Definition rewind_pc (c : ucontext) : option ucontext :=
  match greg pc_offset c with
  | None => None
  | Some pc => set_greg pc_offset (pc - 1) c
  end.

Definition set_pc (c : ucontext) (pc : Z) : option ucontext := set_greg pc_offset (ulong pc) c.

Definition get_pc (c : ucontext) : option Z := u64 <$> greg pc_offset c.

Definition get_flags (c : ucontext) : option Z :=
  ulong <$> greg (if WORDSIZE =? 64 then X86_64_FLAGS_OFFSET else X86_FLAGS_OFFSET) c.

Definition get_trap_address (c : ucontext) : option Z :=
  (fun pc => u64 (u64 pc - 1)) <$> greg pc_offset c.

(** The values [copy_context] and [allocate_context_data] produce on Linux:
    the context is copied, there is no extra context data. *)
Definition copy_context (src : ucontext) : ucontext := src.

(** The calls of [udi_log], in order: the formats and their arguments. *)
Definition log_context (c : ucontext) : option (list (string * list va)) :=
  if WORDSIZE =? 64 then
    rax ← greg X86_64_RAX_OFFSET c; rbx ← greg X86_64_RBX_OFFSET c;
    rcx ← greg X86_64_RCX_OFFSET c; rdx ← greg X86_64_RDX_OFFSET c;
    rsi ← greg X86_64_RSI_OFFSET c; rdi ← greg X86_64_RDI_OFFSET c;
    rbp ← greg X86_64_RBP_OFFSET c; rsp ← greg X86_64_RSP_OFFSET c;
    r8 ← greg X86_64_R8_OFFSET c; r9 ← greg X86_64_R9_OFFSET c;
    r10 ← greg X86_64_R10_OFFSET c; r11 ← greg X86_64_R11_OFFSET c;
    r12 ← greg X86_64_R12_OFFSET c; r13 ← greg X86_64_R13_OFFSET c;
    r14 ← greg X86_64_R14_OFFSET c; r15 ← greg X86_64_R15_OFFSET c;
    rip ← greg X86_64_RIP_OFFSET c; rflags ← greg X86_64_FLAGS_OFFSET c;
    word ← greg X86_64_CSGSFS_OFFSET c;
    let csgsfs := u64 word in
    Some
      [("rax: 0x%x rbx: 0x%x rcx: 0x%x rdx: 0x%x"%string, [VInt rax; VInt rbx; VInt rcx; VInt rdx]);
       ("rsi: 0x%x rdi: 0x%x rbp: 0x%x rsp: 0x%x"%string, [VInt rsi; VInt rdi; VInt rbp; VInt rsp]);
       ("r8:  0x%x r9:  0x%x r10: 0x%x r11: 0x%x"%string, [VInt r8; VInt r9; VInt r10; VInt r11]);
       ("r12: 0x%x r13: 0x%x r14: 0x%x r15: 0x%x"%string, [VInt r12; VInt r13; VInt r14; VInt r15]);
       ("rip: 0x%x rsp: 0x%x rflags: 0x%x"%string, [VInt rip; VInt rsp; VInt rflags]);
       ("cs: 0x%x fs: 0x%x gs: 0x%x"%string,
        [VInt (u32 (Z.shiftr (Z.land csgsfs 0xffff000000000000) 48));
         VInt (u32 (Z.shiftr (Z.land csgsfs 0xffff00000000) 32));
         VInt (u32 (Z.shiftr (Z.land csgsfs 0xffff0000) 16))])]
  else Some [].

(** ** Registers by their libudis86 name *)

Definition get_reg_context_offset (reg : ud_type) : Z :=
  if WORDSIZE =? 64 then
    match reg with
    | UD_R_AL | UD_R_AH | UD_R_AX | UD_R_EAX | UD_R_RAX => X86_64_RAX_OFFSET
    | UD_R_CL | UD_R_CH | UD_R_CX | UD_R_ECX | UD_R_RCX => X86_64_RCX_OFFSET
    | UD_R_DL | UD_R_DH | UD_R_EDX | UD_R_RDX => X86_64_RDX_OFFSET
    | UD_R_BL | UD_R_BH | UD_R_EBX | UD_R_RBX => X86_64_RBX_OFFSET
    | UD_R_RIP => X86_64_RIP_OFFSET
    | UD_R_SPL | UD_R_SP | UD_R_ESP | UD_R_RSP => X86_64_RSP_OFFSET
    | UD_R_BPL | UD_R_BP | UD_R_EBP | UD_R_RBP => X86_64_RBP_OFFSET
    | UD_R_SIL | UD_R_SI | UD_R_ESI | UD_R_RSI => X86_64_RSI_OFFSET
    | UD_R_DIL | UD_R_DI | UD_R_EDI | UD_R_RDI => X86_64_RDI_OFFSET
    | UD_R_R8B | UD_R_R8W | UD_R_R8D | UD_R_R8 => X86_64_R8_OFFSET
    | UD_R_R9B | UD_R_R9W | UD_R_R9D | UD_R_R9 => X86_64_R9_OFFSET
    | UD_R_R10B | UD_R_R10W | UD_R_R10D | UD_R_R10 => X86_64_R10_OFFSET
    | UD_R_R11B | UD_R_R11W | UD_R_R11D | UD_R_R11 => X86_64_R11_OFFSET
    | UD_R_R12B | UD_R_R12W | UD_R_R12D | UD_R_R12 => X86_64_R12_OFFSET
    | UD_R_R13B | UD_R_R13W | UD_R_R13D | UD_R_R13 => X86_64_R13_OFFSET
    | UD_R_R14B | UD_R_R14W | UD_R_R14D | UD_R_R14 => X86_64_R14_OFFSET
    | UD_R_R15B | UD_R_R15W | UD_R_R15D | UD_R_R15 => X86_64_R15_OFFSET
    | _ => -1
    end
  else -1.

Definition is_accessible_register (reg : ud_type) : bool :=
  negb (get_reg_context_offset reg =? -1).

Definition of_option {S A} (u : ub) (o : option A) : ST S A :=
  match o with Some a => ret a | None => undef u end.

Definition get_register_ud_type {S} (reg : ud_type) (c : ucontext) : ST S Z :=
  let offset := get_reg_context_offset reg in
  if offset =? -1 then udi_abort
  else
    let* v := of_option OutOfBounds (greg offset c) in
    ret (ulong v).

(** ** Registers by their protocol number *)

Definition get_udi_reg_context_offset (reg : Z) : Z :=
  match register_of_Z reg with
  | Some UDI_X86_GS => X86_GS_OFFSET
  | Some UDI_X86_FS => X86_FS_OFFSET
  | Some UDI_X86_ES => X86_ES_OFFSET
  | Some UDI_X86_DS => X86_DS_OFFSET
  | Some UDI_X86_EDI => X86_EDI_OFFSET
  | Some UDI_X86_ESI => X86_ESI_OFFSET
  | Some UDI_X86_EBP => X86_EBP_OFFSET
  | Some UDI_X86_ESP => X86_ESP_OFFSET
  | Some UDI_X86_EBX => X86_EBX_OFFSET
  | Some UDI_X86_EDX => X86_EDX_OFFSET
  | Some UDI_X86_ECX => X86_ECX_OFFSET
  | Some UDI_X86_EAX => X86_EAX_OFFSET
  | Some UDI_X86_CS => X86_CS_OFFSET
  | Some UDI_X86_SS => X86_SS_OFFSET
  | Some UDI_X86_EIP => X86_EIP_OFFSET
  | Some UDI_X86_FLAGS => X86_FLAGS_OFFSET
  | Some UDI_X86_64_R8 => X86_64_R8_OFFSET
  | Some UDI_X86_64_R9 => X86_64_R9_OFFSET
  | Some UDI_X86_64_R10 => X86_64_R10_OFFSET
  | Some UDI_X86_64_R11 => X86_64_R11_OFFSET
  | Some UDI_X86_64_R12 => X86_64_R12_OFFSET
  | Some UDI_X86_64_R13 => X86_64_R13_OFFSET
  | Some UDI_X86_64_R14 => X86_64_R14_OFFSET
  | Some UDI_X86_64_R15 => X86_64_R15_OFFSET
  | Some UDI_X86_64_RDI => X86_64_RDI_OFFSET
  | Some UDI_X86_64_RSI => X86_64_RSI_OFFSET
  | Some UDI_X86_64_RBP => X86_64_RBP_OFFSET
  | Some UDI_X86_64_RBX => X86_64_RBX_OFFSET
  | Some UDI_X86_64_RDX => X86_64_RDX_OFFSET
  | Some UDI_X86_64_RAX => X86_64_RAX_OFFSET
  | Some UDI_X86_64_RCX => X86_64_RCX_OFFSET
  | Some UDI_X86_64_RSP => X86_64_RSP_OFFSET
  | Some UDI_X86_64_RIP => X86_64_RIP_OFFSET
  | Some UDI_X86_64_CSGSFS => X86_64_CSGSFS_OFFSET
  | Some UDI_X86_64_FLAGS => X86_64_FLAGS_OFFSET
  | Some UDI_X86_ST0 | Some UDI_X86_ST1 | Some UDI_X86_ST2 | Some UDI_X86_ST3
  | Some UDI_X86_ST4 | Some UDI_X86_ST5 | Some UDI_X86_ST6 | Some UDI_X86_ST7
  | Some UDI_X86_64_ST0 | Some UDI_X86_64_ST1 | Some UDI_X86_64_ST2 | Some UDI_X86_64_ST3
  | Some UDI_X86_64_ST4 | Some UDI_X86_64_ST5 | Some UDI_X86_64_ST6 | Some UDI_X86_64_ST7
  | Some UDI_X86_64_XMM0 | Some UDI_X86_64_XMM1 | Some UDI_X86_64_XMM2 | Some UDI_X86_64_XMM3
  | Some UDI_X86_64_XMM4 | Some UDI_X86_64_XMM5 | Some UDI_X86_64_XMM6 | Some UDI_X86_64_XMM7
  | Some UDI_X86_64_XMM8 | Some UDI_X86_64_XMM9 | Some UDI_X86_64_XMM10 | Some UDI_X86_64_XMM11
  | Some UDI_X86_64_XMM12 | Some UDI_X86_64_XMM13 | Some UDI_X86_64_XMM14 | Some UDI_X86_64_XMM15 => -1
  | _ => -2
  end.

Definition is_gp_register (reg : Z) : bool :=
  match register_of_Z reg with
  | Some UDI_X86_GS | Some UDI_X86_FS | Some UDI_X86_ES | Some UDI_X86_DS
  | Some UDI_X86_EDI | Some UDI_X86_ESI | Some UDI_X86_EBP | Some UDI_X86_ESP
  | Some UDI_X86_EBX | Some UDI_X86_EDX | Some UDI_X86_ECX | Some UDI_X86_EAX
  | Some UDI_X86_CS | Some UDI_X86_SS | Some UDI_X86_EIP | Some UDI_X86_FLAGS
  | Some UDI_X86_64_R8 | Some UDI_X86_64_R9 | Some UDI_X86_64_R10 | Some UDI_X86_64_R11
  | Some UDI_X86_64_R12 | Some UDI_X86_64_R13 | Some UDI_X86_64_R14 | Some UDI_X86_64_R15
  | Some UDI_X86_64_RDI | Some UDI_X86_64_RSI | Some UDI_X86_64_RBP | Some UDI_X86_64_RBX
  | Some UDI_X86_64_RDX | Some UDI_X86_64_RAX | Some UDI_X86_64_RCX | Some UDI_X86_64_RSP
  | Some UDI_X86_64_RIP | Some UDI_X86_64_CSGSFS | Some UDI_X86_64_FLAGS => true
  | _ => false
  end.

Definition is_fp_register (reg : Z) : bool :=
  match register_of_Z reg with
  | Some UDI_X86_ST0 | Some UDI_X86_ST1 | Some UDI_X86_ST2 | Some UDI_X86_ST3
  | Some UDI_X86_ST4 | Some UDI_X86_ST5 | Some UDI_X86_ST6 | Some UDI_X86_ST7
  | Some UDI_X86_64_ST0 | Some UDI_X86_64_ST1 | Some UDI_X86_64_ST2 | Some UDI_X86_64_ST3
  | Some UDI_X86_64_ST4 | Some UDI_X86_64_ST5 | Some UDI_X86_64_ST6 | Some UDI_X86_64_ST7
  | Some UDI_X86_64_XMM0 | Some UDI_X86_64_XMM1 | Some UDI_X86_64_XMM2 | Some UDI_X86_64_XMM3
  | Some UDI_X86_64_XMM4 | Some UDI_X86_64_XMM5 | Some UDI_X86_64_XMM6 | Some UDI_X86_64_XMM7
  | Some UDI_X86_64_XMM8 | Some UDI_X86_64_XMM9 | Some UDI_X86_64_XMM10 | Some UDI_X86_64_XMM11
  | Some UDI_X86_64_XMM12 | Some UDI_X86_64_XMM13 | Some UDI_X86_64_XMM14 | Some UDI_X86_64_XMM15 => true
  | _ => false
  end.
End Offsets.

(** ** udirt.c: [validate_register] *)

Section Access.
Context `{Libc} `{Target}.

Definition validate_register (reg : Z) : ST rt Z :=
  let arch := get_architecture in
  let result :=
    match arch with
    | UDI_ARCH_X86 =>
        if (reg <=? Z_of_register UDI_X86_MIN) || (reg >=? Z_of_register UDI_X86_MAX)
        then -1 else 0
    | UDI_ARCH_X86_64 =>
        if (reg <=? Z_of_register UDI_X86_64_MIN) || (reg >=? Z_of_register UDI_X86_64_MAX)
        then -1 else 0
    end in
  (if negb (result =? 0) then
     udi_set_errmsg "invalid register %s for architecture %s"
       [VStr (cstr (register_str reg)); VStr (cstr (arch_str arch))]
   else ret tt) ;;;
  ret result.

(** ** udirt-linux-x86.c: register access for the debugger *)

Definition get_fp_register (reg : Z) (c : ucontext) : Z := -1.

(** The result, and the value when [*value] was written. *)
Definition get_register (reg : Z) (c : ucontext) : ST rt (Z * option Z) :=
  let* invalid := validate_register reg in
  if negb (invalid =? 0) then ret (-1, None)
  else
    let offset := get_udi_reg_context_offset reg in
    let* value :=
      if offset >=? 0 then
        let* v := of_option OutOfBounds (greg offset c) in ret (Some (u64 v))
      else ret None in
    let offset :=
      if (offset <? 0) && (offset =? -1) && negb (get_fp_register reg c =? 0) then -2
      else offset in
    if offset <? -1 then
      udi_set_errmsg "invalid register %d" [VInt reg] ;;;
      ret (-1, value)
    else ret (0, value).

Definition set_register (reg : Z) (value : Z) (c : ucontext) : ST rt (Z * ucontext) :=
  let* invalid := validate_register reg in
  if negb (invalid =? 0) then ret (-1, c)
  else
    let offset := get_udi_reg_context_offset reg in
    let* c :=
      if offset >=? 0 then of_option OutOfBounds (set_greg offset (ulong value) c)
      else ret c in
    if offset <? -1 then
      udi_set_errmsg "invalid register %d" [VInt reg] ;;;
      ret (-1, c)
    else ret (0, c).

(** The status that the debuggee passed to [exit]. On 32-bit targets it is
    read off the stack; the failure of that read is overwritten by the
    assignment that follows. *)
Definition get_exit_argument (c : ucontext) (status : Z) : ST access (Z * Z) :=
  if WORDSIZE =? 64 then
    let* v := of_option OutOfBounds (greg X86_64_RDI_OFFSET c) in
    ret (RESULT_SUCCESS, i32 v)
  else
    let* v := of_option OutOfBounds (greg X86_ESP_OFFSET c) in
    let word_length := 4 in
    let sp := u64 (u64 v + word_length) in
    let bytes := [u8 status; u8 (Z.shiftr status 8); u8 (Z.shiftr status 16); u8 (Z.shiftr status 24)] in
    let* (read_result, buf) := read_memory bytes (ulong sp) 4 in
    let* code := gets failed_si_code in
    (if negb (read_result =? 0) then
       on_rt (udi_set_errmsg "failed to retrieve exit status off of the stack at %a: %s"
                [VInt sp; VStr (cstr (get_mem_errstr code))])
     else ret tt) ;;;
    ret (RESULT_SUCCESS, i32 (foldr (fun b acc => b + 256 * acc) 0 buf)).
End Access.

(** ** Facts *)

(** The registers of the architecture the library is built for. *)
Definition arch_register `{Target} (reg : Z) : bool :=
  match get_architecture with
  | UDI_ARCH_X86 => (Z_of_register UDI_X86_MIN <? reg) && (reg <? Z_of_register UDI_X86_MAX)
  | UDI_ARCH_X86_64 =>
      (Z_of_register UDI_X86_64_MIN <? reg) && (reg <? Z_of_register UDI_X86_64_MAX)
  end.

(** Every check over the protocol registers is a finite one. *)
Definition all_codes : list Z := Z_of_register <$> all_registers.

Lemma register_code_in reg r : register_of_Z reg = Some r -> reg ∈ all_codes.
Proof.
  intros Hr. rewrite <- (Z_of_register_of_Z reg r Hr).
  apply list_elem_of_fmap_2. destruct r; unfold all_registers; set_solver.
Qed.

Lemma arch_register_code `{TargetOk} reg : arch_register reg = true -> reg ∈ all_codes.
Proof.
  intros Hr. destruct (register_of_Z reg) as [r|] eqn:Hz; [eauto using register_code_in|].
  apply register_of_Z_None in Hz. unfold arch_register in Hr.
  destruct get_architecture; apply andb_true_iff in Hr as [H1 H2]; cbn in H1, H2; lia.
Qed.

(** Decide a statement about all registers for both word sizes by evaluation. *)
Lemma by_codes `{TargetOk} (P : Z -> bool) :
  forallb P all_codes = true -> forall reg, arch_register reg = true -> P reg = true.
Proof.
  intros HP reg Hr. apply arch_register_code in Hr. rewrite forallb_forall in HP.
  apply HP. now apply list_elem_of_In.
Qed.

Ltac both_sizes :=
  match goal with
  | T : Target, TO : TargetOk |- _ =>
      destruct T as [w]; destruct TO as [[Hw|Hw]]; cbn in Hw; subst w; vm_compute; reflexivity
  end.

Section RegisterFacts.
Context `{LC : Libc} `{TO : TargetOk}.

Lemma gp_offset_range reg :
  arch_register reg = true -> is_gp_register reg = true ->
  0 <= get_udi_reg_context_offset reg < NGREG.
Proof.
  intros Ha Hg. revert reg Ha Hg.
  enough (forallb (fun reg => negb (arch_register reg) || negb (is_gp_register reg) ||
            ((0 <=? get_udi_reg_context_offset reg) && (get_udi_reg_context_offset reg <? NGREG)))
            all_codes = true) as Hall.
  { intros reg Ha Hg. apply (by_codes _ Hall) in Ha as Hx. rewrite Ha, Hg in Hx. cbn in Hx. lia. }
  clear LC. both_sizes.
Qed.

Lemma gp_offset_inj reg reg' :
  arch_register reg = true -> is_gp_register reg = true ->
  arch_register reg' = true -> is_gp_register reg' = true ->
  get_udi_reg_context_offset reg = get_udi_reg_context_offset reg' -> reg = reg'.
Proof.
  intros Ha Hg Ha' Hg' He. revert reg reg' Ha Hg Ha' Hg' He.
  enough (forallb (fun reg => forallb (fun reg' =>
            negb (arch_register reg && is_gp_register reg && arch_register reg' && is_gp_register reg')
            || negb (get_udi_reg_context_offset reg =? get_udi_reg_context_offset reg')
            || (reg =? reg')) all_codes) all_codes = true) as Hall.
  { intros reg reg' Ha Hg Ha' Hg' He. apply (by_codes _ Hall) in Ha as Hx. cbn beta in Hx.
    apply (by_codes _ Hx) in Ha' as Hy. rewrite Ha, Hg, Ha', Hg', He, Z.eqb_refl in Hy. cbn in Hy. lia. }
  clear LC. both_sizes.
Qed.

Lemma fp_offset reg :
  arch_register reg = true -> is_gp_register reg = false ->
  get_udi_reg_context_offset reg = -1 /\ is_fp_register reg = true.
Proof.
  intros Ha Hg. revert reg Ha Hg.
  enough (forallb (fun reg => negb (arch_register reg) || is_gp_register reg ||
            ((get_udi_reg_context_offset reg =? -1) && is_fp_register reg)) all_codes = true) as Hall.
  { intros reg Ha Hg. apply (by_codes _ Hall) in Ha as Hx. rewrite Ha, Hg in Hx. cbn in Hx.
    apply andb_true_iff in Hx as [Hx ?]. split; [lia|done]. }
  clear LC. both_sizes.
Qed.

Lemma validate_ok reg r : arch_register reg = true -> validate_register reg r = Ret 0 r.
Proof.
  unfold arch_register, validate_register. destruct get_architecture; cbn; intros Hr;
    apply andb_true_iff in Hr as [H1 H2].
  - replace (reg <=? 0) with false by lia. replace (reg >=? 25) with false by lia. reflexivity.
  - replace (reg <=? 26) with false by lia. replace (reg >=? 70) with false by lia. reflexivity.
Qed.

Definition invalid_register_msg (reg : Z) : list Z :=
  errmsg_of "invalid register %s for architecture %s"
    [VStr (cstr (register_str reg)); VStr (cstr (arch_str get_architecture))].

Lemma validate_bad reg r :
  arch_register reg = false ->
  validate_register reg r = Ret (-1) (Rt (invalid_register_msg reg) (allocs r)).
Proof.
  intros Hr. unfold validate_register. cbv zeta.
  match goal with |- context [negb (?res =? 0)] => assert (res = -1) as -> end.
  { unfold arch_register in Hr. destruct get_architecture; cbn in *;
      apply andb_false_iff in Hr as [Hr|Hr].
    - replace (reg <=? 0) with true by lia. reflexivity.
    - replace (reg >=? 25) with true by lia. now rewrite orb_true_r.
    - replace (reg <=? 26) with true by lia. reflexivity.
    - replace (reg >=? 70) with true by lia. now rewrite orb_true_r. }
  cbn [negb Z.eqb]. erewrite bind_Ret by (apply set_errmsg_ok; fmt_ok). unfold ret, invalid_register_msg. reflexivity.
Qed.

Lemma invalid_register_args reg :
  arch_register reg = true -> args_ok (cstr "invalid register %d") [VInt reg] = true.
Proof.
  apply (by_codes (fun reg => args_ok (cstr "invalid register %d") [VInt reg])).
  vm_compute. reflexivity.
Qed.

(** A context of the kernel: one [greg_t] per register. *)
Definition ctx_ok (c : ucontext) : Prop :=
  length (gregs c) = Z.to_nat NGREG.

Lemma greg_ok c off : ctx_ok c -> 0 <= off < NGREG -> exists v, greg off c = Some v.
Proof.
  intros Hc Ho. unfold greg. replace (off <? 0) with false by lia.
  destruct (lookup_lt_is_Some_2 (gregs c) (Z.to_nat off)) as [v Hv]; [rewrite Hc; lia|eauto].
Qed.

Lemma set_greg_ok c off v :
  ctx_ok c -> 0 <= off < NGREG ->
  exists c', set_greg off v c = Some c' /\ ctx_ok c' /\ greg off c' = Some (to_greg v) /\
    forall off', 0 <= off' -> off' <> off -> greg off' c' = greg off' c.
Proof.
  intros Hc Ho. unfold set_greg. destruct (greg_ok c off Hc Ho) as [x ->].
  eexists. split; [reflexivity|]. split; [unfold ctx_ok; cbn; now rewrite length_insert|].
  unfold greg. replace (off <? 0) with false by lia. split.
  - cbn. rewrite list_lookup_insert_eq; [done|]. rewrite Hc. lia.
  - intros off' Hp Hne. replace (off' <? 0) with false by lia. cbn.
    rewrite list_lookup_insert_ne; [done|lia].
Qed.

Lemma get_gp_register reg c r v :
  arch_register reg = true -> is_gp_register reg = true ->
  greg (get_udi_reg_context_offset reg) c = Some v ->
  get_register reg c r = Ret (0, Some (u64 v)) r.
Proof.
  intros Ha Hg Hv. unfold get_register. mstep_with (validate_ok reg r Ha). cbn [negb Z.eqb].
  pose proof (gp_offset_range reg Ha Hg) as Ho. cbv zeta.
  replace (get_udi_reg_context_offset reg >=? 0) with true by lia.
  replace (get_udi_reg_context_offset reg <? 0) with false by lia.
  cbn [andb].
  replace (get_udi_reg_context_offset reg <? -1) with false by lia.
  rewrite Hv. reflexivity.
Qed.

Lemma gp_write_read (reg value : Z) (c : ucontext) (r : rt) :
  ctx_ok c -> arch_register reg = true -> is_gp_register reg = true ->
  0 <= value < 2 ^ 64 ->
  exists c', set_register reg value c r = Ret (0, c') r /\ ctx_ok c' /\
    get_register reg c' r
    = Ret (0, Some (if WORDSIZE =? 64 then value else u64 (i32 value))) r /\
    forall reg', reg' <> reg -> arch_register reg' = true -> is_gp_register reg' = true ->
      get_register reg' c' r = get_register reg' c r.
Proof.
  intros Hc Ha Hg Hv. pose proof (gp_offset_range reg Ha Hg) as Ho.
  destruct (set_greg_ok c _ (ulong value) Hc Ho) as (c' & Hset & Hc' & Hsame & Hoth).
  exists c'. split; [|split; [done|split]].
  - unfold set_register. mstep_with (validate_ok reg r Ha). cbn [negb Z.eqb]. cbv zeta.
    replace (get_udi_reg_context_offset reg >=? 0) with true by lia. rewrite Hset.
    replace (get_udi_reg_context_offset reg <? -1) with false by lia. reflexivity.
  - rewrite (get_gp_register reg c' r _ Ha Hg Hsame). do 3 f_equal.
    unfold to_greg, ulong. destruct (WORDSIZE =? 64).
    + rewrite (u64_small value) by lia. unfold u64, i64.
      rewrite Zminus_mod_idemp_l. rewrite Z.add_simpl_r. apply Z.mod_small. lia.
    + f_equal. unfold i32, u32. rewrite Zplus_mod_idemp_l. done.
  - intros reg' Hne Ha' Hg'. pose proof (gp_offset_range reg' Ha' Hg') as Ho'.
    destruct (greg_ok c _ Hc Ho') as [v Hv'].
    rewrite (get_gp_register reg' c r v), (get_gp_register reg' c' r v); try done.
    rewrite Hoth; [done|lia|]. intros He. apply Hne. now apply gp_offset_inj.
Qed.

(** Writing a general purpose register of the architecture and reading
    it back gives the value at the width of the context's registers (the
    value itself on 64 bit), and no other register changes. *)
Theorem register_write_read (reg value : Z) (c : ucontext) (r : rt) :
  ctx_ok c -> arch_register reg = true -> is_gp_register reg = true ->
  0 <= value < 2 ^ 64 ->
  exists c', set_register reg value c r = Ret (0, c') r /\ ctx_ok c' /\
    get_register reg c' r
    = Ret (0, Some (if WORDSIZE =? 64 then value else u64 (i32 value))) r /\
    forall reg', reg' <> reg -> arch_register reg' = true -> is_gp_register reg' = true ->
      get_register reg' c' r = get_register reg' c r.
Proof. apply gp_write_read. Qed.

(** Taking 16 bits out of a word. *)
Lemma word16 k n lo a hi :
  0 <= k -> 0 <= lo < 2 ^ k -> 0 <= a < 2 ^ 16 -> n = lo + (a + hi * 2 ^ 16) * 2 ^ k ->
  u32 (Z.shiftr (Z.land n (Z.shiftl (Z.ones 16) k)) k) = a.
Proof.
  intros Hk Hlo Ha ->. rewrite Z.shiftr_land, Z.shiftr_shiftl_l, Z.sub_diag, Z.shiftl_0_r by done.
  rewrite Z.land_ones, Z.shiftr_div_pow2, Z.div_add, (Z.div_small lo) by lia.
  rewrite Z.add_0_l, Z_mod_plus_full, Z.mod_small by lia. apply u32_small. lia.
Qed.

(** The log lines of a context can be printed. Linux keeps CS in the low 16 bits
    of its word, then GS and FS; what is printed as CS are the bits above them. *)
Lemma log_context_lines c :
  ctx_ok c ->
  exists lines, log_context c = Some lines /\
    Forall (fun '(format, args) => is_Some (formatted (cstr format) args)) lines /\
    (WORDSIZE = 64 -> forall cs gs fs pad,
       0 <= cs < 2 ^ 16 -> 0 <= gs < 2 ^ 16 -> 0 <= fs < 2 ^ 16 -> 0 <= pad < 2 ^ 16 ->
       u64 <$> greg X86_64_CSGSFS_OFFSET c = Some (cs + gs * 2 ^ 16 + fs * 2 ^ 32 + pad * 2 ^ 48) ->
       last lines = Some ("cs: 0x%x fs: 0x%x gs: 0x%x"%string, [VInt pad; VInt fs; VInt gs])).
Proof.
  intros Hc. assert (WORDSIZE = 64 -> forall off, 0 <= off < 23 -> exists v, greg off c = Some v) as Hg.
  { intros Hw off Ho. apply greg_ok; [done|]. unfold NGREG. now rewrite Hw. }
  destruct wordsize_cases as [Hw|Hw].
  2: { eexists. split; [unfold log_context; now rewrite Hw|]. split; [constructor|]. rewrite Hw. discriminate. }
  destruct (Hg Hw 18) as [w Hcs]; [lia|].
  unfold log_context, X86_64_RAX_OFFSET, X86_64_RBX_OFFSET, X86_64_RCX_OFFSET, X86_64_RDX_OFFSET,
    X86_64_RSI_OFFSET, X86_64_RDI_OFFSET, X86_64_RBP_OFFSET, X86_64_RSP_OFFSET, X86_64_R8_OFFSET,
    X86_64_R9_OFFSET, X86_64_R10_OFFSET, X86_64_R11_OFFSET, X86_64_R12_OFFSET, X86_64_R13_OFFSET,
    X86_64_R14_OFFSET, X86_64_R15_OFFSET, X86_64_RIP_OFFSET, X86_64_FLAGS_OFFSET, X86_64_CSGSFS_OFFSET,
    REG_RAX, REG_RBX, REG_RCX, REG_RDX, REG_RSI, REG_RDI, REG_RBP, REG_RSP, REG_R8, REG_R9, REG_R10,
    REG_R11, REG_R12, REG_R13, REG_R14, REG_R15, REG_RIP, REG_EFL, REG_CSGSFS.
  rewrite Hw. cbn [Z.eqb Pos.eqb]. rewrite Hcs.
  repeat match goal with
  | |- context [greg ?k c ≫= _] => destruct (Hg Hw k) as [? ->]; [lia|]; cbn [mbind option_bind]
  end.
  eexists. split; [reflexivity|]. split; [repeat constructor; apply args_ok_formatted; reflexivity|].
  intros _ cs gs fs pad Hc1 Hg1 Hf1 Hp1 Hw1. cbn in Hw1. injection Hw1 as Hw1. rewrite Hw1. cbn [last].
  repeat f_equal.
  - apply (word16 48 _ (cs + gs * 2 ^ 16 + fs * 2 ^ 32) pad 0); lia.
  - apply (word16 32 _ (cs + gs * 2 ^ 16) fs pad); lia.
  - apply (word16 16 _ cs gs (fs + pad * 2 ^ 16)); lia.
Qed.

(** C39: the error behaviour of register access. A number outside the
    architecture's registers is refused with a message naming it and the
    context stays as it is. Reading a floating point register is refused
    too, but writing one reports success without writing anything. *)
Theorem register_access_errors (reg value : Z) (c : ucontext) (r : rt) :
  (arch_register reg = false ->
     get_register reg c r = Ret (-1, None) (Rt (invalid_register_msg reg) (allocs r)) /\
     set_register reg value c r = Ret (-1, c) (Rt (invalid_register_msg reg) (allocs r))) /\
  (arch_register reg = true -> is_gp_register reg = false ->
     is_fp_register reg = true /\
     get_register reg c r
     = Ret (-1, None) (Rt (errmsg_of "invalid register %d"%string [VInt reg]) (allocs r)) /\
     set_register reg value c r = Ret (0, c) r).
Proof.
  split.
  - intros Ha. unfold get_register, set_register.
    now rewrite !(bind_Ret _ _ _ _ _ (validate_bad reg r Ha)).
  - intros Ha Hg. destruct (fp_offset reg Ha Hg) as [Ho Hf]. split; [done|].
    unfold get_register, set_register.
    rewrite !(bind_Ret _ _ _ _ _ (validate_ok reg r Ha)). cbn [negb Z.eqb]. cbv zeta.
    rewrite Ho. split; [|reflexivity]. cbn [Z.geb Z.compare]. mstep.
    cbv [Z.ltb Z.eqb Pos.eqb Z.compare Pos.compare Pos.compare_cont CompOpp andb negb get_fp_register].
    erewrite bind_Ret; [unfold ret; reflexivity|].
    apply set_errmsg_ok, args_ok_formatted. now apply invalid_register_args.
Qed.
End RegisterFacts.

Module RegisterDemo.
Import MemoryDemo.

Definition x86_64 : Target := {| WORDSIZE := 64 |}.
Definition i386 : Target := {| WORDSIZE := 32 |}.
#[export] Existing Instance x86_64.

Lemma x86_64_ok : TargetOk.
Proof. split. now left. Qed.
#[export] Existing Instance x86_64_ok.

Definition ctx0 : ucontext := UContext (replicate 23 7).

Lemma register_write_read_witness :
  exists c', set_register (Z_of_register UDI_X86_64_RIP) 4096 ctx0 (Rt [] []) = Ret (0, c') (Rt [] []) /\
    get_register (Z_of_register UDI_X86_64_RIP) c' (Rt [] []) = Ret (0, Some 4096) (Rt [] []).
Proof.
  destruct (register_write_read (Z_of_register UDI_X86_64_RIP) 4096 ctx0 (Rt [] []))
    as (c' & Hs & _ & Hg & _); [reflexivity|reflexivity|reflexivity|lia|].
  exists c'. split; [exact Hs|exact Hg].
Defined.

Lemma register_access_errors_witness :
  set_register (Z_of_register UDI_X86_64_XMM3) 1 ctx0 (Rt [] []) = Ret (0, ctx0) (Rt [] []) /\
  exists r, get_register (Z_of_register UDI_X86_EAX) ctx0 (Rt [] []) = Ret (-1, None) r.
Proof.
  split.
  - exact (proj2 (proj2 (proj2 (register_access_errors (Z_of_register UDI_X86_64_XMM3) 1 ctx0 (Rt [] []))
                    eq_refl eq_refl))).
  - eexists. exact (proj1 (proj1 (register_access_errors (Z_of_register UDI_X86_EAX) 1 ctx0 (Rt [] []))
                              eq_refl)).
Defined.

(** On 32 bit a value with the top bit set comes back sign-extended. *)
Example i386_sign_extends :
  let c' := UContext (<[11%nat := -2147483648]> (replicate 19 0)) in
  @set_register flat_libc i386 (Z_of_register UDI_X86_EAX) 0x80000000
    (UContext (replicate 19 0)) (Rt [] []) = Ret (0, c') (Rt [] []) /\
  @get_register flat_libc i386 (Z_of_register UDI_X86_EAX) c' (Rt [] [])
  = Ret (0, Some 0xffffffff80000000) (Rt [] []).
Proof. split; vm_compute; reflexivity. Qed.
End RegisterDemo.
