(* ===== verification/X86.v ===== *)
(** * Control-transfer analysis: udirt-x86.c

    When a thread continues from a breakpoint the library needs the address of
    the instruction that will execute next. The instruction is decoded by
    libudis86, which is the parameter [Udis86] here; the library evaluates the
    condition of a conditional jump and the target of the jump. *)

From Stdlib Require Import String.
From S2P Require Import Prelude External Types Format Memory Registers.

(** ** libudis86 *)

Inductive ud_mnemonic : Type :=
| UD_Icall | UD_Ijmp
| UD_Ijo | UD_Ijno | UD_Ijb | UD_Ijae | UD_Ijz | UD_Ijnz | UD_Ijbe | UD_Ija
| UD_Ijs | UD_Ijns | UD_Ijp | UD_Ijnp | UD_Ijl | UD_Ijge | UD_Ijle | UD_Ijg
| UD_Ijcxz | UD_Ijecxz | UD_Ijrcxz | UD_Iloopne | UD_Iloope | UD_Iloop
| UD_Iret
| UD_Iother (code : Z).

(** The operand, with the 64 bits of the union [lval]. *)
Record ud_operand : Type := UdOperand {
  op_type : ud_type;
  op_size : Z;
  op_base : ud_type;
  op_index : ud_type;
  op_scale : Z;
  op_offset : Z;
  op_lval : Z
}.

(** What [ud_disassemble] leaves in a [ud_t]: [insn_pc] is [ud_obj.pc]. *)
Record ud_insn : Type := UdInsn {
  insn_mnemonic : ud_mnemonic;
  insn_operand : ud_operand;
  insn_pc : Z;
  insn_len : Z
}.

(** [ud_disassemble mode sp pc] decodes the (at most 15) bytes at [pc]. *)
Class Udis86 : Type := { ud_disassemble : Z -> aspace -> Z -> option ud_insn }.

(** After decoding, the decoder's pc is behind the instruction. *)
Class Udis86Ok `{Udis86} : Prop := {
  ud_pc_next : forall mode sp pc i,
    ud_disassemble mode sp pc = Some i -> insn_pc i = pc + insn_len i /\ 0 < insn_len i <= 15
}.

(** ** Operands *)

Section Operands.
Context `{Target}.

Definition sbyte (op : ud_operand) : Z := i8 (op_lval op).
Definition sword (op : ud_operand) : Z := i16 (op_lval op).
Definition sdword (op : ud_operand) : Z := i32 (op_lval op).
Definition sqword (op : ud_operand) : Z := i64 (op_lval op).

Definition compute_relative_location (op : ud_operand) (pc : Z) : Z :=
  if op_size op =? 8 then ulong (pc + sbyte op)
  else if op_size op =? 16 then ulong (pc + sword op)
  else if op_size op =? 32 then ulong (pc + sdword op)
  else if op_size op =? 64 then ulong (pc + sqword op)
  else pc.

(** ** Conditions *)

Definition CF : Z := 0x1.
Definition PF : Z := 0x4.
Definition ZF : Z := 0x40.
Definition SF : Z := 0x80.
Definition OF : Z := 0x800.

Definition truth (b : bool) : Z := if b then 1 else 0.
Definition is_set (mask flags : Z) : bool := negb (Z.land mask flags =? 0).

Definition ctf_condition_met {S} (mnemonic : ud_mnemonic) (c : ucontext) : ST S Z :=
  let* flags := of_option OutOfBounds (get_flags c) in
  let* cx := get_register_ud_type (if WORDSIZE =? 64 then UD_R_RCX else UD_R_ECX) c in
  let sf_is_of := Z.land SF flags =? Z.land OF flags in
  match mnemonic with
  | UD_Ija => ret (truth (negb (is_set CF flags) && negb (is_set ZF flags)))
  | UD_Ijae => ret (truth (negb (is_set CF flags)))
  | UD_Ijb => ret (Z.land CF flags)
  | UD_Ijbe => ret (truth (is_set CF flags || is_set ZF flags))
  | UD_Ijcxz => let* r := get_register_ud_type UD_R_CX c in ret (truth (r =? 0))
  | UD_Ijecxz => let* r := get_register_ud_type UD_R_ECX c in ret (truth (r =? 0))
  | UD_Ijrcxz => let* r := get_register_ud_type UD_R_RCX c in ret (truth (r =? 0))
  | UD_Ijg => ret (truth (negb (is_set ZF flags) && sf_is_of))
  | UD_Ijge => ret (truth sf_is_of)
  | UD_Ijl => ret (truth (negb sf_is_of))
  | UD_Ijle => ret (truth (is_set ZF flags || negb sf_is_of))
  | UD_Ijno => ret (truth (negb (is_set OF flags)))
  | UD_Ijnp => ret (truth (negb (is_set PF flags)))
  | UD_Ijns => ret (truth (negb (is_set SF flags)))
  | UD_Ijnz => ret (truth (negb (is_set ZF flags)))
  | UD_Ijo => ret (Z.land OF flags)
  | UD_Ijp => ret (Z.land PF flags)
  | UD_Ijs => ret (Z.land SF flags)
  | UD_Ijz => ret (Z.land ZF flags)
  | UD_Iloopne => ret (truth (negb (is_set ZF flags) && negb (ulong (cx - 1) =? 0)))
  | UD_Iloope => ret (truth (is_set ZF flags && negb (ulong (cx - 1) =? 0)))
  | UD_Iloop => ret (truth (negb (ulong (cx - 1) =? 0)))
  | _ => ret 0
  end.

(** ** Targets *)

Definition displacement (op : ud_operand) : Z :=
  if negb (op_offset op =? 0) then
    if op_offset op =? 8 then u8 (op_lval op)
    else if op_offset op =? 16 then u16 (op_lval op)
    else if op_offset op =? 32 then u32 (op_lval op)
    else if op_offset op =? 64 then u64 (op_lval op)
    else 0
  else 0.

Definition optional_register {S} (reg : ud_type) (c : ucontext) : ST S Z :=
  if decide (reg = UD_NONE) then ret 0 else get_register_ud_type reg c.

Definition compute_target {S} (op : ud_operand) (effective_pc : Z) (c : ucontext) : ST S Z :=
  match op_type op with
  | UD_OP_REG => get_register_ud_type (op_base op) c
  | UD_OP_MEM =>
      let* base := optional_register (op_base op) c in
      let* index := optional_register (op_index op) c in
      ret (ulong (base + ulong (index * op_scale op) + displacement op))
  | UD_OP_JIMM => ret (compute_relative_location op effective_pc)
  | _ => ret 0
  end.

Definition is_conditional (m : ud_mnemonic) : bool :=
  match m with
  | UD_Ijo | UD_Ijno | UD_Ijb | UD_Ijae | UD_Ijz | UD_Ijnz | UD_Ijbe | UD_Ija
  | UD_Ijs | UD_Ijns | UD_Ijp | UD_Ijnp | UD_Ijl | UD_Ijge | UD_Ijle | UD_Ijg
  | UD_Ijcxz | UD_Ijecxz | UD_Ijrcxz | UD_Iloopne | UD_Iloope | UD_Iloop => true
  | _ => false
  end.

(** A little-endian word in memory. *)
Definition le_word (bs : list Z) : Z := foldr (fun b acc => b + 256 * acc) 0 bs.
End Operands.

Section Successor.
Context `{Libc} `{Target} `{Udis86}.

Definition word_bytes : nat := if WORDSIZE =? 64 then 8 else 4.

Definition no_successor (successor pc : Z) : ST access Z :=
  (if successor =? 0 then
     on_rt (udi_set_errmsg "failed to determine ctf successor at %a" [VInt pc])
   else ret tt) ;;;
  ret successor.

Definition get_ctf_successor (pc : Z) (c : ucontext) : ST access Z :=
  let* sp := gets space in
  match ud_disassemble WORDSIZE sp pc with
  | None =>
      on_rt (udi_set_errmsg "disassembling instruction at %a failed" [VInt pc]) ;;;
      ret 0
  | Some i =>
      match insn_mnemonic i with
      | UD_Icall | UD_Ijmp =>
          let* successor := compute_target (insn_operand i) (insn_pc i) c in
          no_successor successor pc
      | UD_Iret =>
          let* stack_ptr :=
            get_register_ud_type (if WORDSIZE =? 64 then UD_R_RSP else UD_R_ESP) c in
          let* (rc, buf) := read_memory (replicate word_bytes 0) stack_ptr word_bytes in
          if negb (rc =? 0) then ret 0
          else ret (le_word buf)
      | m =>
          if is_conditional m then
            let* met := ctf_condition_met m c in
            let* successor :=
              if negb (met =? 0) then compute_target (insn_operand i) (insn_pc i) c
              else ret (ulong (pc + insn_len i)) in
            no_successor successor pc
          else no_successor (ulong (pc + insn_len i)) pc
      end
  end.
End Successor.

(** ** The architecture's conditions *)

Definition flag_cf (flags : Z) : bool := Z.testbit flags 0.
Definition flag_pf (flags : Z) : bool := Z.testbit flags 2.
Definition flag_zf (flags : Z) : bool := Z.testbit flags 6.
Definition flag_sf (flags : Z) : bool := Z.testbit flags 7.
Definition flag_of (flags : Z) : bool := Z.testbit flags 11.

(** When a conditional transfer is taken, on the flags and the count register
    before the instruction (64-bit mode). *)
Definition taken (m : ud_mnemonic) (flags rcx : Z) : bool :=
  match m with
  | UD_Ijo => flag_of flags | UD_Ijno => negb (flag_of flags)
  | UD_Ijb => flag_cf flags | UD_Ijae => negb (flag_cf flags)
  | UD_Ijz => flag_zf flags | UD_Ijnz => negb (flag_zf flags)
  | UD_Ijbe => flag_cf flags || flag_zf flags | UD_Ija => negb (flag_cf flags || flag_zf flags)
  | UD_Ijs => flag_sf flags | UD_Ijns => negb (flag_sf flags)
  | UD_Ijp => flag_pf flags | UD_Ijnp => negb (flag_pf flags)
  | UD_Ijl => negb (Bool.eqb (flag_sf flags) (flag_of flags))
  | UD_Ijge => Bool.eqb (flag_sf flags) (flag_of flags)
  | UD_Ijle => flag_zf flags || negb (Bool.eqb (flag_sf flags) (flag_of flags))
  | UD_Ijg => negb (flag_zf flags) && Bool.eqb (flag_sf flags) (flag_of flags)
  | UD_Ijcxz => rcx mod 2 ^ 16 =? 0
  | UD_Ijecxz => rcx mod 2 ^ 32 =? 0
  | UD_Ijrcxz => rcx =? 0
  | UD_Iloopne => negb (flag_zf flags) && negb (rcx =? 1)
  | UD_Iloope => flag_zf flags && negb (rcx =? 1)
  | UD_Iloop => negb (rcx =? 1)
  | _ => false
  end.

(** Where the library's test is the architecture's: a signed comparison needs
    SF and OF not to be set together, a test of CX or ECX a count register
    whose upper bits do not decide. *)
Definition faithful (m : ud_mnemonic) (flags rcx : Z) : bool :=
  match m with
  | UD_Ijl | UD_Ijge => negb (flag_sf flags && flag_of flags)
  | UD_Ijle | UD_Ijg => negb (flag_sf flags && flag_of flags) || flag_zf flags
  | UD_Ijcxz => (rcx =? 0) || negb (rcx mod 2 ^ 16 =? 0)
  | UD_Ijecxz => (rcx =? 0) || negb (rcx mod 2 ^ 32 =? 0)
  | _ => true
  end.

Lemma land_pow2 k f : 0 <= k -> Z.land (2 ^ k) f = if Z.testbit f k then 2 ^ k else 0.
Proof.
  intros Hk. apply Z.bits_inj'. intros n Hn. rewrite Z.land_spec.
  destruct (Z.eqb_spec n k) as [->|Hne].
  - rewrite Z.pow2_bits_true by done. destruct (Z.testbit f k); cbn; [now rewrite Z.pow2_bits_true|now rewrite Z.bits_0].
  - rewrite Z.pow2_bits_false by done. destruct (Z.testbit f k); cbn; [now rewrite Z.pow2_bits_false|now rewrite Z.bits_0].
Qed.

Section ConditionFacts.
Context (flags : Z).

Lemma land_CF : Z.land CF flags = if flag_cf flags then 1 else 0.
Proof. exact (land_pow2 0 flags ltac:(lia)). Qed.
Lemma land_PF : Z.land PF flags = if flag_pf flags then 4 else 0.
Proof. exact (land_pow2 2 flags ltac:(lia)). Qed.
Lemma land_ZF : Z.land ZF flags = if flag_zf flags then 64 else 0.
Proof. exact (land_pow2 6 flags ltac:(lia)). Qed.
Lemma land_SF : Z.land SF flags = if flag_sf flags then 128 else 0.
Proof. exact (land_pow2 7 flags ltac:(lia)). Qed.
Lemma land_OF : Z.land OF flags = if flag_of flags then 2048 else 0.
Proof. exact (land_pow2 11 flags ltac:(lia)). Qed.
End ConditionFacts.

Lemma ulong_pred_zero `{Target} cx :
  WORDSIZE = 64 -> 0 <= cx < 2 ^ 64 -> (ulong (cx - 1) =? 0) = (cx =? 1).
Proof.
  intros Hw Hc. unfold ulong. rewrite Hw. cbn [Z.eqb Pos.eqb]. unfold u64.
  destruct (Z.eq_dec cx 0) as [->|Hne]; [reflexivity|].
  rewrite Z.mod_small by lia. destruct (Z.eqb_spec (cx - 1) 0), (Z.eqb_spec cx 1); lia.
Qed.

Section Jumps.
Context `{LC : Libc} `{T : Target} `{U : Udis86}.
Hypothesis Hword : WORDSIZE = 64.

Lemma ud_register_64 {S} reg c v (s : S) :
  get_reg_context_offset reg <> -1 -> greg (get_reg_context_offset reg) c = Some v ->
  get_register_ud_type reg c s = Ret (u64 v) s.
Proof.
  intros Ho Hv. unfold get_register_ud_type. rewrite (proj2 (Z.eqb_neq _ _) Ho), Hv.
  cbn. unfold ulong. now rewrite Hword.
Qed.

(** The registers the conditions use are in every context. *)
Lemma rcx_offset reg :
  reg = UD_R_CX \/ reg = UD_R_ECX \/ reg = UD_R_RCX -> get_reg_context_offset reg = 14.
Proof.
  intros Hr. unfold get_reg_context_offset, X86_64_RCX_OFFSET, REG_RCX. rewrite Hword.
  destruct Hr as [->|[->| ->]]; reflexivity.
Qed.

(** The value of a register of the context, as the library reads it. *)
Definition ctx_reg (offset : Z) (c : ucontext) : Z := u64 (default 0 (greg offset c)).

Lemma ctx_flags c : ctx_ok c -> get_flags c = Some (ctx_reg 17 c).
Proof.
  intros Hc. unfold get_flags, X86_64_FLAGS_OFFSET, REG_EFL. rewrite Hword. cbn [Z.eqb Pos.eqb].
  destruct (greg_ok c 17 Hc) as [v Hv]; [unfold NGREG; rewrite Hword; cbn; lia|].
  unfold ctx_reg. rewrite Hv. cbn. unfold ulong. now rewrite Hword.
Qed.

Lemma ctx_rcx {S} c reg (s : S) :
  ctx_ok c -> reg = UD_R_CX \/ reg = UD_R_ECX \/ reg = UD_R_RCX ->
  get_register_ud_type reg c s = Ret (ctx_reg 14 c) s.
Proof.
  intros Hc Hr. destruct (greg_ok c 14 Hc) as [v Hv]; [unfold NGREG; rewrite Hword; cbn; lia|].
  pose proof (rcx_offset reg Hr) as Ho. unfold ctx_reg. rewrite Hv.
  apply ud_register_64; rewrite Ho; [lia|done].
Qed.

Lemma condition_result {S} m c (s : S) :
  ctx_ok c -> exists r, ctf_condition_met m c s = Ret r s /\
    negb (r =? 0) = xorb (taken m (ctx_reg 17 c) (ctx_reg 14 c))
                         (negb (faithful m (ctx_reg 17 c) (ctx_reg 14 c))).
Proof.
  intros Hc. unfold ctf_condition_met. rewrite (ctx_flags c Hc). cbn [of_option]. mstep.
  rewrite Hword. cbn [Z.eqb Pos.eqb]. mstep_with (ctx_rcx c UD_R_RCX s Hc ltac:(auto)).
  assert (0 <= ctx_reg 14 c < 2 ^ 64) as Hrcx by apply u64_range.
  unfold is_set. rewrite ?land_CF, ?land_PF, ?land_ZF, ?land_SF, ?land_OF, ulong_pred_zero by done.
  set (fl := ctx_reg 17 c). set (rcx := ctx_reg 14 c) in *.
  destruct m; cbn [taken faithful]; rewrite ?land_CF, ?land_PF, ?land_ZF, ?land_SF, ?land_OF;
    try (rewrite (bind_Ret _ _ _ _ _ (ctx_rcx c _ s Hc ltac:(auto))); fold rcx);
    (eexists; split; [reflexivity|]);
    try (destruct (flag_cf fl), (flag_zf fl), (flag_sf fl), (flag_of fl), (flag_pf fl); try reflexivity;
         destruct (rcx =? 1); reflexivity).
  - destruct (Z.eqb_spec rcx 0) as [->|Hne]; [reflexivity|].
    destruct (rcx mod 2 ^ 16 =? 0); reflexivity.
  - destruct (Z.eqb_spec rcx 0) as [->|Hne]; [reflexivity|].
    destruct (rcx mod 2 ^ 32 =? 0); reflexivity.
  - destruct (rcx =? 0); reflexivity.
Qed.

(** C28: in 64-bit mode the library's evaluation of a jump condition returns,
    without an effect, and is the architecture's condition exactly on the
    states described by [faithful]: always for the unsigned, parity, sign,
    loop and equality conditions; for the signed comparisons only if SF and
    OF are not both set (their masked values are compared without being
    normalised); for jcxz and jecxz only if the wider register does not
    differ from the tested one in being zero. *)
Theorem ctf_condition_exact (S : Type) (m : ud_mnemonic) (c : ucontext) (s : S) :
  ctx_ok c ->
  exists r, ctf_condition_met m c s = Ret r s /\
    ((r <> 0 <-> taken m (ctx_reg 17 c) (ctx_reg 14 c) = true) <->
     faithful m (ctx_reg 17 c) (ctx_reg 14 c) = true).
Proof.
  intros Hc. destruct (condition_result m c s Hc) as (r & Hr & Hx). exists r. split; [done|].
  destruct (taken _ _ _), (faithful _ _ _); cbn in Hx; destruct (Z.eqb_spec r 0); cbn in Hx;
    try discriminate; intuition congruence.
Qed.

(** ** Successors *)

(** The signed displacement of an immediate operand. *)
Definition jump_displacement (op : ud_operand) : Z :=
  if op_size op =? 8 then sbyte op
  else if op_size op =? 16 then sword op
  else if op_size op =? 32 then sdword op
  else if op_size op =? 64 then sqword op
  else 0.

Definition is_unconditional (m : ud_mnemonic) : bool :=
  match m with UD_Icall | UD_Ijmp => true | _ => false end.

(** The address of the instruction that executes after [i] at [pc]. *)
Definition next_instruction (i : ud_insn) (pc flags rcx : Z) : Z :=
  if is_unconditional (insn_mnemonic i) || taken (insn_mnemonic i) flags rcx
  then u64 (pc + insn_len i + jump_displacement (insn_operand i))
  else u64 (pc + insn_len i).

Lemma no_successor_ok v pc (s : access) : v <> 0 -> no_successor v pc s = Ret v s.
Proof. intros Hv. unfold no_successor. now rewrite (proj2 (Z.eqb_neq v 0) Hv). Qed.

Lemma relative_target op pc len :
  op_type op = UD_OP_JIMM -> 0 <= pc + len < 2 ^ 64 ->
  forall (c : ucontext) (s : access),
    compute_target op (pc + len) c s = Ret (u64 (pc + len + jump_displacement op)) s.
Proof.
  intros Ho Hp c s. unfold compute_target, compute_relative_location, jump_displacement, ret, ulong.
  rewrite Ho, Hword. cbn [Z.eqb Pos.eqb].
  repeat (case_match; [done|]). rewrite Z.add_0_r, u64_small by done. done.
Qed.
End Jumps.

Section SuccessorFacts.
Context `{LO : LibcOk} `{T : Target} `{UO : Udis86Ok}.
Hypothesis Hword : WORDSIZE = 64.

(** C29: the successor the library computes is the address that the processor
    executes next, for every instruction that is not a return or an indirect
    transfer: the target of a taken direct jump or call is the end of the
    instruction plus the sign-extended displacement, modulo 2^64, and any
    other instruction falls through. The state is untouched. (Conditions as
    in C28.) *)
Theorem ctf_successor_direct (pc : Z) (c : ucontext) (s : access) (i : ud_insn) :
  ctx_ok c -> ud_disassemble 64 (space s) pc = Some i -> 0 <= pc -> pc + insn_len i < 2 ^ 64 ->
  insn_mnemonic i <> UD_Iret ->
  (is_unconditional (insn_mnemonic i) || is_conditional (insn_mnemonic i) = true ->
     op_type (insn_operand i) = UD_OP_JIMM) ->
  faithful (insn_mnemonic i) (ctx_reg 17 c) (ctx_reg 14 c) = true ->
  next_instruction i pc (ctx_reg 17 c) (ctx_reg 14 c) <> 0 ->
  get_ctf_successor pc c s = Ret (next_instruction i pc (ctx_reg 17 c) (ctx_reg 14 c)) s.
Proof.
  intros Hc Hd Hp Hend Hret Hop Hf Hnz. unfold get_ctf_successor. mstep. rewrite Hword, Hd.
  destruct (ud_pc_next _ _ _ _ Hd) as [Hpc Hlen].
  assert (Hcond : forall m, insn_mnemonic i = m -> is_conditional m = true ->
    (let* met := ctf_condition_met m c in
     let* successor :=
       if negb (met =? 0) then compute_target (insn_operand i) (insn_pc i) c
       else ret (ulong (pc + insn_len i)) in
     no_successor successor pc) s
    = Ret (next_instruction i pc (ctx_reg 17 c) (ctx_reg 14 c)) s).
  { intros m Hm Hcm. rewrite Hm in Hf.
    destruct (condition_result Hword m c s Hc) as (r & Hr & Hx). rewrite Hf, xorb_false_r in Hx.
    mstep_with Hr. rewrite Hx.
    assert (is_unconditional m = false) as Hu by now destruct m.
    unfold next_instruction in *. rewrite Hm, Hu in Hnz |- *. cbn [orb] in *.
    destruct (taken m _ _).
    - rewrite Hpc. erewrite bind_Ret; [|apply (relative_target Hword); [apply Hop|lia]].
      + now apply no_successor_ok.
      + now rewrite Hm, Hcm, orb_true_r.
    - mstep. unfold ulong. rewrite Hword. now apply no_successor_ok. }
  destruct (is_conditional (insn_mnemonic i)) eqn:Hic.
  { destruct (insn_mnemonic i) eqn:Hm; try discriminate Hic; cbn [is_conditional];
      exact (Hcond _ eq_refl eq_refl). }
  destruct (is_unconditional (insn_mnemonic i)) eqn:Hiu.
  - assert (next_instruction i pc (ctx_reg 17 c) (ctx_reg 14 c)
            = u64 (pc + insn_len i + jump_displacement (insn_operand i))) as He
      by (unfold next_instruction; now rewrite Hiu).
    rewrite He in Hnz |- *.
    assert ((let* successor := compute_target (insn_operand i) (insn_pc i) c in
             no_successor successor pc) s
            = Ret (u64 (pc + insn_len i + jump_displacement (insn_operand i))) s) as Hjmp.
    { rewrite Hpc. erewrite bind_Ret; [|apply (relative_target Hword); [now apply Hop|lia]].
      now apply no_successor_ok. }
    destruct (insn_mnemonic i); try discriminate Hiu; exact Hjmp.
  - assert (next_instruction i pc (ctx_reg 17 c) (ctx_reg 14 c) = u64 (pc + insn_len i)) as He.
    { unfold next_instruction. rewrite Hiu. now destruct (insn_mnemonic i). }
    rewrite He in Hnz |- *.
    assert (no_successor (ulong (pc + insn_len i)) pc s = Ret (u64 (pc + insn_len i)) s) as Hnext
      by (unfold ulong; rewrite Hword; now apply no_successor_ok).
    destruct (insn_mnemonic i); try discriminate; try done; exact Hnext.
Qed.

(** The successor of a return is the word on top of the stack: the
    eight bytes at the stack pointer in little-endian order, or 0, which
    means failure, when they cannot be read; the debuggee's memory is
    unchanged either way. *)
Theorem ctf_successor_return (pc : Z) (c : ucontext) (s : access) (i : ud_insn) :
  ctx_ok c -> ud_disassemble 64 (space s) pc = Some i -> insn_mnemonic i = UD_Iret ->
  calm s -> ctx_reg 15 c + 8 <= 2 ^ 64 -> covered (ctx_reg 15 c) 8 ->
  exists v s', get_ctf_successor pc c s = Ret v s' /\ calm s' /\
    as_bytes (space s') = as_bytes (space s) /\
    (v = 0 \/ v = le_word (peeks (space s) (ctx_reg 15 c) 8)).
Proof.
  intros Hc Hd Hm Hs Hsp Hcov. unfold get_ctf_successor. mstep. rewrite Hword, Hd, Hm.
  cbn [Z.eqb Pos.eqb]. destruct (greg_ok c 15 Hc) as [v Hv]; [unfold NGREG; rewrite Hword; cbn; lia|].
  assert (get_reg_context_offset UD_R_RSP = 15) as Ho.
  { unfold get_reg_context_offset, X86_64_RSP_OFFSET, REG_RSP. now rewrite Hword. }
  assert (get_register_ud_type UD_R_RSP c s = Ret (ctx_reg 15 c) s) as Hr.
  { unfold ctx_reg. rewrite Hv. apply (ud_register_64 Hword); rewrite Ho; [lia|done]. }
  mstep_with Hr. unfold word_bytes. rewrite Hword. cbn [Z.eqb Pos.eqb].
  pose proof (u64_range (default 0 (greg 15 c))) as Hrg. fold (ctx_reg 15 c) in Hrg.
  destruct (read_memory_calm (replicate 8 0) (ctx_reg 15 c) 8 s Hs ltac:(lia) ltac:(lia) Hcov ltac:(done))
    as (k & r & buf & s' & Hrd & Hcalm & _ & Hres & Hby & Hbuf).
  mstep_with Hrd. exists (if negb (r =? 0) then 0 else le_word buf), s'.
  split; [now destruct (negb (r =? 0))|]. split; [done|]. split; [done|].
  destruct Hres as [-> -> _ _|? -> _ _ _|? ? -> _ _ _]; cbn [negb Z.eqb]; [right|now left..].
  rewrite Hbuf. now rewrite app_nil_r.
Qed.
End SuccessorFacts.

Module X86Demo.
Import MemoryDemo RegisterDemo.

(** A decoder for the short forms of jl, jmp, ret and nop. *)
Definition demo_operand (rel : Z) : ud_operand := UdOperand UD_OP_JIMM 8 UD_NONE UD_NONE 0 0 rel.

Definition demo_disassemble (mode : Z) (sp : aspace) (pc : Z) : option ud_insn :=
  let b := peek sp pc in
  let rel := peek sp (pc + 1) in
  if b =? 0x7c then Some (UdInsn UD_Ijl (demo_operand rel) (pc + 2) 2)
  else if b =? 0xeb then Some (UdInsn UD_Ijmp (demo_operand rel) (pc + 2) 2)
  else if b =? 0xc3 then Some (UdInsn UD_Iret (demo_operand 0) (pc + 1) 1)
  else if b =? 0x90 then Some (UdInsn (UD_Iother 0) (demo_operand 0) (pc + 1) 1)
  else None.

Definition demo_udis86 : Udis86 := {| ud_disassemble := demo_disassemble |}.
#[export] Existing Instance demo_udis86.

Lemma demo_udis86_ok : Udis86Ok.
Proof.
  split. intros mode sp pc i. cbn. unfold demo_disassemble.
  repeat (case_match; [intros Hi; injection Hi as <-; cbn; lia|]). discriminate.
Qed.
#[export] Existing Instance demo_udis86_ok.

(** jmp -4 at 100; ret at 110; the stack at 200. *)
Definition code : access :=
  idle (ASpace (poke_bytes (poke_bytes (poke_bytes ∅ 100 [0xeb; 0xfc]) 110 [0xc3]) 200 [0x78; 0x56; 0x34; 0x12])
          (<[0 := RW]> ∅)).

Definition ctx (flags rcx rsp : Z) : ucontext :=
  UContext (<[14%nat := rcx]> (<[15%nat := rsp]> (<[17%nat := flags]> (replicate 23 0)))).

Example jump_back : get_ctf_successor 100 (ctx 0 0 200) code = Ret 98 code.
Proof. vm_compute. reflexivity. Qed.

(** "jl" with SF and OF set is not taken by the processor; the library says
    that it is. *)
Example jl_overflow :
  ctf_condition_met UD_Ijl (ctx (SF + OF) 0 0) tt = Ret 1 tt /\ taken UD_Ijl (SF + OF) 0 = false.
Proof. vm_compute. auto. Qed.

Lemma ctf_condition_exact_witness :
  exists r, ctf_condition_met UD_Ijl (ctx SF 0 0) tt = Ret r tt /\
    ((r <> 0 <-> taken UD_Ijl SF 0 = true) <-> faithful UD_Ijl SF 0 = true).
Proof. exact (ctf_condition_exact (T := x86_64) eq_refl unit UD_Ijl (ctx SF 0 0) tt eq_refl). Defined.

Lemma ctf_successor_direct_witness :
  get_ctf_successor 100 (ctx 0 0 200) code
  = Ret (next_instruction (UdInsn UD_Ijmp (demo_operand 0xfc) 102 2) 100 0 0) code.
Proof.
  apply (ctf_successor_direct (T := x86_64) eq_refl 100 (ctx 0 0 200) code (UdInsn UD_Ijmp (demo_operand 0xfc) 102 2));
    try reflexivity; try discriminate; cbn; lia.
Defined.

Lemma ctf_successor_return_witness :
  exists v s', get_ctf_successor 110 (ctx 0 0 200) code = Ret v s' /\
    (v = 0 \/ v = le_word (peeks (space code) 200 8)).
Proof.
  destruct (ctf_successor_return (T := x86_64) eq_refl 110 (ctx 0 0 200) code (UdInsn UD_Iret (demo_operand 0) 111 1))
    as (v & s' & Hv & _ & _ & Hc); try reflexivity.
  - apply idle_calm.
  - vm_compute. discriminate.
  - vm_compute. discriminate.
  - exists v, s'. split; [exact Hv|exact Hc].
Defined.
End X86Demo.
