(* ===== verification/Io.v ===== *)
(** * File descriptors: [read_from] and [write_to] of udirt-posix.c

    A descriptor is described by what the coming system calls on it will do:
    a read yields data, is interrupted or fails, a write accepts some bytes,
    is interrupted or fails. The bytes a debugger has written arrive in
    arbitrary pieces; the lemmas below show that the pieces do not matter. *)

From Stdlib Require Import String.
From stdpp Require Import gmap.
From S2P Require Import Prelude External Types Format Memory.

Inductive rd_outcome : Type := RData (bs : list Z) | RIntr | RErr (errno : Z).
Inductive wr_outcome : Type := WCount (n : nat) | WIntr | WErr (errno : Z).

(** [c_in]: what [read] meets, end-of-file once it is empty; [c_wr]: what
    [write] meets, a write that accepts everything once it is empty;
    [c_out]: the bytes written so far. *)
Record chan : Type := Chan {
  c_in : list rd_outcome;
  c_wr : list wr_outcome;
  c_out : list Z
}.

Definition EBADF : Z := 9.
Definition SIGPIPE : Z := 13.

(** The descriptors, with the innermost runtime state. *)
Record env : Type := Env {
  e_rt : rt;
  e_fds : gmap Z chan;
  pipe_write_failure : bool;
  pending : gset Z
}.

Definition put_e_rt (r : rt) (s : env) : env := Env r (e_fds s) (pipe_write_failure s) (pending s).
Definition put_fds (f : gmap Z chan) (s : env) : env := Env (e_rt s) f (pipe_write_failure s) (pending s).
Definition env_rt {A} (m : ST rt A) : ST env A := zoom e_rt put_e_rt m.

(** ** System calls *)

(** [read(fd, dst, n)] with [n > 0]. *)
Definition sys_read (fd : Z) (n : nat) : ST env (list Z + Z) := fun s =>
  match e_fds s !! fd with
  | None => Ret (inr EBADF) s
  | Some c =>
      let put q := put_fds (<[fd := Chan q (c_wr c) (c_out c)]> (e_fds s)) s in
      match c_in c with
      | [] => Ret (inl []) s
      | RData bs :: q =>
          Ret (inl (take n bs)) (put (if decide (length bs <= n)%nat then q else RData (drop n bs) :: q))
      | RIntr :: q => Ret (inr EINTR) (put q)
      | RErr e :: q => Ret (inr e) (put q)
      end
  end.

(** [write(fd, src, length src)]; a write to a closed pipe also raises
    [SIGPIPE], which the library keeps blocked. *)
Definition sys_write (fd : Z) (src : list Z) : ST env (Z + Z) := fun s =>
  match e_fds s !! fd with
  | None => Ret (inr EBADF) s
  | Some c =>
      let put w out := put_fds (<[fd := Chan (c_in c) w out]> (e_fds s)) s in
      match c_wr c with
      | [] => Ret (inl (Z.of_nat (length src))) (put [] (c_out c ++ src))
      | WCount n :: w =>
          Ret (inl (Z.of_nat (length (take n src)))) (put w (c_out c ++ take n src))
      | WIntr :: w => Ret (inr EINTR) (put w (c_out c))
      | WErr e :: w =>
          let s' := put w (c_out c) in
          Ret (inr e) (if e =? EPIPE
                       then Env (e_rt s') (e_fds s') (pipe_write_failure s') (pending s' ∪ {[SIGPIPE]})
                       else s')
      end
  end.

(** ** [read_from] *)

(** The [while] loop; [dst] holds the bytes read so far. *)
Fixpoint read_loop (fuel : nat) (fd : Z) (length_ : nat) (dst : list Z) : ST env (Z * list Z) :=
  match fuel with
  | O => running
  | S fuel' =>
      if decide (length dst < length_)%nat then
        let* r := sys_read fd (length_ - length dst) in
        match r with
        | inl [] => ret (-1, dst)
        | inl bs => read_loop fuel' fd length_ (dst ++ bs)
        | inr errno => if errno =? EINTR then read_loop fuel' fd length_ dst else ret (errno, dst)
        end
      else ret (0, dst)
  end.

(** Every iteration consumes an event or a byte. *)
Definition event_size (e : rd_outcome) : nat :=
  match e with RData bs => S (length bs) | _ => 1 end.
Definition queue_size (q : list rd_outcome) : nat := sum_list_with event_size q.
#[global] Arguments queue_size : simpl never.

Lemma queue_size_cons e q : queue_size (e :: q) = (event_size e + queue_size q)%nat.
Proof. reflexivity. Qed.

Definition read_fuel (fd : Z) (s : env) : nat :=
  match e_fds s !! fd with Some c => S (S (queue_size (c_in c))) | None => 2 end.

Definition read_from (fd : Z) (length_ : nat) : ST env (Z * list Z) :=
  let* fuel := gets (read_fuel fd) in
  read_loop fuel fd length_ [].

(** ** [write_to] *)

(** The pending SIGPIPE is let through; [sigsuspend] returns with [EINTR]
    once its handler has run. *)
Definition handle_pipe_write_failure : ST env unit :=
  modify (fun s => Env (e_rt s) (e_fds s) true (pending s)) ;;;
  let* set_ := gets pending in
  if negb (bool_decide (SIGPIPE ∈ set_)) then ret tt
  else modify (fun s => Env (e_rt s) (e_fds s) false (pending s ∖ {[SIGPIPE]})).

Fixpoint write_loop (fuel : nat) (fd : Z) (src : list Z) (total : nat) : ST env Z :=
  match fuel with
  | O => running
  | S fuel' =>
      if decide (total < length src)%nat then
        let* r := sys_write fd (drop total src) in
        match r with
        | inl n => write_loop fuel' fd src (total + Z.to_nat n)
        | inr errno => if errno =? EINTR then write_loop fuel' fd src total else ret errno
        end
      else ret 0
  end.

Definition write_fuel (fd : Z) (s : env) : nat :=
  match e_fds s !! fd with Some c => S (S (length (c_wr c))) | None => 2 end.

Definition write_to (fd : Z) (src : list Z) : ST env Z :=
  let* fuel := gets (write_fuel fd) in
  let* errnum := write_loop fuel fd src 0 in
  (if errnum =? EPIPE then handle_pipe_write_failure else ret tt) ;;;
  ret errnum.

(** ** The byte stream behind a queue of reads *)

(** The bytes up to the first end-of-file or error. *)
Fixpoint avail (q : list rd_outcome) : list Z :=
  match q with
  | [] => []
  | RData [] :: _ => []
  | RData bs :: q => bs ++ avail q
  | RIntr :: q => avail q
  | RErr e :: q => if e =? EINTR then avail q else []
  end.

(** How the stream ends: the result [read_from] reports then. *)
Fixpoint stream_end (q : list rd_outcome) : Z :=
  match q with
  | [] => -1
  | RData [] :: _ => -1
  | RData _ :: q => stream_end q
  | RIntr :: q => stream_end q
  | RErr e :: q => if e =? EINTR then stream_end q else e
  end.

(** [fd] is open and has the stream [bs], ending in [e], in front of it. *)
Definition readable_fd (s : env) (fd : Z) (bs : list Z) (e : Z) : Prop :=
  exists c, e_fds s !! fd = Some c /\ avail (c_in c) = bs /\ stream_end (c_in c) = e.

(** The states a read of [fd] can lead to: nothing else changes. *)
Definition only_reads (fd : Z) (s s' : env) : Prop :=
  e_rt s' = e_rt s /\ pipe_write_failure s' = pipe_write_failure s /\ pending s' = pending s /\
  (forall x, x <> fd -> e_fds s' !! x = e_fds s !! x) /\
  (forall c, e_fds s !! fd = Some c ->
     exists q, e_fds s' !! fd = Some (Chan q (c_wr c) (c_out c))).

#[export] Instance only_reads_refl fd : Reflexive (only_reads fd).
Proof. intros s. do 4 (split; [done|]). intros [q w o] Hc. eauto. Qed.

#[export] Instance only_reads_trans fd : Transitive (only_reads fd).
Proof.
  intros s1 s2 s3 (A1 & A2 & A3 & A4 & A5) (B1 & B2 & B3 & B4 & B5).
  do 3 (split; [congruence|]). split.
  - intros x Hx. rewrite B4, A4; done.
  - intros c Hc. destruct (A5 c Hc) as [q Hq]. destruct (B5 _ Hq) as [q' Hq']. eauto.
Qed.

Definition put_queue (fd : Z) (c : chan) (q : list rd_outcome) (s : env) : env :=
  put_fds (<[fd := Chan q (c_wr c) (c_out c)]> (e_fds s)) s.

Lemma put_queue_reads fd c q s : e_fds s !! fd = Some c -> only_reads fd s (put_queue fd c q s).
Proof.
  intros Hc. do 3 (split; [done|]). split.
  - intros x Hx. cbn. now rewrite lookup_insert_ne.
  - intros c' Hc'. simplify_eq. cbn. rewrite lookup_insert_eq. eauto.
Qed.

Lemma put_queue_lookup fd c q s : e_fds (put_queue fd c q s) !! fd = Some (Chan q (c_wr c) (c_out c)).
Proof. apply lookup_insert_eq. Qed.

(** The three outcomes of a [read]: interrupted, some of the stream, its end. *)
Inductive read_outcome (fd : Z) (n : nat) (s : env) (c : chan) : list Z + Z -> env -> Prop :=
| read_intr q :
    avail q = avail (c_in c) -> stream_end q = stream_end (c_in c) ->
    (queue_size q < queue_size (c_in c))%nat ->
    read_outcome fd n s c (inr EINTR) (put_queue fd c q s)
| read_some b bs q :
    (length (b :: bs) <= n)%nat -> avail (c_in c) = (b :: bs) ++ avail q ->
    stream_end q = stream_end (c_in c) -> (queue_size q < queue_size (c_in c))%nat ->
    read_outcome fd n s c (inl (b :: bs)) (put_queue fd c q s)
| read_eof s' :
    only_reads fd s s' -> avail (c_in c) = [] -> stream_end (c_in c) = -1 ->
    read_outcome fd n s c (inl []) s'
| read_fail e s' :
    only_reads fd s s' -> avail (c_in c) = [] -> stream_end (c_in c) = e -> e <> EINTR ->
    read_outcome fd n s c (inr e) s'.

Lemma sys_read_outcome fd n s c :
  e_fds s !! fd = Some c -> (0 < n)%nat ->
  exists r s', sys_read fd n s = Ret r s' /\ read_outcome fd n s c r s'.
Proof.
  intros Hc Hn. unfold sys_read. rewrite Hc.
  pose proof (fun q => put_queue_reads fd c q s Hc) as Hpq.
  destruct c as [[|[[|b bs]| |e] q] w o]; cbn [c_in c_wr c_out]; do 2 eexists; (split; [reflexivity|]).
  - now apply read_eof.
  - rewrite take_nil. rewrite decide_True by (cbn; lia). apply read_eof; [apply Hpq|done..].
  - destruct n as [|n]; [lia|]. cbn [take]. case_decide as Hle; cbn [length] in Hle.
    + apply (read_some fd (S n) s (Chan (RData (b :: bs) :: q) w o) b (take n bs) q); cbn; rewrite ?queue_size_cons; cbn.
      * rewrite length_take. lia.
      * now rewrite take_ge by lia.
      * done.
      * lia.
    + assert (Hd : exists x xs, drop n bs = x :: xs).
      { destruct (drop n bs) as [|x xs] eqn:Hx; [|eauto].
        apply (f_equal length) in Hx. rewrite length_drop in Hx. cbn in Hx. lia. }
      destruct Hd as (x & xs & Hd). cbn [drop].
      apply (read_some fd (S n) s (Chan (RData (b :: bs) :: q) w o) b (take n bs) (RData (drop n bs) :: q)); cbn; rewrite ?queue_size_cons; cbn.
      * rewrite length_take. lia.
      * rewrite Hd. cbn. f_equal. rewrite <- (take_drop n bs) at 1. rewrite Hd, <- app_assoc. done.
      * now rewrite Hd.
      * rewrite length_drop. lia.
  - apply (read_intr fd n s (Chan (RIntr :: q) w o) q); cbn; rewrite ?queue_size_cons; cbn; [done|done|lia].
  - destruct (Z.eqb_spec e EINTR) as [->|Hne].
    + apply (read_intr fd n s (Chan (RErr EINTR :: q) w o) q); cbn; rewrite ?queue_size_cons; cbn; [done|done|lia].
    + apply Z.eqb_neq in Hne as Hb. apply read_fail; [apply Hpq|cbn; now rewrite Hb..|done].
Qed.

(** The loop returns the next bytes of the stream, however they are cut up. *)
Lemma read_loop_ok fd n : forall fuel dst s c,
  e_fds s !! fd = Some c -> (length dst <= n)%nat -> (queue_size (c_in c) < fuel)%nat ->
  (n - length dst <= length (avail (c_in c)))%nat ->
  exists s', only_reads fd s s' /\
    read_loop fuel fd n dst s = Ret (0, dst ++ take (n - length dst) (avail (c_in c))) s' /\
    readable_fd s' fd (drop (n - length dst) (avail (c_in c))) (stream_end (c_in c)).
Proof.
  induction fuel as [|fuel IH]; intros dst s c Hc Hd Hf Hk; [lia|]. cbn [read_loop].
  destruct (decide (length dst < n)%nat) as [Hlt|Hge].
  2: { exists s. split; [done|]. replace (n - length dst)%nat with 0%nat by lia.
       rewrite take_0, app_nil_r, drop_0. split; [done|]. now exists c. }
  destruct (sys_read_outcome fd (n - length dst) s c Hc) as (r & s1 & Hr & Ho); [lia|].
  mstep_with Hr. destruct Ho as [q Ha He Hq|b bs q Hl Ha He Hq|s1 _ Ha _|e s1 _ Ha _ _].
  - destruct (IH dst _ _ (put_queue_lookup fd c q s) Hd) as (s' & Hs' & Hr' & Hrd);
      cbn [c_in] in *; [lia|now rewrite Ha|].
    rewrite Ha, ?He in *. exists s'. split; [|done].
    etransitivity; [eapply put_queue_reads; exact Hc|exact Hs'].
  - rewrite Ha in Hk |- *. rewrite length_app in Hk.
    destruct (IH (dst ++ b :: bs) _ _ (put_queue_lookup fd c q s)) as (s' & Hs' & Hr' & Hrd);
      cbn [c_in] in *; rewrite ?length_app; [lia|lia|lia|].
    exists s'. split; [etransitivity; [eapply put_queue_reads; exact Hc|exact Hs']|].
    rewrite length_app in *. rewrite Nat.sub_add_distr in *.
    rewrite (take_app_ge (b :: bs)), (drop_app_ge (b :: bs)) by lia.
    rewrite <- He. split; [|exact Hrd]. rewrite Hr', <- app_assoc. done.
  - rewrite Ha in Hk. cbn in Hk. lia.
  - rewrite Ha in Hk. cbn in Hk. lia.
Qed.

Lemma read_loop_short fd n : forall fuel dst s c,
  e_fds s !! fd = Some c -> (length dst <= n)%nat -> (queue_size (c_in c) < fuel)%nat ->
  (length (avail (c_in c)) < n - length dst)%nat ->
  exists s', only_reads fd s s' /\
    read_loop fuel fd n dst s = Ret (stream_end (c_in c), dst ++ avail (c_in c)) s'.
Proof.
  induction fuel as [|fuel IH]; intros dst s c Hc Hd Hf Hk; [lia|]. cbn [read_loop].
  rewrite decide_True by lia.
  destruct (sys_read_outcome fd (n - length dst) s c Hc) as (r & s1 & Hr & Ho); [lia|].
  mstep_with Hr. destruct Ho as [q Ha He Hq|b bs q Hl Ha He Hq|s1 Hs1 Ha He|e s1 Hs1 Ha He Hne].
  - destruct (IH dst _ _ (put_queue_lookup fd c q s) Hd) as (s' & Hs' & Hr');
      cbn [c_in] in *; [lia|now rewrite Ha|].
    rewrite Ha, ?He in *. exists s'. split; [|done].
    etransitivity; [eapply put_queue_reads; exact Hc|exact Hs'].
  - rewrite Ha in Hk |- *. rewrite length_app in Hk.
    destruct (IH (dst ++ b :: bs) _ _ (put_queue_lookup fd c q s)) as (s' & Hs' & Hr');
      cbn [c_in] in *; rewrite ?length_app; [lia|lia|lia|].
    exists s'. split; [etransitivity; [eapply put_queue_reads; exact Hc|exact Hs']|].
    rewrite <- He, Hr', <- app_assoc. done.
  - exists s1. split; [done|]. rewrite Ha, He, app_nil_r. done.
  - exists s1. split; [done|]. apply Z.eqb_neq in Hne as ->. rewrite Ha, He, app_nil_r. done.
Qed.

Lemma read_from_ok fd n s bs e :
  readable_fd s fd bs e -> (n <= length bs)%nat ->
  exists s', read_from fd n s = Ret (0, take n bs) s' /\ only_reads fd s s' /\
    readable_fd s' fd (drop n bs) e.
Proof.
  intros (c & Hc & <- & <-) Hn. unfold read_from. mstep. unfold read_fuel. rewrite Hc.
  destruct (read_loop_ok fd n (S (S (queue_size (c_in c)))) [] s c Hc) as (s' & Hs' & Hr & Hrd);
    [cbn; lia..|]. cbn [length app] in *. rewrite Nat.sub_0_r in *.
  exists s'. split; [exact Hr|]. split; done.
Qed.

Lemma read_from_short fd n s bs e :
  readable_fd s fd bs e -> (length bs < n)%nat ->
  exists s', read_from fd n s = Ret (e, bs) s' /\ only_reads fd s s'.
Proof.
  intros (c & Hc & <- & <-) Hn. unfold read_from. mstep. unfold read_fuel. rewrite Hc.
  destruct (read_loop_short fd n (S (S (queue_size (c_in c)))) [] s c Hc) as (s' & Hs' & Hr);
    [cbn; lia..|]. eauto.
Qed.

(** ** What a write does *)

(** No coming write of the descriptor fails. *)
Definition write_ok (w : wr_outcome) : bool :=
  match w with WErr e => e =? EINTR | _ => true end.
Definition accepting (c : chan) : Prop := Forall (fun w => write_ok w = true) (c_wr c).

(** The states a write of [bs] to [fd] can lead to. *)
Definition appends (fd : Z) (bs : list Z) (s s' : env) : Prop :=
  e_rt s' = e_rt s /\ (forall x, x <> fd -> e_fds s' !! x = e_fds s !! x) /\
  forall c, e_fds s !! fd = Some c ->
    exists w, e_fds s' !! fd = Some (Chan (c_in c) w (c_out c ++ bs)) /\ suffix w (c_wr c).

Lemma appends_trans fd bs bs' s1 s2 s3 :
  appends fd bs s1 s2 -> appends fd bs' s2 s3 -> appends fd (bs ++ bs') s1 s3.
Proof.
  intros (A1 & A2 & A3) (B1 & B2 & B3). split; [congruence|]. split.
  - intros x Hx. rewrite B2, A2; done.
  - intros c Hc. destruct (A3 c Hc) as (w & Hw & Hs). destruct (B3 _ Hw) as (w' & Hw' & Hs').
    cbn in *. exists w'. rewrite app_assoc. split; [done|]. now transitivity w.
Qed.

Lemma appends_nil fd s : appends fd [] s s.
Proof. do 2 (split; [done|]). intros [i w o] Hc. exists w. cbn. now rewrite app_nil_r. Qed.

Lemma suffix_accepting i w o c :
  suffix w (c_wr c) -> accepting c -> accepting (Chan i w o).
Proof.
  unfold accepting. intros [k Hk] Ha. rewrite Hk in Ha. apply Forall_app in Ha as [_ Ha]. done.
Qed.

(** The outcomes of a [write]. *)
Lemma sys_write_outcome fd src s c :
  e_fds s !! fd = Some c ->
  exists r s', sys_write fd src s = Ret r s' /\
    ((exists n, r = inl (Z.of_nat n) /\ appends fd (take n src) s s' /\ (n <= length src)%nat /\
        (c_wr c = [] -> n = length src)) \/
     (exists e, r = inr e /\ appends fd [] s s' /\ (accepting c -> e = EINTR) /\ c_wr c <> [])) /\
    (exists c', e_fds s' !! fd = Some c' /\
       (length (c_wr c') < length (c_wr c) \/ c_wr c = [])%nat).
Proof.
  intros Hc. unfold sys_write. rewrite Hc.
  assert (Hput : forall w bs, suffix w (c_wr c) ->
            appends fd bs s (put_fds (<[fd := Chan (c_in c) w (c_out c ++ bs)]> (e_fds s)) s)).
  { intros w bs Hw. split; [done|]. split; [intros x Hx; cbn; now rewrite lookup_insert_ne|].
    intros c' Hc'. simplify_eq. exists w. cbn. rewrite lookup_insert_eq. done. }
  assert (Hsame : forall e q, suffix q (c_wr c) -> c_wr c = e :: q ->
            appends fd [] s (put_fds (<[fd := Chan (c_in c) q (c_out c)]> (e_fds s)) s)).
  { intros e q Hq He. rewrite <- (app_nil_r (c_out c)). now apply Hput. }
  destruct (c_wr c) as [|[n| |e] q] eqn:Hw.
  - do 2 eexists. split; [reflexivity|]. split.
    + left. exists (length src). split; [done|]. rewrite take_ge by done. split; [|done].
      apply Hput. reflexivity.
    + eexists. cbn. rewrite lookup_insert_eq. auto.
  - do 2 eexists. split; [reflexivity|]. split.
    + left. exists (length (take n src)). split; [done|]. rewrite length_take.
      split; [|split; [lia|done]]. rewrite <- take_take_min || idtac.
      replace (take (n `min` length src) src) with (take n src).
      * apply Hput. now exists [WCount n].
      * destruct (le_lt_dec n (length src)); [now rewrite Nat.min_l by lia|].
        rewrite Nat.min_r by lia. now rewrite !take_ge by lia.
    + eexists. cbn. rewrite lookup_insert_eq. split; [done|]. left. cbn. lia.
  - do 2 eexists. split; [reflexivity|]. split.
    + right. exists EINTR. split; [done|]. split; [|done]. eapply Hsame; [now exists [WIntr]|done].
    + eexists. cbn. rewrite lookup_insert_eq. split; [done|]. left. cbn. lia.
  - do 2 eexists. split; [reflexivity|]. split.
    + right. exists e. split; [done|]. split; [|split; [|done]].
      * assert (appends fd [] s (put_fds (<[fd := Chan (c_in c) q (c_out c)]> (e_fds s)) s)) as Ha.
        { eapply Hsame; [now exists [WErr e]|done]. }
        destruct (e =? EPIPE); exact Ha.
      * unfold accepting. rewrite Hw. intros Ha. apply Forall_cons in Ha as [Ha _]. cbn in Ha. lia.
    + exists (Chan (c_in c) q (c_out c)). split; [destruct (e =? EPIPE); apply lookup_insert_eq|].
      left. cbn. lia.
Qed.

Lemma write_loop_spec fd src : forall fuel total s c,
  e_fds s !! fd = Some c -> (total <= length src)%nat ->
  (S (length (c_wr c)) < fuel)%nat \/ (total = length src /\ 0 < fuel)%nat ->
  exists r k s', write_loop fuel fd src total s = Ret r s' /\
    appends fd (take k (drop total src)) s s' /\
    (accepting c -> r = 0 /\ (length src <= total + k)%nat).
Proof.
  induction fuel as [|fuel IH]; intros total s c Hc Ht Hf; [lia|]. cbn [write_loop].
  case_decide as Hlt.
  2: { exists 0, 0%nat, s. split; [done|]. split; [apply appends_nil|]. intros _. split; [done|lia]. }
  destruct Hf as [Hf|]; [|lia].
  destruct (sys_write_outcome fd (drop total src) s c Hc) as (r & s1 & Hr & Ho & c1 & Hc1 & Hlen).
  mstep_with Hr.
  destruct Ho as [(n & -> & Hap & Hn & Hall)|(e & -> & Hap & He & Hne)].
  - rewrite Nat2Z.id. rewrite length_drop in Hn, Hall.
    destruct (IH (total + n)%nat s1 c1 Hc1) as (r2 & k & s2 & Hr2 & Hap2 & Hok); [lia| |].
    { destruct Hlen as [Hlen|Hlen]; [left; lia|right]. specialize (Hall Hlen). lia. }
    exists r2, (n + k)%nat, s2. split; [done|]. split.
    { rewrite take_drop_split, drop_drop. eapply appends_trans; eauto. }
    destruct Hap as (_ & _ & Hap). destruct (Hap c Hc) as (w & Hw & Hsuf). simplify_eq.
    intros Ha. destruct Hok as [-> Hk]; [now apply suffix_accepting with c|]. split; [done|lia].
  - destruct (Z.eqb_spec e EINTR) as [->|Hx].
    + destruct Hlen as [Hlen|?]; [|done].
      destruct (IH total s1 c1 Hc1 Ht) as (r2 & k & s2 & Hr2 & Hap2 & Hok); [left; lia|].
      exists r2, k, s2. split; [done|]. split.
      { rewrite <- (app_nil_l (take _ _)). eapply appends_trans; eauto. }
      destruct Hap as (_ & _ & Hap). destruct (Hap c Hc) as (w & Hw & Hsuf). simplify_eq.
      intros Ha. apply Hok. now apply suffix_accepting with c.
    + exists e, 0%nat, s1. split; [done|]. split; [exact Hap|]. intros Ha. destruct (Hx (He Ha)).
Qed.

Lemma handle_pipe_keeps s : exists s', handle_pipe_write_failure s = Ret tt s' /\
  e_rt s' = e_rt s /\ e_fds s' = e_fds s.
Proof.
  unfold handle_pipe_write_failure. do 2 mstep.
  case_match; eexists; (split; [reflexivity|]); done.
Qed.

Lemma write_to_spec fd src s c :
  e_fds s !! fd = Some c ->
  exists r k s', write_to fd src s = Ret r s' /\ appends fd (take k src) s s' /\
    (accepting c -> r = 0 /\ take k src = src).
Proof.
  intros Hc. unfold write_to. mstep. unfold write_fuel. rewrite Hc.
  destruct (write_loop_spec fd src (S (S (length (c_wr c)))) 0 s c Hc)
    as (r & k & s1 & Hr & Hap & Hok); [lia|left; lia|]. mstep_with Hr. rewrite drop_0 in Hap.
  assert (accepting c -> r = 0 /\ take k src = src) as Hok'.
  { intros Ha. destruct (Hok Ha) as [-> Hk]. split; [done|]. apply take_ge. lia. }
  destruct (r =? EPIPE).
  - destruct (handle_pipe_keeps s1) as (s2 & H2 & Hrt & Hfds). mstep_with H2.
    exists r, k, s2. split; [done|]. split; [|done]. unfold appends. now rewrite Hrt, Hfds.
  - mstep. exists r, k, s1. auto.
Qed.

(** ** Theorems *)

(** C33: [read_from] does not depend on how the bytes arrive: whatever the
    sequence of partial and interrupted reads, it returns 0 with exactly the
    next [n] bytes of the stream, leaving the rest in front of the
    descriptor; if the stream ends before, it returns -1 at end-of-file and
    the error otherwise. It always returns, and touches nothing else. *)
Theorem read_from_exact (fd : Z) (n : nat) (s : env) (bs : list Z) (e : Z) :
  readable_fd s fd bs e ->
  exists r s', read_from fd n s = Ret r s' /\ only_reads fd s s' /\
    if decide (n <= length bs)%nat then r = (0, take n bs) /\ readable_fd s' fd (drop n bs) e
    else r = (e, bs).
Proof.
  intros Hr. case_decide as Hn.
  - destruct (read_from_ok fd n s bs e Hr Hn) as (s' & H1 & H2 & H3). eauto 6.
  - destruct (read_from_short fd n s bs e Hr) as (s' & H1 & H2); [lia|]. eauto 6.
Qed.

(** C34: [write_to] returns whatever the system does; what has been written is
    always a prefix of the message, and all of it, with result 0, when no
    write fails (interruptions and partial writes included). *)
Theorem write_to_exact (fd : Z) (src : list Z) (s : env) (c : chan) :
  e_fds s !! fd = Some c ->
  exists r k s', write_to fd src s = Ret r s' /\ appends fd (take k src) s s' /\
    (accepting c -> r = 0 /\ appends fd src s s').
Proof.
  intros Hc. destruct (write_to_spec fd src s c Hc) as (r & k & s' & Hr & Hap & Hok).
  exists r, k, s'. split; [done|]. split; [done|]. intros Ha. destruct (Hok Ha) as [-> He].
  split; [done|]. now rewrite <- He at 1.
Qed.

Module IoDemo.
Definition pipe : chan := Chan [RData [1; 2]; RIntr; RData [3; 4; 5]] [WCount 1; WIntr] [].
Definition env0 : env := Env (Rt [] []) {[ 7 := pipe ]} false ∅.

Lemma read_from_exact_witness :
  exists r s', read_from 7 4 env0 = Ret r s' /\ r = (0, [1; 2; 3; 4]).
Proof.
  destruct (read_from_exact 7 4 env0 [1; 2; 3; 4; 5] (-1)) as (r & s' & Hr & _ & Hd).
  - exists pipe. split; [reflexivity|]. split; reflexivity.
  - exists r, s'. split; [exact Hr|]. exact (proj1 Hd).
Defined.

Lemma write_to_exact_witness :
  exists r k s', write_to 7 [10; 20; 30] env0 = Ret r s' /\ appends 7 (take k [10; 20; 30]) env0 s' /\
    (accepting pipe -> r = 0 /\ appends 7 [10; 20; 30] env0 s').
Proof. exact (write_to_exact 7 [10; 20; 30] env0 pipe eq_refl). Defined.
End IoDemo.
