(* ===== verification/Log.v ===== *)
(** * The log: udi_log of udirt.c, with the lock of udirt-posix-pthreads.c

    With UDI_DEBUG set, the library writes lines to standard error, from any
    thread and from signal handlers. A line is many small writes; a recursive
    mutex around it keeps other threads out and lets a signal handler of the
    thread that is writing a line write one of its own.

    First the functions as one thread executes them, then the system of all
    threads, whose steps are the same functions. *)

From Stdlib Require Import String.
From stdpp Require Import gmap.
From S2P Require Import Prelude External Types Format Memory Io.

(** ** State *)

Record logger : Type := Logger {
  l_env : env;
  udi_debug_on : bool;
  l_pthread : bool;                 (** whether libpthread is loaded *)
  log_lock : option (nat * nat);    (** the owner and its nesting *)
  l_results : list Z                (** of the coming mutex calls; 0 once it is empty *)
}.

Definition put_l_env (e : env) (s : logger) : logger :=
  Logger e (udi_debug_on s) (l_pthread s) (log_lock s) (l_results s).
Definition put_debug (b : bool) (s : logger) : logger :=
  Logger (l_env s) b (l_pthread s) (log_lock s) (l_results s).
Definition put_lock (l : option (nat * nat)) (s : logger) : logger :=
  Logger (l_env s) (udi_debug_on s) (l_pthread s) l (l_results s).
Definition put_l_results (r : list Z) (s : logger) : logger :=
  Logger (l_env s) (udi_debug_on s) (l_pthread s) (log_lock s) r.

Definition on_l_env {A} (m : ST env A) : ST logger A := zoom l_env put_l_env m.

Definition mutex_result : ST logger Z := fun s =>
  match l_results s with [] => Ret 0 s | r :: rs => Ret r (put_l_results rs s) end.

(** [abort()], which does not return. *)
Definition c_abort {A} : ST logger A := udi_abort.

(** ** The lock *)

Definition init_thread_support : ST logger unit :=
  let* loaded := gets l_pthread in
  if loaded then
    let* init := mutex_result in
    if negb (init =? 0) then c_abort
    else
      let* settype := mutex_result in
      if negb (settype =? 0) then c_abort
      else
        let* mutex := mutex_result in
        if negb (mutex =? 0) then c_abort else modify (put_lock None)
  else ret tt.

(** [pthread_mutex_lock] of a recursive mutex by thread [tid]; it waits while
    another thread has the mutex. *)
Definition pthread_mutex_lock (tid : nat) : ST logger Z := fun s =>
  let lock n := (let* r := mutex_result in
                 (if r =? 0 then modify (put_lock (Some (tid, n))) else ret tt) ;;; ret r) s in
  match log_lock s with
  | None => lock 1%nat
  | Some (owner, n) => if Nat.eqb owner tid then lock (S n) else Running s
  end.

Definition EPERM : Z := 1.

Definition pthread_mutex_unlock (tid : nat) : ST logger Z := fun s =>
  match log_lock s with
  | Some (owner, S n) =>
      if Nat.eqb owner tid then
        (let* r := mutex_result in
         (if r =? 0 then modify (put_lock (match n with O => None | _ => Some (tid, n) end)) else ret tt) ;;;
         ret r) s
      else Ret EPERM s
  | _ => Ret EPERM s
  end.

Definition udi_log_lock (tid : nat) : ST logger unit :=
  let* loaded := gets l_pthread in
  if loaded then
    let* lock_result := pthread_mutex_lock tid in
    if negb (lock_result =? 0) then c_abort else ret tt
  else ret tt.

Definition udi_log_unlock (tid : nat) : ST logger unit :=
  let* loaded := gets l_pthread in
  if loaded then
    let* lock_result := pthread_mutex_unlock tid in
    if negb (lock_result =? 0) then c_abort else ret tt
  else ret tt.

(** ** Writing a line *)

Definition STDERR_FILENO : Z := 2.
Definition udi_log_fd : Z := STDERR_FILENO.

(** The result of the write is not used. *)
Definition write_log (data : list Z) : ST logger unit :=
  let* _ := on_l_env (write_to udi_log_fd data) in
  ret tt.

(** [write_log] as the callback of the formatter: the context is what has been
    done so far. *)
Definition then_write (m : ST logger unit) (data : list Z) : ST logger unit := m ;;; write_log data.

Definition formatted_or_undef (m : option (ST logger unit)) : ST logger unit :=
  match m with Some m => m | None => undef BadFormat end.

(** [udi_log_formatted] and [udi_log_formatted_noprefix] with the lock. *)
Definition log_formatted `{Libc} (tid : nat) (format file : string) (line : Z) (args : list va) : ST logger unit :=
  udi_log_lock tid ;;;
  formatted_or_undef (udi_log_formatted then_write (ret tt) format file line args) ;;;
  udi_log_unlock tid.

Definition log_formatted_noprefix `{Libc} (tid : nat) (format : string) (args : list va) : ST logger unit :=
  udi_log_lock tid ;;;
  formatted_or_undef (udi_log_formatted_noprefix then_write (ret tt) format args) ;;;
  udi_log_unlock tid.

(** The macro [udi_log]. *)
Definition udi_log `{Libc} (tid : nat) (format file : string) (line : Z) (args : list va) : ST logger unit :=
  let* on := gets udi_debug_on in
  if on then log_formatted tid format file line args else ret tt.

(** [set] is whether UDI_DEBUG is in the environment. *)
Definition enable_debug_logging (set : bool) : ST logger unit :=
  if set then modify (put_debug true) else ret tt.

(** [init_req_handling] only hands the library's allocator to libcbor. *)
Definition global_initialization : ST logger unit := init_thread_support.

(** ** All threads

    What a thread does for a line is a list of operations: the lock, the chunks
    of the formatter, the unlock. A chunk is written in one step; the other
    threads and, if [handlers], a signal handler of the thread itself, can come
    in between. *)
Inductive op : Type := OLock | OWrite (data : list Z) | OUnlock.

Definition exec (tid : nat) (o : op) : ST logger unit :=
  match o with
  | OLock => udi_log_lock tid
  | OWrite data => write_log data
  | OUnlock => udi_log_unlock tid
  end.

Fixpoint exec_all (tid : nat) (ops : list op) : ST logger unit :=
  match ops with
  | [] => ret tt
  | o :: ops => exec tid o ;;; exec_all tid ops
  end.

(** A line, as the chunks it is written in. *)
Abbreviation msg := (list (list Z)).
Definition message (m : msg) : list op := OLock :: (OWrite <$> m) ++ [OUnlock].

Definition line_chunks `{Libc} (format file : string) (line : Z) (args : list va) : option msg :=
  udi_log_formatted (fun acc d => acc ++ [d]) [] format file line args.

(** What each thread still has to do. *)
Record system : Type := System { sys_log : logger; sys_ops : list (list op) }.

(** The next operation of a thread; a call of [udi_log] in a thread that is not
    writing a line, or in a signal handler of one that is. *)
Inductive action : Type := Exec (i : nat) | Call (i : nat) (m : msg).

Section System.
Context (handlers : bool).

Definition log_step (a : action) (s : system) : option system :=
  match a with
  | Exec i =>
      match sys_ops s !! i with
      | Some (o :: os) =>
          match exec i o (sys_log s) with
          | Ret _ l => Some (System l (<[i := os]> (sys_ops s)))
          | _ => None
          end
      | _ => None
      end
  | Call i m =>
      match sys_ops s !! i with
      | Some os =>
          if handlers || bool_decide (os = []) then
            Some (System (sys_log s) (<[i := message m ++ os]> (sys_ops s)))
          else None
      | None => None
      end
  end.

Fixpoint log_run (acts : list action) (s : system) : option system :=
  match acts with
  | [] => Some s
  | a :: acts => s' ← log_step a s; log_run acts s'
  end.

(** The text of a line, with the lines [hs] of the signal handlers in it. *)
Inductive woven : list msg -> list op -> list Z -> Prop :=
| woven_nil : woven [] [] []
| woven_lock hs os t : woven hs os t -> woven hs (OLock :: os) t
| woven_write hs d os t : woven hs os t -> woven hs (OWrite d :: os) (d ++ t)
| woven_unlock hs os t : woven hs os t -> woven hs (OUnlock :: os) t
| woven_handler m hs os t : handlers = true -> woven hs (message m ++ os) t -> woven (m :: hs) os t.
End System.

(** The messages that thread [i] and its signal handlers log, in order. *)
Definition calls_of (i : nat) (acts : list action) : list msg :=
  omap (fun a => match a with Call j m => if Nat.eqb j i then Some m else None | Exec _ => None end) acts.

(** A line of the log: the thread, its message, the messages of the signal
    handlers that interrupted it, and what is written of it. *)
Record entry : Type := Entry { e_thread : nat; e_msg : msg; e_inner : list msg; e_text : list Z }.

Definition line_of (now : option entry) : list entry := match now with Some e => [e] | None => [] end.

(** The messages of thread [i] in the lines [es]. *)
Definition said (i : nat) (es : list entry) : list msg :=
  flat_map (fun e => if Nat.eqb (e_thread e) i then e_msg e :: e_inner e else []) es.

(** ** Facts *)

(** *** One thread *)

(** The log has the text [out], no write to it fails and the mutex works. *)
Definition log_ready (s : logger) (out : list Z) : Prop :=
  Forall (fun r => r = 0) (l_results s) /\
  exists c, e_fds (l_env s) !! udi_log_fd = Some c /\ accepting c /\ c_out c = out.

Definition same_flags (s s' : logger) : Prop :=
  l_pthread s' = l_pthread s /\ udi_debug_on s' = udi_debug_on s.

Lemma mutex_result_ok s out :
  log_ready s out ->
  exists s', mutex_result s = Ret 0 s' /\ log_ready s' out /\ log_lock s' = log_lock s /\ same_flags s s'.
Proof.
  intros [Hr Hc]. unfold mutex_result. destruct (l_results s) as [|r rs] eqn:E.
  - exists s. split; [done|]. split; [split; [now rewrite E|done]|done].
  - apply Forall_cons in Hr as [-> Hr]. eexists. split; [reflexivity|]. done.
Qed.

(** How often a thread has the lock, if it can take it. *)
Definition depth (tid : nat) (s : logger) : option nat :=
  match log_lock s with
  | None => Some 0%nat
  | Some (owner, n) => if Nat.eqb owner tid then Some n else None
  end.

Lemma udi_log_lock_ok tid s out n :
  log_ready s out -> l_pthread s = true -> depth tid s = Some n ->
  exists s', udi_log_lock tid s = Ret tt s' /\ log_ready s' out /\ log_lock s' = Some (tid, S n) /\ same_flags s s'.
Proof.
  intros Hr Hp Hd. unfold udi_log_lock. mstep. rewrite Hp.
  destruct (mutex_result_ok s out Hr) as (s1 & Hm & Hr1 & _ & Hf1).
  assert (pthread_mutex_lock tid s = Ret 0 (put_lock (Some (tid, S n)) s1)) as Hl.
  { unfold pthread_mutex_lock. unfold depth in Hd. destruct (log_lock s) as [[owner k]|]; [|injection Hd as <-].
    - destruct (owner =? tid)%nat; [|done]. injection Hd as ->. now mstep_with Hm.
    - now mstep_with Hm. }
  mstep_with Hl. eexists. split; [reflexivity|]. done.
Qed.

Lemma udi_log_lock_blocked tid s : l_pthread s = true -> depth tid s = None -> udi_log_lock tid s = Running s.
Proof.
  intros Hp Hd. unfold udi_log_lock. mstep. rewrite Hp. unfold pthread_mutex_lock, depth, bind in *.
  destruct (log_lock s) as [[owner k]|]; [|done]. now destruct (owner =? tid)%nat.
Qed.

Lemma udi_log_unlock_ok tid s out n :
  log_ready s out -> l_pthread s = true -> log_lock s = Some (tid, S n) ->
  exists s', udi_log_unlock tid s = Ret tt s' /\ log_ready s' out /\
    log_lock s' = match n with O => None | _ => Some (tid, n) end /\ same_flags s s'.
Proof.
  intros Hr Hp Hl. unfold udi_log_unlock. mstep. rewrite Hp.
  destruct (mutex_result_ok s out Hr) as (s1 & Hm & Hr1 & _ & Hf1).
  assert (pthread_mutex_unlock tid s = Ret 0 (put_lock (match n with O => None | _ => Some (tid, n) end) s1)) as Hu.
  { unfold pthread_mutex_unlock. rewrite Hl, Nat.eqb_refl. now mstep_with Hm. }
  mstep_with Hu. eexists. split; [reflexivity|]. done.
Qed.

Lemma write_log_ok s out d :
  log_ready s out ->
  exists s', write_log d s = Ret tt s' /\ log_ready s' (out ++ d) /\ log_lock s' = log_lock s /\ same_flags s s'.
Proof.
  intros (Hr & c & Hc & Ha & Ho). unfold write_log.
  destruct (write_to_spec udi_log_fd d (l_env s) c Hc) as (r & k & e & Hw & Hap & Hok).
  destruct (Hok Ha) as [_ Hk]. rewrite Hk in Hap. destruct Hap as (_ & _ & Hap).
  destruct (Hap c Hc) as (w & Hc' & Hs).
  assert (on_l_env (write_to udi_log_fd d) s = Ret r (put_l_env e s)) as Hz by now apply zoom_Ret.
  mstep_with Hz. eexists. split; [reflexivity|]. split; [|done]. split; [done|].
  eexists. split; [exact Hc'|]. cbn. rewrite Ho. split; [|done]. now apply suffix_accepting with c.
Qed.

(** The code of a line is its operations, one after the other. *)
Lemma foldl_then_write tid m ds s :
  foldl then_write m ds s = (m ;;; exec_all tid (OWrite <$> ds)) s.
Proof.
  revert m. induction ds as [|d ds IH]; intros m; cbn [foldl fmap list_fmap exec_all].
  - unfold bind. now destruct (m s) as [[]| | |].
  - rewrite IH. unfold then_write. now rewrite bind_assoc.
Qed.

Lemma formatted_then_write `{Libc} format file line args :
  udi_log_formatted then_write (ret tt) format file line args
  = foldl then_write (ret tt) <$> line_chunks format file line args.
Proof.
  unfold line_chunks, udi_log_formatted, udi_log_string.
  set (f := foldl then_write (ret tt)).
  assert (forall ds d, f (ds ++ [d]) = then_write (f ds) d) as Hf by (intros; unfold f; now rewrite foldl_app).
  change (ret tt) with (f []) at 1. rewrite <- !Hf. rewrite (integer_hom _ then_write f Hf).
  destruct (udi_log_integer _ _ line) as [ds|]; [|done]. cbn. rewrite <- !Hf, (varargs_hom _ then_write f Hf).
  destruct (udi_log_varargs _ _ (cstr format) args) as [ds'|]; [|done]. cbn. now rewrite Hf.
Qed.

Lemma exec_all_app tid os os' s : exec_all tid (os ++ os') s = (exec_all tid os ;;; exec_all tid os') s.
Proof.
  revert s. induction os as [|o os IH]; intros s; cbn [app exec_all]; [done|]. rewrite bind_assoc.
  unfold bind. destruct (exec tid o s) as [[]| | |]; [|done..]. apply IH.
Qed.

Lemma log_formatted_ops `{Libc} tid format file line args m s :
  line_chunks format file line args = Some m ->
  log_formatted tid format file line args s = exec_all tid (message m) s.
Proof.
  intros Hm. unfold log_formatted, message. rewrite formatted_then_write, Hm. cbn [fmap option_fmap option_map formatted_or_undef exec_all exec].
  unfold bind at 1 3. destruct (udi_log_lock tid s) as [[] s'| | |]; [|done..].
  rewrite exec_all_app. unfold bind at 1 2. rewrite (foldl_then_write tid). unfold bind at 1. cbn [ret].
  destruct (exec_all tid (OWrite <$> m) s') as [[] s2| | |]; [|done..]. cbn [exec_all exec]. 
  unfold bind. now destruct (udi_log_unlock tid s2) as [[]| | |].
Qed.

Lemma line_chunks_text `{Libc} format file line args :
  udi_log_formatted (@app Z) [] format file line args = @concat Z <$> line_chunks format file line args.
Proof.
  unfold line_chunks, udi_log_formatted, udi_log_string. set (f := @concat Z).
  assert (forall ds d, f (ds ++ [d]) = f ds ++ d) as Hf by (intros; unfold f; rewrite concat_app; cbn; now rewrite app_nil_r).
  change ([] : list Z) with (f []) at 1. rewrite <- !Hf. rewrite (integer_hom _ (@app Z) f Hf).
  destruct (udi_log_integer _ _ line) as [ds|]; [|done]. cbn. rewrite <- !Hf, (varargs_hom _ (@app Z) f Hf).
  destruct (udi_log_varargs _ _ (cstr format) args) as [ds'|]; [|done]. cbn. now rewrite Hf.
Qed.

Lemma exec_writes tid : forall ds s out,
  log_ready s out ->
  exists s', exec_all tid (OWrite <$> ds) s = Ret tt s' /\ log_ready s' (out ++ concat ds) /\
    log_lock s' = log_lock s /\ same_flags s s'.
Proof.
  induction ds as [|d ds IH]; intros s out Hr; cbn [fmap list_fmap exec_all exec concat].
  - exists s. rewrite app_nil_r. done.
  - destruct (write_log_ok s out d Hr) as (s1 & Hw & Hr1 & Hl1 & Hp1 & Hd1). mstep_with Hw.
    destruct (IH s1 _ Hr1) as (s2 & He & Hr2 & Hl2 & Hp2 & Hd2). exists s2. rewrite <- app_assoc in Hr2.
    split; [done|]. split; [done|]. split; [congruence|]. split; congruence.
Qed.

(** What [udi_log] does: nothing unless UDI_DEBUG is set, and then the line is
    in the log behind what was there and the lock is as before, also in a thread
    that has the lock already. *)
Lemma udi_log_spec `{Libc} tid format file line args s out n text :
  log_ready s out -> l_pthread s = true -> depth tid s = Some n ->
  udi_log_formatted (@app Z) [] format file line args = Some text ->
  if udi_debug_on s then
    exists s', udi_log tid format file line args s = Ret tt s' /\ log_ready s' (out ++ text) /\
      depth tid s' = Some n /\ same_flags s s'
  else udi_log tid format file line args s = Ret tt s.
Proof.
  intros Hr Hp Hd Ht. unfold udi_log. destruct (udi_debug_on s) eqn:Hon; mstep; rewrite Hon; [|done].
  rewrite line_chunks_text in Ht. apply fmap_Some in Ht as (m & Hm & ->).
  rewrite (log_formatted_ops _ _ _ _ _ _ _ Hm). unfold message. cbn [exec_all exec].
  destruct (udi_log_lock_ok tid s out n Hr Hp Hd) as (s1 & H1 & Hr1 & Hl1 & Hp1 & Hd1). mstep_with H1.
  rewrite exec_all_app. destruct (exec_writes tid m s1 out Hr1) as (s2 & H2 & Hr2 & Hl2 & Hp2 & Hd2). mstep_with H2.
  cbn [exec_all exec].
  destruct (udi_log_unlock_ok tid s2 _ n Hr2) as (s3 & H3 & Hr3 & Hl3 & Hp3 & Hd3); [congruence..|]. mstep_with H3.
  exists s3. split; [done|]. split; [done|]. split; [|split; congruence].
  unfold depth. rewrite Hl3. destruct n; [done|]. now rewrite Nat.eqb_refl.
Qed.

(** *** All threads *)

Section Safety.
Context (handlers : bool).

(** The operations up to the end of the line that is being written, with the
    lock taken [n] times. *)
Inductive owes : nat -> list op -> Prop :=
| owes_nil : owes 0 []
| owes_lock n os : owes (S (S n)) os -> owes (S n) (OLock :: os)
| owes_write n d os : owes (S n) os -> owes (S n) (OWrite d :: os)
| owes_unlock n os : owes n os -> owes (S n) (OUnlock :: os).

Lemma owes_message m n os : owes (S n) os -> owes (S n) (message m ++ os).
Proof.
  intros Ho. unfold message. rewrite <- app_comm_cons, <- app_assoc. constructor.
  induction m as [|d m IH]; cbn; now constructor.
Qed.

Lemma owes_line m : owes 1 ((OWrite <$> m) ++ [OUnlock]).
Proof. induction m as [|d m IH]; cbn; repeat constructor. exact IH. Qed.

(** The messages of the calls; in their order, unless handlers cut in. *)
Definition matches (l l' : list msg) : Prop := if handlers then l ≡ₚ l' else l = l'.

Lemma matches_app l l' k : matches l l' -> matches (l ++ k) (l' ++ k).
Proof. unfold matches. destruct handlers; [|congruence]. intros H. now apply Permutation_app_tail. Qed.

Lemma matches_trans l l' k : matches l l' -> matches l' k -> matches l k.
Proof. unfold matches. destruct handlers; etransitivity; eauto. Qed.

Definition whole (e : entry) : Prop := woven handlers (e_inner e) (message (e_msg e)) (e_text e).

Lemma said_app i es es' : said i (es ++ es') = said i es ++ said i es'.
Proof. apply flat_map_app. Qed.

Lemma said_own i m hs p : said i [Entry i m hs p] = m :: hs.
Proof. unfold said. cbn. rewrite Nat.eqb_refl. apply app_nil_r. Qed.

Lemma said_other i j m hs p : i <> j -> said j [Entry i m hs p] = [].
Proof. intros H. unfold said. cbn. now rewrite (proj2 (Nat.eqb_neq i j) H). Qed.

Lemma said_text i j m hs p p' : said j [Entry i m hs p] = said j [Entry i m hs p'].
Proof. reflexivity. Qed.

Definition rest_ops (ms : list msg) : list op := concat (message <$> ms).

(** The finished lines; for each thread the messages it has not begun to write;
    the line of the thread that has the lock, of which [cur] is left. *)
Definition log_inv (out0 : list Z) (acts : list action) (s : system) : Prop :=
  exists (entries : list entry) (pend : list (list msg)) (now : option entry) out,
    log_ready (sys_log s) out /\ l_pthread (sys_log s) = true /\ Forall whole entries /\
    (forall i ms, pend !! i = Some ms -> matches (said i (entries ++ line_of now) ++ ms) (calls_of i acts)) /\
    out = out0 ++ concat (e_text <$> entries ++ line_of now) /\
    match log_lock (sys_log s) with
    | None => now = None /\ sys_ops s = rest_ops <$> pend
    | Some (i, n) => exists m hs cur p ms,
        now = Some (Entry i m hs p) /\ pend !! i = Some ms /\
        sys_ops s = <[i := cur ++ rest_ops ms]> (rest_ops <$> pend) /\
        owes n cur /\ n <> 0%nat /\
        (forall hs' t, woven handlers hs' cur t -> woven handlers (hs ++ hs') (message m) (p ++ t))
    end.

Lemma rest_ops_cons ms o os :
  rest_ops ms = o :: os ->
  exists m ms', ms = m :: ms' /\ o = OLock /\ os = ((OWrite <$> m) ++ [OUnlock]) ++ rest_ops ms'.
Proof. destruct ms as [|m ms]; [done|]. cbn. intros H. simplify_eq. eauto. Qed.

Lemma calls_exec acts i j : calls_of j (acts ++ [Exec i]) = calls_of j acts.
Proof. unfold calls_of. rewrite omap_app. cbn. apply app_nil_r. Qed.

Lemma calls_own acts i m : calls_of i (acts ++ [Call i m]) = calls_of i acts ++ [m].
Proof. unfold calls_of. rewrite omap_app. cbn. now rewrite Nat.eqb_refl. Qed.

Lemma calls_other acts i j m : i <> j -> calls_of j (acts ++ [Call i m]) = calls_of j acts.
Proof. intros H. unfold calls_of. rewrite omap_app. cbn. rewrite (proj2 (Nat.eqb_neq i j) H). apply app_nil_r. Qed.

Lemma text_app (es : list entry) e d :
  concat (e_text <$> es ++ [Entry (e_thread e) (e_msg e) (e_inner e) (e_text e ++ d)])
  = concat (e_text <$> es ++ [e]) ++ d.
Proof. rewrite !fmap_app, !concat_app. cbn. now rewrite !app_nil_r, app_assoc. Qed.

Lemma idle_lookup (pend : list (list msg)) (i : nat) os :
  (rest_ops <$> pend) !! i = Some os -> exists ms, pend !! i = Some ms /\ os = rest_ops ms.
Proof. rewrite list_lookup_fmap. intros H. apply fmap_Some in H as (ms & ? & ->). eauto. Qed.

(** A thread begins a line. *)
Lemma exec_begin out0 acts s i o os l :
  log_inv out0 acts s -> log_lock (sys_log s) = None -> sys_ops s !! i = Some (o :: os) ->
  exec i o (sys_log s) = Ret tt l -> log_inv out0 (acts ++ [Exec i]) (System l (<[i := os]> (sys_ops s))).
Proof.
  intros (entries & pend & now & out & Hr & Hp & He & Hcalls & Hout & Hl) Hnone Hi Hx. rewrite Hnone in Hl.
  destruct Hl as (-> & Hops). rewrite Hops in Hi. apply idle_lookup in Hi as (ms & Hms & Heq).
  symmetry in Heq. apply rest_ops_cons in Heq as (m & ms' & -> & -> & ->). cbn [exec] in Hx.
  destruct (udi_log_lock_ok i _ _ 0 Hr Hp) as (l' & Hl' & Hr' & Hlock & Hp' & _); [unfold depth; now rewrite Hnone|].
  rewrite Hx in Hl'. injection Hl' as <-. cbn [line_of] in *. rewrite app_nil_r in *.
  exists entries, (<[i := ms']> pend), (Some (Entry i m [] [])), out.
  split; [done|]. split; [cbn; congruence|]. split; [done|]. split; [|split].
  - intros j ms Hj. rewrite calls_exec. cbn [line_of]. rewrite said_app.
    apply list_lookup_insert_Some in Hj as [(-> & <- & _)|[Hij Hj]].
    + rewrite said_own, <- app_assoc. exact (Hcalls _ _ Hms).
    + rewrite said_other, app_nil_r by done. exact (Hcalls j ms Hj).
  - rewrite Hout. cbn [line_of]. rewrite fmap_app, concat_app. cbn. now rewrite app_nil_r.
  - cbn [sys_log sys_ops]. rewrite Hlock. exists m, [], ((OWrite <$> m) ++ [OUnlock]), [], ms'.
    split; [done|]. split; [apply list_lookup_insert_eq; eauto using lookup_lt_Some|].
    split; [now rewrite Hops, list_fmap_insert, list_insert_insert_eq|].
    split; [apply owes_line|]. split; [done|]. intros hs' t Ht. now constructor.
Qed.

(** The thread that has the lock goes on. *)
Lemma exec_owner out0 acts s i n o os l :
  log_inv out0 acts s -> log_lock (sys_log s) = Some (i, n) -> sys_ops s !! i = Some (o :: os) ->
  exec i o (sys_log s) = Ret tt l -> log_inv out0 (acts ++ [Exec i]) (System l (<[i := os]> (sys_ops s))).
Proof.
  intros (entries & pend & now & out & Hr & Hp & He & Hcalls & Hout & Hl) Hlk Hi Hx. rewrite Hlk in Hl.
  destruct Hl as (m & hs & cur & p & ms & -> & Hms & Hops & Ho & Hn & Hw). cbn [line_of] in *.
  pose proof (lookup_lt_Some _ _ _ Hms) as Hlt.
  assert (cur ++ rest_ops ms = o :: os) as Heq.
  { rewrite Hops, list_lookup_insert_eq in Hi by (now rewrite length_fmap). now injection Hi. }
  destruct cur as [|o' cur]; [inversion Ho; congruence|]. injection Heq as -> <-.
  assert (<[i:=cur ++ rest_ops ms]> (sys_ops s) = <[i := cur ++ rest_ops ms]> (rest_ops <$> pend)) as Hnew
    by (rewrite Hops; apply list_insert_insert_eq).
  assert (forall p' j ms', pend !! j = Some ms' ->
    matches (said j (entries ++ [Entry i m hs p']) ++ ms') (calls_of j (acts ++ [Exec i]))) as Hcalls'.
  { intros p' j ms' Hj. rewrite calls_exec, said_app, (said_text _ _ _ _ p' p), <- said_app. now apply Hcalls. }
  inversion Ho as [|k ? Ho'|k d ? Ho'|k ? Ho']; subst; clear Ho; cbn [exec] in Hx.
  - destruct (udi_log_lock_ok i _ _ (S k) Hr Hp) as (l' & Hl' & Hr' & Hlock & Hp' & _);
      [unfold depth; now rewrite Hlk, Nat.eqb_refl|]. rewrite Hx in Hl'. injection Hl' as <-.
    exists entries, pend, (Some (Entry i m hs p)), (out0 ++ concat (e_text <$> entries ++ [Entry i m hs p])).
    split; [done|]. split; [cbn; congruence|]. split; [done|]. split; [apply Hcalls'|]. split; [done|].
    cbn [sys_log sys_ops]. rewrite Hlock. exists m, hs, cur, p, ms. do 5 (split; [done|]).
    intros hs' t Ht. apply Hw. now constructor.
  - destruct (write_log_ok _ _ d Hr) as (l' & Hl' & Hr' & Hlock & Hp' & _). rewrite Hx in Hl'. injection Hl' as <-.
    exists entries, pend, (Some (Entry i m hs (p ++ d))), ((out0 ++ concat (e_text <$> entries ++ [Entry i m hs p])) ++ d).
    split; [done|]. split; [cbn; congruence|]. split; [done|]. split; [apply Hcalls'|].
    split; [rewrite <- app_assoc; f_equal; symmetry; exact (text_app entries (Entry i m hs p) d)|].
    cbn [sys_log sys_ops]. rewrite Hlock, Hlk. exists m, hs, cur, (p ++ d), ms. do 5 (split; [done|]).
    intros hs' t Ht. rewrite <- app_assoc. apply Hw. now constructor.
  - destruct (udi_log_unlock_ok i _ _ k Hr Hp Hlk) as (l' & Hl' & Hr' & Hlock & Hp' & _).
    rewrite Hx in Hl'. injection Hl' as <-. destruct k as [|k].
    + inversion Ho'; subst.
      exists (entries ++ [Entry i m hs p]), pend, None, (out0 ++ concat (e_text <$> entries ++ [Entry i m hs p])).
      split; [done|]. split; [cbn; congruence|]. cbn [line_of]. rewrite app_nil_r. split.
      { apply Forall_app. split; [done|]. apply Forall_singleton. unfold whole. cbn.
        rewrite <- (app_nil_r p), <- (app_nil_r hs). apply Hw. constructor. constructor. }
      split; [apply Hcalls'|]. split; [done|]. cbn [sys_log sys_ops]. rewrite Hlock. split; [done|].
      rewrite Hnew. cbn. apply list_insert_id. now rewrite list_lookup_fmap, Hms.
    + exists entries, pend, (Some (Entry i m hs p)), (out0 ++ concat (e_text <$> entries ++ [Entry i m hs p])).
      split; [done|]. split; [cbn; congruence|]. split; [done|]. split; [apply Hcalls'|]. split; [done|].
      cbn [sys_log sys_ops]. rewrite Hlock. exists m, hs, cur, p, ms. do 5 (split; [done|]).
      intros hs' t Ht. apply Hw. now constructor.
Qed.

Lemma exec_inv out0 acts s i s' :
  log_inv out0 acts s -> log_step handlers (Exec i) s = Some s' -> log_inv out0 (acts ++ [Exec i]) s'.
Proof.
  intros Hinv. unfold log_step. destruct (sys_ops s !! i) as [[|o os]|] eqn:Hi; [done| |done].
  destruct (exec i o (sys_log s)) as [[] l| | |] eqn:Hx; [|done..]. intros [= <-].
  destruct (log_lock (sys_log s)) as [[j n]|] eqn:Hl; [|now apply exec_begin with o].
  destruct (Nat.eqb_spec j i) as [->|Hne]; [now apply exec_owner with n o|].
  destruct Hinv as (entries & pend & now & out & Hr & Hp & _ & _ & _ & Hc). rewrite Hl in Hc.
  destruct Hc as (m & hs & cur & p & ms & _ & _ & Hops & _).
  rewrite Hops, list_lookup_insert_ne in Hi by done. apply idle_lookup in Hi as (ms' & _ & Heq).
  symmetry in Heq. apply rest_ops_cons in Heq as (m' & ms2 & -> & -> & ->). cbn [exec] in Hx.
  rewrite udi_log_lock_blocked in Hx; [done|done|]. unfold depth. rewrite Hl.
  now rewrite (proj2 (Nat.eqb_neq j i) Hne).
Qed.

Lemma rest_ops_nil ms : rest_ops ms = [] -> ms = [].
Proof. now destruct ms. Qed.

(** A call of a thread that has the messages [ms] to begin. *)
Lemma matches_call l ms calls m :
  matches (l ++ ms) calls -> handlers || bool_decide (rest_ops ms = []) = true ->
  matches (l ++ m :: ms) (calls ++ [m]).
Proof.
  unfold matches. destruct handlers; cbn.
  - intros <- _. rewrite <- app_assoc. apply Permutation_app_head, Permutation_cons_append.
  - intros <- Hr%bool_decide_eq_true%rest_ops_nil. rewrite Hr. now rewrite app_nil_r.
Qed.

Lemma pend_call acts es (pend : list (list msg)) i m ms :
  (forall j ms, pend !! j = Some ms -> matches (said j es ++ ms) (calls_of j acts)) ->
  pend !! i = Some ms -> handlers || bool_decide (rest_ops ms = []) = true ->
  forall j ms', <[i := m :: ms]> pend !! j = Some ms' -> matches (said j es ++ ms') (calls_of j (acts ++ [Call i m])).
Proof.
  intros Hc Hms Hh j ms' Hj. apply list_lookup_insert_Some in Hj as [(<- & <- & _)|[Hij Hj]].
  - rewrite calls_own. apply matches_call; [now apply Hc|done].
  - rewrite calls_other by done. now apply Hc.
Qed.

(** A call of a signal handler of the thread that is writing. *)
Lemma inner_call acts es i m hs p h (pend : list (list msg)) :
  handlers = true ->
  (forall j ms, pend !! j = Some ms -> matches (said j (es ++ [Entry i m hs p]) ++ ms) (calls_of j acts)) ->
  forall j ms, pend !! j = Some ms ->
    matches (said j (es ++ [Entry i m (hs ++ [h]) p]) ++ ms) (calls_of j (acts ++ [Call i h])).
Proof.
  intros Hh Hc j ms Hj. specialize (Hc j ms Hj). rewrite said_app in *. destruct (decide (i = j)) as [->|Hne].
  - rewrite said_own, calls_own in *. unfold matches in *. rewrite Hh in *. rewrite <- Hc, app_comm_cons.
    rewrite <- !app_assoc. do 2 apply Permutation_app_head. apply Permutation_app_comm.
  - rewrite said_other in * by done. now rewrite calls_other.
Qed.

Lemma call_inv out0 acts s i m s' :
  log_inv out0 acts s -> log_step handlers (Call i m) s = Some s' -> log_inv out0 (acts ++ [Call i m]) s'.
Proof.
  intros (entries & pend & now & out & Hr & Hp & He & Hcalls & Hout & Hl). unfold log_step.
  destruct (sys_ops s !! i) as [os|] eqn:Hi; [|done].
  destruct (handlers || bool_decide (os = [])) eqn:Hh; [|done]. intros [= <-].
  destruct (log_lock (sys_log s)) as [[j n]|] eqn:Hlk.
  - destruct Hl as (m0 & hs & cur & p & ms & -> & Hms & Hops & Ho & Hn & Hw).
    pose proof (lookup_lt_Some _ _ _ Hms) as Hlt.
    destruct (decide (j = i)) as [->|Hne].
    + rewrite Hops, list_lookup_insert_eq in Hi by (now rewrite length_fmap). injection Hi as <-.
      assert (handlers = true) as Hht.
      { destruct handlers; [done|]. apply bool_decide_eq_true in Hh. destruct cur; [|done]. inversion Ho. congruence. }
      exists entries, pend, (Some (Entry i m0 (hs ++ [m]) p)), out. do 3 (split; [done|]).
      split; [now apply inner_call|]. split; [rewrite Hout; cbn; now rewrite !fmap_app|].
      cbn [sys_log sys_ops]. rewrite Hlk. exists m0, (hs ++ [m]), (message m ++ cur), p, ms. do 2 (split; [done|]).
      split; [rewrite Hops, list_insert_insert_eq; f_equal; exact (app_assoc (message m) cur (rest_ops ms))|].
      destruct n as [|n]; [done|]. split; [now apply owes_message|]. split; [done|].
      intros hs' t Ht. rewrite <- app_assoc. apply Hw. now apply woven_handler.
    + rewrite Hops, list_lookup_insert_ne in Hi by done. apply idle_lookup in Hi as (ms' & Hms' & ->).
      exists entries, (<[i := m :: ms']> pend), (Some (Entry j m0 hs p)), out. do 3 (split; [done|]).
      split; [now apply pend_call|]. split; [done|].
      cbn [sys_log sys_ops]. rewrite Hlk. exists m0, hs, cur, p, ms. split; [done|].
      split; [now rewrite list_lookup_insert_ne|]. split; [|done].
      rewrite Hops, list_fmap_insert, list_insert_insert_ne by done. done.
  - destruct Hl as (-> & Hops). rewrite Hops in Hi. apply idle_lookup in Hi as (ms & Hms & ->).
    exists entries, (<[i := m :: ms]> pend), None, out. do 3 (split; [done|]).
    split; [now apply pend_call|]. split; [done|].
    cbn [sys_log sys_ops]. rewrite Hlk. split; [done|]. now rewrite Hops, list_fmap_insert.
Qed.

Lemma run_inv out0 : forall acts done s s',
  log_inv out0 done s -> log_run handlers acts s = Some s' -> log_inv out0 (done ++ acts) s'.
Proof.
  induction acts as [|a acts IH]; intros dn s s' Hi Hrun; cbn in Hrun.
  - injection Hrun as <-. now rewrite app_nil_r.
  - apply bind_Some in Hrun as (s1 & Hs & Hrun). replace (dn ++ a :: acts) with ((dn ++ [a]) ++ acts) by now rewrite <- app_assoc. apply IH with s1; [|done].
    destruct a; [now apply exec_inv with s|now apply call_inv with s].
Qed.

(** A thread that has the lock always has something to do, and can do it; when
    the lock is free, every thread with something to do can take it. *)
Lemma log_progress out0 acts s i os :
  log_inv out0 acts s -> sys_ops s !! i = Some os -> os <> [] ->
  exists j s', log_step handlers (Exec j) s = Some s'.
Proof.
  intros (entries & pend & now & out & Hr & Hp & _ & _ & _ & Hl) Hi Hne.
  assert (exists j o os', sys_ops s !! j = Some (o :: os') /\ exists l, exec j o (sys_log s) = Ret tt l)
    as (j & o & os' & Hj & l & Hx).
  2:{ eexists j, _. unfold log_step. now rewrite Hj, Hx. }
  destruct (log_lock (sys_log s)) as [[j n]|] eqn:Hlk.
  - destruct Hl as (m & hs & cur & p & ms & _ & Hms & Hops & Ho & Hn & _).
    destruct cur as [|o cur]; [inversion Ho; congruence|]. exists j, o, (cur ++ rest_ops ms). split.
    { rewrite Hops. apply list_lookup_insert_eq. rewrite length_fmap. eauto using lookup_lt_Some. }
    inversion Ho as [|k ? Ho'|k d ? Ho'|k ? Ho']; subst; cbn [exec].
    + destruct (udi_log_lock_ok j _ _ (S k) Hr Hp) as (l & Hx & _); [|eauto]. unfold depth. now rewrite Hlk, Nat.eqb_refl.
    + destruct (write_log_ok _ _ d Hr) as (l & Hx & _). eauto.
    + destruct (udi_log_unlock_ok j _ _ k Hr Hp Hlk) as (l & Hx & _). eauto.
  - destruct Hl as (_ & Hops). rewrite Hops in Hi. apply idle_lookup in Hi as (ms & Hms & ->).
    destruct (rest_ops ms) as [|o os] eqn:E; [done|]. exists i, o, os. split.
    { now rewrite Hops, list_lookup_fmap, Hms, <- E. }
    apply rest_ops_cons in E as (m & ms' & -> & -> & ->). cbn [exec].
    destruct (udi_log_lock_ok i _ _ 0 Hr Hp) as (l & Hx & _); [|eauto]. unfold depth. now rewrite Hlk.
Qed.

Lemma woven_exists os : exists t, woven handlers [] os t.
Proof.
  induction os as [|[|d|] os [t IH]]; eexists; [constructor| | |]; constructor; exact IH.
Qed.
End Safety.

Lemma woven_plain hs os t :
  woven false hs os t -> hs = [] /\ t = concat (omap (fun o => match o with OWrite d => Some d | _ => None end) os).
Proof. induction 1 as [|? ? ? ? [-> ->]|? ? ? ? ? [-> ->]|? ? ? ? [-> ->]|]; done. Qed.

Lemma woven_line hs m t : woven false hs (message m) t -> hs = [] /\ t = concat m.
Proof.
  intros [-> ->]%woven_plain. split; [done|]. cbn. rewrite omap_app. cbn. rewrite app_nil_r. f_equal.
  induction m as [|d m IH]; cbn; [done|]. now f_equal.
Qed.

(** What is in the log. *)
Definition log_text (s : system) : list Z :=
  match e_fds (l_env (sys_log s)) !! udi_log_fd with Some c => c_out c | None => [] end.

(** No thread is writing a line. *)
Definition log_idle (s : system) : Prop := Forall (eq []) (sys_ops s).

Definition log_start (s : system) : Prop :=
  log_ready (sys_log s) (log_text s) /\ l_pthread (sys_log s) = true /\ log_lock (sys_log s) = None /\ log_idle s.

Lemma log_start_inv handlers s : log_start s -> log_inv handlers (log_text s) [] s.
Proof.
  intros (Hr & Hp & Hl & Hi). exists [], (replicate (length (sys_ops s)) []), None, (log_text s).
  split; [done|]. split; [done|]. split; [done|]. split; [|split].
  - intros i ms [-> _]%lookup_replicate. cbn. unfold matches. now destruct handlers.
  - cbn. now rewrite app_nil_r.
  - rewrite Hl. split; [done|]. unfold log_idle in Hi.
    induction Hi as [|os l <- Hi IH]; cbn; [done|]. now f_equal.
Qed.

Lemma log_ready_text s out : log_ready (sys_log s) out -> log_text s = out.
Proof. intros (_ & c & Hc & _ & <-). unfold log_text. now rewrite Hc. Qed.

(** The log of [s']: behind what was in that of [s], the finished lines and the
    line that is being written, by the thread that has the lock; what is in
    these lines and the lines that wait are, thread by thread, the messages of
    its calls. *)
Definition log_shows (handlers : bool) (acts : list action) (s s' : system) (entries : list entry) (line : option entry) : Prop :=
  log_text s' = log_text s ++ concat (e_text <$> entries ++ line_of line) /\
  Forall (whole handlers) entries /\
  match line, log_lock (sys_log s') with
  | None, None => True
  | Some e, Some (i, _) =>
      e_thread e = i /\ (i < length (sys_ops s'))%nat /\ exists t, woven handlers (e_inner e) (message (e_msg e)) (e_text e ++ t)
  | _, _ => False
  end /\
  forall i os, sys_ops s' !! i = Some os ->
    exists cur waiting, os = cur ++ rest_ops waiting /\
      matches handlers (said i (entries ++ line_of line) ++ waiting) (calls_of i acts) /\
      (cur = [] <-> i ∉ (e_thread <$> line_of line)).

Lemma inv_shows handlers acts s s' :
  log_inv handlers (log_text s) acts s' -> exists entries line, log_shows handlers acts s s' entries line.
Proof.
  intros (entries & pend & now & out & Hr & _ & He & Hcalls & -> & Hl). exists entries, now.
  split; [now apply log_ready_text|]. split; [done|].
  destruct (log_lock (sys_log s')) as [[i n]|].
  - destruct Hl as (m & hs & cur & p & ms & -> & Hms & Hops & Ho & Hn & Hw). split.
    { split; [done|]. split; [rewrite Hops, length_insert, length_fmap; eauto using lookup_lt_Some|].
      destruct (woven_exists handlers cur) as [t Ht]. exists t. cbn [e_inner e_msg e_text].
      rewrite <- (app_nil_r hs). now apply Hw. }
    intros j os Hj. rewrite Hops in Hj. cbn [line_of fmap list_fmap e_thread].
    apply list_lookup_insert_Some in Hj as [(<- & <- & _)|[Hij Hj]].
    + exists cur, ms. split; [done|]. split; [now apply Hcalls|]. split; [intros ->; inversion Ho; congruence|].
      intros []. now apply list_elem_of_here.
    + apply idle_lookup in Hj as (ms' & Hms' & ->). exists [], ms'. split; [done|]. split; [now apply Hcalls|].
      split; [|done]. intros _ ->%list_elem_of_singleton. congruence.
  - destruct Hl as (-> & Hops). split; [done|]. intros i os Hi. rewrite Hops in Hi.
    apply idle_lookup in Hi as (ms & Hms & ->). exists [], ms. split; [done|]. split; [now apply Hcalls|].
    split; [|done]. intros _ []%not_elem_of_nil.
Qed.

(** Without lines of signal handlers, the text is that of the messages. *)
Lemma shows_plain acts s s' entries line :
  log_shows false acts s s' entries line ->
  Forall (fun e => e_inner e = [] /\ e_text e = concat (e_msg e)) entries /\
  Forall (fun e => e_inner e = [] /\ e_text e `prefix_of` concat (e_msg e)) (line_of line).
Proof.
  intros (_ & He & Hl & _). split.
  - eapply Forall_impl; [exact He|]. intros e. apply woven_line.
  - destruct line as [e|]; [|constructor]. apply Forall_singleton.
    destruct (log_lock (sys_log s')) as [[i n]|]; [|done]. destruct Hl as (_ & _ & t & [-> Ht]%woven_line).
    split; [done|]. rewrite <- Ht. now apply prefix_app_r.
Qed.

(** When no thread is writing, every call has its line. *)
Lemma shows_idle handlers acts s s' entries line :
  log_shows handlers acts s s' entries line -> log_idle s' ->
  line = None /\ forall i, (i < length (sys_ops s'))%nat -> matches handlers (said i entries) (calls_of i acts).
Proof.
  intros (_ & _ & Hl & Ho) Hidle.
  assert (forall i, (i < length (sys_ops s'))%nat ->
    matches handlers (said i (entries ++ line_of line)) (calls_of i acts) /\ i ∉ (e_thread <$> line_of line)) as H.
  { intros i [os Hi]%lookup_lt_is_Some_2. destruct (Ho i os Hi) as (cur & waiting & -> & Hm & Hc).
    pose proof (Forall_lookup_1 _ _ _ _ Hidle Hi) as Hn. symmetry in Hn. apply app_eq_nil in Hn as [-> Hn%rest_ops_nil].
    subst waiting. rewrite app_nil_r in Hm. split; [done|now apply Hc]. }
  destruct line as [e|].
  - exfalso. destruct (log_lock (sys_log s')) as [[i n]|]; [|done]. destruct Hl as (<- & Hlt & _).
    apply (H _ Hlt). now apply list_elem_of_here.
  - split; [done|]. intros i Hi. destruct (H i Hi) as [Hm _]. cbn in Hm. now rewrite app_nil_r in Hm.
Qed.

(** C36: lines of different threads do not mix, and none is lost. Whatever the
    threads and their signal handlers log, in whatever order they run, the log
    is a sequence of finished lines and, if a thread has the lock, what this
    thread has written of one. A line belongs to one thread: it is the text of
    one call of udi_log, with nothing in between but the text of lines that
    signal handlers of this thread have logged meanwhile. The messages of a
    thread's lines, with those it still waits to begin, are those of its
    calls, each once and, without signal handlers, in the order of the calls;
    then a finished line is exactly the text of its message, and an unfinished
    one a prefix of it. When no thread is writing, every call has its whole line
    in the log. The lock never blocks all threads: while one has something to write,
    one can go on. *)
Theorem log_lines_whole (handlers : bool) acts s s' :
  log_start s -> log_run handlers acts s = Some s' ->
  exists (entries : list entry) (line : option entry),
    log_shows handlers acts s s' entries line /\
    (handlers = false ->
       Forall (fun e => e_inner e = [] /\ e_text e = concat (e_msg e)) entries /\
       Forall (fun e => e_inner e = [] /\ e_text e `prefix_of` concat (e_msg e)) (line_of line)) /\
    (log_idle s' ->
       line = None /\
       forall i, (i < length (sys_ops s'))%nat -> matches handlers (said i entries) (calls_of i acts)) /\
    (~ log_idle s' -> exists i s2, log_step handlers (Exec i) s' = Some s2).
Proof.
  intros Hs Hrun. pose proof (run_inv handlers _ acts [] s s' (log_start_inv handlers s Hs) Hrun) as Hinv. cbn in Hinv.
  destruct (inv_shows _ _ _ _ Hinv) as (entries & line & Hsh). exists entries, line. split; [done|].
  split; [intros ->; now apply shows_plain with acts s s'|]. split; [now apply shows_idle with s|].
  intros Hne. unfold log_idle in Hne. apply not_Forall_Exists in Hne; [|intros x; destruct x; [now left|now right]].
  apply Exists_exists in Hne as (os & Hin & Hos). apply list_elem_of_lookup in Hin as [i Hi].
  apply (log_progress _ _ _ _ i os Hinv Hi). congruence.
Qed.

(** ** Two threads *)

Module LogDemo.
#[local] Existing Instance flat_libc.

Definition log0 : logger := Logger (Env (Rt [] []) {[2 := Chan [] [WCount 1; WIntr] []]} false ∅) true true None [].
Definition sys0 : system := System log0 [[]; []].

Lemma log0_start : log_start sys0.
Proof.
  split; [|split; [done|split; [done|repeat constructor]]]. split; [constructor|].
  exists (Chan [] [WCount 1; WIntr] []). split; [reflexivity|]. split; [repeat constructor|reflexivity].
Qed.

(** Both threads log; the second is held off until the first has written its
    line, in which a signal handler has logged as well. *)
Definition demo : list action :=
  [Call 0 [[1]; [2]]; Call 1 [[7]]; Exec 0; Exec 0; Call 0 [[5]]; Exec 0; Exec 0; Exec 0; Exec 0; Exec 0;
   Exec 1; Exec 1; Exec 1].

Lemma log_lines_whole_witness :
  exists s' entries, log_run true demo sys0 = Some s' /\ log_text s' = [1; 5; 2; 7] /\
    concat (e_text <$> entries) = [1; 5; 2; 7] /\ Forall (whole true) entries /\
    said 0 entries ≡ₚ [[[1]; [2]]; [[5]]] /\ said 1 entries ≡ₚ [[[7]]].
Proof.
  destruct (log_run true demo sys0) as [s'|] eqn:E; [|vm_compute in E; discriminate E].
  destruct (log_lines_whole true demo sys0 s' log0_start E) as (entries & line & (Ht & He & _) & _ & Hi & _).
  exists s', entries. split; [reflexivity|].
  assert ((fun x => (sys_ops x, log_text x)) <$> log_run true demo sys0 = Some ([[]; []], [1; 5; 2; 7]))
    as Hx by (vm_compute; reflexivity).
  rewrite E in Hx. injection Hx as Hx1 Hx2.
  destruct Hi as [-> Hi]; [unfold log_idle; rewrite Hx1; repeat constructor|]. rewrite Hx1 in Hi.
  split; [exact Hx2|]. split; [rewrite Hx2, app_nil_r in Ht; symmetry; exact Ht|]. split; [exact He|].
  split; [apply (Hi 0%nat)|apply (Hi 1%nat)]; cbn; lia.
Defined.

(** The second thread cannot begin while the first writes. *)
Example held_off : log_run true [Call 0 [[1]]; Call 1 [[7]]; Exec 0; Exec 1] sys0 = None.
Proof. vm_compute. reflexivity. Qed.

Example a_line :
  exists s, udi_log 0 "result %d" "udirt.c" 42 [VInt (-1)] log0 = Ret tt s /\
    log_text (System s []) = cstr "udirt.c[42]: result -1" ++ [10].
Proof. eexists. split; vm_compute; reflexivity. Qed.
End LogDemo.
