(* ===== verification/Cbor.v ===== *)
(** * CBOR: the interface of libcbor that udirt-msg.c uses

    libcbor is not part of this repository. Its streaming decoder and its
    serializer are the operations of [Libcbor]; [LibcborOk] states what
    RFC 8949 and the libcbor manual say of them, relative to the wire format
    defined here ([encodes], [encode_item]). [rfc_cbor] is a decoder and
    serializer that satisfies it. *)

From S2P Require Import Prelude External.

(** ** Events: the callbacks of [struct cbor_callbacks] with their arguments *)

Inductive cbor_event : Type :=
| EUint8 (v : Z) | EUint16 (v : Z) | EUint32 (v : Z) | EUint64 (v : Z)
| ENegint8 (v : Z) | ENegint16 (v : Z) | ENegint32 (v : Z) | ENegint64 (v : Z)
| EByteStringStart | EByteString (data : list Z)
| EStringStart | EString (data : list Z)
| EIndefArrayStart | EArrayStart (len : Z)
| EIndefMapStart | EMapStart (len : Z)
| ETag (v : Z)
| EFloat2 (bits : Z) | EFloat4 (bits : Z) | EFloat8 (bits : Z)
| EUndefined | ENull | EBoolean (b : bool) | EIndefBreak.

Inductive decode_result : Type :=
| DecodeError
| DecodeNeed (required : Z)
| DecodeFinished (ev : cbor_event).

(** ** Items that the library builds *)

Inductive cbor_item : Type :=
| IUint16 (v : Z) | IUint32 (v : Z) | IUint64 (v : Z)
| INegint32 (v : Z)
| IString (s : list Z) | IByteString (s : list Z)
| IBool (b : bool)
| IArray (items : list cbor_item)
| IMap (pairs : list (cbor_item * cbor_item)).

(** ** The wire format *)

(** [n] bytes, most significant first. *)
Fixpoint be (n : nat) (v : Z) : list Z :=
  match n with
  | O => []
  | S n' => (v / 256 ^ Z.of_nat n') mod 256 :: be n' v
  end.

(** The first bytes of a data item: major type, width of the argument (0 when
    it is in the initial byte), argument. *)
Inductive head (m : Z) : nat -> Z -> list Z -> Prop :=
| head_0 v : 0 <= v < 24 -> head m 0 v [32 * m + v]
| head_1 v : 0 <= v < 256 -> head m 1 v ((32 * m + 24) :: be 1 v)
| head_2 v : 0 <= v < 256 ^ 2 -> head m 2 v ((32 * m + 25) :: be 2 v)
| head_4 v : 0 <= v < 256 ^ 4 -> head m 4 v ((32 * m + 26) :: be 4 v)
| head_8 v : 0 <= v < 256 ^ 8 -> head m 8 v ((32 * m + 27) :: be 8 v).

Definition uint_event (w : nat) (v : Z) : cbor_event :=
  match w with 2%nat => EUint16 v | 4%nat => EUint32 v | 8%nat => EUint64 v | _ => EUint8 v end.
Definition negint_event (w : nat) (v : Z) : cbor_event :=
  match w with 2%nat => ENegint16 v | 4%nat => ENegint32 v | 8%nat => ENegint64 v | _ => ENegint8 v end.

(** [encodes ev bs]: the bytes [bs] make the decoder report [ev]. *)
Inductive encodes : cbor_event -> list Z -> Prop :=
| enc_uint w v h : head 0 w v h -> encodes (uint_event w v) h
| enc_negint w v h : head 1 w v h -> encodes (negint_event w v) h
| enc_byte_string w data h :
    head 2 w (Z.of_nat (length data)) h -> encodes (EByteString data) (h ++ data)
| enc_string w data h :
    head 3 w (Z.of_nat (length data)) h -> encodes (EString data) (h ++ data)
| enc_array w n h : head 4 w n h -> encodes (EArrayStart n) h
| enc_map w n h : head 5 w n h -> encodes (EMapStart n) h
| enc_tag w n h : head 6 w n h -> encodes (ETag n) h
| enc_false : encodes (EBoolean false) [0xf4]
| enc_true : encodes (EBoolean true) [0xf5]
| enc_null : encodes ENull [0xf6]
| enc_undefined : encodes EUndefined [0xf7].

(** The shortest head for an argument, as libcbor writes lengths. *)
Definition short_width (v : Z) : nat :=
  if v <? 24 then 0 else if v <? 256 then 1 else if v <? 256 ^ 2 then 2
  else if v <? 256 ^ 4 then 4 else 8.

Definition head_bytes (m : Z) (w : nat) (v : Z) : list Z :=
  match w with
  | 0%nat => [32 * m + v]
  | 1%nat => (32 * m + 24) :: be 1 v
  | 2%nat => (32 * m + 25) :: be 2 v
  | 4%nat => (32 * m + 26) :: be 4 v
  | _ => (32 * m + 27) :: be 8 v
  end.

Definition short_head (m v : Z) : list Z := head_bytes m (short_width v) v.

Fixpoint encode_item (it : cbor_item) : list Z :=
  match it with
  | IUint16 v => head_bytes 0 2 v
  | IUint32 v => head_bytes 0 4 v
  | IUint64 v => head_bytes 0 8 v
  | INegint32 v => head_bytes 1 4 v
  | IString s => short_head 3 (Z.of_nat (length s)) ++ s
  | IByteString s => short_head 2 (Z.of_nat (length s)) ++ s
  | IBool b => [if b then 0xf5 else 0xf4]
  | IArray items => short_head 4 (Z.of_nat (length items)) ++ flat_map encode_item items
  | IMap pairs =>
      short_head 5 (Z.of_nat (length pairs)) ++
      flat_map (fun '(k, v) => encode_item k ++ encode_item v) pairs
  end.

(** The events a decoder reports for an item. *)
Fixpoint item_events (it : cbor_item) : list cbor_event :=
  match it with
  | IUint16 v => [EUint16 v]
  | IUint32 v => [EUint32 v]
  | IUint64 v => [EUint64 v]
  | INegint32 v => [ENegint32 v]
  | IString s => [EString s]
  | IByteString s => [EByteString s]
  | IBool b => [EBoolean b]
  | IArray items => EArrayStart (Z.of_nat (length items)) :: flat_map item_events items
  | IMap pairs =>
      EMapStart (Z.of_nat (length pairs)) ::
      flat_map (fun '(k, v) => item_events k ++ item_events v) pairs
  end.

(** An item whose parts fit their widths. *)
Fixpoint item_ok (it : cbor_item) : bool :=
  match it with
  | IUint16 v => (0 <=? v) && (v <? 2 ^ 16)
  | IUint32 v | INegint32 v => (0 <=? v) && (v <? 2 ^ 32)
  | IUint64 v => (0 <=? v) && (v <? 2 ^ 64)
  | IString s | IByteString s => Z.of_nat (length s) <? 2 ^ 64
  | IBool _ => true
  | IArray items => (Z.of_nat (length items) <? 2 ^ 64) && forallb item_ok items
  | IMap pairs =>
      (Z.of_nat (length pairs) <? 2 ^ 64) && forallb (fun '(k, v) => item_ok k && item_ok v) pairs
  end.

(** ** libcbor *)

Class Libcbor : Type := {
  (** [cbor_stream_decode] on a buffer: the callback it invokes, or why not *)
  cbor_stream_decode : list Z -> decode_result;
  (** the bytes of [cbor_serialize_alloc]; [[]] when it fails *)
  cbor_serialize_alloc : cbor_item -> list Z
}.

Class LibcborOk `{Libcbor} : Prop := {
  (** a complete data item is reported *)
  decode_complete : forall ev bs, encodes ev bs -> cbor_stream_decode bs = DecodeFinished ev;
  (** an incomplete one asks for more bytes, but not for more than it has *)
  decode_incomplete : forall ev bs k,
    encodes ev bs -> (0 < k < length bs)%nat -> Z.of_nat (length bs) < 2 ^ 64 ->
    exists r, cbor_stream_decode (take k bs) = DecodeNeed r /\
      Z.of_nat k < r <= Z.of_nat (length bs);
  (** the total it asks for is a [size_t] and more than it was given *)
  decode_need_more : forall buf r,
    buf <> [] -> cbor_stream_decode buf = DecodeNeed r -> Z.of_nat (length buf) < r < 2 ^ 64;
  serialize_ok : forall it, item_ok it = true -> cbor_serialize_alloc it = encode_item it
}.

(** ** Facts on the wire format *)

Lemma be_length n v : length (be n v) = n.
Proof. induction n; cbn; congruence. Qed.

Definition be_value (bs : list Z) : Z := foldl (fun acc b => acc * 256 + b) 0 bs.

Lemma be_value_acc bs acc : foldl (fun acc b => acc * 256 + b) acc bs = acc * 256 ^ Z.of_nat (length bs) + be_value bs.
Proof.
  unfold be_value. revert acc. induction bs as [|b bs IH]; intros acc; cbn [foldl length].
  - change (256 ^ Z.of_nat 0) with 1. lia.
  - rewrite IH, (IH (0 * 256 + b)). rewrite Nat2Z.inj_succ, Z.pow_succ_r by lia. ring.
Qed.

Lemma be_value_be n v : be_value (be n v) = v mod 256 ^ Z.of_nat n.
Proof.
  induction n as [|n IH].
  - cbn. change (256 ^ 0) with 1. now rewrite Z.mod_1_r.
  - cbn [be]. unfold be_value. cbn [foldl]. rewrite be_value_acc, IH, be_length.
    rewrite Nat2Z.inj_succ, Z.pow_succ_r, (Z.mul_comm 256) by lia.
    rewrite (Z.rem_mul_r v (256 ^ Z.of_nat n) 256) by lia. ring.
Qed.

Lemma be_value_small n v : 0 <= v < 256 ^ Z.of_nat n -> be_value (be n v) = v.
Proof. intros Hv. rewrite be_value_be. now apply Z.mod_small. Qed.

Lemma head_length m w v h : head m w v h -> length h = S w.
Proof. destruct 1; cbn [length]; now rewrite ?be_length. Qed.

Lemma encodes_nonempty ev bs : encodes ev bs -> (0 < length bs)%nat.
Proof.
  destruct 1 as [? ? ? Hh|? ? ? Hh|? ? ? Hh|? ? ? Hh|? ? ? Hh|? ? ? Hh|? ? ? Hh| | | |]; cbn; try lia;
    rewrite ?length_app, (head_length _ _ _ _ Hh); lia.
Qed.

Lemma head_bytes_ok m w v :
  (w = 2 \/ w = 4 \/ w = 8)%nat -> 0 <= v < 256 ^ Z.of_nat w -> head m w v (head_bytes m w v).
Proof. intros [->|[->| ->]] Hv; now constructor. Qed.

Lemma short_head_ok m v : 0 <= v < 2 ^ 64 -> head m (short_width v) v (short_head m v).
Proof.
  intros Hv. unfold short_head, short_width.
  destruct (Z.ltb_spec v 24); [now constructor|].
  destruct (Z.ltb_spec v 256); [now constructor|].
  destruct (Z.ltb_spec v (256 ^ 2)); [now constructor|].
  destruct (Z.ltb_spec v (256 ^ 4)); now constructor.
Qed.

(** ** Sequences of data items *)

Inductive stream : list cbor_event -> list Z -> Prop :=
| stream_nil : stream [] []
| stream_cons ev h evs bs : encodes ev h -> stream evs bs -> stream (ev :: evs) (h ++ bs).

Lemma stream_one ev h : encodes ev h -> stream [ev] h.
Proof. intros He. rewrite <- (app_nil_r h). constructor; [done|constructor]. Qed.

Lemma stream_app evs bs evs' bs' :
  stream evs bs -> stream evs' bs' -> stream (evs ++ evs') (bs ++ bs').
Proof.
  induction 1 as [|ev h evs bs He Hs IH]; intros H'; [done|].
  cbn. rewrite <- app_assoc. constructor; auto.
Qed.

Lemma stream_flat_map {A} (f : A -> list cbor_event) (g : A -> list Z) (l : list A) :
  (forall x, x ∈ l -> stream (f x) (g x)) -> stream (flat_map f l) (flat_map g l).
Proof.
  induction l as [|x l IH]; intros Hf; cbn; [constructor|].
  apply stream_app; [apply Hf; left|]. apply IH. intros y Hy. apply Hf. now right.
Qed.

(** An item and the things below it. *)
Fixpoint item_size (it : cbor_item) : nat :=
  match it with
  | IArray items => S (sum_list_with item_size items)
  | IMap pairs => S (sum_list_with (fun '(k, v) => item_size k + item_size v)%nat pairs)
  | _ => 1
  end.

Lemma sum_list_with_elem {A} (f : A -> nat) (l : list A) x :
  x ∈ l -> (f x <= sum_list_with f l)%nat.
Proof. induction 1; cbn; lia. Qed.

Lemma encode_item_stream it : item_ok it = true -> stream (item_events it) (encode_item it).
Proof.
  induction it as [it IH] using (induction_ltof1 _ item_size). unfold ltof in IH.
  destruct it as [v|v|v|v|s|s|b|items|pairs]; cbn [item_ok item_events encode_item]; intros Hok.
  - apply stream_one, (enc_uint 2). apply head_bytes_ok; [auto|cbn; lia].
  - apply stream_one, (enc_uint 4). apply head_bytes_ok; [auto|cbn; lia].
  - apply stream_one, (enc_uint 8). apply head_bytes_ok; [auto|cbn; lia].
  - apply stream_one, (enc_negint 4). apply head_bytes_ok; [auto|cbn; lia].
  - apply stream_one. eapply enc_string, short_head_ok. lia.
  - apply stream_one. eapply enc_byte_string, short_head_ok. lia.
  - apply stream_one. destruct b; constructor.
  - apply andb_true_iff in Hok as [Hl Hok]. constructor.
    + eapply enc_array, short_head_ok. lia.
    + apply stream_flat_map. intros x Hx. apply IH.
      * cbn. pose proof (sum_list_with_elem item_size items x Hx). lia.
      * rewrite forallb_forall in Hok. apply Hok. now apply list_elem_of_In.
  - apply andb_true_iff in Hok as [Hl Hok]. constructor.
    + eapply enc_map, short_head_ok. lia.
    + apply stream_flat_map. intros [k v] Hx.
      pose proof (sum_list_with_elem (fun '(k, v) => item_size k + item_size v)%nat pairs _ Hx) as Hsz.
      rewrite forallb_forall in Hok. apply list_elem_of_In in Hx. apply Hok in Hx.
      apply andb_true_iff in Hx as [Hk Hv]. cbn in Hsz. apply stream_app; apply IH; cbn; try lia; done.
Qed.

Lemma encode_item_nonempty it : encode_item it <> [].
Proof.
  assert (Hh : forall m w v, head_bytes m w v <> []).
  { intros m w v. unfold head_bytes. repeat case_match; discriminate. }
  assert (Hs : forall m v r, short_head m v ++ r <> []).
  { intros m v r Hr. apply app_eq_nil in Hr as [Hr _]. now apply Hh in Hr. }
  destruct it; cbn [encode_item]; auto; discriminate.
Qed.

(** ** A decoder and serializer *)

Module Rfc8949.
Inductive head_result : Type :=
| HNeed (n : nat) | HError | HIndef (m : Z) | HArg (m : Z) (w : nat) (arg : Z) (rest : list Z).

Definition arg_width (ai : Z) : option nat :=
  if ai <? 24 then Some 0%nat
  else if ai =? 24 then Some 1%nat else if ai =? 25 then Some 2%nat
  else if ai =? 26 then Some 4%nat else if ai =? 27 then Some 8%nat else None.

Definition parse_head (buf : list Z) : head_result :=
  match buf with
  | [] => HNeed 1
  | b :: rest =>
      let m := b / 32 in
      let ai := b mod 32 in
      match arg_width ai with
      | Some w =>
          if decide (length rest < w)%nat then HNeed (S w)
          else HArg m w (if decide (w = 0%nat) then ai else be_value (take w rest)) (drop w rest)
      | None => if ai =? 31 then HIndef m else HError
      end
  end.

Definition payload (w : nat) (n : Z) (rest : list Z) (k : list Z -> cbor_event) : decode_result :=
  if decide (length rest < Z.to_nat n)%nat then
    if Z.of_nat (S w) + n <? 2 ^ 64 then DecodeNeed (Z.of_nat (S w) + n) else DecodeError
  else DecodeFinished (k (take (Z.to_nat n) rest)).

Definition decode (buf : list Z) : decode_result :=
  match parse_head buf with
  | HNeed n => DecodeNeed (Z.of_nat n)
  | HError => DecodeError
  | HIndef m =>
      if m =? 2 then DecodeFinished EByteStringStart
      else if m =? 3 then DecodeFinished EStringStart
      else if m =? 4 then DecodeFinished EIndefArrayStart
      else if m =? 5 then DecodeFinished EIndefMapStart
      else if m =? 7 then DecodeFinished EIndefBreak
      else DecodeError
  | HArg m w arg rest =>
      if m =? 0 then DecodeFinished (uint_event w arg)
      else if m =? 1 then DecodeFinished (negint_event w arg)
      else if m =? 2 then payload w arg rest EByteString
      else if m =? 3 then payload w arg rest EString
      else if m =? 4 then DecodeFinished (EArrayStart arg)
      else if m =? 5 then DecodeFinished (EMapStart arg)
      else if m =? 6 then DecodeFinished (ETag arg)
      else match w with
           | 0%nat =>
               if arg =? 20 then DecodeFinished (EBoolean false)
               else if arg =? 21 then DecodeFinished (EBoolean true)
               else if arg =? 22 then DecodeFinished ENull
               else if arg =? 23 then DecodeFinished EUndefined
               else DecodeError
           | 2%nat => DecodeFinished (EFloat2 arg)
           | 4%nat => DecodeFinished (EFloat4 arg)
           | 8%nat => DecodeFinished (EFloat8 arg)
           | _ => DecodeError
           end
  end.

Definition cbor : Libcbor := {|
  cbor_stream_decode := decode;
  cbor_serialize_alloc := encode_item
|}.

Lemma initial_byte m ai : 0 <= ai < 32 -> (32 * m + ai) / 32 = m /\ (32 * m + ai) mod 32 = ai.
Proof.
  intros Ha. split; Z.div_mod_to_equations; lia.
Qed.

Lemma parse_head_wide m w ai v rest :
  arg_width ai = Some w -> w <> 0%nat -> 0 <= ai < 32 -> 0 <= v < 256 ^ Z.of_nat w ->
  parse_head ((32 * m + ai) :: be w v ++ rest) = HArg m w v rest.
Proof.
  intros Hw Hw0 Ha Hv. cbn [parse_head]. destruct (initial_byte m ai Ha) as [-> ->]. rewrite Hw.
  rewrite decide_False by (rewrite length_app, be_length; lia). rewrite decide_False by done.
  rewrite take_app_length', drop_app_length' by now rewrite be_length.
  now rewrite be_value_small.
Qed.

Lemma parse_head_full m w v h rest : head m w v h -> parse_head (h ++ rest) = HArg m w v rest.
Proof.
  destruct 1 as [v Hv|v Hv|v Hv|v Hv|v Hv].
  - cbn [app parse_head]. destruct (initial_byte m v) as [-> ->]; [lia|].
    unfold arg_width. replace (v <? 24) with true by lia.
    rewrite decide_False by lia. now rewrite decide_True by done.
  - now apply (parse_head_wide m 1 24).
  - now apply (parse_head_wide m 2 25).
  - now apply (parse_head_wide m 4 26).
  - now apply (parse_head_wide m 8 27).
Qed.

Lemma parse_head_part m w v h k :
  head m w v h -> (0 < k < length h)%nat -> parse_head (take k h) = HNeed (length h).
Proof.
  intros Hh Hk. pose proof (head_length _ _ _ _ Hh) as Hl.
  assert (Hw : exists ai bs, h = (32 * m + ai) :: bs /\ 0 <= ai < 32 /\ arg_width ai = Some w).
  { destruct Hh; eexists _, _; (split; [reflexivity|]); (split; [lia|]); try reflexivity.
    unfold arg_width. now replace (v <? 24) with true by lia. }
  destruct Hw as (ai & bs & -> & Hai & Hw). destruct k as [|k]; [lia|]. cbn [take parse_head].
  destruct (initial_byte m ai Hai) as [-> ->]. rewrite Hw. cbn [length] in *.
  rewrite decide_True by (rewrite length_take; lia). congruence.
Qed.

(** What the decoder does once the head is there. *)
Lemma decode_complete_rfc ev bs : encodes ev bs -> decode bs = DecodeFinished ev.
Proof.
  intros He. unfold decode.
  destruct He as [w v h Hh|w v h Hh|w d h Hh|w d h Hh|w n h Hh|w n h Hh|w n h Hh| | | |];
    try reflexivity;
    try (rewrite <- (app_nil_r h), (parse_head_full _ _ _ _ _ Hh); reflexivity);
    rewrite (parse_head_full _ _ _ _ _ Hh); cbn [Z.eqb Pos.eqb]; unfold payload;
    rewrite Nat2Z.id, decide_False by lia; now rewrite take_ge.
Qed.

(** A string that is cut off: inside the head, or inside the payload. *)
Lemma payload_incomplete m w (d h : list Z) k (f : list Z -> cbor_event) :
  head m w (Z.of_nat (length d)) h -> (0 < k < length (h ++ d))%nat ->
  Z.of_nat (length (h ++ d)) < 2 ^ 64 ->
  exists r, Z.of_nat k < r <= Z.of_nat (length (h ++ d)) /\
    (parse_head (take k (h ++ d)) = HNeed (length h) /\ r = Z.of_nat (length h) \/
     exists rest, parse_head (take k (h ++ d)) = HArg m w (Z.of_nat (length d)) rest /\
       payload w (Z.of_nat (length d)) rest f = DecodeNeed r).
Proof.
  intros Hh Hk H64. rewrite length_app in Hk, H64 |- *.
  destruct (decide (k < length h)%nat) as [Hlt|Hge].
  - exists (Z.of_nat (length h)). split; [lia|]. left. split; [|done].
    rewrite take_app_le by lia. eapply parse_head_part; [exact Hh|lia].
  - pose proof (head_length _ _ _ _ Hh) as Hl. exists (Z.of_nat (length h + length d)).
    split; [lia|]. right. rewrite take_app_ge, (parse_head_full _ _ _ _ _ Hh) by lia.
    eexists. split; [reflexivity|]. unfold payload.
    rewrite decide_True by (rewrite length_take; lia).
    rewrite (proj2 (Z.ltb_lt _ _)) by lia. f_equal. lia.
Qed.

Lemma decode_incomplete_rfc ev bs k :
  encodes ev bs -> (0 < k < length bs)%nat -> Z.of_nat (length bs) < 2 ^ 64 ->
  exists r, decode (take k bs) = DecodeNeed r /\ Z.of_nat k < r <= Z.of_nat (length bs).
Proof.
  intros He Hk H64. unfold decode.
  destruct He as [w v h Hh|w v h Hh|w d h Hh|w d h Hh|w n h Hh|w n h Hh|w n h Hh| | | |];
    try (rewrite (parse_head_part _ _ _ _ _ Hh) by lia; eexists; split; [reflexivity|lia]);
    try (cbn in Hk; lia).
  - destruct (payload_incomplete 2 w d h k EByteString Hh Hk H64) as (r & Hb & [[-> ->]|(rest & -> & Hr)]); eauto.
  - destruct (payload_incomplete 3 w d h k EString Hh Hk H64) as (r & Hb & [[-> ->]|(rest & -> & Hr)]); eauto.
Qed.

Lemma parse_head_need buf n : buf <> [] -> parse_head buf = HNeed n -> (length buf < n <= 9)%nat.
Proof.
  destruct buf as [|b rest]; [done|]. intros _. cbn [parse_head length].
  destruct (arg_width _) as [w|] eqn:Hw; [|destruct (_ =? 31); discriminate].
  assert (w <= 8)%nat by (unfold arg_width in Hw; repeat case_match; simplify_eq; lia).
  case_decide; [|discriminate]. injection 1 as <-. lia.
Qed.

Lemma parse_head_rest buf m w arg rest :
  parse_head buf = HArg m w arg rest -> length buf = (S w + length rest)%nat.
Proof.
  destruct buf as [|b bs]; [discriminate|]. cbn [parse_head length].
  destruct (arg_width _) as [w'|]; [|destruct (_ =? 31); discriminate].
  case_decide; [discriminate|]. injection 1 as <- <- <- <-. rewrite length_drop. lia.
Qed.

Lemma decode_need_rfc buf r :
  buf <> [] -> decode buf = DecodeNeed r -> Z.of_nat (length buf) < r < 2 ^ 64.
Proof.
  intros Hb. unfold decode. destruct (parse_head buf) as [n| |m|m w arg rest] eqn:Hp.
  - injection 1 as <-. apply parse_head_need in Hp; [lia|done].
  - discriminate.
  - repeat case_match; discriminate.
  - apply parse_head_rest in Hp. unfold payload.
    repeat case_match; try discriminate; injection 1 as <-;
      match goal with E : (_ <? 2 ^ 64) = true |- _ => apply Z.ltb_lt in E; lia end.
Qed.

Lemma cbor_ok : @LibcborOk cbor.
Proof.
  split; [exact decode_complete_rfc|exact decode_incomplete_rfc|exact decode_need_rfc|reflexivity].
Qed.
End Rfc8949.
