(* ===== verification/Requests.v ===== *)
(** * Reading requests and writing responses: the CBOR layer of udirt-msg.c

    A request is a request type and, for most types, a map of named data
    items. libcbor reports the items as callbacks ([cbor_event]); the callback
    tables of the source are functions from events here, and the state they
    share ([struct cbor_read_state] and [struct req_data_state]) is [rstate]. *)

From Stdlib Require Import String.
From stdpp Require Import gmap.
From S2P Require Import Prelude External Types Format Memory Io Cbor.

(** ** Callback state *)

(** [done] of [struct cbor_read_state]; the rest is [struct req_data_state],
    whose [current_item] points into [config->items]. *)
Record rstate (D : Type) : Type := RState {
  done : bool;
  current_item : option nat;
  item_count : Z;
  error : bool;
  data : D
}.
Arguments RState {D} _ _ _ _ _.
Arguments done {D} _.
Arguments current_item {D} _.
Arguments item_count {D} _.
Arguments error {D} _.
Arguments data {D} _.

(** A table of callbacks. *)
Definition callbacks (D : Type) : Type := cbor_event -> rstate D -> ST rt (rstate D).

Record msg_item (D : Type) : Type := MsgItem { key : list Z; item_cbs : callbacks D }.
Arguments MsgItem {D} _ _.
Arguments key {D} _.
Arguments item_cbs {D} _.

(** The name of an event's callback, the [#N] of the macros. *)
Definition event_name (ev : cbor_event) : string :=
  match ev with
  | EUint8 _ => "uint8" | EUint16 _ => "uint16" | EUint32 _ => "uint32" | EUint64 _ => "uint64"
  | ENegint8 _ => "negint8" | ENegint16 _ => "negint16"
  | ENegint32 _ => "negint32" | ENegint64 _ => "negint64"
  | EByteStringStart => "byte_string_start" | EByteString _ => "byte_string"
  | EStringStart => "string_start" | EString _ => "string"
  | EIndefArrayStart => "indef_array_start" | EArrayStart _ => "array_start"
  | EIndefMapStart => "indef_map_start" | EMapStart _ => "map_start"
  | ETag _ => "tag" | EFloat2 _ => "float2" | EFloat4 _ => "float4" | EFloat8 _ => "float8"
  | EUndefined => "undefined" | ENull => "null" | EBoolean _ => "boolean"
  | EIndefBreak => "indef_break"
  end%string.

(** [strncmp(data, key, len) == 0] for [len] bytes of [data]. *)
Fixpoint strncmp_eq (data key : list Z) : bool :=
  match data with
  | [] => true
  | c :: data' =>
      match key with
      | [] => c =? 0
      | k :: key' => (c =? k) && (if c =? 0 then true else strncmp_eq data' key')
      end
  end.

Section Callbacks.
Context `{Libc} {D : Type}.
Implicit Types r : rstate D.

Definition complete_item (num_items : Z) (r : rstate D) : rstate D :=
  let item_count := item_count r + 1 in
  RState (if item_count >=? num_items then true else done r) None item_count (error r) (data r).

Definition check_state (actual_type : string) (r : rstate D) : ST rt (option nat * rstate D) :=
  if error r then ret (None, r)
  else
    match current_item r with
    | None =>
        udi_set_errmsg "received unexpected data item of type %s instead of map"
          [VStr (cstr actual_type)] ;;;
        ret (None, RState true None (item_count r) true (data r))
    | Some i => ret (Some i, r)
    end.

Definition set_invalid_error (type_name : string) (r : rstate D) : ST rt (rstate D) :=
  udi_set_errmsg "received unexpected data item of type %s" [VStr (cstr type_name)] ;;;
  ret (RState true (current_item r) (item_count r) true (data r)).

Definition invalid_callbacks : callbacks D := fun ev r => set_invalid_error (event_name ev) r.

(** The [N##_callback] functions: pass the event on to the current item. *)
Definition item_callbacks (items : list (msg_item D)) : callbacks D := fun ev r =>
  let* (item, r) := check_state (event_name ev) r in
  match item with
  | None => ret r
  | Some i =>
      match items !! i with
      | Some it => item_cbs it ev r
      | None => undef OutOfBounds
      end
  end.

Definition request_data_map_start (items : list (msg_item D)) (len : Z) (r : rstate D)
    : ST rt (rstate D) :=
  if error r then ret r
  else
    match current_item r with
    | Some _ => item_callbacks items (EMapStart len) r
    | None =>
        let num_items := Z.of_nat (length items) in
        if negb (num_items =? len) then
          udi_set_errmsg "Unexpected number of data items in map (expected %d, actual %l)"
            [VInt num_items; VInt len] ;;;
          ret (RState (done r) None (item_count r) true (data r))
        else ret r
    end.

(** The search loop of [request_data_string]. *)
Fixpoint find_key (items : list (msg_item D)) (i : nat) (name : list Z) : option nat :=
  match items with
  | [] => None
  | it :: items' => if strncmp_eq name (key it) then Some i else find_key items' (S i) name
  end.

Definition request_data_string (items : list (msg_item D)) (name : list Z) (r : rstate D)
    : ST rt (rstate D) :=
  if error r then ret r
  else
    match current_item r with
    | Some _ => item_callbacks items (EString name) r
    | None =>
        match find_key items 0 name with
        | Some i => ret (RState (done r) (Some i) (item_count r) (error r) (data r))
        | None =>
            let* ok := udi_malloc in
            let key := if ok then c_string name else cstr "(no memory)" in
            udi_set_errmsg "failed to locate config item for %s" [VStr key] ;;;
            ret (RState (done r) None (item_count r) true (data r))
        end
    end.

(** The table [read_request_data] uses. *)
Definition request_data_callbacks (items : list (msg_item D)) : callbacks D := fun ev r =>
  match ev with
  | EMapStart len => request_data_map_start items len r
  | EString name => request_data_string items name r
  | _ => item_callbacks items ev r
  end.
End Callbacks.

(** ** Reading *)

Section Reading.
Context `{Libc} `{Libcbor} {D : Type}.

(** The loop of [read_cbor_items]. [buffer] is the part of the buffer that is
    filled, so [buf_idx] is its length. *)
Fixpoint read_items_loop (fuel : nat) (fd : Z) (cbs : callbacks D)
    (buffer : list Z) (maxbuflen buflen : Z) (cbor_done : bool) (r : rstate D)
    : ST env (Z * rstate D) :=
  match fuel with
  | O => running
  | S fuel' =>
      if done r && cbor_done then ret (0, r)
      else
        let* ok := (if maxbuflen <? buflen then env_rt udi_malloc else ret true) in
        if negb ok then
          env_rt (udi_set_errmsg "failed to allocate memory" []) ;;;
          ret (-1, r)
        else
          let maxbuflen := Z.max maxbuflen buflen in
          let* (result, bs) := read_from fd (Z.to_nat (u64 (buflen - Z.of_nat (length buffer)))) in
          if result <? 0 then
            env_rt (udi_set_errmsg "failed to read CBOR data due to unexpected end-of-file" []) ;;;
            ret (result, r)
          else if result >? 0 then
            env_rt (udi_set_errmsg "failed to read CBOR data: %e" [VInt result]) ;;;
            ret (result, r)
          else
            let buffer := buffer ++ bs in
            match cbor_stream_decode buffer with
            | DecodeError =>
                env_rt (udi_set_errmsg "failed to decode CBOR data" []) ;;;
                ret (-1, r)
            | DecodeNeed required =>
                read_items_loop fuel' fd cbs buffer maxbuflen required false r
            | DecodeFinished ev =>
                let* r := env_rt (cbs ev r) in
                read_items_loop fuel' fd cbs [] maxbuflen 1 true r
            end
  end.

(** Every iteration but the last reads a byte. *)
Definition cbor_fuel (fd : Z) (s : env) : nat :=
  match e_fds s !! fd with
  | Some c => S (S (length (avail (c_in c))))
  | None => 2
  end.

Definition read_cbor_items (fd : Z) (cbs : callbacks D) (r : rstate D) : ST env (Z * rstate D) :=
  let* fuel := gets (cbor_fuel fd) in
  read_items_loop fuel fd cbs [] 0 1 false r.

Definition initial_state (d : D) : rstate D := RState false None 0 false d.

Definition read_request_data (req_fd : Z) (items : list (msg_item D)) (d : D)
    : ST env (Z * D) :=
  let* (result, r) := read_cbor_items req_fd (request_data_callbacks items) (initial_state d) in
  if negb (result =? 0) then ret (RESULT_ERROR, data r)
  else if error r then ret (RESULT_FAILURE, data r)
  else ret (RESULT_SUCCESS, data r).
End Reading.

Section RequestType.
Context `{Libc} `{Libcbor}.

Definition request_type_callback (value : Z) (r : rstate Z) : rstate Z :=
  RState true (current_item r) (item_count r) (error r) value.

Definition request_type_callbacks : callbacks Z := fun ev r =>
  match ev with
  | EUint16 v | EUint8 v => ret (request_type_callback v r)
  | _ => invalid_callbacks ev r
  end.

(** The result and the new value of [*type]. *)
Definition read_request_type (req_fd : Z) (type : Z) : ST env (Z * Z) :=
  let* (result, r) := read_cbor_items req_fd request_type_callbacks (initial_state type) in
  if negb (result =? 0) then ret (RESULT_ERROR, data r)
  else if error r then ret (RESULT_FAILURE, data r)
  else ret (RESULT_SUCCESS, data r).

(** ** Writing *)

Definition write_cbor_item (fd : Z) (item : cbor_item) (name : string) : ST env Z :=
  let buffer := cbor_serialize_alloc item in
  match buffer with
  | [] =>
      env_rt (udi_set_errmsg "failed to serialize %s" [VStr (cstr name)]) ;;;
      ret RESULT_ERROR
  | _ =>
      let* result := write_to fd buffer in
      if negb (result =? 0) then
        env_rt (udi_set_errmsg "failed to write %s: %e" [VStr (cstr name); VInt result]) ;;;
        ret RESULT_ERROR
      else ret RESULT_SUCCESS
  end.

Definition write_response (resp_fd : Z) (resp_type req_type : Z) (d : option cbor_item) : ST env Z :=
  let* result := write_cbor_item resp_fd (IUint16 (u16 resp_type)) "response type" in
  if negb (result =? RESULT_SUCCESS) then ret result
  else
    let* result := write_cbor_item resp_fd (IUint16 (u16 req_type)) "request type" in
    if negb (result =? RESULT_SUCCESS) then ret result
    else
      match d with
      | Some d => write_cbor_item resp_fd d "response data"
      | None => ret RESULT_SUCCESS
      end.

Definition write_response_no_data (resp_fd : Z) (resp_type req_type : Z) : ST env Z :=
  write_response resp_fd resp_type req_type None.

(** The error response uses an error message of its own, so that the
    caller's survives. *)
Definition write_error_response (resp_fd : Z) (req_type : Z) : ST env Z :=
  let* msg := gets (fun s => errmsg (e_rt s)) in
  let map := IMap [(IString (cstr "msg"), IString msg)] in
  let* result := write_response resp_fd (Z_of_response UDI_RESP_ERROR) req_type (Some map) in
  modify (fun s => put_e_rt (Rt msg (allocs (e_rt s))) s) ;;;
  ret result.
End RequestType.

(** ** The reading loop and the stream of events *)

Section ReadingFacts.
Context `{LC : Libc} `{CO : LibcborOk} {D : Type} (cbs : callbacks D).

(** [feeds r t evs r' t']: the callbacks take the events [evs] one by one,
    the last one sets [done] and no earlier one does. *)
Inductive feeds : rstate D -> rt -> list cbor_event -> rstate D -> rt -> Prop :=
| feed_last ev r t r' t' :
    cbs ev r t = Ret r' t' -> done r' = true -> feeds r t [ev] r' t'
| feed_more ev evs r t r1 t1 r' t' :
    cbs ev r t = Ret r1 t1 -> done r1 = false -> allocs t1 = [] ->
    feeds r1 t1 evs r' t' -> feeds r t (ev :: evs) r' t'.

(** [s'] is [s] with the next bytes of [fd] consumed and the runtime state
    replaced. *)
Definition consumed (fd : Z) (t : rt) (s s' : env) : Prop :=
  e_rt s' = t /\ only_reads fd s (put_e_rt (e_rt s) s').

Lemma only_reads_consumed fd s s' : only_reads fd s s' -> consumed fd (e_rt s) s s'.
Proof. intros (A & B & C & E & F). split; [done|]. split; [done|]. auto. Qed.

Lemma consumed_trans fd t t' s1 s2 s3 :
  consumed fd t s1 s2 -> consumed fd t' s2 s3 -> consumed fd t' s1 s3.
Proof.
  intros [A1 A2] [B1 B2]. split; [done|].
  assert (only_reads fd (put_e_rt (e_rt s1) s2) (put_e_rt (e_rt s1) s3)) as Hx.
  { destruct B2 as (_ & Q1 & Q2 & Q3 & Q4). split; [done|]. auto. }
  etransitivity; eassumption.
Qed.

Lemma consumed_rt fd t s s' : consumed fd t s s' -> e_rt s' = t.
Proof. now intros []. Qed.

Lemma consumed_put fd t s : consumed fd t s (put_e_rt t s).
Proof. split; [done|]. cbn. now destruct s. Qed.

Lemma readable_put_rt fd t s bs e : readable_fd s fd bs e -> readable_fd (put_e_rt t s) fd bs e.
Proof. done. Qed.

Lemma realloc_ok maxbuflen buflen s :
  allocs (e_rt s) = [] ->
  (if maxbuflen <? buflen then env_rt udi_malloc else ret true) s = Ret true s.
Proof.
  intros Ha. destruct (maxbuflen <? buflen); [|done].
  unfold env_rt, zoom, udi_malloc. rewrite Ha. now destruct s as [[? ?] ? ? ?].
Qed.

(** The first iteration on a part of a data item: the missing bytes are
    appended to the buffer. *)
Lemma read_items_step fd h rest e r fuel k maxbuflen buflen cd s :
  allocs (e_rt s) = [] -> done r && cd = false -> Z.of_nat (length h) < 2 ^ 64 ->
  (k < length h)%nat -> Z.of_nat k < buflen <= Z.of_nat (length h) ->
  readable_fd s fd (drop k h ++ rest) e ->
  exists s', only_reads fd s s' /\ readable_fd s' fd (drop (Z.to_nat buflen) h ++ rest) e /\
    read_items_loop (S fuel) fd cbs (take k h) maxbuflen buflen cd r s
    = match cbor_stream_decode (take (Z.to_nat buflen) h) with
      | DecodeError =>
          (env_rt (udi_set_errmsg "failed to decode CBOR data" []) ;;; ret (-1, r)) s'
      | DecodeNeed required =>
          read_items_loop fuel fd cbs (take (Z.to_nat buflen) h) (Z.max maxbuflen buflen)
            required false r s'
      | DecodeFinished ev =>
          (let* r := env_rt (cbs ev r) in
           read_items_loop fuel fd cbs [] (Z.max maxbuflen buflen) 1 true r) s'
      end.
Proof.
  intros Ha Hd Hl Hk Hb Hr. cbn [read_items_loop]. rewrite Hd. mstep_with (realloc_ok maxbuflen buflen s Ha).
  cbn [negb]. rewrite length_take, Nat.min_l by lia. rewrite u64_small by lia.
  replace (Z.to_nat (buflen - Z.of_nat k)) with (Z.to_nat buflen - k)%nat by lia.
  set (n := (Z.to_nat buflen - k)%nat).
  destruct (read_from_ok fd n s _ _ Hr) as (s' & Hrd & Hor & Hr').
  { rewrite length_app, length_drop. lia. }
  mstep_with Hrd. cbn [Z.ltb Z.gtb Z.compare].
  rewrite (take_app_le (drop k h)) by (rewrite length_drop; lia).
  rewrite <- take_drop_split. replace (k + n)%nat with (Z.to_nat buflen) by lia.
  exists s'. split; [done|]. split.
  { rewrite drop_app_le, drop_drop in Hr' by (rewrite length_drop; lia).
    replace (Z.to_nat buflen) with (k + n)%nat by lia. exact Hr'. }
  now destruct (cbor_stream_decode _).
Qed.

(** One data item, of which the buffer already holds a part. *)
Lemma read_items_one fd ev h rest e r r' t' :
  encodes ev h -> Z.of_nat (length h) < 2 ^ 64 -> forall fuel k maxbuflen buflen cd s,
  allocs (e_rt s) = [] -> done r && cd = false ->
  (k < length h)%nat -> Z.of_nat k < buflen <= Z.of_nat (length h) ->
  readable_fd s fd (drop k h ++ rest) e -> (length h - k < fuel)%nat ->
  cbs ev r (e_rt s) = Ret r' t' ->
  exists fuel' maxbuflen' s', consumed fd t' s s' /\ readable_fd s' fd rest e /\
    (fuel <= fuel' + (length h - k))%nat /\
    read_items_loop fuel fd cbs (take k h) maxbuflen buflen cd r s
    = read_items_loop fuel' fd cbs [] maxbuflen' 1 true r' s'.
Proof.
  intros Hev Hl. induction fuel as [|fuel IH]; intros k maxbuflen buflen cd s Ha Hd Hk Hb Hr Hf Hc; [lia|].
  destruct (read_items_step fd h rest e r fuel k maxbuflen buflen cd s) as (s1 & Ho & Hr1 & ->); try done.
  assert (Hrt : e_rt s1 = e_rt s) by apply Ho.
  destruct (decide (Z.to_nat buflen = length h)) as [He|Hne].
  - rewrite He, take_ge, (decode_complete ev h Hev) by done. rewrite He, drop_ge in Hr1 by done.
    assert (env_rt (cbs ev r) s1 = Ret r' (put_e_rt t' s1)) as Hcb.
    { unfold env_rt. eapply zoom_Ret. now rewrite Hrt. }
    mstep_with Hcb. do 3 eexists. split; [|split; [|split; [|reflexivity]]]; [|exact Hr1|lia].
    eapply consumed_trans; [apply only_reads_consumed; exact Ho|]. apply consumed_put.
  - destruct (decode_incomplete ev h (Z.to_nat buflen) Hev) as (req & -> & Hreq); [lia|done|].
    destruct (IH (Z.to_nat buflen) (Z.max maxbuflen buflen) req false s1)
      as (fuel' & mb & s2 & Hcs & Hr2 & Hfu & ->); try done; rewrite ?Hrt, ?andb_false_r; try done; try lia.
    exists fuel', mb, s2. split; [|split; [done|split; [lia|done]]].
    eapply consumed_trans; [apply only_reads_consumed; exact Ho|exact Hcs].
Qed.

(** A sequence of data items up to the one that completes the read. *)
Lemma read_items_feed fd rest e : forall evs bs r r' t' fuel maxbuflen cd s,
  stream evs bs -> feeds r (e_rt s) evs r' t' -> Z.of_nat (length bs) < 2 ^ 64 ->
  allocs (e_rt s) = [] -> done r && cd = false ->
  readable_fd s fd (bs ++ rest) e -> (length bs < fuel)%nat ->
  exists s', consumed fd t' s s' /\ readable_fd s' fd rest e /\
    read_items_loop fuel fd cbs [] maxbuflen 1 cd r s = Ret (0, r') s'.
Proof.
  induction evs as [|ev evs IH]; intros bs r r' t' fuel maxbuflen cd s Hst Hfd Hl Ha Hd Hr Hf;
    [inversion Hfd|].
  inversion Hst as [|? h ? bs' Hev Hst']; subst. rewrite length_app in *. rewrite <- app_assoc in Hr.
  pose proof (encodes_nonempty _ _ Hev) as Hne.
  assert (Hone : forall r1 t1, cbs ev r (e_rt s) = Ret r1 t1 ->
    exists fuel' maxbuflen' s', consumed fd t1 s s' /\ readable_fd s' fd (bs' ++ rest) e /\
      (fuel <= fuel' + (length h - 0))%nat /\
      read_items_loop fuel fd cbs [] maxbuflen 1 cd r s
      = read_items_loop fuel' fd cbs [] maxbuflen' 1 true r1 s').
  { intros r1 t1 Hc. exact (read_items_one fd ev h (bs' ++ rest) e r r1 t1 Hev ltac:(lia) fuel 0
      maxbuflen 1 cd s Ha Hd ltac:(lia) ltac:(lia) Hr ltac:(lia) Hc). }
  inversion Hfd as [? ? ? ? ? Hc Hdn|? ? ? ? r1 t1 ? ? Hc Hdn Ha1 Hfd']; subst;
    destruct (Hone _ _ Hc) as (fuel' & mb & s1 & Hcs & Hr1 & Hfu & ->).
  - inversion Hst'; subst. exists s1. split; [done|]. split; [done|].
    destruct fuel' as [|fuel']; [cbn in *; lia|]. cbn [read_items_loop]. now rewrite Hdn.
  - pose proof (consumed_rt _ _ _ _ Hcs) as Hrt.
    destruct (IH bs' r1 r' t' fuel' mb true s1) as (s2 & Hcs2 & Hr2 & ->);
      rewrite ?Hrt; try done; try lia.
    { now rewrite Hdn. }
    exists s2. split; [|done]. eapply consumed_trans; eassumption.
Qed.

Lemma read_cbor_items_feed fd evs bs rest e r r' t' s :
  stream evs bs -> feeds r (e_rt s) evs r' t' -> Z.of_nat (length bs) < 2 ^ 64 ->
  allocs (e_rt s) = [] -> readable_fd s fd (bs ++ rest) e ->
  exists s', consumed fd t' s s' /\ readable_fd s' fd rest e /\
    read_cbor_items fd cbs r s = Ret (0, r') s'.
Proof.
  intros Hst Hfd Hl Ha Hr. unfold read_cbor_items. mstep.
  assert (Hf : (length bs < cbor_fuel fd s)%nat).
  { destruct Hr as (c & Hc & Hav & _). unfold cbor_fuel. rewrite Hc, Hav, length_app. lia. }
  apply (read_items_feed fd rest e evs bs); auto. now rewrite andb_false_r.
Qed.

(** ** Whatever arrives, the loop returns *)

Definition total_callbacks : Prop := forall ev r t, exists r' t', cbs ev r t = Ret r' t'.

Lemma env_rt_set_errmsg {A} format args (v : A) s :
  is_Some (formatted (cstr format) args) ->
  exists s', (env_rt (udi_set_errmsg format args) ;;; ret v) s = Ret v s'.
Proof.
  intros Hf. unfold env_rt, zoom, bind. rewrite (set_errmsg_ok format args _ Hf). eauto.
Qed.

Lemma alloc_returns (b : bool) s :
  exists ok t, (if b then env_rt udi_malloc else ret true) s = Ret ok (put_e_rt t s).
Proof.
  destruct b.
  - unfold env_rt, zoom, udi_malloc. destruct (allocs (e_rt s)); eauto.
  - exists true, (e_rt s). now destruct s.
Qed.

Lemma read_items_total fd e :
  total_callbacks -> e <> 0 ->
  forall fuel buffer maxbuflen buflen cd r s bs,
  Z.of_nat (length buffer) < buflen < 2 ^ 64 -> readable_fd s fd bs e -> (length bs < fuel)%nat ->
  exists v s', read_items_loop (S fuel) fd cbs buffer maxbuflen buflen cd r s = Ret v s'.
Proof.
  intros Hcb He fuel. induction fuel as [|fuel IH]; intros buffer maxbuflen buflen cd r s bs Hb Hr Hf; [lia|].
  cbn [read_items_loop]. destruct (done r && cd); [unfold ret; eauto|].
  destruct (alloc_returns (maxbuflen <? buflen) s) as (ok & t & Hal). mstep_with Hal.
  destruct ok; cbn [negb].
  2: { destruct (env_rt_set_errmsg "failed to allocate memory" [] (-1, r) (put_e_rt t s) ltac:(fmt_ok))
         as [s' Hs']. eauto. }
  rewrite u64_small by lia. set (n := Z.to_nat (buflen - Z.of_nat (length buffer))).
  destruct (decide (n <= length bs)%nat) as [Hn|Hn].
  - destruct (read_from_ok fd n (put_e_rt t s) bs e Hr Hn) as (s1 & Hrd & _ & Hr1). mstep_with Hrd.
    cbn [Z.ltb Z.gtb Z.compare].
    assert (Hlen : (length (drop n bs) < fuel)%nat) by (rewrite length_drop; lia).
    destruct (cbor_stream_decode (buffer ++ take n bs)) as [|req|ev] eqn:Hdec.
    + destruct (env_rt_set_errmsg "failed to decode CBOR data" [] (-1, r) s1 ltac:(fmt_ok)) as [s' Hs']. eauto.
    + apply decode_need_more in Hdec as Hreq.
      * eapply IH; [exact Hreq|exact Hr1|exact Hlen].
      * intros Hnil. apply (f_equal length) in Hnil. rewrite length_app, length_take in Hnil. cbn in Hnil. lia.
    + destruct (Hcb ev r (e_rt s1)) as (r' & t' & Hc).
      assert (env_rt (cbs ev r) s1 = Ret r' (put_e_rt t' s1)) as Hcb' by (unfold env_rt; now apply zoom_Ret).
      mstep_with Hcb'. eapply IH; [cbn; lia|exact Hr1|exact Hlen].
  - destruct (read_from_short fd n (put_e_rt t s) bs e Hr) as (s1 & Hrd & _); [lia|]. mstep_with Hrd.
    destruct (Z.ltb_spec e 0).
    + destruct (env_rt_set_errmsg "failed to read CBOR data due to unexpected end-of-file" [] (e, r) s1 ltac:(fmt_ok)) as [s' Hs']. eauto.
    + replace (e >? 0) with true by lia.
      destruct (env_rt_set_errmsg "failed to read CBOR data: %e" [VInt e] (e, r) s1 ltac:(fmt_ok)) as [s' Hs']. eauto.
Qed.

Lemma read_cbor_items_total fd e r s bs :
  total_callbacks -> e <> 0 -> readable_fd s fd bs e ->
  exists v s', read_cbor_items fd cbs r s = Ret v s'.
Proof.
  intros Hcb He Hr. unfold read_cbor_items. mstep.
  pose proof Hr as (c & Hc & Hav & _). unfold cbor_fuel. rewrite Hc, Hav.
  eapply read_items_total; try eassumption; [cbn; lia|lia].
Qed.
End ReadingFacts.

(** ** Well-formed request data *)

Section Fields.
Context `{LC : Libc} {D : Type} (items : list (msg_item D)).

Definition with_data (d : D) (r : rstate D) : rstate D :=
  RState (done r) (current_item r) (item_count r) (error r) d.

(** A key and a value that item [i] of the configuration accepts, storing
    [f] into the request. *)
Inductive field (k : list Z) (ev : cbor_event) (f : D -> D) : Prop :=
| field_intro i it :
    find_key items 0 k = Some i -> items !! i = Some it ->
    (forall r t, allocs t = [] ->
       item_cbs it ev r t
       = Ret (complete_item (Z.of_nat (length items)) (with_data (f (data r)) r)) t) ->
    field k ev f.

(** The events of a request map: its size, then keys and values. *)
Definition field_events (fs : list (list Z * cbor_event * (D -> D))) : list cbor_event :=
  flat_map (fun '(k, ev, _) => [EString k; ev]) fs.

Definition request_events (fs : list (list Z * cbor_event * (D -> D))) : list cbor_event :=
  EMapStart (Z.of_nat (length fs)) :: field_events fs.

(** The request the fields describe. *)
Definition apply_fields (fs : list (list Z * cbor_event * (D -> D))) (d : D) : D :=
  foldl (fun d '(_, _, f) => f d) d fs.

(** A value is handed to the item that its key selected. *)
Lemma value_callback ev f i it r t :
  items !! i = Some it -> error r = false -> current_item r = Some i -> allocs t = [] ->
  (forall r t, allocs t = [] ->
     item_cbs it ev r t = Ret (complete_item (Z.of_nat (length items)) (with_data (f (data r)) r)) t) ->
  request_data_callbacks items ev r t
  = Ret (complete_item (Z.of_nat (length items)) (with_data (f (data r)) r)) t.
Proof.
  intros Hi He Hc Ha Ht.
  assert (Hitem : item_callbacks items ev r t
            = Ret (complete_item (Z.of_nat (length items)) (with_data (f (data r)) r)) t).
  { unfold item_callbacks, check_state. rewrite He, Hc. mstep. rewrite Hi. now apply Ht. }
  unfold request_data_callbacks, request_data_map_start, request_data_string.
  destruct ev; rewrite ?He, ?Hc; exact Hitem.
Qed.

Lemma key_callback k i r t :
  find_key items 0 k = Some i -> error r = false -> current_item r = None ->
  request_data_callbacks items (EString k) r t
  = Ret (RState (done r) (Some i) (item_count r) (error r) (data r)) t.
Proof.
  intros Hk He Hc. cbn [request_data_callbacks]. unfold request_data_string.
  now rewrite He, Hc, Hk.
Qed.

Lemma fields_feed fs : forall d n t,
  allocs t = [] -> fs <> [] ->
  Forall (fun '(k, ev, f) => field k ev f) fs ->
  n + Z.of_nat (length fs) = Z.of_nat (length items) -> 0 <= n ->
  feeds (request_data_callbacks items) (RState false None n false d) t (field_events fs)
    (RState true None (Z.of_nat (length items)) false (apply_fields fs d)) t.
Proof.
  induction fs as [|[[k ev] f] fs IH]; intros d n t Ha Hne Hf Hn Hn0; [done|].
  apply Forall_cons in Hf as [[i it Hk Hi Ht] Hf]. cbn [field_events flat_map app].
  eapply feed_more; [exact (key_callback k i (RState false None n false d) t Hk eq_refl eq_refl)|done|done|]. cbn [done item_count error data].
  pose proof (value_callback ev f i it (RState false (Some i) n false d) t Hi eq_refl eq_refl Ha Ht) as Hv.
  unfold complete_item, with_data in Hv. cbn [done item_count error data current_item] in Hv.
  cbn [length] in Hn. destruct fs as [|fd fs].
  - cbn [length] in Hn. replace (n + 1 >=? Z.of_nat (length items)) with true in Hv by lia.
    cbn [field_events flat_map apply_fields foldl].
    replace (Z.of_nat (length items)) with (n + 1) by lia.
    apply feed_last; [exact Hv|done].
  - cbn [length] in Hn. replace (n + 1 >=? Z.of_nat (length items)) with false in Hv by lia.
    eapply feed_more; [exact Hv|done|done|]. apply IH; [done..|cbn [length]; lia|lia].
Qed.

Lemma request_feed fs d t :
  allocs t = [] -> fs <> [] -> Forall (fun '(k, ev, f) => field k ev f) fs ->
  length fs = length items ->
  feeds (request_data_callbacks items) (initial_state d) t (request_events fs)
    (RState true None (Z.of_nat (length items)) false (apply_fields fs d)) t.
Proof.
  intros Ha Hne Hf Hl. unfold request_events, initial_state.
  eapply feed_more with (r1 := RState false None 0 false d); [|done|done|].
  - cbn [request_data_callbacks]. unfold request_data_map_start. cbn [error current_item].
    now rewrite Hl, Z.eqb_refl.
  - apply fields_feed; auto; lia.
Qed.

Context `{CO : LibcborOk}.

Lemma read_request_data_ok fs d fd bs rest e s :
  stream (request_events fs) bs -> Forall (fun '(k, ev, f) => field k ev f) fs ->
  fs <> [] -> length fs = length items -> Z.of_nat (length bs) < 2 ^ 64 ->
  allocs (e_rt s) = [] -> readable_fd s fd (bs ++ rest) e ->
  exists s', read_request_data fd items d s = Ret (RESULT_SUCCESS, apply_fields fs d) s' /\
    only_reads fd s s' /\ readable_fd s' fd rest e.
Proof.
  intros Hst Hf Hne Hl Hlen Ha Hr.
  destruct (read_cbor_items_feed (request_data_callbacks items) fd (request_events fs) bs rest e
              (initial_state d) _ _ s Hst (request_feed fs d (e_rt s) Ha Hne Hf Hl) Hlen Ha Hr)
    as (s' & [Hrt Hcs] & Hr' & Hrd).
  exists s'. unfold read_request_data. mstep_with Hrd. cbn [negb Z.eqb error data].
  split; [done|]. split; [|done]. rewrite <- Hrt in Hcs. destruct s'. exact Hcs.
Qed.
End Fields.

(** ** Responses *)

Section Responses.
Context `{LC : Libc} `{CO : LibcborOk}.

(** The write end of a descriptor that takes what it is given. *)
Definition open_for_write (s : env) (fd : Z) : Prop :=
  exists c, e_fds s !! fd = Some c /\ accepting c.

Lemma appends_open fd bs s s' : appends fd bs s s' -> open_for_write s fd -> open_for_write s' fd.
Proof.
  intros (_ & _ & Hap) (c & Hc & Ha). destruct (Hap c Hc) as (w & Hw & Hs).
  exists (Chan (c_in c) w (c_out c ++ bs)). split; [done|]. now apply suffix_accepting with c.
Qed.

Lemma write_cbor_item_ok fd item name s :
  open_for_write s fd -> item_ok item = true ->
  exists s', write_cbor_item fd item name s = Ret RESULT_SUCCESS s' /\
    appends fd (encode_item item) s s'.
Proof.
  intros (c & Hc & Ha) Hok. unfold write_cbor_item. rewrite (serialize_ok item Hok).
  destruct (encode_item item) as [|b bs] eqn:He; [now apply encode_item_nonempty in He|].
  destruct (write_to_spec fd (b :: bs) s c Hc) as (r & k & s' & Hr & Hap & Hall).
  destruct (Hall Ha) as [-> Hk]. mstep_with Hr. rewrite Hk in Hap. exists s'. auto.
Qed.

(** The items of a response. *)
Definition response_items (resp_type req_type : Z) (d : option cbor_item) : list cbor_item :=
  IUint16 (u16 resp_type) :: IUint16 (u16 req_type) ::
  match d with Some it => [it] | None => [] end.

Lemma u16_item_ok v : item_ok (IUint16 (u16 v)) = true.
Proof. cbn. unfold u16. pose proof (Z.mod_pos_bound v (2 ^ 16) ltac:(lia)). lia. Qed.

Lemma write_response_ok fd resp_type req_type d s :
  open_for_write s fd -> (forall it, d = Some it -> item_ok it = true) ->
  exists s', write_response fd resp_type req_type d s = Ret RESULT_SUCCESS s' /\
    appends fd (flat_map encode_item (response_items resp_type req_type d)) s s'.
Proof.
  intros Ho Hd. unfold write_response.
  destruct (write_cbor_item_ok fd (IUint16 (u16 resp_type)) "response type" s Ho (u16_item_ok _))
    as (s1 & H1 & A1). mstep_with H1. cbn [negb Z.eqb RESULT_SUCCESS].
  pose proof (appends_open _ _ _ _ A1 Ho) as Ho1.
  destruct (write_cbor_item_ok fd (IUint16 (u16 req_type)) "request type" s1 Ho1 (u16_item_ok _))
    as (s2 & H2 & A2). mstep_with H2. cbn [negb Z.eqb].
  pose proof (appends_open _ _ _ _ A2 Ho1) as Ho2. cbn [response_items flat_map].
  destruct d as [it|].
  - destruct (write_cbor_item_ok fd it "response data" s2 Ho2 (Hd it eq_refl)) as (s3 & H3 & A3).
    exists s3. split; [exact H3|]. cbn [flat_map]. rewrite app_nil_r.
    eapply appends_trans; [exact A1|]. eapply appends_trans; eassumption.
  - exists s2. split; [done|]. cbn [flat_map]. rewrite app_nil_r.
    eapply appends_trans; eassumption.
Qed.

Lemma write_error_response_ok fd req_type s :
  open_for_write s fd -> Z.of_nat (length (errmsg (e_rt s))) < 2 ^ 64 ->
  exists s', write_error_response fd req_type s = Ret RESULT_SUCCESS s' /\
    appends fd (flat_map encode_item (response_items (Z_of_response UDI_RESP_ERROR) req_type
                  (Some (IMap [(IString (cstr "msg"), IString (errmsg (e_rt s)))])))) s s'.
Proof.
  intros Ho Hl. unfold write_error_response. mstep.
  set (d := IMap [(IString (cstr "msg"), IString (errmsg (e_rt s)))]).
  apply Z.ltb_lt in Hl.
  assert (Hok : item_ok d = true) by (cbn [item_ok forallb d]; rewrite Hl; reflexivity).
  destruct (write_response_ok fd (Z_of_response UDI_RESP_ERROR) req_type (Some d) s Ho)
    as (s1 & H1 & A1); [intros it [= <-]; exact Hok|].
  mstep_with H1. mstep. eexists. split; [reflexivity|].
  destruct A1 as (B1 & B2 & B3). split; [|split; [exact B2|exact B3]].
  cbn. rewrite B1. now destruct (e_rt s).
Qed.
End Responses.

(** ** Theorems *)

Section RequestTheorems.
Context `{LC : Libc} `{CO : LibcborOk}.

(** C24: reading the data of a well-formed request. When the bytes in front
    of the descriptor, cut up in any way, are a map with as many entries as
    the configuration has items, each a key that selects an item and a value
    that item accepts, then [read_request_data] succeeds with the request
    the entries describe, whatever their order and encoding widths, and has
    consumed exactly the map. *)
Theorem read_request_data_roundtrip (D : Type) (items : list (msg_item D))
    (fs : list (list Z * cbor_event * (D -> D))) (d : D) (fd : Z) (bs rest : list Z) (e : Z) (s : env) :
  stream (request_events fs) bs -> Forall (fun '(k, ev, f) => field items k ev f) fs ->
  fs <> [] -> length fs = length items -> Z.of_nat (length bs) < 2 ^ 64 ->
  allocs (e_rt s) = [] -> readable_fd s fd (bs ++ rest) e ->
  exists s', read_request_data fd items d s = Ret (RESULT_SUCCESS, apply_fields fs d) s' /\
    only_reads fd s s' /\ readable_fd s' fd rest e.
Proof. intros. eapply read_request_data_ok; eauto. Qed.

Lemma request_type_feed v ev t type :
  ev = EUint8 v \/ ev = EUint16 v ->
  feeds request_type_callbacks (initial_state type) t [ev] (RState true None 0 false v) t.
Proof. intros [->| ->]; now apply feed_last. Qed.

Lemma read_request_type_ok v ev h rest fd e s type :
  ev = EUint8 v \/ ev = EUint16 v -> encodes ev h -> allocs (e_rt s) = [] ->
  Z.of_nat (length h) < 2 ^ 64 -> readable_fd s fd (h ++ rest) e ->
  exists s', read_request_type fd type s = Ret (RESULT_SUCCESS, v) s' /\
    only_reads fd s s' /\ readable_fd s' fd rest e.
Proof.
  intros Hev He Ha Hl Hr.
  destruct (read_cbor_items_feed request_type_callbacks fd [ev] h rest e (initial_state type) _ _ s
              (stream_one ev h He) (request_type_feed v ev (e_rt s) type Hev) Hl Ha Hr)
    as (s' & [Hrt Hcs] & Hr' & Hrd).
  exists s'. unfold read_request_type. mstep_with Hrd. split; [done|]. split; [|done].
  rewrite <- Hrt in Hcs. destruct s'. exact Hcs.
Qed.

Lemma request_type_total : total_callbacks request_type_callbacks.
Proof.
  assert (Hinv : forall ev r t, exists r' t', @invalid_callbacks LC Z ev r t = Ret r' t').
  { intros ev r t. unfold invalid_callbacks, set_invalid_error.
    rewrite (bind_Ret _ _ _ _ _ (set_errmsg_ok "received unexpected data item of type %s"
               [VStr (cstr (event_name ev))] t ltac:(fmt_ok))). unfold ret. eauto. }
  intros ev r t. destruct ev; cbn [request_type_callbacks]; try apply Hinv; unfold ret; eauto.
Qed.

(** C25: whatever bytes a debugger sends, reading a request type returns: with
    the type, with a failure, or with an error once the stream has ended.
    The loop over partial items cannot run forever. *)
Theorem read_request_type_returns (fd type e : Z) (bs : list Z) (s : env) :
  readable_fd s fd bs e -> e <> 0 ->
  exists result v s', read_request_type fd type s = Ret (result, v) s' /\
    (result = RESULT_SUCCESS \/ result = RESULT_FAILURE \/ result = RESULT_ERROR).
Proof.
  intros Hr He.
  destruct (read_cbor_items_total request_type_callbacks fd e (initial_state type) s bs
              request_type_total He Hr) as ([result r] & s' & Hrd).
  unfold read_request_type. mstep_with Hrd. unfold ret.
  destruct (negb (result =? 0)); [eauto 8|]. destruct (error r); eauto 8.
Qed.

(** C26: a response reaches the debugger as it was meant: on a descriptor that
    accepts writes, in pieces or interrupted, exactly the encoding of the
    response type, the request type and the data is appended, and decoding
    those bytes reports these items again. *)
Theorem write_response_roundtrip (fd resp_type req_type : Z) (d : option cbor_item) (s : env) :
  open_for_write s fd -> (forall it, d = Some it -> item_ok it = true) ->
  0 <= resp_type < 2 ^ 16 -> 0 <= req_type < 2 ^ 16 ->
  exists s' bs, write_response fd resp_type req_type d s = Ret RESULT_SUCCESS s' /\
    appends fd bs s s' /\
    stream (EUint16 resp_type :: EUint16 req_type ::
            match d with Some it => item_events it | None => [] end) bs.
Proof.
  intros Ho Hd Hr Hq. destruct (write_response_ok fd resp_type req_type d s Ho Hd) as (s' & Hw & Hap).
  exists s'. eexists. split; [exact Hw|]. split; [exact Hap|]. unfold response_items.
  assert (u16 resp_type = resp_type) as -> by (apply Z.mod_small; lia).
  assert (u16 req_type = req_type) as -> by (apply Z.mod_small; lia).
  cbn [flat_map].
  apply (stream_app [EUint16 resp_type]); [apply (encode_item_stream (IUint16 resp_type)); cbn; lia|].
  apply (stream_app [EUint16 req_type]); [apply (encode_item_stream (IUint16 req_type)); cbn; lia|].
  destruct d as [it|]; cbn [flat_map]; [|constructor].
  rewrite app_nil_r. apply encode_item_stream. now apply Hd.
Qed.
End RequestTheorems.
