(* ===== verification/Threads.v ===== *)
(** * The thread list: udirt-posix-pthreads.c

    The threads of the debuggee are a linked list of heap blocks, in creation
    order. [thread] has the fields of [struct thread_struct]; of the
    [signal_state] in it the signal, the register context and its validity are
    kept. *)

From stdpp Require Import gmap.
From S2P Require Import Prelude External Types Format Memory Breakpoints Registers.

Record thread : Type := Thread {
  id : Z;
  ts : udi_thread_state_e;
  dead : bool;
  request_handle : Z;
  response_handle : Z;
  control_write : Z;
  control_read : Z;
  control_thread : bool;
  suspend_pending : bool;
  single_step : bool;
  stack_event_pending : bool;
  single_step_bp : option ptr;
  event_signal : Z;
  event_context : ucontext;
  context_valid : bool;
  next_thread : option ptr
}.

Definition set_ts (x : udi_thread_state_e) (t : thread) : thread :=
  Thread (id t) x (dead t) (request_handle t) (response_handle t) (control_write t)
    (control_read t) (control_thread t) (suspend_pending t) (single_step t)
    (stack_event_pending t) (single_step_bp t) (event_signal t) (event_context t)
    (context_valid t) (next_thread t).
Definition set_dead (x : bool) (t : thread) : thread :=
  Thread (id t) (ts t) x (request_handle t) (response_handle t) (control_write t)
    (control_read t) (control_thread t) (suspend_pending t) (single_step t)
    (stack_event_pending t) (single_step_bp t) (event_signal t) (event_context t)
    (context_valid t) (next_thread t).
Definition set_request_handle (x : Z) (t : thread) : thread :=
  Thread (id t) (ts t) (dead t) x (response_handle t) (control_write t)
    (control_read t) (control_thread t) (suspend_pending t) (single_step t)
    (stack_event_pending t) (single_step_bp t) (event_signal t) (event_context t)
    (context_valid t) (next_thread t).
Definition set_response_handle (x : Z) (t : thread) : thread :=
  Thread (id t) (ts t) (dead t) (request_handle t) x (control_write t)
    (control_read t) (control_thread t) (suspend_pending t) (single_step t)
    (stack_event_pending t) (single_step_bp t) (event_signal t) (event_context t)
    (context_valid t) (next_thread t).
Definition set_single_step_flag (x : bool) (t : thread) : thread :=
  Thread (id t) (ts t) (dead t) (request_handle t) (response_handle t) (control_write t)
    (control_read t) (control_thread t) (suspend_pending t) x
    (stack_event_pending t) (single_step_bp t) (event_signal t) (event_context t)
    (context_valid t) (next_thread t).
Definition set_step_bp (x : option ptr) (t : thread) : thread :=
  Thread (id t) (ts t) (dead t) (request_handle t) (response_handle t) (control_write t)
    (control_read t) (control_thread t) (suspend_pending t) (single_step t)
    (stack_event_pending t) x (event_signal t) (event_context t)
    (context_valid t) (next_thread t).
Definition set_event_context (x : ucontext) (t : thread) : thread :=
  Thread (id t) (ts t) (dead t) (request_handle t) (response_handle t) (control_write t)
    (control_read t) (control_thread t) (suspend_pending t) (single_step t)
    (stack_event_pending t) (single_step_bp t) (event_signal t) x
    (context_valid t) (next_thread t).
Definition set_next_thread (x : option ptr) (t : thread) : thread :=
  Thread (id t) (ts t) (dead t) (request_handle t) (response_handle t) (control_write t)
    (control_read t) (control_thread t) (suspend_pending t) (single_step t)
    (stack_event_pending t) (single_step_bp t) (event_signal t) (event_context t)
    (context_valid t) x.

Record thrs : Type := Thrs {
  num_threads : Z;
  threads : option ptr;
  thr_heap : gmap ptr thread;
  thr_fresh : ptr;
  (** the [pthread_sigmask] symbol is linked in *)
  multithread_capable : bool;
  (** [pthread_self()] of the running thread *)
  pthread_self : Z;
  (** what the coming calls of [pipe] yield: descriptors, or a failure *)
  pipes : list (option (Z * Z))
}.

Definition put_threads (n : Z) (t : option ptr) (h : gmap ptr thread) (s : thrs) : thrs :=
  Thrs n t h (thr_fresh s) (multithread_capable s) (pthread_self s) (pipes s).

Definition thr_load (p : ptr) : ST thrs thread := fun s =>
  match thr_heap s !! p with
  | Some t => Ret t s
  | None => Undef UseAfterFree
  end.

Definition thr_update (p : ptr) (f : thread -> thread) : ST thrs unit :=
  let* t := thr_load p in
  modify (fun s => put_threads (num_threads s) (threads s) (<[p := f t]> (thr_heap s)) s).

(** ** Queries *)

Definition get_multithread_capable : ST thrs bool := gets multithread_capable.
Definition get_num_threads : ST thrs Z := gets num_threads.
Definition get_thread_list : ST thrs (option ptr) := gets threads.

Definition get_multithreaded : ST thrs bool :=
  let* c := get_multithread_capable in
  let* n := get_num_threads in
  ret (c && (n >? 1)).

(** [pthread_self] is linked whenever [pthread_sigmask] is. *)
Definition get_user_thread_id : ST thrs Z :=
  let* c := get_multithread_capable in
  if c then gets pthread_self else ret UDI_SINGLE_THREAD_ID.

Definition get_next_thread (thr : ptr) : ST thrs (option ptr) :=
  let* t := thr_load thr in ret (next_thread t).
Definition is_thread_dead (thr : ptr) : ST thrs bool :=
  let* t := thr_load thr in ret (dead t).
Definition get_thread_state (thr : ptr) : ST thrs udi_thread_state_e :=
  let* t := thr_load thr in ret (ts t).
Definition set_thread_state (thr : ptr) (state : udi_thread_state_e) : ST thrs unit :=
  thr_update thr (set_ts state).
Definition get_thread_id (thr : ptr) : ST thrs Z :=
  let* t := thr_load thr in ret (id t).
Definition is_thread_context_valid (thr : ptr) : ST thrs bool :=
  let* t := thr_load thr in ret (context_valid t).
Definition get_thread_context (thr : ptr) : ST thrs ucontext :=
  let* t := thr_load thr in ret (event_context t).
Definition is_single_step (thr : ptr) : ST thrs bool :=
  let* t := thr_load thr in ret (single_step t).
Definition set_single_step (thr : ptr) (x : bool) : ST thrs unit :=
  thr_update thr (set_single_step_flag x).
Definition get_single_step_breakpoint (thr : ptr) : ST thrs (option ptr) :=
  let* t := thr_load thr in ret (single_step_bp t).
Definition set_single_step_breakpoint (thr : ptr) (bp : option ptr) : ST thrs unit :=
  thr_update thr (set_step_bp bp).

(** ** The list *)

(** No list is longer than the heap. *)
Definition thr_fuel (s : thrs) : nat := S (size (thr_heap s)).

(** The loop shared by [find_thread] and [get_current_thread]. *)
Fixpoint find_thread_walk (fuel : nat) (thr : option ptr) (tid : Z) : ST thrs (option ptr) :=
  match fuel with
  | O => running
  | S fuel' =>
      match thr with
      | None => ret None
      | Some p =>
          let* t := thr_load p in
          if id t =? tid then ret (Some p) else find_thread_walk fuel' (next_thread t) tid
      end
  end.

Definition find_thread (tid : Z) : ST thrs (option ptr) :=
  let* thr := gets threads in
  let* fuel := gets thr_fuel in
  find_thread_walk fuel thr tid.

Definition get_current_thread : ST thrs (option ptr) :=
  let* tid := get_user_thread_id in
  let* thr := gets threads in
  let* fuel := gets thr_fuel in
  find_thread_walk fuel thr tid.

(** The loop of [link_thread]. *)
Fixpoint last_thread_walk (fuel : nat) (last_thread cur_thread : option ptr) : ST thrs (option ptr) :=
  match fuel with
  | O => running
  | S fuel' =>
      match cur_thread with
      | None => ret last_thread
      | Some p =>
          let* t := thr_load p in
          last_thread_walk fuel' cur_thread (next_thread t)
      end
  end.

Definition link_thread (new_thr : ptr) : ST thrs unit :=
  let* cur_thread := gets threads in
  let* fuel := gets thr_fuel in
  let* last_thread := last_thread_walk fuel cur_thread cur_thread in
  modify (fun s => put_threads (num_threads s + 1) (threads s) (thr_heap s) s) ;;;
  match last_thread with
  | None => modify (fun s => put_threads (num_threads s) (Some new_thr) (thr_heap s) s)
  | Some la => thr_update la (set_next_thread (Some new_thr))
  end.

(** The result is [None] when [pipe] fails. *)
Definition init_control_pipe : ST thrs (option (Z * Z)) := fun s =>
  if multithread_capable s then
    match pipes s with
    | [] => Ret None s
    | p :: ps => Ret p (Thrs (num_threads s) (threads s) (thr_heap s) (thr_fresh s)
                          (multithread_capable s) (pthread_self s) ps)
    end
  else Ret (Some (-1, -1)) s.

(** [alloc_ok] is the outcome of [udi_malloc]; on Linux
    [allocate_context_data] does not fail. *)
Definition create_thread_struct `{Target} (alloc_ok : bool) (tid : Z) : ST thrs (option ptr) :=
  if negb alloc_ok then ret None
  else
    let* control_pipe := init_control_pipe in
    match control_pipe with
    | None => ret None
    | Some (r, w) => fun s =>
        let new_thr := Thread tid UDI_TS_RUNNING false (-1) (-1) w r false false false false None 0
                         (UContext (replicate (Z.to_nat NGREG) 0)) false None in
        Ret (Some (thr_fresh s))
          (Thrs (num_threads s) (threads s) (<[thr_fresh s := new_thr]> (thr_heap s))
             (S (thr_fresh s)) (multithread_capable s) (pthread_self s) (pipes s))
    end.

Definition create_thread `{Target} (alloc_ok : bool) (tid : Z) : ST thrs (option ptr) :=
  let* new_thr := create_thread_struct alloc_ok tid in
  match new_thr with
  | None => ret None
  | Some new_thr => link_thread new_thr ;;; ret (Some new_thr)
  end.

Definition create_initial_thread `{Target} (alloc_ok : bool) : ST thrs (option ptr) :=
  let* tid := get_user_thread_id in
  create_thread alloc_ok tid.

(** The loop of [destroy_thread]: the previous and the current block. *)
Fixpoint destroy_walk (fuel : nat) (last_thread iter : option ptr) (thr : ptr)
    : ST thrs (option ptr * option ptr) :=
  match fuel with
  | O => running
  | S fuel' =>
      match iter with
      | None => ret (last_thread, None)
      | Some p =>
          if Nat.eqb p thr then ret (last_thread, iter)
          else
            let* t := thr_load p in
            destroy_walk fuel' iter (next_thread t) thr
      end
  end.

(** The result lists the descriptors that are closed. *)
Definition destroy_thread (thr : ptr) : ST thrs (list Z) :=
  let* head := gets threads in
  let* fuel := gets thr_fuel in
  let* (last_thread, iter) := destroy_walk fuel head head thr in
  match iter with
  | None => ret []
  | Some p =>
      (if bool_decide (Some p = head) then
         modify (fun s => put_threads (num_threads s) None (thr_heap s) s)
       else
         match last_thread with
         | None => undef NullDeref
         | Some la =>
             let* t := thr_load p in
             thr_update la (set_next_thread (next_thread t))
         end) ;;;
      let* t := thr_load p in
      modify (fun s => put_threads (num_threads s - 1) (threads s) (delete p (thr_heap s)) s) ;;;
      ret [control_write t; control_read t]
  end.

(** ** The invariant of the list *)

Abbreviation thr_chain := (chain next_thread).

(** The list has the blocks [ps], in order, and [num_threads] counts them. *)
Record thr_inv (s : thrs) (ps : list ptr) : Prop := {
  inv_chain : thr_chain (thr_heap s) (threads s) ps;
  inv_nodup : NoDup ps;
  inv_count : num_threads s = Z.of_nat (length ps);
  inv_fresh : forall p, is_Some (thr_heap s !! p) -> (p < thr_fresh s)%nat
}.

Lemma thr_load_ok s p t : thr_heap s !! p = Some t -> thr_load p s = Ret t s.
Proof. intros H. unfold thr_load. now rewrite H. Qed.

Lemma thr_update_ok s p t f :
  thr_heap s !! p = Some t ->
  thr_update p f s
  = Ret tt (put_threads (num_threads s) (threads s) (<[p := f t]> (thr_heap s)) s).
Proof. intros H. unfold thr_update. now mstep_with (thr_load_ok _ _ _ H). Qed.

Lemma inv_fuel s ps : thr_inv s ps -> (length ps < thr_fuel s)%nat.
Proof.
  intros [Hc Hn _ _]. unfold thr_fuel. pose proof (chain_short _ _ _ Hc Hn). lia.
Qed.

(** An update that keeps the links keeps the list. *)
Lemma thr_update_inv s ps p t f :
  thr_inv s ps -> thr_heap s !! p = Some t -> next_thread (f t) = next_thread t ->
  thr_inv (put_threads (num_threads s) (threads s) (<[p := f t]> (thr_heap s)) s) ps.
Proof.
  intros [Hc Hn Hl Hf] Hp Hnx. split; cbn; try done.
  - eapply chain_frame; [|exact Hc]. intros q b _ Hq. destruct (decide (q = p)) as [->|Hne].
    + simplify_eq. rewrite lookup_insert_eq. eauto.
    + rewrite lookup_insert_ne by done. eauto.
  - intros q Hq. destruct (decide (q = p)) as [->|Hne]; [apply Hf; eauto|].
    rewrite lookup_insert_ne in Hq by done. auto.
Qed.

Lemma find_thread_walk_spec tid s : forall fuel o ps,
  thr_chain (thr_heap s) o ps -> (length ps < fuel)%nat ->
  exists r, find_thread_walk fuel o tid s = Ret r s /\
    match r with
    | Some p => exists t, p ∈ ps /\ thr_heap s !! p = Some t /\ id t = tid
    | None => forall p t, p ∈ ps -> thr_heap s !! p = Some t -> id t <> tid
    end.
Proof.
  intros fuel o ps H. revert fuel.
  induction H as [|p t ps Hp Hc IH]; intros [|fuel] Hf; cbn in Hf; try lia; cbn [find_thread_walk].
  - exists None. split; [done|]. intros p t Hp. inversion Hp.
  - mstep_with (thr_load_ok _ _ _ Hp). destruct (Z.eqb_spec (id t) tid) as [<-|Hne].
    + exists (Some p). split; [done|]. exists t. split; [left|done].
    + destruct (IH fuel ltac:(lia)) as (r & -> & Hr). exists r. split; [done|]. destruct r as [q|].
      * destruct Hr as (u & Hq & Hu & Hid). exists u. split; [now right|done].
      * intros q u Hq Hu. inversion Hq; subst; [congruence|]. eauto.
Qed.

Lemma find_thread_spec tid s ps :
  thr_inv s ps ->
  exists r, find_thread tid s = Ret r s /\
    match r with
    | Some p => exists t, p ∈ ps /\ thr_heap s !! p = Some t /\ id t = tid
    | None => forall p t, p ∈ ps -> thr_heap s !! p = Some t -> id t <> tid
    end.
Proof.
  intros Hi. unfold find_thread. do 2 mstep.
  apply find_thread_walk_spec; [apply Hi|now apply inv_fuel].
Qed.

Lemma last_thread_walk_spec s : forall ps fuel la o,
  thr_chain (thr_heap s) o ps -> (length ps < fuel)%nat ->
  last_thread_walk fuel la o s = Ret (from_option Some la (last ps)) s.
Proof.
  induction ps as [|p ps IH]; intros [|fuel] la o Hc Hf; cbn in Hf; try lia;
    inversion Hc as [|? t ? Hp Hc']; subst; cbn [last_thread_walk]; [done|].
  mstep_with (thr_load_ok _ _ _ Hp). rewrite (IH fuel (Some p) _ Hc') by lia.
  rewrite last_cons. now destruct (last ps).
Qed.

(** [link_thread] appends a block that is not in the list yet. *)
Lemma link_thread_spec s ps new nt :
  thr_inv s ps -> thr_heap s !! new = Some nt -> next_thread nt = None -> new ∉ ps ->
  exists s', link_thread new s = Ret tt s' /\ thr_inv s' (ps ++ [new]) /\
    thr_heap s' !! new = Some nt /\
    (forall q t, thr_heap s !! q = Some t -> exists t', thr_heap s' !! q = Some t' /\ id t' = id t).
Proof.
  intros Hi Hnew Hnn Hni. pose proof (inv_fuel _ _ Hi) as Hf. destruct Hi as [Hc Hnd Hl Hfr].
  unfold link_thread. do 2 mstep.
  mstep_with (last_thread_walk_spec s ps (thr_fuel s) (threads s) (threads s) Hc Hf). mstep.
  assert (Hnd' : NoDup (ps ++ [new])).
  { apply NoDup_app. split; [done|]. split; [|apply NoDup_singleton].
    intros x Hx. rewrite list_elem_of_singleton. congruence. }
  destruct (last ps) as [la|] eqn:Hla; cbn [from_option].
  - apply last_Some in Hla as (ps0 & ->).
    destruct (chain_live _ _ _ la Hc) as [tl Htl]; [set_solver|].
    assert (la <> new) by set_solver.
    rewrite (thr_update_ok _ la tl) by exact Htl. eexists. split; [reflexivity|]. split; [split|]; cbn.
    + rewrite <- app_assoc. now apply (chain_snoc set_next_thread) with nt.
    + done.
    + rewrite Hl, !length_app. cbn. lia.
    + intros q Hq. destruct (decide (q = la)) as [->|Hne]; [apply Hfr; eauto|].
      rewrite lookup_insert_ne in Hq by done. auto.
    + split; [now rewrite lookup_insert_ne|]. intros q t Hq.
      destruct (decide (q = la)) as [->|Hne]; [rewrite lookup_insert_eq; simplify_eq; eauto|].
      rewrite lookup_insert_ne; eauto.
  - apply last_None in Hla as ->. inversion Hc; subst. destruct (threads s); [done|]. cbn.
    eexists. split; [reflexivity|]. split; [split|]; cbn; try done; eauto.
    + econstructor; [exact Hnew|]. rewrite Hnn. constructor.
    + rewrite Hl. done.
Qed.

(** Creating a thread appends it to the list, running, alive and without
    request files, keeps the invariant of the list (the links end, the count
    is right) and all other threads; the new thread's id is found afterwards.
    The walk to the end of the list always ends. *)
Theorem create_thread_appends `{Target} (s : thrs) (ps : list ptr) (tid : Z) (r w : Z) (rest : list (option (Z * Z))) :
  thr_inv s ps -> multithread_capable s = true -> pipes s = Some (r, w) :: rest ->
  exists p s' t, create_thread true tid s = Ret (Some p) s' /\ thr_inv s' (ps ++ [p]) /\
    thr_heap s' !! p = Some t /\ id t = tid /\ ts t = UDI_TS_RUNNING /\ dead t = false /\
    control_read t = r /\ control_write t = w /\
    num_threads s' = num_threads s + 1 /\
    exists q, find_thread tid s' = Ret (Some q) s'.
Proof.
  intros Hi Hm Hp. unfold create_thread, create_thread_struct, init_control_pipe. cbn [negb].
  rewrite bind_assoc. unfold bind at 1. rewrite Hm, Hp. cbv beta iota.
  set (nt := Thread tid UDI_TS_RUNNING _ _ _ _ _ _ _ _ _ _ _ _ _ _).
  set (s1 := Thrs (num_threads s) (threads s) (<[thr_fresh s := nt]> (thr_heap s)) (S (thr_fresh s))
               true (pthread_self s) rest).
  assert (Hfr : thr_heap s !! thr_fresh s = None).
  { destruct (thr_heap s !! thr_fresh s) eqn:E; [|done].
    pose proof (inv_fresh _ _ Hi (thr_fresh s) ltac:(eauto)). lia. }
  assert (Hni : thr_fresh s ∉ ps).
  { intros Hin. apply (chain_live _ _ _ _ (inv_chain _ _ Hi)) in Hin as [? ?]. congruence. }
  assert (Hi1 : thr_inv s1 ps).
  { destruct Hi as [Hc Hnd Hl Hfs]. split; cbn; try done.
    - eapply chain_frame; [|exact Hc]. intros q b _ Hq. exists b. split; [|done].
      rewrite lookup_insert_ne; [done|]. congruence.
    - intros q Hq. destruct (decide (q = thr_fresh s)) as [->|Hne]; [lia|].
      rewrite lookup_insert_ne in Hq by done. apply Hfs in Hq. lia. }
  destruct (link_thread_spec s1 ps (thr_fresh s) nt Hi1) as (s2 & Hlk & Hi2 & Hnt & _);
    [apply lookup_insert_eq|done|done|].
  exists (thr_fresh s), s2, nt. split.
  { unfold bind at 1. cbn [thr_fresh num_threads threads thr_heap multithread_capable pthread_self pipes].
    rewrite ?Hm. fold s1. now rewrite (bind_Ret _ _ _ _ _ Hlk). }
  do 7 (split; [done|]). split.
  { rewrite (inv_count _ _ Hi2), (inv_count _ _ Hi), length_app. cbn. lia. }
  destruct (find_thread_spec tid s2 _ Hi2) as ([q|] & Hq & Hr); [eauto|].
  exfalso. apply (Hr (thr_fresh s) nt); [set_solver|done|done].
Qed.

Lemma destroy_walk_found s thr : forall pre fuel la o post,
  thr_chain (thr_heap s) o (pre ++ thr :: post) -> thr ∉ pre -> (length pre < fuel)%nat ->
  destroy_walk fuel la o thr s = Ret (from_option Some la (last pre), Some thr) s.
Proof.
  induction pre as [|q pre IH]; intros [|fuel] la o post Hc Hni Hf; cbn in Hf; try lia;
    inversion Hc as [|? t ? Hq Hc']; subst; cbn [destroy_walk].
  - now rewrite Nat.eqb_refl.
  - destruct (Nat.eqb_spec q thr) as [->|Hne]; [set_solver|].
    mstep_with (thr_load_ok _ _ _ Hq). rewrite (IH fuel (Some q) _ post Hc') by (try lia; set_solver).
    rewrite last_cons. now destruct (last pre).
Qed.

(** Destroying a thread removes it from the list and from the count, and
    closes its control pipe. The other threads stay in the list unless the
    destroyed one was the first: then the list is empty afterwards, although
    [num_threads] still counts them. *)
Theorem destroy_thread_effect (s : thrs) (pre post : list ptr) (thr : ptr) (t : thread) :
  thr_inv s (pre ++ thr :: post) -> thr_heap s !! thr = Some t ->
  exists s', destroy_thread thr s = Ret [control_write t; control_read t] s' /\
    thr_heap s' !! thr = None /\
    num_threads s' = Z.of_nat (length (pre ++ post)) /\
    (pre <> [] -> thr_inv s' (pre ++ post)) /\
    (pre = [] -> threads s' = None).
Proof.
  intros Hi Ht. pose proof (inv_fuel _ _ Hi) as Hf. destruct Hi as [Hc Hnd Hl Hfr].
  rewrite length_app in Hf, Hl. cbn in Hf, Hl.
  assert (Hni : thr ∉ pre). { apply NoDup_app in Hnd as (_ & Hd & _). intros Hin. apply (Hd _ Hin). left. }
  unfold destroy_thread. do 2 mstep.
  mstep_with (destroy_walk_found s thr pre (thr_fuel s) (threads s) (threads s) post Hc Hni ltac:(lia)).
  pose proof (chain_head_last _ _ _ _ _ Hc Hnd) as Hhead.
  destruct (last pre) as [la|] eqn:Hla; cbn [from_option].
  - rewrite bool_decide_eq_false_2 by (intros He; rewrite <- He in Hhead; destruct Hhead as [Hh _]; discriminate (Hh eq_refl)).
    apply last_Some in Hla as (pre0 & ->). destruct (chain_live _ _ _ la Hc) as [tl Htl]; [set_solver|].
    assert (la <> thr) by set_solver.
    rewrite bind_assoc. mstep_with (thr_load_ok _ _ _ Ht).
    mstep_with (thr_update_ok _ _ _ (set_next_thread (next_thread t)) Htl).
    rewrite (bind_Ret _ _ _ _ _ (thr_load_ok (put_threads (num_threads s) (threads s)
      (<[la := set_next_thread (next_thread t) tl]> (thr_heap s)) s) thr t
      ltac:(cbn; now rewrite lookup_insert_ne))). mstep.
    eexists. split; [reflexivity|]. split; [apply lookup_delete_eq|]. split; [|split; [|now destruct pre0]].
    { cbn. rewrite Hl, !length_app. cbn. lia. }
    intros _. split; cbn.
    + rewrite <- app_assoc in *. now apply (chain_unlink set_next_thread).
    + apply NoDup_app in Hnd as (Hn1 & Hd & Hn2). apply NoDup_cons in Hn2 as [_ Hn2].
      apply NoDup_app. split; [done|]. split; [|done]. intros x Hx Hp. apply (Hd x Hx). now right.
    + rewrite Hl, !length_app. cbn. lia.
    + intros q [b Hq]. apply lookup_delete_Some in Hq as [_ Hq]. apply Hfr.
      destruct (decide (q = la)) as [->|Hne]; [eauto|]. rewrite lookup_insert_ne in Hq; eauto.
  - apply last_None in Hla as ->. rewrite (proj2 Hhead eq_refl).
    rewrite bool_decide_eq_true_2 by done. mstep.
    rewrite (bind_Ret _ _ _ _ _ (thr_load_ok (put_threads (num_threads s) None (thr_heap s) s) thr t Ht)).
    mstep. eexists. split; [reflexivity|]. split; [apply lookup_delete_eq|].
    split; [cbn in *; lia|]. split; [done|]. done.
Qed.

(** C37: the thread list. A list of blocks is looked up, extended and shortened
    as a list: [find_thread] returns a thread with the id, or [NULL] when there
    is none; a created thread is appended, running, alive and with its control
    pipe, and its id is found afterwards; a destroyed one is removed, its control
    pipe closed, and the links and the count of the others are right. The
    exception is the first thread: with it the list is empty, although
    [num_threads] still counts the others. Every walk along the list ends. *)
Theorem thread_list_operations `{Target} (s : thrs) (ps : list ptr) :
  thr_inv s ps ->
  (forall tid, exists o, find_thread tid s = Ret o s /\
     match o with
     | Some p => p ∈ ps /\ exists t, thr_heap s !! p = Some t /\ id t = tid
     | None => forall p t, p ∈ ps -> thr_heap s !! p = Some t -> id t <> tid
     end) /\
  (forall tid r w rest, multithread_capable s = true -> pipes s = Some (r, w) :: rest ->
     exists p s' t, create_thread true tid s = Ret (Some p) s' /\ thr_inv s' (ps ++ [p]) /\
       thr_heap s' !! p = Some t /\ id t = tid /\ ts t = UDI_TS_RUNNING /\ dead t = false /\
       control_read t = r /\ control_write t = w /\ num_threads s' = num_threads s + 1 /\
       exists q, find_thread tid s' = Ret (Some q) s') /\
  (forall pre post thr t, ps = pre ++ thr :: post -> thr_heap s !! thr = Some t ->
     exists s', destroy_thread thr s = Ret [control_write t; control_read t] s' /\
       thr_heap s' !! thr = None /\ num_threads s' = Z.of_nat (length (pre ++ post)) /\
       (pre <> [] -> thr_inv s' (pre ++ post)) /\ (pre = [] -> threads s' = None)).
Proof.
  intros Hi. split; [|split].
  - intros tid. destruct (find_thread_spec tid s ps Hi) as (o & Ho & Hr). exists o. split; [exact Ho|].
    destruct o; [|exact Hr]. destruct Hr as (t & Hp & Ht & Hid). eauto.
  - intros tid r w rest. now apply create_thread_appends.
  - intros pre post thr t ->. now apply destroy_thread_effect.
Qed.

Module ThreadsDemo.
Import RegisterDemo.
Definition no_threads : thrs := Thrs 0 None ∅ 0 true 77 [Some (3, 4); Some (5, 6)].

Lemma no_threads_inv : thr_inv no_threads [].
Proof. split; [constructor|constructor|reflexivity|]. intros p [t Ht]. discriminate. Qed.

Definition thr_block (tid r w : Z) (next : option ptr) : thread :=
  Thread tid UDI_TS_RUNNING false (-1) (-1) w r false false false false None 0
    (UContext (replicate 23 0)) false next.

Definition two_threads : thrs :=
  Thrs 2 (Some 0%nat) {[ 0%nat := thr_block 77 3 4 (Some 1%nat); 1%nat := thr_block 78 5 6 None ]} 2
    true 77 [].

Lemma two_threads_inv : thr_inv two_threads [0%nat; 1%nat].
Proof.
  split.
  - repeat (econstructor; [reflexivity|]). constructor.
  - repeat constructor; set_solver.
  - reflexivity.
  - intros p [t Ht]. cbn [two_threads thr_heap] in Ht.
    apply lookup_insert_Some in Ht as [[<- _]|[_ Ht]]; [cbn; lia|].
    apply lookup_singleton_Some in Ht as [<- _]. cbn. lia.
Qed.

Example created : exists s, create_thread true 77 no_threads = Ret (Some 0%nat) s /\ num_threads s = 1.
Proof. eexists. split; vm_compute; reflexivity. Qed.

Lemma create_thread_appends_witness :
  exists p s', create_thread true 77 no_threads = Ret (Some p) s' /\ thr_inv s' ([] ++ [p]).
Proof.
  destruct (create_thread_appends no_threads [] 77 3 4 [Some (5, 6)] no_threads_inv eq_refl eq_refl)
    as (p & s' & t & Hc & Hi & _).
  exists p, s'. split; [exact Hc|exact Hi].
Defined.

Lemma destroy_thread_effect_witness :
  exists s', destroy_thread 0 two_threads = Ret [4; 3] s' /\ num_threads s' = 1 /\ threads s' = None.
Proof.
  destruct (destroy_thread_effect two_threads [] [1%nat] 0 (thr_block 77 3 4 (Some 1%nat))
              two_threads_inv eq_refl) as (s' & Hd & _ & Hn & _ & Ht).
  exists s'. split; [exact Hd|]. split; [exact Hn|exact (Ht eq_refl)].
Defined.

Lemma thread_list_operations_witness :
  (exists o, find_thread 78 two_threads = Ret o two_threads) /\
  (exists p s', create_thread true 77 no_threads = Ret (Some p) s' /\ thr_inv s' ([] ++ [p])) /\
  exists s', destroy_thread 1 two_threads = Ret [6; 5] s' /\ thr_inv s' [0%nat].
Proof.
  split; [|split].
  - destruct (thread_list_operations two_threads _ two_threads_inv) as (H & _). destruct (H 78) as (o & Ho & _). eauto.
  - destruct (thread_list_operations no_threads _ no_threads_inv) as (_ & H & _).
    destruct (H 77 3 4 [Some (5, 6)] eq_refl eq_refl) as (p & s' & t & Hc & Hi & _). exists p, s'. split; [exact Hc|exact Hi].
  - destruct (thread_list_operations two_threads _ two_threads_inv) as (_ & _ & H).
    destruct (H [0%nat] [] 1%nat (thr_block 78 5 6 None) eq_refl eq_refl) as (s' & Hd & _ & _ & Hi & _).
    exists s'. split; [exact Hd|apply Hi; discriminate].
Defined.
End ThreadsDemo.
