(* ===== verification/State.v ===== *)
(** * The state of the runtime library

    The components keep their state in C globals; [udirt] is all of them. The
    lifting functions run an operation of a component on its part. *)

From Stdlib Require Import String.
From stdpp Require Import gmap.
From S2P Require Import Prelude External Types Format Memory Breakpoints Io Threads.

(** The outcomes of the coming [select] calls: the ready descriptors, an
    interruption, an error, or zero descriptors. *)
Inductive select_event : Type := SelReady (ready : gset Z) | SelIntr | SelErr (errno : Z) | SelZero.

Record udirt : Type := Udirt {
  u_bps : bps;
  u_fds : gmap Z chan;
  u_pipe_failure : bool;
  u_pending : gset Z;
  u_thrs : thrs;
  (** udirt-msg.c *)
  continue_bp : option ptr;
  last_bp_address : Z;
  (** udirt-posix.c and udirt-posix-sys.c *)
  proc_request_handle : Z;
  proc_response_handle : Z;
  events_handle : Z;
  exit_bp : option ptr;
  exiting : bool;
  pass_signal : Z;
  basedir_name : list Z;
  (** signals the process has sent to itself with [kill] *)
  sent_signals : list Z;
  (** the errno of the coming [close], [unlink] and [rmdir] calls; success
      once it is empty *)
  syscalls : list Z;
  selects : list select_event
}.

Definition put_bps (x : bps) (s : udirt) : udirt :=
  Udirt x (u_fds s) (u_pipe_failure s) (u_pending s) (u_thrs s) (continue_bp s) (last_bp_address s)
    (proc_request_handle s) (proc_response_handle s) (events_handle s) (exit_bp s) (exiting s)
    (pass_signal s) (basedir_name s) (sent_signals s) (syscalls s) (selects s).
Definition put_thrs (x : thrs) (s : udirt) : udirt :=
  Udirt (u_bps s) (u_fds s) (u_pipe_failure s) (u_pending s) x (continue_bp s) (last_bp_address s)
    (proc_request_handle s) (proc_response_handle s) (events_handle s) (exit_bp s) (exiting s)
    (pass_signal s) (basedir_name s) (sent_signals s) (syscalls s) (selects s).
Definition put_continue (x : option ptr) (a : Z) (s : udirt) : udirt :=
  Udirt (u_bps s) (u_fds s) (u_pipe_failure s) (u_pending s) (u_thrs s) x a
    (proc_request_handle s) (proc_response_handle s) (events_handle s) (exit_bp s) (exiting s)
    (pass_signal s) (basedir_name s) (sent_signals s) (syscalls s) (selects s).
Definition put_exiting (x : bool) (s : udirt) : udirt :=
  Udirt (u_bps s) (u_fds s) (u_pipe_failure s) (u_pending s) (u_thrs s) (continue_bp s)
    (last_bp_address s) (proc_request_handle s) (proc_response_handle s) (events_handle s)
    (exit_bp s) x (pass_signal s) (basedir_name s) (sent_signals s) (syscalls s) (selects s).
Definition put_exit_bp (x : option ptr) (s : udirt) : udirt :=
  Udirt (u_bps s) (u_fds s) (u_pipe_failure s) (u_pending s) (u_thrs s) (continue_bp s)
    (last_bp_address s) (proc_request_handle s) (proc_response_handle s) (events_handle s)
    x (exiting s) (pass_signal s) (basedir_name s) (sent_signals s) (syscalls s) (selects s).
Definition put_signal (x : Z) (sent : list Z) (s : udirt) : udirt :=
  Udirt (u_bps s) (u_fds s) (u_pipe_failure s) (u_pending s) (u_thrs s) (continue_bp s)
    (last_bp_address s) (proc_request_handle s) (proc_response_handle s) (events_handle s)
    (exit_bp s) (exiting s) x (basedir_name s) sent (syscalls s) (selects s).
Definition put_syscalls (x : list Z) (s : udirt) : udirt :=
  Udirt (u_bps s) (u_fds s) (u_pipe_failure s) (u_pending s) (u_thrs s) (continue_bp s)
    (last_bp_address s) (proc_request_handle s) (proc_response_handle s) (events_handle s)
    (exit_bp s) (exiting s) (pass_signal s) (basedir_name s) (sent_signals s) x (selects s).
Definition put_selects (x : list select_event) (s : udirt) : udirt :=
  Udirt (u_bps s) (u_fds s) (u_pipe_failure s) (u_pending s) (u_thrs s) (continue_bp s)
    (last_bp_address s) (proc_request_handle s) (proc_response_handle s) (events_handle s)
    (exit_bp s) (exiting s) (pass_signal s) (basedir_name s) (sent_signals s) (syscalls s) x.

Definition u_acc (s : udirt) : access := b_acc (u_bps s).
Definition u_rt (s : udirt) : rt := a_rt (u_acc s).

(** The descriptors with the runtime state, as Io.v sees them. *)
Definition get_env (s : udirt) : env := Env (u_rt s) (u_fds s) (u_pipe_failure s) (u_pending s).
Definition put_env (e : env) (s : udirt) : udirt :=
  Udirt (put_acc (put_rt (e_rt e) (u_acc s)) (u_bps s)) (e_fds e) (pipe_write_failure e) (pending e)
    (u_thrs s) (continue_bp s) (last_bp_address s)
    (proc_request_handle s) (proc_response_handle s) (events_handle s) (exit_bp s) (exiting s)
    (pass_signal s) (basedir_name s) (sent_signals s) (syscalls s) (selects s).

Definition on_bps {A} (m : ST bps A) : ST udirt A := zoom u_bps put_bps m.
Definition on_access {A} (m : ST access A) : ST udirt A := on_bps (on_acc m).
Definition on_msg {A} (m : ST rt A) : ST udirt A := on_access (on_rt m).
Definition on_env {A} (m : ST env A) : ST udirt A := zoom get_env put_env m.
Definition on_thrs {A} (m : ST thrs A) : ST udirt A := zoom u_thrs put_thrs m.

Definition set_errmsg `{Libc} (format : string) (args : list va) : ST udirt unit :=
  on_msg (udi_set_errmsg format args).

(** A [close], [unlink] or [rmdir]: its errno, 0 on success. *)
Definition syscall : ST udirt Z := fun s =>
  match syscalls s with
  | [] => Ret 0 s
  | e :: es => Ret e (put_syscalls es s)
  end.

Definition thread_fuel (s : udirt) : nat := thr_fuel (u_thrs s).

(** ** Lifting facts *)

Lemma put_env_get s : put_env (get_env s) s = s.
Proof. now destruct s as [[[? ? ? ? ? ? ? ? ?] ? ? ?] ? ? ? ? ? ? ? ? ? ? ? ? ? ? ? ?]. Qed.

Lemma get_put_env e s : get_env (put_env e s) = e.
Proof. now destruct e. Qed.

Lemma put_put_env e e' s : put_env e (put_env e' s) = put_env e s.
Proof. reflexivity. Qed.

Lemma on_env_Ret {A} (m : ST env A) s a e : m (get_env s) = Ret a e -> on_env m s = Ret a (put_env e s).
Proof. apply zoom_Ret. Qed.

Lemma on_bps_Ret {A} (m : ST bps A) s a b : m (u_bps s) = Ret a b -> on_bps m s = Ret a (put_bps b s).
Proof. apply zoom_Ret. Qed.

Lemma on_thrs_Ret {A} (m : ST thrs A) s a t : m (u_thrs s) = Ret a t -> on_thrs m s = Ret a (put_thrs t s).
Proof. apply zoom_Ret. Qed.

Lemma put_thrs_get s : put_thrs (u_thrs s) s = s.
Proof. now destruct s. Qed.

Lemma put_bps_get s : put_bps (u_bps s) s = s.
Proof. now destruct s. Qed.

Lemma on_access_Ret {A} (m : ST access A) s a x :
  m (u_acc s) = Ret a x -> on_access m s = Ret a (put_bps (put_acc x (u_bps s)) s).
Proof. intros H. apply on_bps_Ret. unfold on_acc. now apply zoom_Ret. Qed.

Definition put_msg (t : rt) (s : udirt) : udirt :=
  put_bps (put_acc (put_rt t (u_acc s)) (u_bps s)) s.

Lemma on_msg_Ret {A} (m : ST rt A) s a t : m (u_rt s) = Ret a t -> on_msg m s = Ret a (put_msg t s).
Proof. intros H. unfold on_msg. apply on_access_Ret. unfold on_rt. now apply zoom_Ret. Qed.

Lemma set_errmsg_Ret `{Libc} format args s :
  is_Some (formatted (cstr format) args) ->
  set_errmsg format args s = Ret tt (put_msg (Rt (errmsg_of format args) (allocs (u_rt s))) s).
Proof. intros Hf. apply on_msg_Ret. now apply set_errmsg_ok. Qed.
