(* ===== verification/Process.v ===== *)
(** * The process around the runtime: state of udirt-posix.c and
    udirt-posix-sys.c that the request layer does not see

    Signal dispositions, the application's actions, the barrier, the names of
    the pipes, and the outcomes of the system calls to come. *)

From Stdlib Require Import String.
From stdpp Require Import gmap.
From S2P Require Import Prelude External Types Format Memory Breakpoints Registers Io Threads State.

(** ** Signals *)

(** [sa_handler] and [sa_sigaction] share a union; [LibEntry] is
    [signal_entry_point], an application's handler is its address. *)
Inductive handler : Type := SIG_DFL | SIG_IGN | LibEntry | AppHandler (addr : Z).

#[global] Instance handler_eq_dec : EqDecision handler.
Proof. solve_decision. Defined.

Record sigact : Type := SigAct { sa_handler : handler; sa_mask : gset Z; sa_flags : Z }.

(** A zeroed [struct sigaction]. *)
Definition zero_action : sigact := SigAct SIG_DFL ∅ 0.

Record app_sigaction : Type := AppSigaction { as_signal : Z; as_action : sigact }.

Record sigs : Type := Sigs {
  real_sigaction_located : bool;  (** [real_sigaction] is not [NULL] *)
  k_actions : gmap Z sigact;   (** the kernel's table; [zero_action] when absent *)
  app_actions : list app_sigaction;
  default_lib_action : sigact;
  app_calls : list (Z * handler * gset Z)
    (** handlers of the application that were called: signal, handler, mask *)
}.

(** ** The environment *)

Inductive fs_event : Type :=
| MkDir (path : list Z) | MkFifo (path : list Z)
| OpenRead (path : list Z) | OpenWrite (path : list Z).

(** The outcomes of the coming system calls; success once a list is empty,
    except for [open] and [fork], which have to yield a number. *)
Record osenv : Type := OsEnv {
  root_env : option (list Z);          (** [getenv("UDI_ROOT_DIR")] *)
  pid : Z;
  dl_results : list (option (list Z)); (** [dlerror] after each [dlsym] *)
  fs_results : list Z;                 (** the errno of [mkdir] and [mkfifo] *)
  fs_log : list fs_event;              (** what has succeeded, [open] included *)
  open_results : list (Z + Z);         (** a descriptor or an errno *)
  fork_results : list Z;
  thread_results : list Z;             (** [real_pthread_create] *)
  kill_results : list Z;               (** [pthread_kill] *)
  killed : list Z;                     (** the threads that were signalled *)
  waits : list (udirt -> udirt)
    (** what the other threads have done to the shared state, each time this
        one has waited on a pipe of the barrier *)
}.

Record paths : Type := Paths {
  UDI_ROOT_DIR : list Z;
  requestfile_name : list Z;
  responsefile_name : list Z;
  eventsfile_name : list Z
}.

(** [struct udi_barrier] *)
Record udi_barrier : Type := UdiBarrier { bar_sync : Z; bar_read : Z; bar_write : Z }.

Record proc : Type := Proc {
  p_u : udirt;
  udi_enabled : bool;
  p_sigs : sigs;
  thread_barrier : udi_barrier;
  p_paths : paths;
  p_os : osenv
}.

Definition put_u (x : udirt) (s : proc) : proc :=
  Proc x (udi_enabled s) (p_sigs s) (thread_barrier s) (p_paths s) (p_os s).
Definition put_enabled (x : bool) (s : proc) : proc :=
  Proc (p_u s) x (p_sigs s) (thread_barrier s) (p_paths s) (p_os s).
Definition put_sigs (x : sigs) (s : proc) : proc :=
  Proc (p_u s) (udi_enabled s) x (thread_barrier s) (p_paths s) (p_os s).
Definition put_barrier (x : udi_barrier) (s : proc) : proc :=
  Proc (p_u s) (udi_enabled s) (p_sigs s) x (p_paths s) (p_os s).
Definition put_paths (x : paths) (s : proc) : proc :=
  Proc (p_u s) (udi_enabled s) (p_sigs s) (thread_barrier s) x (p_os s).
Definition put_os (x : osenv) (s : proc) : proc :=
  Proc (p_u s) (udi_enabled s) (p_sigs s) (thread_barrier s) (p_paths s) x.

Definition on_u {A} (m : ST udirt A) : ST proc A := zoom p_u put_u m.
Definition on_sigs {A} (m : ST sigs A) : ST proc A := zoom p_sigs put_sigs m.
Definition on_os {A} (m : ST osenv A) : ST proc A := zoom p_os put_os m.

Definition mask_op (how : sig_how) (new_set : option (gset Z)) : ST proc (Z * gset Z) :=
  on_u (on_access (setsigmask how new_set)).

Definition errmsg_op `{Libc} (format : string) (args : list va) : ST proc unit :=
  on_u (set_errmsg format args).

Lemma on_u_Ret {A} (m : ST udirt A) s a u : m (p_u s) = Ret a u -> on_u m s = Ret a (put_u u s).
Proof. apply zoom_Ret. Qed.

(** ** System calls *)

Definition next_or {A} (d : A) (l : list A) : A * list A :=
  match l with [] => (d, []) | x :: l => (x, l) end.

(** [dlsym] followed by [dlerror]. *)
Definition os_dlsym : ST osenv (option (list Z)) := fun s =>
  let '(r, rs) := next_or None (dl_results s) in
  Ret r (OsEnv (root_env s) (pid s) rs (fs_results s) (fs_log s) (open_results s) (fork_results s)
           (thread_results s) (kill_results s) (killed s) (waits s)).

(** [mkdir] and [mkfifo]: the errno, 0 on success. *)
Definition os_make (ev : fs_event) : ST osenv Z := fun s =>
  let '(e, es) := next_or 0 (fs_results s) in
  Ret e (OsEnv (root_env s) (pid s) (dl_results s) es
           (if e =? 0 then fs_log s ++ [ev] else fs_log s)
           (open_results s) (fork_results s) (thread_results s) (kill_results s) (killed s) (waits s)).

Definition ENOENT : Z := 2.

Definition os_open (ev : fs_event) : ST osenv (Z + Z) := fun s =>
  let '(r, rs) := next_or (inr ENOENT) (open_results s) in
  Ret r (OsEnv (root_env s) (pid s) (dl_results s) (fs_results s)
           (match r with inl _ => fs_log s ++ [ev] | inr _ => fs_log s end) rs (fork_results s)
           (thread_results s) (kill_results s) (killed s) (waits s)).

(** [fork]: the pid of the child, 0 in the child, -1 on failure. *)
Definition os_fork : ST osenv Z := fun s =>
  let '(r, rs) := next_or (-1) (fork_results s) in
  Ret r (OsEnv (root_env s) (pid s) (dl_results s) (fs_results s) (fs_log s) (open_results s) rs
           (thread_results s) (kill_results s) (killed s) (waits s)).

Definition os_pthread_create : ST osenv Z := fun s =>
  let '(r, rs) := next_or 0 (thread_results s) in
  Ret r (OsEnv (root_env s) (pid s) (dl_results s) (fs_results s) (fs_log s) (open_results s)
           (fork_results s) rs (kill_results s) (killed s) (waits s)).

Definition os_pthread_kill (tid : Z) : ST osenv Z := fun s =>
  let '(r, rs) := next_or 0 (kill_results s) in
  Ret r (OsEnv (root_env s) (pid s) (dl_results s) (fs_results s) (fs_log s) (open_results s)
           (fork_results s) (thread_results s) rs
           (if r =? 0 then killed s ++ [tid] else killed s) (waits s)).

(** Waiting: the other threads run. *)
Definition os_wait : ST osenv (udirt -> udirt) := fun s =>
  let '(r, rs) := next_or (fun u => u) (waits s) in
  Ret r (OsEnv (root_env s) (pid s) (dl_results s) (fs_results s) (fs_log s) (open_results s)
           (fork_results s) (thread_results s) (kill_results s) (killed s) rs).

Definition wait_for_others : ST proc unit :=
  let* f := on_os os_wait in
  modify (fun s => put_u (f (p_u s)) s).
