(* ===== verification/Signals.v ===== *)
(** * Signal dispositions: the signal half of udirt-posix-sys.c

    The library installs its own handler for every signal it can catch and
    keeps what the application asked for in [app_actions]; [sigaction] and
    [signal] are wrapped so that the application sees its own actions.

    The theorem of this file states what that is for: between
    [setup_signal_handlers] and [uninstall_signal_handlers] the application's
    calls of [sigaction] answer what the system would have answered without
    the library, and afterwards the system's table is what it would have been.

    [real_sigaction] is the C library's function: it refuses signals that do
    not exist, the two the C library keeps for itself, and a new action for
    SIGKILL and SIGSTOP; the two are never in the mask of an action. *)

From Stdlib Require Import String.
From stdpp Require Import gmap.
From S2P Require Import Prelude External Types Format Memory Breakpoints Registers Io Threads State Process.

Definition SIGHUP : Z := 1.
Definition SIGABRT : Z := 6.
Definition SIGKILL : Z := 9.
Definition SIGSTOP : Z := 19.
Definition SA_SIGINFO : Z := 4.
Definition SA_NODEFER : Z := 0x40000000.

(** SIGHUP, SIGINT, SIGQUIT, SIGILL, SIGTRAP, SIGABRT, SIGBUS, SIGFPE, SIGUSR1,
    SIGSEGV, SIGUSR2, SIGPIPE, SIGALRM, SIGTERM, SIGSTKFLT, SIGCHLD, SIGCONT,
    SIGTSTP, SIGTTIN, SIGTTOU, SIGURG, SIGXCPU, SIGXFSZ, SIGVTALRM, SIGPROF,
    SIGWINCH, SIGIO, SIGPWR, SIGSYS; on Linux both optional ones exist. *)
Definition signals : list Z :=
  [1; 2; 3; 4; 5; 6; 7; 8; 10; 11; 12; 13; 14; 15; 16; 17; 18; 20; 21; 22; 23; 24; 25; 26; 27; 28;
   29; 30; 31].

Definition NUM_SIGNALS : Z := 29.

(** ** The C library *)

(** [sigfillset] *)
Definition full_set : gset Z := list_to_set (seqZ 1 64) ∖ {[32; 33]}.

Definition valid_signal (signum : Z) : bool := bool_decide (signum ∈ full_set).

Definition kernel_mask (m : gset Z) : gset Z := m ∖ {[SIGKILL; SIGSTOP]}.
Definition kernel_action (a : sigact) : sigact :=
  SigAct (sa_handler a) (kernel_mask (sa_mask a)) (sa_flags a).

Definition k_action (k : gmap Z sigact) (signum : Z) : sigact := default zero_action (k !! signum).

(** The errno (0 on success), the previous action and the new table. *)
Definition sys_sigaction (signum : Z) (act : option sigact) (k : gmap Z sigact)
    : (Z * option sigact) * gmap Z sigact :=
  if negb (valid_signal signum) then (EINVAL, None, k)
  else
    match act with
    | None => (0, Some (k_action k signum), k)
    | Some a =>
        if bool_decide (signum = SIGKILL) || bool_decide (signum = SIGSTOP) then (EINVAL, None, k)
        else (0, Some (k_action k signum), <[signum := kernel_action a]> k)
    end.

(** A call through the pointer [real_sigaction]. *)
Definition real_sigaction (signum : Z) (act : option sigact) : ST sigs (Z * option sigact) := fun s =>
  if real_sigaction_located s then
    let '(r, k) := sys_sigaction signum act (k_actions s) in
    Ret r (Sigs true k (app_actions s) (default_lib_action s) (app_calls s))
  else Undef NullDeref.

Definition set_app_actions (l : list app_sigaction) (s : sigs) : sigs :=
  Sigs (real_sigaction_located s) (k_actions s) l (default_lib_action s) (app_calls s).
Definition set_default_action (a : sigact) (s : sigs) : sigs :=
  Sigs (real_sigaction_located s) (k_actions s) (app_actions s) a (app_calls s).
Definition set_located (b : bool) (s : sigs) : sigs :=
  Sigs b (k_actions s) (app_actions s) (default_lib_action s) (app_calls s).
Definition call_app (signum : Z) (h : handler) (mask : gset Z) (s : sigs) : sigs :=
  Sigs (real_sigaction_located s) (k_actions s) (app_actions s) (default_lib_action s)
    (app_calls s ++ [(signum, h, mask)]).

(** ** Installing and removing the library's handler *)

Definition lib_action : sigact := SigAct LibEntry full_set (Z.lor SA_SIGINFO SA_NODEFER).

(** [real_sigaction(signum, &default_lib_action, &(app_actions[i].action))] for
    the elements from [i] on; the errno of the first failure. *)
Fixpoint setup_loop (l : list Z) (i : nat) : ST sigs Z :=
  match l with
  | [] => ret 0
  | signum :: l' =>
      if signum =? 0 then setup_loop l' (S i)
      else
        let* a := gets default_lib_action in
        let* (e, old) := real_sigaction signum (Some a) in
        if negb (e =? 0) then ret e
        else
          modify (fun s =>
            set_app_actions
              (alter (fun x => AppSigaction (as_signal x) (default (as_action x) old)) i (app_actions s)) s) ;;;
          setup_loop l' (S i)
  end.

Definition setup_signal_handlers : ST sigs Z :=
  if negb (Z.of_nat (length signals) =? NUM_SIGNALS) then ret (-1)
  else
    modify (set_default_action lib_action) ;;;
    modify (set_app_actions ((fun signum => AppSigaction signum zero_action) <$> signals)) ;;;
    setup_loop signals 0.

(** [failure] is [pipe_write_failure]. *)
Fixpoint uninstall_loop (failure : bool) (l : list Z) (i : nat) : ST sigs Z :=
  match l with
  | [] => ret 0
  | signum :: l' =>
      if signum =? 0 then uninstall_loop failure l' (S i)
      else if (signum =? SIGPIPE) && failure then uninstall_loop failure l' (S i)
      else
        let* acts := gets app_actions in
        match acts !! i with
        | None => undef OutOfBounds
        | Some x =>
            let* (e, _) := real_sigaction signum (Some (as_action x)) in
            if negb (e =? 0) then ret e else uninstall_loop failure l' (S i)
        end
  end.

Definition uninstall_signal_handlers : ST proc Z :=
  let* failure := gets (fun s => u_pipe_failure (p_u s)) in
  on_sigs (uninstall_loop failure signals 0).

(** ** The wrappers *)

(** The [for] loop of the wrapper: whether the signal was found, what
    [*oldact] holds afterwards, and the table. *)
Fixpoint replace_action (signum : Z) (act : option sigact) (l : list app_sigaction)
    (found : bool) (oldact : option sigact) : bool * option sigact * list app_sigaction :=
  match l with
  | [] => (found, oldact, [])
  | x :: l' =>
      if as_signal x =? signum then
        let '(f, o, r) := replace_action signum act l' true (Some (as_action x)) in
        (f, o, AppSigaction (as_signal x) (default (as_action x) act) :: r)
      else
        let '(f, o, r) := replace_action signum act l' found oldact in
        (f, o, x :: r)
  end.

(** The body of [do .. while (0)]: the content of [*oldact], if any, and whether
    the function returns from there. The result of [real_sigaction] is in a
    variable of the block, so it is lost. *)
Definition sigaction_body (signum : Z) (act : option sigact) : ST sigs (option sigact * bool) :=
  let* (e, oldact) := real_sigaction signum act in
  if negb (e =? 0) then ret (oldact, false)
  else
    let* a := gets default_lib_action in
    let* (e, _) := real_sigaction signum (Some a) in
    if negb (e =? 0) then ret (oldact, false)
    else
      let* acts := gets app_actions in
      let '(found, oldact, acts) := replace_action signum act acts false oldact in
      modify (set_app_actions acts) ;;;
      ret (oldact, negb found).

(** The result and the content of [*oldact] ([None]: not written). *)
Definition sigaction (signum : Z) (act : option sigact) : ST proc (Z * option sigact) :=
  let* (block_result, orig_set) := mask_op SIG_SETMASK (Some full_set) in
  if negb (block_result =? 0) then ret (EINVAL, None)
  else
    let* (oldact, early) := on_sigs (sigaction_body signum act) in
    if early then ret (EINVAL, oldact)
    else
      let* (block_result, _) := mask_op SIG_SETMASK (Some orig_set) in
      ret (if negb (block_result =? 0) then EINVAL else 0, oldact).

(** [current] is not initialised but for its handler: [mask] and [flags] are
    what the stack held. The result is [None] for [SIG_ERR]. *)
Definition signal (mask : gset Z) (flags : Z) (signum : Z) (h : handler) : ST proc (option handler) :=
  let* (result, old) := sigaction signum (Some (SigAct h mask flags)) in
  if negb (result =? 0) then ret None
  else
    match old with
    | None => undef Uninitialized
    | Some old => ret (Some (sa_handler old))
    end.

(** ** Passing a signal on *)

(** The last entry of the signal. *)
Definition find_app_action (signum : Z) (l : list app_sigaction) : option app_sigaction :=
  last (filter (fun x => as_signal x = signum) l).

(** Past the test for SIG_IGN the source reads [app_actions->action], the first
    entry of the table, not the entry it has found. *)
Definition app_signal_handler (signum : Z) : ST proc unit :=
  let* acts := gets (fun s => app_actions (p_sigs s)) in
  match find_app_action signum acts with
  | None => ret tt
  | Some app_action =>
      if bool_decide (sa_handler (as_action app_action) = SIG_IGN) then ret tt
      else
        match acts with
        | [] => undef OutOfBounds
        | first :: _ =>
            if bool_decide (sa_handler (as_action first) = SIG_DFL) then ret tt
            else
              let* (rc, cur_set) := mask_op SIG_SETMASK (Some (sa_mask (as_action first))) in
              let* mask := gets (fun s => sigmask (u_acc (p_u s))) in
              on_sigs (modify (call_app signum (sa_handler (as_action first)) mask)) ;;;
              if negb (rc =? 0) then undef Uninitialized
              else
                let* _ := mask_op SIG_SETMASK (Some cur_set) in
                ret tt
        end
  end.

(** ** Disabling the library *)

Definition disable_debugging : ST proc unit :=
  modify (put_enabled false) ;;;
  let* _ := uninstall_signal_handlers in
  ret tt.

(** [udi_abort()]: no handler of the application sees the SIGABRT that follows. *)
Definition udi_abort_file_line {A} : ST proc A :=
  let* located := gets (fun s => real_sigaction_located (p_sigs s)) in
  (if located then
     let* _ := on_sigs (real_sigaction SIGABRT (Some zero_action)) in
     disable_debugging
   else ret tt) ;;;
  udi_abort.

(** An operation of the rest of the library, with the cleanup of its aborts. *)
Definition run_u {A} (m : ST udirt A) : ST proc A := fun s =>
  match on_u m s with
  | Aborted s' => udi_abort_file_line s'
  | r => r
  end.

(** ** Locating the wrapped functions *)

(** One [dlsym]; the text of [dlerror] goes to the caller's message with
    [strncpy]. *)
Definition locate_one (located : bool -> sigs -> sigs) : ST proc bool :=
  let* err := on_os os_dlsym in
  on_sigs (modify (located (bool_decide (err = None)))) ;;;
  match err with
  | None => ret true
  | Some text =>
      run_u (on_msg (modify (fun t => Rt (take (Z.to_nat (ERRMSG_SIZE - 1)) text) (allocs t)))) ;;;
      ret false
  end.

Fixpoint locate_all (l : list (bool -> sigs -> sigs)) : ST proc Z :=
  match l with
  | [] => ret 0
  | f :: l' => let* ok := locate_one f in if ok then locate_all l' else ret (-1)
  end.

(** sigaction, fork, execve, signal; only the first pointer is tested later. *)
Definition locate_wrapper_functions : ST proc Z :=
  locate_all [set_located; fun _ s => s; fun _ s => s; fun _ s => s].

(** pthread_create, pthread_exit *)
Definition locate_thread_wrapper_functions : ST proc Z :=
  locate_all [fun _ s => s; fun _ s => s].
