(* ===== verification/SignalSpec.v ===== *)
(** * The library is invisible in the application's signal dispositions *)

From Stdlib Require Import String.
From stdpp Require Import gmap.
From S2P Require Import Prelude External Types Format Memory Breakpoints Registers Io Threads State.
From S2P Require Import Process Signals.

(** ** The system without the library *)

Definition call : Type := Z * option sigact.

(** The answers of a sequence of calls, and the table they leave. *)
Fixpoint bare_calls (cs : list call) (k : gmap Z sigact) : list (Z * option sigact) * gmap Z sigact :=
  match cs with
  | [] => ([], k)
  | (n, act) :: cs =>
      let '(r, k) := sys_sigaction n act k in
      let '(rs, k) := bare_calls cs k in
      (r :: rs, k)
  end.

(** The same calls, through the wrapper. *)
Fixpoint wrapped_calls (cs : list call) : ST proc (list (Z * option sigact)) :=
  match cs with
  | [] => ret []
  | (n, act) :: cs =>
      let* r := sigaction n act in
      let* rs := wrapped_calls cs in
      ret (r :: rs)
  end.

(** ** Actions the system keeps as they are *)

Definition clean (a : sigact) : Prop := kernel_action a = a.
Definition clean_call (c : call) : Prop := from_option clean True (c.2).

Lemma kernel_action_clean a : clean (kernel_action a).
Proof. unfold clean, kernel_action, kernel_mask. cbn. f_equal. set_solver. Qed.

Lemma zero_action_clean : clean zero_action.
Proof. reflexivity. Qed.

Lemma k_action_insert k n a m :
  k_action (<[n := a]> k) m = if decide (m = n) then a else k_action k m.
Proof.
  unfold k_action. destruct (decide (m = n)) as [->|Hn].
  - now rewrite lookup_insert_eq.
  - now rewrite lookup_insert_ne by done.
Qed.

(** ** The signals of the table *)

Lemma signals_nodup : NoDup signals.
Proof. by apply (bool_decide_eq_true_1 _). Qed.

(** A signal whose action can be replaced. *)
Definition catchable (n : Z) : Prop :=
  valid_signal n = true /\ n <> SIGKILL /\ n <> SIGSTOP /\ n <> 0.

Lemma signals_catchable : Forall catchable signals.
Proof. unfold catchable. by apply (bool_decide_eq_true_1 _). Qed.

Lemma signal_catchable n : n ∈ signals -> catchable n.
Proof. intros H. pose proof signals_catchable as F. rewrite Forall_forall in F. auto. Qed.

Lemma sys_sigaction_set n a k :
  catchable n ->
  sys_sigaction n (Some a) k = (0, Some (k_action k n), <[n := kernel_action a]> k).
Proof.
  intros (Hv & Hk & Hs & _). unfold sys_sigaction. rewrite Hv. cbn [negb].
  now rewrite !bool_decide_false by done.
Qed.

Lemma sys_sigaction_get n k : catchable n -> sys_sigaction n None k = (0, Some (k_action k n), k).
Proof. intros (Hv & _). unfold sys_sigaction. now rewrite Hv. Qed.

(** ** The table of the application *)

(** The table that holds the action [f n] for each signal [n] of [l]. *)
Definition table (f : Z -> sigact) (l : list Z) : list app_sigaction :=
  (fun n => AppSigaction n (f n)) <$> l.
#[global] Arguments table : simpl never.

Lemma table_cons f n l : table f (n :: l) = AppSigaction n (f n) :: table f l.
Proof. reflexivity. Qed.

Lemma table_ext f g l : (forall n, n ∈ l -> f n = g n) -> table f l = table g l.
Proof. intros H. apply list_fmap_ext. intros i n Hn. f_equal. apply H. eapply list_elem_of_lookup_2, Hn. Qed.

Lemma replace_action_table f n act l found old :
  replace_action n act (table f l) found old =
  (found || bool_decide (n ∈ l),
   if decide (n ∈ l) then Some (f n) else old,
   table (fun m => if decide (m = n) then default (f n) act else f m) l).
Proof.
  revert found old. induction l as [|m l IH]; intros found old.
  { cbn. now rewrite orb_false_r. }
  rewrite !table_cons. cbn.
  destruct (Z.eqb_spec m n) as [->|Hm].
  - rewrite IH. cbn. rewrite (bool_decide_true (n ∈ n :: l)) by left.
    rewrite (decide_True (P := n ∈ n :: l)) by left. rewrite orb_true_r. cbn.
    rewrite (decide_True (P := n = n)) by done. now destruct (decide (n ∈ l)).
  - rewrite IH, (decide_False (P := m = n)) by done.
    rewrite (bool_decide_ext (n ∈ m :: l) (n ∈ l)) by set_solver.
    repeat f_equal. destruct (decide (n ∈ l)), (decide (n ∈ m :: l)); set_solver.
Qed.

(** ** The invariant

    [k] is the table the system would have without the library. *)

Record hidden (k : gmap Z sigact) (s : sigs) : Prop := {
  hid_located : real_sigaction_located s = true;
  hid_default : default_lib_action s = lib_action;
  hid_table : app_actions s = table (k_action k) signals;
  hid_in : forall n, n ∈ signals -> k_action (k_actions s) n = kernel_action lib_action;
  hid_out : forall n, n ∉ signals -> k_action (k_actions s) n = k_action k n
}.

Definition clean_table (k : gmap Z sigact) : Prop := forall n, clean (k_action k n).

Lemma clean_table_call n act k :
  clean_table k -> from_option clean True act -> clean_table (sys_sigaction n act k).2.
Proof.
  intros Hk Ha m. unfold sys_sigaction. destruct (negb _); [apply Hk|].
  destruct act as [a|]; [|apply Hk]. cbn in *. destruct (_ || _); [apply Hk|]. cbn.
  rewrite k_action_insert. destruct (decide _); [apply kernel_action_clean|apply Hk].
Qed.

(** ** Setting up *)

Lemma real_sigaction_set n a s :
  real_sigaction_located s = true -> catchable n ->
  real_sigaction n (Some a) s =
  Ret (0, Some (k_action (k_actions s) n))
      (Sigs true (<[n := kernel_action a]> (k_actions s)) (app_actions s) (default_lib_action s)
         (app_calls s)).
Proof. intros Hl Hn. unfold real_sigaction. now rewrite Hl, sys_sigaction_set. Qed.

Definition installed (l : list Z) (a : sigact) (k : gmap Z sigact) : gmap Z sigact :=
  foldl (fun k n => <[n := kernel_action a]> k) k l.
#[global] Arguments installed : simpl never.

Lemma k_action_installed l a k n :
  k_action (installed l a k) n = if decide (n ∈ l) then kernel_action a else k_action k n.
Proof.
  revert k. induction l as [|m l IH]; intros k; [done|].
  change (installed (m :: l) a k) with (installed l a (<[m := kernel_action a]> k)).
  rewrite IH, k_action_insert. destruct (decide (n ∈ l)), (decide (n = m)), (decide (n ∈ m :: l)); set_solver.
Qed.

Lemma setup_loop_table l pre s k0 :
  NoDup (pre ++ l) -> Forall catchable l -> real_sigaction_located s = true ->
  (forall n, n ∈ l -> k_action (k_actions s) n = k_action k0 n) ->
  app_actions s = table (k_action k0) pre ++ table (fun _ => zero_action) l ->
  setup_loop l (length pre) s =
  Ret 0 (Sigs true (installed l (default_lib_action s) (k_actions s))
           (table (k_action k0) (pre ++ l)) (default_lib_action s) (app_calls s)).
Proof.
  revert pre s. induction l as [|n l IH]; intros pre s Hnd Hc Hl Hk Ha.
  { destruct s; cbn in *. subst. unfold ret, table. now rewrite !app_nil_r. }
  apply Forall_cons in Hc as [Hn Hc]. pose proof Hn as (_ & _ & _ & Hz). cbn.
  rewrite (proj2 (Z.eqb_neq n 0)) by done. rewrite bind_gets.
  mstep_with (real_sigaction_set n (default_lib_action s) s Hl Hn). cbn [Z.eqb negb]. mstep_prim.
  cbn. rewrite Ha, alter_app_r_alt by (unfold table; rewrite length_fmap; lia).
  rewrite table_cons. unfold table at 2. rewrite length_fmap, Nat.sub_diag. cbn.
  rewrite (Hk n) by left. replace (S (length pre)) with (length (pre ++ [n])) by (rewrite length_app; cbn; lia).
  rewrite IH; cbn; rewrite <-?(assoc_L (++)); try done.
  - intros m Hm. rewrite k_action_insert, decide_False; [apply Hk; now right|].
    apply NoDup_app in Hnd as (_ & _ & Hnd). apply NoDup_cons in Hnd as [Hnd _]. congruence.
  - unfold table. now rewrite fmap_app, <- (assoc_L (++)).
Qed.

Lemma setup_hides s :
  real_sigaction_located s = true ->
  exists s', setup_signal_handlers s = Ret 0 s' /\ hidden (k_actions s) s' /\ app_calls s' = app_calls s.
Proof.
  intros Hl. unfold setup_signal_handlers. cbn [negb length signals Z.of_nat NUM_SIGNALS].
  rewrite (proj2 (Z.eqb_eq _ _)) by done. cbn [negb]. do 2 mstep_prim.
  rewrite (setup_loop_table signals [] _ (k_actions s) signals_nodup signals_catchable); try done.
  eexists. split; [done|]. split; [|done]. constructor; cbn; try done.
  - intros n Hn. now rewrite k_action_installed, decide_True.
  - intros n Hn. now rewrite k_action_installed, decide_False.
Qed.

(** ** A call through the wrapper *)

Lemma sys_sigaction_on_table n act k :
  n ∈ signals -> (sys_sigaction n act k).1 = (0, Some (k_action k n)).
Proof.
  intros Hn. apply signal_catchable in Hn. destruct act.
  - now rewrite sys_sigaction_set.
  - now rewrite sys_sigaction_get.
Qed.

Lemma sys_sigaction_table n act k m :
  n ∈ signals -> from_option clean True act ->
  k_action (sys_sigaction n act k).2 m = if decide (m = n) then default (k_action k n) act else k_action k m.
Proof.
  intros Hn Ha. apply signal_catchable in Hn. destruct act as [a|].
  - rewrite sys_sigaction_set by done. cbn. rewrite k_action_insert.
    destruct (decide _); [exact Ha|done].
  - rewrite sys_sigaction_get by done. cbn. destruct (decide (m = n)) as [->|]; done.
Qed.

Lemma sigaction_body_hidden n act k s :
  n ∈ signals -> from_option clean True act -> hidden k s ->
  exists s', sigaction_body n act s = Ret (Some (k_action k n), false) s' /\
             hidden (sys_sigaction n act k).2 s' /\ app_calls s' = app_calls s.
Proof.
  intros Hn Ha [Hl Hd Ht Hin Hout]. pose proof (signal_catchable n Hn) as Hc.
  assert (exists k1, real_sigaction n act s =
    Ret (0, Some (kernel_action lib_action))
        (Sigs true k1 (app_actions s) (default_lib_action s) (app_calls s)) /\
    forall m, m <> n -> k_action k1 m = k_action (k_actions s) m) as (k1 & E1 & Hk1).
  { unfold real_sigaction. rewrite Hl. destruct act as [a|].
    - rewrite sys_sigaction_set, Hin by done. eexists. split; [done|]. intros m Hm.
      now rewrite k_action_insert, decide_False.
    - rewrite sys_sigaction_get, Hin by done. eauto. }
  unfold sigaction_body. mstep_with E1. cbn [Z.eqb negb]. mstep_prim. cbn [default_lib_action].
  rewrite Hd. mstep_with (real_sigaction_set n lib_action
    (Sigs true k1 (app_actions s) lib_action (app_calls s)) eq_refl Hc).
  cbn [Z.eqb negb]. mstep_prim. cbn [app_actions]. rewrite Ht, replace_action_table.
  rewrite bool_decide_true, decide_True by done. mstep_prim. cbn.
  eexists. split; [reflexivity|]. split; [|done]. constructor; cbn; try done.
  - apply table_ext. intros m Hm. now rewrite sys_sigaction_table.
  - intros m Hm. rewrite k_action_insert. destruct (decide _) as [->|Hne]; [done|].
    rewrite Hk1; auto.
  - intros m Hm. rewrite k_action_insert, sys_sigaction_table by done.
    destruct (decide (m = n)) as [->|Hne]; [done|]. rewrite Hk1; auto.
Qed.

(** The signal mask can be set. *)
Definition mask_ok (s : proc) : Prop := sigmask_rc (u_acc (p_u s)) = [].

Definition with_mask (m : gset Z) (s : proc) : proc :=
  put_u (put_bps (put_acc (put_sigmask m [] (u_acc (p_u s))) (u_bps (p_u s))) (p_u s)) s.

Lemma mask_op_set m s :
  mask_ok s -> mask_op SIG_SETMASK (Some m) s = Ret (0, sigmask (u_acc (p_u s))) (with_mask m s).
Proof.
  intros Hm. unfold mask_op. rewrite (on_u_Ret _ _ (0, sigmask (u_acc (p_u s)))
    (put_bps (put_acc (put_sigmask m [] (u_acc (p_u s))) (u_bps (p_u s))) (p_u s))); [done|].
  apply on_access_Ret. unfold setsigmask. unfold mask_ok in Hm. now rewrite Hm.
Qed.

Lemma with_mask_back m s :
  mask_ok s -> with_mask (sigmask (u_acc (p_u s))) (with_mask m s) = s.
Proof.
  unfold mask_ok, with_mask. intros Hm. destruct s as [[[[] ? ? ?] ? ? ? ? ? ? ? ? ? ? ? ? ? ? ? ?]].
  cbn in *. now subst.
Qed.

Lemma sigaction_hidden n act k s :
  n ∈ signals -> from_option clean True act -> mask_ok s -> hidden k (p_sigs s) ->
  exists x, sigaction n act s = Ret (sys_sigaction n act k).1 (put_sigs x s) /\
            hidden (sys_sigaction n act k).2 x /\ app_calls x = app_calls (p_sigs s).
Proof.
  intros Hn Ha Hm Hh. destruct (sigaction_body_hidden n act k _ Hn Ha Hh) as (x & E & Hx & Hc).
  exists x. split; [|done]. unfold sigaction. mstep_with (mask_op_set full_set s Hm).
  cbn [Z.eqb negb]. unfold on_sigs.
  mstep_with (zoom_Ret p_sigs put_sigs (sigaction_body n act) (with_mask full_set s) _ _ E).
  rewrite (bind_Ret _ _ _ _ _ (mask_op_set _ (put_sigs x (with_mask full_set s)) eq_refl)).
  cbn [Z.eqb negb]. rewrite sys_sigaction_on_table by done. unfold ret. f_equal.
  change (with_mask ?m (put_sigs x ?t)) with (put_sigs x (with_mask m t)).
  now rewrite with_mask_back.
Qed.

Lemma put_sigs_id s : put_sigs (p_sigs s) s = s.
Proof. now destruct s. Qed.

Lemma wrapped_calls_hidden cs k s :
  Forall (fun c => c.1 ∈ signals /\ clean_call c) cs -> mask_ok s -> hidden k (p_sigs s) ->
  exists x, wrapped_calls cs s = Ret (bare_calls cs k).1 (put_sigs x s) /\
            hidden (bare_calls cs k).2 x /\ app_calls x = app_calls (p_sigs s).
Proof.
  revert k s. induction cs as [|[n act] cs IH]; intros k s Hcs Hm Hh.
  { exists (p_sigs s). rewrite put_sigs_id. auto. }
  apply Forall_cons in Hcs as [[Hn Ha] Hcs]. cbn in Hn, Ha.
  destruct (sigaction_hidden n act k s Hn Ha Hm Hh) as (x & E & Hx & Hc).
  destruct (IH (sys_sigaction n act k).2 (put_sigs x s) Hcs Hm Hx) as (y & E' & Hy & Hc').
  exists y. cbn. mstep_with E. mstep_with E'.
  destruct (sys_sigaction n act k) as [r k1]. cbn in *. destruct (bare_calls cs k1) as [rs k2]. cbn in *.
  split; [done|]. split; [done|]. congruence.
Qed.

Lemma bare_calls_clean cs k :
  Forall clean_call cs -> clean_table k -> clean_table (bare_calls cs k).2.
Proof.
  revert k. induction cs as [|[n act] cs IH]; intros k Hcs Hk; [done|].
  apply Forall_cons in Hcs as [Ha Hcs]. cbn.
  pose proof (clean_table_call n act k Hk Ha) as Hk1.
  destruct (sys_sigaction n act k) as [r k1]. specialize (IH k1 Hcs Hk1).
  now destruct (bare_calls cs k1).
Qed.

(** ** Taking the handlers out *)

Definition skipped (failure : bool) (n : Z) : Prop := n = SIGPIPE /\ failure = true.

Lemma uninstall_loop_table failure f l pre s :
  NoDup (pre ++ l) -> Forall catchable l -> real_sigaction_located s = true ->
  (forall n, clean (f n)) -> app_actions s = table f (pre ++ l) ->
  exists k, uninstall_loop failure l (length pre) s =
            Ret 0 (Sigs true k (app_actions s) (default_lib_action s) (app_calls s)) /\
  forall n, (n ∈ l -> ~ skipped failure n -> k_action k n = f n) /\
            (n ∉ l \/ skipped failure n -> k_action k n = k_action (k_actions s) n).
Proof.
  revert pre s. induction l as [|n l IH]; intros pre s Hnd Hc Hl Hf Ha.
  { exists (k_actions s). split; [destruct s; cbn in *; now subst|]. set_solver. }
  apply Forall_cons in Hc as [Hn Hc]. pose proof Hn as (_ & _ & _ & Hz). cbn.
  rewrite (proj2 (Z.eqb_neq n 0)) by done.
  assert (n ∉ l) as Hnl.
  { apply NoDup_app in Hnd as (_ & _ & Hnd). now apply NoDup_cons in Hnd as [Hnd _]. }
  replace (S (length pre)) with (length (pre ++ [n])) by (rewrite length_app; cbn; lia).
  assert (pre ++ n :: l = (pre ++ [n]) ++ l) as Happ by (now rewrite <- (assoc_L (++))).
  rewrite Happ in Hnd, Ha.
  destruct ((n =? SIGPIPE) && failure) eqn:Esk.
  - assert (skipped failure n) as Hsk by (unfold skipped; split; [lia|now destruct failure; rewrite ?andb_false_r in Esk]).
    destruct (IH (pre ++ [n]) s Hnd Hc Hl Hf Ha) as (k & E & Hk). exists k. split; [done|].
    intros m. destruct (Hk m) as [H1 H2]. split.
    + intros [->|Hm]%elem_of_cons Hns; [done|auto].
    + intros [Hm|Hm]; apply H2; [left; set_solver|now right].
  - assert (~ skipped failure n) as Hns.
    { intros [-> ->]. discriminate. }
    rewrite bind_gets. assert (app_actions s !! length pre = Some (AppSigaction n (f n))) as ->.
    { rewrite Ha. unfold table. rewrite list_lookup_fmap, <- Happ, lookup_app_r, Nat.sub_diag by lia. done. }
    cbn [as_action].
    mstep_with (real_sigaction_set n (f n) s Hl Hn). cbn [Z.eqb negb].
    rewrite (Hf n). edestruct (IH (pre ++ [n])) as (k & E & Hk); [done|done| |done| |].
    3: { exists k. rewrite E. split; [done|]. intros m. destruct (Hk m) as [H1 H2]. cbn in H2.
         rewrite k_action_insert in H2. split.
         - intros [->|Hm]%elem_of_cons Hs; [|auto]. rewrite H2 by auto. now rewrite decide_True.
         - intros Hm. rewrite H2.
           + rewrite decide_False; [done|]. intros ->. destruct Hm; [set_solver|done].
           + destruct Hm; [left; set_solver|now right]. }
    + done.
    + done.
Qed.

Lemma uninstall_reveals k s :
  hidden k (p_sigs s) -> clean_table k ->
  exists x, uninstall_signal_handlers s = Ret 0 (put_sigs x s) /\
  forall n, ~ skipped (u_pipe_failure (p_u s)) n -> k_action (k_actions x) n = k_action k n.
Proof.
  intros [Hl Hd Ht Hin Hout] Hk.
  destruct (uninstall_loop_table (u_pipe_failure (p_u s)) (k_action k) signals [] (p_sigs s)
    signals_nodup signals_catchable Hl Hk Ht) as (k' & E & Hk').
  eexists. split.
  - unfold uninstall_signal_handlers. mstep_prim. unfold on_sigs. apply zoom_Ret, E.
  - intros n Hs. cbn. destruct (Hk' n) as [H1 H2]. destruct (decide (n ∈ signals)) as [Hn|Hn].
    + auto.
    + rewrite H2 by auto. auto.
Qed.

(** ** The properties *)

(** C11: set up the handlers, let the application make any calls of [sigaction]
    on the signals of the table, and take the handlers out again. Every call
    answers what the system would have answered without the library; meanwhile
    every signal of the table goes to the library, and the runtime state, the
    signal mask included, is untouched; afterwards the action of every signal
    is the one the application would have without the library. The exception
    is SIGPIPE after a failed write to the debugger, which stays with the
    library. (The actions in the system's table and those the application
    passes must not name SIGKILL or SIGSTOP in their mask: the system would
    drop them, the library's table does not.) *)
Theorem signals_transparent cs s k :
  real_sigaction_located (p_sigs s) = true -> mask_ok s ->
  k_actions (p_sigs s) = k -> clean_table k ->
  Forall (fun c => c.1 ∈ signals /\ clean_call c) cs ->
  exists x y z,
    on_sigs setup_signal_handlers s = Ret 0 (put_sigs x s) /\
    wrapped_calls cs (put_sigs x s) = Ret (bare_calls cs k).1 (put_sigs y s) /\
    (forall n, n ∈ signals -> k_action (k_actions y) n = kernel_action lib_action) /\
    uninstall_signal_handlers (put_sigs y s) = Ret 0 (put_sigs z s) /\
    forall n, ~ skipped (u_pipe_failure (p_u s)) n ->
      k_action (k_actions z) n = k_action (bare_calls cs k).2 n.
Proof.
  intros Hl Hm <- Hk Hcs. destruct (setup_hides (p_sigs s) Hl) as (x & Ex & Hx & _).
  destruct (wrapped_calls_hidden cs _ (put_sigs x s) Hcs Hm Hx) as (y & Ey & Hy & _).
  destruct (uninstall_reveals (bare_calls cs (k_actions (p_sigs s))).2 (put_sigs y s) Hy) as (z & Ez & Hz).
  { apply bare_calls_clean; [|done]. eapply Forall_impl; [exact Hcs|]. now intros c [_ Hc]. }
  exists x, y, z. split; [unfold on_sigs; now apply zoom_Ret|].
  split; [exact Ey|]. split; [apply (hid_in _ _ Hy)|]. split; [exact Ez|exact Hz].
Qed.

(** The wrapper on signals outside of its table. *)
Lemma sigaction_refused n act k s :
  mask_ok s -> hidden k (p_sigs s) ->
  (sys_sigaction n act (k_actions (p_sigs s))).1 = (EINVAL, None) ->
  sigaction n act s = Ret (0, None) s.
Proof.
  intros Hm Hh E1. unfold sigaction. mstep_with (mask_op_set full_set s Hm). cbn [Z.eqb negb].
  assert (sigaction_body n act (p_sigs s) = Ret (None, false) (p_sigs s)) as E.
  { unfold sigaction_body, real_sigaction, bind. rewrite (hid_located _ _ Hh).
    assert ((sys_sigaction n act (k_actions (p_sigs s))).2 = k_actions (p_sigs s)) as E2.
    { revert E1. unfold sys_sigaction. destruct (negb _); [done|].
      destruct act; [|discriminate]. destruct (_ || _); [done|discriminate]. }
    destruct (sys_sigaction _ _ _) as [r k']. cbn in *. subst. cbn. destruct Hh as [Hl ? ? ? ?].
    destruct (p_sigs s); cbn in *. now subst. }
  unfold on_sigs.
  mstep_with (zoom_Ret p_sigs put_sigs (sigaction_body n act) (with_mask full_set s) _ _ E).
  change (put_sigs (p_sigs s) (with_mask full_set s)) with (with_mask full_set (put_sigs (p_sigs s) s)).
  rewrite put_sigs_id. rewrite (bind_Ret _ _ _ _ _ (mask_op_set _ (with_mask full_set s) eq_refl)).
  cbn [Z.eqb negb]. unfold ret. now rewrite with_mask_back.
Qed.

Lemma sigaction_not_found n act k s :
  mask_ok s -> hidden k (p_sigs s) -> catchable n -> n ∉ signals ->
  exists x, sigaction n act s = Ret (EINVAL, Some (k_action k n)) (with_mask full_set (put_sigs x s)) /\
    k_action (k_actions x) n = kernel_action lib_action /\ app_actions x = app_actions (p_sigs s).
Proof.
  intros Hm [Hl Hd Ht Hin Hout] Hc Hn.
  assert (exists k1, real_sigaction n act (p_sigs s) =
    Ret (0, Some (k_action k n))
        (Sigs true k1 (app_actions (p_sigs s)) (default_lib_action (p_sigs s)) (app_calls (p_sigs s))))
    as (k1 & E1).
  { unfold real_sigaction. rewrite Hl. destruct act as [a|].
    - rewrite sys_sigaction_set, Hout by done. eauto.
    - rewrite sys_sigaction_get, Hout by done. eauto. }
  assert (exists x, sigaction_body n act (p_sigs s) = Ret (Some (k_action k n), true) x /\
    k_action (k_actions x) n = kernel_action lib_action /\ app_actions x = app_actions (p_sigs s))
    as (x & E & Hx).
  { unfold sigaction_body. mstep_with E1. cbn [Z.eqb negb]. mstep_prim. cbn [default_lib_action].
    mstep_with (real_sigaction_set n (default_lib_action (p_sigs s))
      (Sigs true k1 (app_actions (p_sigs s)) (default_lib_action (p_sigs s)) (app_calls (p_sigs s)))
      eq_refl Hc).
    cbn [Z.eqb negb]. mstep_prim. cbn [app_actions]. rewrite Ht, replace_action_table.
    rewrite bool_decide_false, decide_False by done. mstep_prim. eexists. split; [reflexivity|].
    cbn. rewrite k_action_insert, decide_True, Hd by done. split; [done|].
    apply table_ext. intros m Hm'. now rewrite decide_False by congruence. }
  exists x. split; [|exact Hx]. unfold sigaction. mstep_with (mask_op_set full_set s Hm).
  cbn [Z.eqb negb]. unfold on_sigs.
  mstep_with (zoom_Ret p_sigs put_sigs (sigaction_body n act) (with_mask full_set s) _ _ E).
  done.
Qed.

(** The wrapper on the other signals. A call the system refuses (a signal
    that does not exist, or a new action for SIGKILL or SIGSTOP) changes
    nothing but answers 0, success. A call on a signal that exists and is not
    in the library's table (the real-time signals) answers EINVAL, yet leaves
    the library's handler installed for that signal, forgets the action it was
    given, and returns with every signal blocked. *)
Theorem sigaction_outside_table n act k s :
  mask_ok s -> hidden k (p_sigs s) -> n ∉ signals ->
  ((valid_signal n = false \/ (n = SIGKILL \/ n = SIGSTOP) /\ act <> None) ->
   sigaction n act s = Ret (0, None) s) /\
  (catchable n ->
   exists x, sigaction n act s = Ret (EINVAL, Some (k_action k n)) (with_mask full_set (put_sigs x s)) /\
     k_action (k_actions x) n = kernel_action lib_action /\ app_actions x = app_actions (p_sigs s)).
Proof.
  intros Hm Hh Hn. split.
  - intros H. eapply sigaction_refused; [done|done|]. unfold sys_sigaction.
    destruct H as [->|[Hk Ha]]; [done|]. destruct act; [|done]. destruct (negb _); [done|].
    destruct Hk as [-> | ->]; done.
  - intros Hc. now apply sigaction_not_found.
Qed.

(** What a signal that is passed on to the application does. Whatever the signal
    of the table, unless its own action is SIG_IGN it is the first entry of the
    table, the action for SIGHUP, that decides: with its default action nothing
    is called, otherwise the SIGHUP handler is called, with the signal that was
    raised and the mask of that action. *)
Definition passed (k : gmap Z sigact) (n : Z) (s : sigs) : sigs :=
  if bool_decide (sa_handler (k_action k n) = SIG_IGN \/ sa_handler (k_action k SIGHUP) = SIG_DFL) then s
  else call_app n (sa_handler (k_action k SIGHUP)) (sa_mask (k_action k SIGHUP)) s.

Lemma app_signal_handler_spec n k s :
  mask_ok s -> hidden k (p_sigs s) -> n ∈ signals ->
  app_signal_handler n s = Ret tt (put_sigs (passed k n (p_sigs s)) s).
Proof.
  intros Hm Hh Hn. unfold app_signal_handler, passed. mstep_prim. rewrite (hid_table _ _ Hh).
  assert (exists pre, filter (fun x => as_signal x = n) (table (k_action k) signals) =
    pre ++ [AppSigaction n (k_action k n)]) as [pre Ef].
  { clear -Hn. apply list_elem_of_split in Hn as (l1 & l2 & E).
    assert (forall l, n ∉ l -> filter (fun x => as_signal x = n) (table (k_action k) l) = []) as Hno.
    { induction l as [|m l IH]; intros Hl; [done|]. rewrite table_cons, filter_cons_False; [set_solver|].
      cbn. set_solver. }
    pose proof signals_nodup as Hnd. rewrite E in *. apply NoDup_app in Hnd as (_ & H1 & H2).
    apply NoDup_cons in H2 as [H2 _]. exists []. unfold table. rewrite fmap_app, filter_app.
    fold (table (k_action k) l1). rewrite Hno; [|intros H; apply (H1 n H); left].
    cbn. fold (table (k_action k) l2). now rewrite decide_True, Hno. }
  unfold find_app_action. rewrite Ef, last_snoc. cbn [as_action].
  destruct (decide (sa_handler (k_action k n) = SIG_IGN)) as [Hi|Hi].
  { rewrite !bool_decide_true by auto. now rewrite put_sigs_id. }
  rewrite bool_decide_false by done.
  change (table (k_action k) signals) with
    (AppSigaction SIGHUP (k_action k SIGHUP) :: table (k_action k) (tail signals)). cbn [as_action].
  destruct (decide (sa_handler (k_action k SIGHUP) = SIG_DFL)) as [Hd|Hd].
  { rewrite !bool_decide_true by auto. now rewrite put_sigs_id. }
  rewrite !bool_decide_false by (intros H; destruct H || idtac; done).
  mstep_with (mask_op_set (sa_mask (k_action k SIGHUP)) s Hm). mstep_prim. cbn [sigmask].
  set (s1 := with_mask _ s). change (sigmask (u_acc (p_u s1))) with (sa_mask (k_action k SIGHUP)).
  unfold on_sigs. rewrite (bind_Ret _ _ _ tt (put_sigs (call_app n (sa_handler (k_action k SIGHUP))
    (sa_mask (k_action k SIGHUP)) (p_sigs s)) s1)) by reflexivity.
  cbn [Z.eqb negb].
  match goal with |- context [bind (mask_op _ (Some ?m)) _ ?t] =>
    rewrite (bind_Ret _ _ _ _ _ (mask_op_set m t eq_refl)) end.
  unfold ret. f_equal.
  change (with_mask ?m (put_sigs ?x s1)) with (put_sigs x (with_mask m s1)).
  unfold s1. now rewrite with_mask_back.
Qed.

(** The abort of the library is meant to avoid the application's handler of
    SIGABRT; taking its own handlers out puts it back. *)
Lemma abort_keeps_app_handler {A} k s :
  hidden k (p_sigs s) -> clean_table k ->
  exists s', udi_abort_file_line (A := A) s = Aborted s' /\
    udi_enabled s' = false /\ k_action (k_actions (p_sigs s')) SIGABRT = k_action k SIGABRT.
Proof.
  intros Hh Hk. unfold udi_abort_file_line. mstep_prim. rewrite (hid_located _ _ Hh).
  pose proof (hid_located _ _ Hh) as Hl. assert (SIGABRT ∈ signals) as Hs by (by apply (bool_decide_eq_true_1 _)).
  pose proof (real_sigaction_set SIGABRT zero_action _ Hl (signal_catchable _ Hs)) as E.
  unfold on_sigs. unfold bind at 1.
  rewrite (bind_Ret _ _ _ _ _ (zoom_Ret p_sigs put_sigs _ s _ _ E)). unfold disable_debugging.
  mstep_prim. set (s1 := put_enabled _ _).
  destruct (uninstall_loop_table (u_pipe_failure (p_u s1)) (k_action k) signals [] (p_sigs s1)
    signals_nodup signals_catchable eq_refl Hk (hid_table _ _ Hh)) as (k' & E' & Hk').
  assert (uninstall_signal_handlers s1 = Ret 0 (put_sigs (Sigs true k' (app_actions (p_sigs s1))
    (default_lib_action (p_sigs s1)) (app_calls (p_sigs s1))) s1)) as Eu.
  { unfold uninstall_signal_handlers. mstep_prim. unfold on_sigs. now apply zoom_Ret. }
  rewrite (bind_Ret _ _ _ _ _ Eu). eexists. split; [reflexivity|]. split; [reflexivity|].
  cbn. apply (Hk' SIGABRT); [done|]. now intros [? _].
Qed.
