(* ===== verification/Handlers.v ===== *)
(** * Request handlers: udirt-msg.c

    One definition per handler, with the message configuration it reads its
    data with, and the dispatch through the two handler tables. A handler
    returns [RESULT_SUCCESS], [RESULT_FAILURE] (the request was refused) or
    [RESULT_ERROR] (the connection is unusable); the dispatcher turns the last
    two into an error response. *)

From Stdlib Require Import String.
From stdpp Require Import gmap.
From S2P Require Import Prelude External Types Format Memory Breakpoints Registers X86.
From S2P Require Import Io Cbor Requests Threads State.

(** ** Message configurations *)

Section Configs.
Context `{Libc}.

(** A value callback: store into the request's data and complete the item. *)
Definition store_value {D} (num_items : Z) (f : D -> D) (r : rstate D) : ST rt (rstate D) :=
  ret (complete_item num_items
         (RState (done r) (current_item r) (item_count r) (error r) (f (data r)))).

Definition continue_sig_callback (value : Z) : rstate continue_req -> ST rt (rstate continue_req) :=
  store_value 1 (fun _ => {| cr_sig := value |}).

Definition continue_items : list (msg_item continue_req) :=
  [MsgItem (cstr "sig") (fun ev r =>
     match ev with
     | EUint32 v | EUint16 v | EUint8 v => continue_sig_callback v r
     | _ => invalid_callbacks ev r
     end)].

Definition read_addr_callback (value : Z) : rstate read_mem_req -> ST rt (rstate read_mem_req) :=
  store_value 2 (fun d => {| rm_addr := value; rm_len := rm_len d |}).
Definition read_len_callback (value : Z) : rstate read_mem_req -> ST rt (rstate read_mem_req) :=
  store_value 2 (fun d => {| rm_addr := rm_addr d; rm_len := value |}).

Definition read_items : list (msg_item read_mem_req) :=
  [MsgItem (cstr "addr") (fun ev r =>
     match ev with EUint64 v => read_addr_callback v r | _ => invalid_callbacks ev r end);
   MsgItem (cstr "len") (fun ev r =>
     match ev with EUint32 v => read_len_callback v r | _ => invalid_callbacks ev r end)].

Definition write_addr_callback (value : Z) : rstate write_mem_req -> ST rt (rstate write_mem_req) :=
  store_value 2 (fun d => {| wm_addr := value; wm_data := wm_data d; wm_len := wm_len d |}).

(** When the allocation fails the data stay [NULL] and the length 0. *)
Definition write_data_callback (bytes : list Z) (r : rstate write_mem_req)
    : ST rt (rstate write_mem_req) :=
  let* ok := udi_malloc in
  store_value 2 (fun d =>
    if ok then {| wm_addr := wm_addr d; wm_data := Some bytes; wm_len := Z.of_nat (length bytes) |}
    else {| wm_addr := wm_addr d; wm_data := None; wm_len := wm_len d |}) r.

Definition write_items : list (msg_item write_mem_req) :=
  [MsgItem (cstr "addr") (fun ev r =>
     match ev with EUint64 v => write_addr_callback v r | _ => invalid_callbacks ev r end);
   MsgItem (cstr "data") (fun ev r =>
     match ev with EByteString bs => write_data_callback bs r | _ => invalid_callbacks ev r end)].

Definition breakpoint_addr_callback (value : Z) : rstate brkpt_req -> ST rt (rstate brkpt_req) :=
  store_value 1 (fun _ => {| br_addr := value |}).

Definition breakpoint_items : list (msg_item brkpt_req) :=
  [MsgItem (cstr "addr") (fun ev r =>
     match ev with
     | EUint64 v | EUint32 v | EUint16 v | EUint8 v => breakpoint_addr_callback v r
     | _ => invalid_callbacks ev r
     end)].

Definition read_reg_callback (value : Z) : rstate read_reg_req -> ST rt (rstate read_reg_req) :=
  store_value 1 (fun _ => {| rr_reg := value |}).

Definition read_reg_items : list (msg_item read_reg_req) :=
  [MsgItem (cstr "reg") (fun ev r =>
     match ev with EUint16 v | EUint8 v => read_reg_callback v r | _ => invalid_callbacks ev r end)].

Definition write_reg_callback (value : Z) : rstate write_reg_req -> ST rt (rstate write_reg_req) :=
  store_value 2 (fun d => {| wr_reg := value; wr_value := wr_value d |}).
Definition write_reg_value_callback (value : Z) : rstate write_reg_req -> ST rt (rstate write_reg_req) :=
  store_value 2 (fun d => {| wr_reg := wr_reg d; wr_value := value |}).

Definition write_reg_items : list (msg_item write_reg_req) :=
  [MsgItem (cstr "reg") (fun ev r =>
     match ev with EUint16 v | EUint8 v => write_reg_callback v r | _ => invalid_callbacks ev r end);
   MsgItem (cstr "value") (fun ev r =>
     match ev with
     | EUint64 v | EUint32 v | EUint16 v | EUint8 v => write_reg_value_callback v r
     | _ => invalid_callbacks ev r
     end)].

Definition single_step_callback (value : bool)
    : rstate single_step_req -> ST rt (rstate single_step_req) :=
  store_value 1 (fun _ => {| ss_setting := if value then 1 else 0 |}).

Definition single_step_items : list (msg_item single_step_req) :=
  [MsgItem (cstr "value") (fun ev r =>
     match ev with EBoolean b => single_step_callback b r | _ => invalid_callbacks ev r end)].
End Configs.

(** ** Process requests *)

Section Process.
Context `{Libc} `{Libcbor}.

Definition respond (resp_fd : Z) (req : udi_request_type_e) (d : option cbor_item) : ST udirt Z :=
  on_env (write_response resp_fd (Z_of_response UDI_RESP_VALID) (Z_of_request req) d).

Definition read_data {D} (req_fd : Z) (items : list (msg_item D)) (d : D) : ST udirt (Z * D) :=
  on_env (read_request_data req_fd items d).

(** [thread_death_handshake] and the file names of a thread. *)
Definition get_thread_dir (thr : ptr) : ST udirt (option (list Z)) :=
  let* tid := on_thrs (get_thread_id thr) in
  let* base := gets basedir_name in
  match udi_formatted_str (replicate 32 0) 32 "%x" [VInt tid] with
  | None => undef BadFormat
  | Some subdir_name =>
      let sub := c_string subdir_name in
      let dir_length := (length base + 1 + length sub + 1)%nat in
      let* ok := on_msg udi_malloc in
      if negb ok then ret None
      else
        match udi_formatted_str (replicate dir_length 0) (Z.of_nat dir_length) "%s/%s"
                [VStr base; VStr sub] with
        | None => undef BadFormat
        | Some dir => ret (Some (c_string dir))
        end
  end.

Definition get_thread_file (thread_dir : list Z) (filename : string) : ST udirt (option (list Z)) :=
  let file_length := (length thread_dir + 1 + length (cstr filename) + 1)%nat in
  let* ok := on_msg udi_malloc in
  if negb ok then ret None
  else
    match udi_formatted_str (replicate file_length 0) (Z.of_nat file_length) "%s/%s"
            [VStr thread_dir; VStr (cstr filename)] with
    | None => undef BadFormat
    | Some f => ret (Some (c_string f))
    end.

(** The [do { .. } while (0)] of [thread_death_handshake]: remove the pipes
    and the directory; the first failure ends it. *)
Definition remove_thread_files (thr : ptr) : ST udirt Z :=
  let* thread_dir := get_thread_dir thr in
  match thread_dir with
  | None => ret (-1)
  | Some thread_dir =>
      let* response_file := get_thread_file thread_dir RESPONSE_FILE_NAME in
      match response_file with
      | None => ret (-1)
      | Some response_file =>
          let* e := syscall in
          if negb (e =? 0) then
            set_errmsg "failed to unlink %s: %e" [VStr response_file; VInt e] ;;; ret (-1)
          else
            let* request_file := get_thread_file thread_dir REQUEST_FILE_NAME in
            match request_file with
            | None => ret (-1)
            | Some request_file =>
                let* e := syscall in
                if negb (e =? 0) then
                  set_errmsg "failed to unlink %s: %e" [VStr request_file; VInt e] ;;; ret (-1)
                else
                  let* e := syscall in
                  if negb (e =? 0) then
                    set_errmsg "failed to rmdir %s: %e" [VStr thread_dir; VInt e] ;;; ret (-1)
                  else ret 0
            end
      end
  end.

Definition thread_death_handshake (thr : ptr) : ST udirt Z :=
  let* t := on_thrs (thr_load thr) in
  if negb (dead t) then
    set_errmsg "thread %a is not dead, not completing handshake" [VInt (id t)] ;;;
    ret (-1)
  else
    let* e := syscall in
    if negb (e =? 0) then
      set_errmsg "failed to close request handle for thread %a: %e" [VInt (id t); VInt e] ;;;
      ret (-1)
    else
      remove_thread_files thr ;;;
      on_thrs (destroy_thread thr) ;;;
      ret 0.

(** [remove_udi_filesystem] is a stub in the source. *)
Definition post_continue_hook (sig_val : Z) : ST udirt unit :=
  let* ex := gets exiting in
  if negb ex then modify (fun s => put_signal (i32 sig_val) (sent_signals s ++ [sig_val]) s)
  else ret tt.

(** The loop that looks for a thread to continue. *)
Fixpoint some_thread_running (fuel : nat) (iter : option ptr) : ST udirt bool :=
  match fuel with
  | O => running
  | S fuel' =>
      match iter with
      | None => ret false
      | Some thr =>
          let* state := on_thrs (get_thread_state thr) in
          if decide (state = UDI_TS_RUNNING) then ret true
          else
            let* next := on_thrs (get_next_thread thr) in
            some_thread_running fuel' next
      end
  end.

(** The loop that completes the death of threads; [false] when one fails. *)
Fixpoint bury_threads (fuel : nat) (cur_thr : option ptr) : ST udirt bool :=
  match fuel with
  | O => running
  | S fuel' =>
      match cur_thr with
      | None => ret true
      | Some thr =>
          let* next := on_thrs (get_next_thread thr) in
          let* d := on_thrs (is_thread_dead thr) in
          let* rc := (if d then thread_death_handshake thr else ret 0) in
          if negb (rc =? 0) then ret false else bury_threads fuel' next
      end
  end.

Definition continue_handler (req_fd resp_fd : Z) : ST udirt Z :=
  let* (result, req) := read_data req_fd continue_items {| cr_sig := 0 |} in
  if negb (result =? RESULT_SUCCESS) then ret result
  else
    let* iter := on_thrs get_thread_list in
    let* fuel := gets thread_fuel in
    let* can_continue := some_thread_running fuel iter in
    if negb can_continue then
      set_errmsg "cannot continue process, all threads are suspended" [] ;;;
      ret RESULT_FAILURE
    else
      let* cbp := gets continue_bp in
      (** the result of installing the continue breakpoint is only logged *)
      let* _ := (match cbp with
                 | Some bp => on_bps (install_breakpoint bp)
                 | None => ret 0
                 end) in
      let* capable := on_thrs get_multithread_capable in
      let* buried := (if capable then bury_threads fuel iter else ret true) in
      if negb buried then ret RESULT_ERROR
      else
        let* result := respond resp_fd UDI_REQ_CONTINUE None in
        (if result =? RESULT_SUCCESS then post_continue_hook (cr_sig req) else ret tt) ;;;
        ret result.

Definition read_handler (req_fd resp_fd : Z) : ST udirt Z :=
  let* (result, req) := read_data req_fd read_items {| rm_addr := 0; rm_len := 0 |} in
  if negb (result =? RESULT_SUCCESS) then ret result
  else
    let* ok := on_msg udi_malloc in
    if negb ok then
      set_errmsg "failed to allocate memory" [] ;;;
      ret RESULT_ERROR
    else
      let len := Z.to_nat (rm_len req) in
      let* (read_result, memory_read) :=
        on_access (read_memory (replicate len 0) (rm_addr req) len) in
      if negb (read_result =? 0) then
        let* code := gets (fun s => failed_si_code (u_acc s)) in
        set_errmsg "%s" [VStr (cstr (get_mem_errstr code))] ;;;
        ret RESULT_FAILURE
      else
        respond resp_fd UDI_REQ_READ_MEM
          (Some (IMap [(IString (cstr "data"), IByteString memory_read)])).

(** [write_memory] when [req.data] is [NULL], as it is when its allocation has
    failed: the bytes are read from address 0. *)
Definition write_memory_null (dest : Z) (num_bytes : nat) : ST access Z :=
  modify (put_target dest (Z.of_nat num_bytes)) ;;;
  let* (result, _) := udi_memcpy (Debuggee dest) (Debuggee 0) [] num_bytes in
  ret result.

Definition write_handler (req_fd resp_fd : Z) : ST udirt Z :=
  let* (result, req) := read_data req_fd write_items {| wm_addr := 0; wm_data := None; wm_len := 0 |} in
  if negb (result =? RESULT_SUCCESS) then ret result
  else
    let* write_result :=
      on_access (match wm_data req with
                 | Some bytes => write_memory (wm_addr req) bytes (Z.to_nat (wm_len req))
                 | None => write_memory_null (wm_addr req) (Z.to_nat (wm_len req))
                 end) in
    if negb (write_result =? 0) then
      let* code := gets (fun s => failed_si_code (u_acc s)) in
      set_errmsg "%s" [VStr (cstr (get_mem_errstr code))] ;;;
      ret RESULT_FAILURE
    else respond resp_fd UDI_REQ_WRITE_MEM None.

Definition thread_state_map (t : thread) : cbor_item :=
  IMap [(IString (cstr "tid"), IUint64 (u64 (id t)));
        (IString (cstr "state"), IUint16 (Z_of_thread_state (ts t)))].

(** The loop of [state_handler]. *)
Fixpoint thread_states (fuel : nat) (thr : option ptr) : ST udirt (list cbor_item) :=
  match fuel with
  | O => running
  | S fuel' =>
      match thr with
      | None => ret []
      | Some p =>
          let* t := on_thrs (thr_load p) in
          let* rest := thread_states fuel' (next_thread t) in
          ret (thread_state_map t :: rest)
      end
  end.

(** The array has room for [num_threads] states; an item that does not fit
    fails the assertion on [cbor_array_push]. *)
Definition state_handler (req_fd resp_fd : Z) : ST udirt Z :=
  let* num_threads := on_thrs get_num_threads in
  let* thr := on_thrs get_thread_list in
  let* fuel := gets thread_fuel in
  let* states := thread_states fuel thr in
  if Z.of_nat (length states) >? num_threads then udi_abort
  else
  respond resp_fd UDI_REQ_STATE (Some (IMap [(IString (cstr "states"), IArray states)])).

Definition read_breakpoint_addr (req_fd : Z) : ST udirt (Z * Z) :=
  let* (result, req) := read_data req_fd breakpoint_items {| br_addr := 0 |} in
  ret (result, br_addr req).

Definition breakpoint_create_handler (req_fd resp_fd : Z) : ST udirt Z :=
  let* (result, addr) := read_breakpoint_addr req_fd in
  if negb (result =? RESULT_SUCCESS) then ret result
  else
    let* bp := on_bps (find_breakpoint addr) in
    match bp with
    | Some _ =>
        set_errmsg "breakpoint already exists at %a" [VInt addr] ;;;
        ret RESULT_FAILURE
    | None =>
        let* bp := on_bps (create_breakpoint addr) in
        match bp with
        | None =>
            set_errmsg "failed to create breakpoint at %a" [VInt addr] ;;;
            ret RESULT_FAILURE
        | Some _ => respond resp_fd UDI_REQ_CREATE_BREAKPOINT None
        end
    end.

(** The test [bp == NULL] is on the output parameter, not on the breakpoint
    stored there, so it never fails. *)
Definition read_breakpoint (req_fd : Z) : ST udirt (Z * option ptr) :=
  let* (result, addr) := read_breakpoint_addr req_fd in
  if negb (result =? RESULT_SUCCESS) then ret (result, None)
  else
    let* bp := on_bps (find_breakpoint addr) in
    ret (RESULT_SUCCESS, bp).

(** The first thing the operations do is to dereference the breakpoint. *)
Definition deref_breakpoint (bp : option ptr) (op : ptr -> ST bps Z) : ST udirt Z :=
  match bp with
  | None => undef NullDeref
  | Some bp => on_bps (op bp)
  end.

Definition breakpoint_install_handler (req_fd resp_fd : Z) : ST udirt Z :=
  let* (result, bp) := read_breakpoint req_fd in
  if negb (result =? RESULT_SUCCESS) then ret result
  else
    let* result := deref_breakpoint bp install_breakpoint in
    if negb (result =? 0) then ret RESULT_FAILURE
    else respond resp_fd UDI_REQ_INSTALL_BREAKPOINT None.

Definition breakpoint_remove_handler (req_fd resp_fd : Z) : ST udirt Z :=
  let* (result, bp) := read_breakpoint req_fd in
  if negb (result =? RESULT_SUCCESS) then ret result
  else
    let* result := deref_breakpoint bp remove_breakpoint in
    if negb (result =? 0) then ret RESULT_FAILURE
    else respond resp_fd UDI_REQ_REMOVE_BREAKPOINT None.

Definition breakpoint_delete_handler (req_fd resp_fd : Z) : ST udirt Z :=
  let* (result, bp) := read_breakpoint req_fd in
  if negb (result =? RESULT_SUCCESS) then ret result
  else
    let* result := deref_breakpoint bp delete_breakpoint in
    if negb (result =? 0) then ret RESULT_FAILURE
    else respond resp_fd UDI_REQ_REMOVE_BREAKPOINT None.

Definition invalid_handler (req_fd resp_fd : Z) : ST udirt Z :=
  set_errmsg "invalid request for process" [] ;;;
  ret RESULT_ERROR.

Definition request_handlers : list (Z -> Z -> ST udirt Z) :=
  [invalid_handler; continue_handler; read_handler; write_handler;
   invalid_handler; invalid_handler; state_handler; invalid_handler;
   breakpoint_create_handler; breakpoint_install_handler;
   breakpoint_remove_handler; breakpoint_delete_handler;
   invalid_handler; invalid_handler; invalid_handler; invalid_handler].

(** The end of both dispatchers: report the failure to the debugger. *)
Definition report_failure (resp_fd type result : Z) : ST udirt Z :=
  if negb (result =? RESULT_SUCCESS) then
    let* error_result := on_env (write_error_response resp_fd type) in
    if negb (result =? RESULT_ERROR) && (error_result =? RESULT_ERROR) then ret RESULT_ERROR
    else ret result
  else ret result.

(** The result and the value left in [*type]. *)
Definition handle_process_request (req_fd resp_fd type : Z) : ST udirt (Z * Z) :=
  let* (result, type) := on_env (read_request_type req_fd type) in
  let* (result, type) :=
    (if negb (result =? RESULT_SUCCESS) then ret (result, Z_of_request UDI_REQ_INVALID)
     else
       match request_handlers !! Z.to_nat type with
       | None => undef OutOfBounds
       | Some handler => let* result := handler req_fd resp_fd in ret (result, type)
       end) in
  let* result := report_failure resp_fd type result in
  ret (result, type).

(** ** The init handshake *)

Context `{Target}.

Definition init_handler (tid resp_fd : Z) : ST udirt Z :=
  let* capable := on_thrs get_multithread_capable in
  respond resp_fd UDI_REQ_INIT
    (Some (IMap [(IString (cstr "v"), IUint32 get_protocol_version);
                 (IString (cstr "arch"), IUint16 (Z_of_arch get_architecture));
                 (IString (cstr "mt"), IBool capable);
                 (IString (cstr "tid"), IUint64 (u64 tid))])).

(** [callback] opens the response file: its result and the descriptor. It
    changes more than this file knows of, so the handshake runs on a state that
    holds the runtime's; [lift] runs an operation of the runtime there. *)
Definition perform_init_handshake {S} (lift : forall A, ST udirt A -> ST S A) (req_fd : Z)
    (callback : ST S (Z * Z)) (tid : Z) : ST S Z :=
  let* (result, type) := lift _ (on_env (read_request_type req_fd (Z_of_request UDI_REQ_INVALID))) in
  if negb (result =? RESULT_SUCCESS) then ret result
  else
    let* (result, resp_fd) := callback in
    if negb (result =? RESULT_SUCCESS) then ret result
    else if negb (type =? Z_of_request UDI_REQ_INIT) then
      lift _ (set_errmsg "received invalid request type(%s) as init request"
                [VStr (cstr (request_type_str type))] ;;;
              on_env (write_error_response resp_fd type)) ;;;
      ret RESULT_ERROR
    else lift _ (init_handler tid resp_fd).
End Process.

(** ** Thread requests *)

Section ThreadRequests.
Context `{Libc} `{Libcbor} `{Target} `{Udis86}.

Definition read_register_handler (req_fd resp_fd : Z) (thr : ptr) : ST udirt Z :=
  let* (result, req) := read_data req_fd read_reg_items {| rr_reg := 0 |} in
  if negb (result =? RESULT_SUCCESS) then ret result
  else
    let* valid := on_thrs (is_thread_context_valid thr) in
    if negb valid then
      set_errmsg "%s" [VStr (cstr "register context is unavailable")] ;;;
      ret RESULT_FAILURE
    else
      let* context := on_thrs (get_thread_context thr) in
      let* (result, value) := on_msg (get_register (rr_reg req) context) in
      if negb (result =? 0) then ret RESULT_FAILURE
      else
        match value with
        | None => undef Uninitialized
        | Some value =>
            respond resp_fd UDI_REQ_READ_REGISTER
              (Some (IMap [(IString (cstr "value"), IUint64 value)]))
        end.

Definition write_register_handler (req_fd resp_fd : Z) (thr : ptr) : ST udirt Z :=
  let* (result, req) := read_data req_fd write_reg_items {| wr_reg := 0; wr_value := 0 |} in
  if negb (result =? RESULT_SUCCESS) then ret result
  else
    let* valid := on_thrs (is_thread_context_valid thr) in
    if negb valid then
      set_errmsg "%s" [VStr (cstr "register context is unavailable")] ;;;
      ret RESULT_FAILURE
    else
      let* context := on_thrs (get_thread_context thr) in
      let* (result, context) := on_msg (set_register (wr_reg req) (wr_value req) context) in
      on_thrs (thr_update thr (set_event_context context)) ;;;
      if negb (result =? 0) then ret RESULT_FAILURE
      else respond resp_fd UDI_REQ_WRITE_REGISTER None.

Definition thr_state_handler (req_fd resp_fd : Z) (thr : ptr) : ST udirt Z :=
  let* t := on_thrs (thr_load thr) in
  respond resp_fd UDI_REQ_STATE (Some (thread_state_map t)).

Definition next_instr_handler (req_fd resp_fd : Z) (thr : ptr) : ST udirt Z :=
  let* valid := on_thrs (is_thread_context_valid thr) in
  if negb valid then
    set_errmsg "register context unavailable" [] ;;;
    ret RESULT_FAILURE
  else
    let* context := on_thrs (get_thread_context thr) in
    let* pc := of_option OutOfBounds (get_pc context) in
    let* address := on_access (get_ctf_successor pc context) in
    if address =? 0 then
      set_errmsg "failed to determine successor instruction from %a" [VInt pc] ;;;
      ret RESULT_FAILURE
    else
      respond resp_fd UDI_REQ_NEXT_INSTRUCTION
        (Some (IMap [(IString (cstr "addr"), IUint64 address)])).

Definition thr_suspend_handler (req_fd resp_fd : Z) (thr : ptr) : ST udirt Z :=
  on_thrs (set_thread_state thr UDI_TS_SUSPENDED) ;;;
  respond resp_fd UDI_REQ_THREAD_SUSPEND None.

Definition thr_resume_handler (req_fd resp_fd : Z) (thr : ptr) : ST udirt Z :=
  on_thrs (set_thread_state thr UDI_TS_RUNNING) ;;;
  respond resp_fd UDI_REQ_THREAD_RESUME None.

Definition single_step_handler (req_fd resp_fd : Z) (thr : ptr) : ST udirt Z :=
  let* (result, req) := read_data req_fd single_step_items {| ss_setting := 0 |} in
  if negb (result =? RESULT_SUCCESS) then ret result
  else
    let setting := negb (ss_setting req =? 0) in
    let* prev_setting := on_thrs (is_single_step thr) in
    on_thrs (set_single_step thr setting) ;;;
    let* single_step_bp := on_thrs (get_single_step_breakpoint thr) in
    let* failed :=
      (match single_step_bp with
       | Some bp =>
           if negb setting then
             let* rc := on_bps (delete_breakpoint bp) in
             if negb (rc =? 0) then ret true
             else on_thrs (set_single_step_breakpoint thr None) ;;; ret false
           else ret false
       | None => ret false
       end) in
    if failed then ret RESULT_FAILURE
    else
      respond resp_fd UDI_REQ_SINGLE_STEP
        (Some (IMap [(IString (cstr "value"), IBool prev_setting)])).

Definition thr_invalid_handler (req_fd resp_fd : Z) (thr : ptr) : ST udirt Z :=
  set_errmsg "invalid request for thread" [] ;;;
  ret RESULT_ERROR.

Definition thr_request_handlers : list (Z -> Z -> ptr -> ST udirt Z) :=
  [thr_invalid_handler; thr_invalid_handler; thr_invalid_handler; thr_invalid_handler;
   read_register_handler; write_register_handler; thr_state_handler; thr_invalid_handler;
   thr_invalid_handler; thr_invalid_handler; thr_invalid_handler; thr_invalid_handler;
   thr_suspend_handler; thr_resume_handler; next_instr_handler; single_step_handler].

Definition handle_thread_request (req_fd resp_fd : Z) (thr : ptr) (type : Z) : ST udirt (Z * Z) :=
  let* (result, type) := on_env (read_request_type req_fd type) in
  let* (result, type) :=
    (if negb (result =? RESULT_SUCCESS) then ret (result, Z_of_request UDI_REQ_INVALID)
     else
       match thr_request_handlers !! Z.to_nat type with
       | None => undef OutOfBounds
       | Some handler => let* result := handler req_fd resp_fd thr in ret (result, type)
       end) in
  let* result := report_failure resp_fd type result in
  ret (result, type).
End ThreadRequests.
