(* ===== verification/Events.v ===== *)
(** * Events: the event half of udirt-msg.c, and the event breakpoints of
    udirt-posix-sys.c

    An event is reported on the events descriptor: its type, the thread and,
    for some, a map of data. [decode_breakpoint] decides what a breakpoint
    that was hit means, and keeps the protocol that steps over it: the saved
    byte is put back, a breakpoint is created at the successor
    ([continue_bp]), and when that one is hit the original is planted again. *)

From Stdlib Require Import String.
From stdpp Require Import gmap.
From S2P Require Import Prelude External Types Format Memory Breakpoints Registers X86.
From S2P Require Import Io Cbor Requests Threads State Handlers.

Section Events.
Context `{Libc} `{Libcbor}.

(** ** Writing events *)

Definition write_event (fd : Z) (event_type : udi_event_type_e) (tid : Z) (d : option cbor_item)
    : ST udirt Z :=
  let* result := on_env (write_cbor_item fd (IUint16 (u16 (Z_of_event event_type))) "event type") in
  if negb (result =? RESULT_SUCCESS) then ret result
  else
    let* result := on_env (write_cbor_item fd (IUint64 (u64 tid)) "tid") in
    if negb (result =? RESULT_SUCCESS) then ret result
    else
      match d with
      | Some d => on_env (write_cbor_item fd d "event data")
      | None => ret RESULT_SUCCESS
      end.

Definition write_event_no_data (fd : Z) (event_type : udi_event_type_e) (tid : Z) : ST udirt Z :=
  write_event fd event_type tid None.

(** [write_event] on the events descriptor. *)
Definition report_event (event_type : udi_event_type_e) (tid : Z) (d : option cbor_item) : ST udirt Z :=
  let* fd := gets events_handle in
  write_event fd event_type tid d.

Definition handle_thread_death_event (tid : Z) : ST udirt Z :=
  report_event UDI_EVENT_THREAD_DEATH tid None.

(** The status goes into the argument of the item as it is, whatever the
    sign the item is marked with. *)
Definition exit_code_item (status : Z) : cbor_item :=
  if status >=? 0 then IUint32 (u32 status) else INegint32 (u32 status).

Definition handle_exit_event (tid status : Z) : ST udirt Z :=
  report_event UDI_EVENT_PROCESS_EXIT tid
    (Some (IMap [(IString (cstr "code"), exit_code_item status)])).

Definition handle_fork_event (tid pid : Z) : ST udirt Z :=
  report_event UDI_EVENT_PROCESS_FORK tid (Some (IMap [(IString (cstr "pid"), IUint32 (u32 pid))])).

Definition handle_thread_create_event (creator_tid tid : Z) : ST udirt Z :=
  report_event UDI_EVENT_THREAD_CREATE creator_tid
    (Some (IMap [(IString (cstr "tid"), IUint64 (u64 tid))])).

Definition handle_unknown_event (tid : Z) : ST udirt Z :=
  report_event UDI_EVENT_UNKNOWN tid None.

Definition handle_error_event (tid : Z) : ST udirt Z :=
  let* msg := gets (fun s => errmsg (u_rt s)) in
  report_event UDI_EVENT_ERROR tid (Some (IMap [(IString (cstr "msg"), IString msg)])).

(** ** Event breakpoints *)

Context `{Target}.

(** [exit_addr] is the address of [exit] in the debuggee. *)
Definition install_event_breakpoints (exit_addr : Z) : ST udirt Z :=
  let* bp := on_bps (create_breakpoint exit_addr) in
  modify (put_exit_bp bp) ;;;
  match bp with
  | None => ret (-1)
  | Some bp =>
      let* errnum := on_bps (install_breakpoint bp) in
      ret (if negb (errnum =? 0) then -1 else errnum)
  end.

Definition is_event_breakpoint (bp : ptr) : ST udirt bool :=
  let* e := gets exit_bp in
  ret (bool_decide (e = Some bp)).

Definition handle_exit_breakpoint (context : ucontext) : ST udirt Z :=
  let* (result, status) := on_access (get_exit_argument context 0) in
  if negb (result =? RESULT_SUCCESS) then ret result
  else
    modify (put_exiting true) ;;;
    let* tid := on_thrs get_user_thread_id in
    handle_exit_event tid status.

Definition handle_event_breakpoint (bp : ptr) (context : ucontext) : ST udirt Z :=
  let* e := gets exit_bp in
  if bool_decide (e = Some bp) then handle_exit_breakpoint context
  else ret RESULT_ERROR.

(** ** [decode_breakpoint] *)

(** [thr->id] of a thread that may be [NULL]. *)
Definition thread_id (thr : option ptr) : ST udirt Z :=
  match thr with
  | None => undef NullDeref
  | Some thr => on_thrs (get_thread_id thr)
  end.

Definition is_step_breakpoint (thr : option ptr) (bp : ptr) : ST udirt bool :=
  match thr with
  | None => ret false
  | Some thr =>
      let* b := on_thrs (get_single_step_breakpoint thr) in
      ret (bool_decide (b = Some bp))
  end.

(** The program counter is put back onto the breakpoint, in the context of
    the signal and in the one the debugger reads. *)
Definition rewind_contexts (thr : option ptr) (context : ucontext) : ST udirt ucontext :=
  let* context := of_option OutOfBounds (rewind_pc context) in
  match thr with
  | None => ret context
  | Some thr =>
      let* c := on_thrs (get_thread_context thr) in
      let* c := of_option OutOfBounds (rewind_pc c) in
      on_thrs (thr_update thr (set_event_context c)) ;;;
      ret context
  end.

(** A single step has completed. *)
Definition step_breakpoint_hit (thr : option ptr) (bp : ptr) : ST udirt Z :=
  let* delete_result := on_bps (delete_breakpoint bp) in
  if negb (delete_result =? 0) then
    let* b := on_bps (bp_load bp) in
    set_errmsg "failed to delete breakpoint at %a" [VInt (address b)] ;;;
    ret RESULT_ERROR
  else
    match thr with
    | None => undef NullDeref
    | Some thr =>
        let* tid := on_thrs (get_thread_id thr) in
        let* result := report_event UDI_EVENT_SINGLE_STEP tid None in
        on_thrs (set_single_step_breakpoint thr None) ;;;
        ret result
    end.

(** Plant the breakpoint that was stepped over again, when it still should
    be in memory. *)
Definition reinstall_original (result : Z) : ST udirt Z :=
  let* last := gets last_bp_address in
  let* original_bp := on_bps (find_breakpoint last) in
  match original_bp with
  | None => ret result
  | Some bp =>
      modify (fun s => put_continue (continue_bp s) 0 s) ;;;
      let* b := on_bps (bp_load bp) in
      if in_memory b then
        on_bps (bp_update bp (set_in_memory false)) ;;;
        let* install_result := on_bps (install_breakpoint bp) in
        ret (if negb (install_result =? 0) then RESULT_ERROR else result)
      else ret result
  end.

(** The continue breakpoint was hit: the result and whether to wait for a
    request. *)
Definition continue_breakpoint_hit (thr : option ptr) (bp : ptr) : ST udirt (Z * bool) :=
  modify (fun s => put_continue None (last_bp_address s) s) ;;;
  let* delete_result := on_bps (delete_breakpoint bp) in
  let result := if negb (delete_result =? 0) then RESULT_ERROR else RESULT_SUCCESS in
  let* result := reinstall_original result in
  match thr with
  | None => ret (result, false)
  | Some thr =>
      let* step := on_thrs (is_single_step thr) in
      if (result =? RESULT_SUCCESS) && step then
        let* tid := on_thrs (get_thread_id thr) in
        let* result := report_event UDI_EVENT_SINGLE_STEP tid None in
        ret (result, true)
      else ret (result, false)
  end.

Context `{Udis86}.

(** Any other breakpoint was hit. *)
Definition user_breakpoint_hit (thr : option ptr) (bp : ptr) (context : ucontext) (wait_for_request : bool)
    : ST udirt (Z * bool) :=
  let* b := on_bps (bp_load bp) in
  let* successor := on_access (get_ctf_successor (address b) context) in
  if successor =? 0 then ret (RESULT_ERROR, wait_for_request)
  else
    let* cbp := on_bps (create_breakpoint successor) in
    modify (fun s => put_continue cbp (last_bp_address s) s) ;;;
    match cbp with
    | None => ret (RESULT_ERROR, wait_for_request)
    | Some _ =>
        modify (fun s => put_continue (continue_bp s) (address b) s) ;;;
        let* event := is_event_breakpoint bp in
        if event then
          let* result := handle_event_breakpoint bp context in
          ret (result, wait_for_request)
        else
          let* b := on_bps (bp_load bp) in
          if bool_decide (bp_thread b <> None) && bool_decide (bp_thread b <> thr) then
            ret (RESULT_ERROR, false)
          else
            let* tid := thread_id thr in
            let* result := report_event UDI_EVENT_BREAKPOINT tid
              (Some (IMap [(IString (cstr "addr"), IUint64 (u64 (address b)))])) in
            ret (result, wait_for_request)
    end.

(** The result, [*wait_for_request] and the context of the signal. *)
Definition decode_breakpoint (thr : option ptr) (bp : ptr) (context : ucontext) (wait_for_request : bool)
    : ST udirt (Z * bool * ucontext) :=
  let* context := rewind_contexts thr context in
  let* step := is_step_breakpoint thr bp in
  if step then
    let* result := step_breakpoint_hit thr bp in
    ret (result, wait_for_request, context)
  else
    let* remove_result := on_bps (remove_breakpoint_for_continue bp) in
    if negb (remove_result =? 0) then ret (RESULT_ERROR, wait_for_request, context)
    else
      let* cbp := gets continue_bp in
      let* (result, wait) :=
        (if bool_decide (cbp = Some bp) then continue_breakpoint_hit thr bp
         else user_breakpoint_hit thr bp context wait_for_request) in
      ret (result, wait, context).
End Events.
