(* ===== verification/Posix.v ===== *)
(** * The command loop and the trap decoder of udirt-posix.c *)

From Stdlib Require Import String.
From stdpp Require Import gmap.
From S2P Require Import Prelude External Types Format Memory Breakpoints Registers X86.
From S2P Require Import Io Cbor Requests Threads State Handlers Events.

Definition FD_SETSIZE : Z := 1024.

(** [FD_SET]; a descriptor outside the set is an access outside its array. *)
Definition fd_ok (fd : Z) : bool := (0 <=? fd) && (fd <? FD_SETSIZE).

Definition single_thread_executing : ST udirt bool :=
  let* performing := on_access is_performing_mem_access in
  let* cbp := gets continue_bp in
  ret (performing || bool_decide (cbp <> None)).

(** ** [block_for_request] *)

Section Block.

(** The first loop: the descriptors to wait for and the greatest of them. *)
Fixpoint fill_read_set (fuel : nat) (iter : option ptr) (read_set : gset Z) (max_fd : Z)
    : ST udirt (gset Z * Z) :=
  match fuel with
  | O => running
  | S fuel' =>
      match iter with
      | None => ret (read_set, max_fd)
      | Some p =>
          let* t := on_thrs (thr_load p) in
          if negb (dead t) then
            if negb (fd_ok (request_handle t)) then undef OutOfBounds
            else
              fill_read_set fuel' (next_thread t) ({[request_handle t]} ∪ read_set)
                (if request_handle t >? max_fd then request_handle t else max_fd)
          else fill_read_set fuel' (next_thread t) read_set max_fd
      end
  end.

(** The second loop: the first thread with a request. *)
Fixpoint ready_thread (fuel : nat) (iter : option ptr) (changed_set : gset Z) : ST udirt (option ptr) :=
  match fuel with
  | O => running
  | S fuel' =>
      match iter with
      | None => ret None
      | Some p =>
          let* t := on_thrs (thr_load p) in
          if negb (fd_ok (request_handle t)) then undef OutOfBounds
          else if bool_decide (request_handle t ∈ changed_set) then ret (Some p)
          else ready_thread fuel' (next_thread t) changed_set
      end
  end.

(** [select]: a call that never returns when nothing is to come. *)
Definition select_ (nfds : Z) (read_set : gset Z) : ST udirt (Z + gset Z) := fun s =>
  match selects s with
  | [] => Running s
  | SelIntr :: q => Ret (inl EINTR) (put_selects q s)
  | SelErr e :: q => Ret (inl e) (put_selects q s)
  | SelZero :: q => Ret (inr ∅) (put_selects q s)
  | SelReady r :: q => Ret (inr (filter (fun fd => fd < nfds) (r ∩ read_set))) (put_selects q s)
  end.

(** The [do .. while (1)] loop: the result, and the thread, [Some None] being
    the process and [None] "not assigned". *)
Fixpoint select_loop (fuel : nat) (max_fd : Z) (read_set : gset Z) : ST udirt (Z * option (option ptr)) :=
  match fuel with
  | O => running
  | S fuel' =>
      let* r := select_ (max_fd + 1) read_set in
      match r with
      | inl errno =>
          if errno =? EINTR then select_loop fuel' max_fd read_set else ret (RESULT_ERROR, None)
      | inr changed_set =>
          if bool_decide (changed_set = ∅) then ret (RESULT_ERROR, None)
          else
            let* request_handle := gets proc_request_handle in
            if bool_decide (request_handle ∈ changed_set) then ret (RESULT_SUCCESS, Some None)
            else
              let* iter := on_thrs get_thread_list in
              let* wf := gets thread_fuel in
              let* thr := ready_thread wf iter changed_set in
              match thr with
              | Some p => ret (RESULT_SUCCESS, Some (Some p))
              | None => ret (RESULT_ERROR, None)
              end
      end
  end.

Definition select_fuel (s : udirt) : nat := S (length (selects s)).

Definition block_for_request (thr : option ptr) : ST udirt (Z * option ptr) :=
  let* request_handle := gets proc_request_handle in
  if negb (fd_ok request_handle) then undef OutOfBounds
  else
    let* iter := on_thrs get_thread_list in
    let* wf := gets thread_fuel in
    let* (read_set, max_fd) := fill_read_set wf iter {[request_handle]} request_handle in
    let* fuel := gets select_fuel in
    let* (result, found) := select_loop fuel max_fd read_set in
    ret (result, default thr found).
End Block.

(** ** [wait_and_execute_command] *)

Section Commands.
Context `{Libc} `{Libcbor} `{Target} `{Udis86}.

(** The request of one round: the result and the type that was read. *)
Definition execute_request (thr : option ptr) : ST udirt (Z * Z) :=
  match thr with
  | None =>
      let* req := gets proc_request_handle in
      let* resp := gets proc_response_handle in
      handle_process_request req resp (Z_of_request UDI_REQ_INVALID)
  | Some p =>
      let* t := on_thrs (thr_load p) in
      handle_thread_request (request_handle t) (response_handle t) p (Z_of_request UDI_REQ_INVALID)
  end.

Fixpoint command_loop (fuel : nat) (thr : option ptr) : ST udirt (Z * option ptr) :=
  match fuel with
  | O => running
  | S fuel' =>
      let* (result, thr) := block_for_request thr in
      if negb (result =? 0) then
        set_errmsg "failed to wait for request" [] ;;;
        ret (RESULT_ERROR, thr)
      else
        let* (result, type) := execute_request thr in
        let more_reqs :=
          if negb (result =? RESULT_SUCCESS) then
            if result =? RESULT_FAILURE then true
            else if result =? RESULT_ERROR then false
            else true
          else true in
        let more_reqs := if type =? Z_of_request UDI_REQ_CONTINUE then false else more_reqs in
        if more_reqs then command_loop fuel' thr
        else ret (result, thr)
  end.

(** Every round takes a [select] call. *)
Definition wait_and_execute_command (thr : option ptr) : ST udirt (Z * option ptr) :=
  let* fuel := gets select_fuel in
  command_loop fuel thr.

(** ** [decode_trap] *)

Definition decode_trap (thr : option ptr) (context : ucontext) (wait_for_request : bool)
    : ST udirt (Z * bool * ucontext) :=
  let* trap_address := of_option OutOfBounds (get_trap_address context) in
  let* bp := on_bps (find_breakpoint trap_address) in
  match bp with
  | Some bp => decode_breakpoint thr bp context wait_for_request
  | None =>
      set_errmsg "failed to decode trap event at %a" [VInt trap_address] ;;;
      udi_abort
  end.

(** [close] of the response file of a dying thread. The message of a failing
    [close] passes the error number for a string. *)
Definition thread_death_callback (thr : ptr) : ST udirt Z :=
  on_thrs (thr_update thr (set_dead true)) ;;;
  let* t := on_thrs (thr_load thr) in
  let* e := syscall in
  if negb (e =? 0) then
    set_errmsg "failed to close response handle for thread %a: %s" [VInt (id t); VInt e] ;;;
    ret (-1)
  else ret 0.

(** The report of a thread's death, without the log messages. *)
Definition handle_thread_death : ST udirt Z :=
  let* tid := on_thrs get_user_thread_id in
  let* thr := on_thrs (find_thread tid) in
  match thr with
  | None => ret RESULT_ERROR
  | Some thr =>
      let* rc := thread_death_callback thr in
      if negb (rc =? 0) then ret RESULT_ERROR
      else handle_thread_death_event tid
  end.
End Commands.
