(* ===== verification/Sync.v ===== *)
(** * Thread synchronisation and signal entry: udirt-posix.c, as one thread
    runs them

    [block_other_threads] and [release_other_threads] as the calling thread
    executes them, system call by system call, and [signal_entry_impl], the
    handler of every signal, which composes the whole library. Where the thread
    waits on a pipe the other threads run: what they do to the shared state is
    an outcome of the environment ([wait_for_others]). How the threads
    interleave is the subject of Barrier.v. *)

From Stdlib Require Import String.
From stdpp Require Import gmap.
From S2P Require Import Prelude External Types Barrier Format Memory Breakpoints Registers X86.
From S2P Require Import Io Cbor Requests Threads State Process Signals Handlers Events Posix.

Definition set_control_thread (x : bool) (t : thread) : thread :=
  Thread (id t) (ts t) (dead t) (request_handle t) (response_handle t) (control_write t)
    (control_read t) x (suspend_pending t) (single_step t)
    (stack_event_pending t) (single_step_bp t) (event_signal t) (event_context t)
    (context_valid t) (next_thread t).
Definition set_suspend_pending (x : bool) (t : thread) : thread :=
  Thread (id t) (ts t) (dead t) (request_handle t) (response_handle t) (control_write t)
    (control_read t) (control_thread t) x (single_step t)
    (stack_event_pending t) (single_step_bp t) (event_signal t) (event_context t)
    (context_valid t) (next_thread t).
Definition set_stack_event (x : bool) (t : thread) : thread :=
  Thread (id t) (ts t) (dead t) (request_handle t) (response_handle t) (control_write t)
    (control_read t) (control_thread t) (suspend_pending t) (single_step t)
    x (single_step_bp t) (event_signal t) (event_context t)
    (context_valid t) (next_thread t).
Definition set_event_signal (x : Z) (t : thread) : thread :=
  Thread (id t) (ts t) (dead t) (request_handle t) (response_handle t) (control_write t)
    (control_read t) (control_thread t) (suspend_pending t) (single_step t)
    (stack_event_pending t) (single_step_bp t) x (event_context t)
    (context_valid t) (next_thread t).
Definition set_context_valid (x : bool) (t : thread) : thread :=
  Thread (id t) (ts t) (dead t) (request_handle t) (response_handle t) (control_write t)
    (control_read t) (control_thread t) (suspend_pending t) (single_step t)
    (stack_event_pending t) (single_step_bp t) (event_signal t) (event_context t)
    x (next_thread t).

Definition thr_op {A} (m : ST thrs A) : ST proc A := run_u (on_thrs m).
Definition bps_op {A} (m : ST bps A) : ST proc A := run_u (on_bps m).
Definition io_op {A} (m : ST env A) : ST proc A := run_u (on_env m).

(** ** The barrier *)

Definition sentinel : Z := 0x21.

Definition set_sync_var (x : Z) (s : proc) : proc :=
  put_barrier (UdiBarrier x (bar_read (thread_barrier s)) (bar_write (thread_barrier s))) s.

Definition initialize_thread_sync : ST proc Z :=
  modify (set_sync_var 0) ;;;
  let* capable := thr_op get_multithread_capable in
  if capable then
    let* control_pipe := thr_op init_control_pipe in
    match control_pipe with
    | None => ret (-1)
    | Some (r, w) => modify (fun s => put_barrier (UdiBarrier (bar_sync (thread_barrier s)) r w) s) ;;; ret 0
    end
  else
    modify (fun s => put_barrier (UdiBarrier (bar_sync (thread_barrier s)) (-1) (-1)) s) ;;; ret 0.

(** The [while] loop of [read_sentinel]. *)
Fixpoint sentinel_loop (fuel : nat) (fd : Z) : ST proc unit :=
  match fuel with
  | O => running
  | S fuel' =>
      let* r := io_op (sys_read fd 1) in
      match r with
      | inl (trigger :: _) => if negb (trigger =? sentinel) then udi_abort_file_line else ret tt
      | inl [] => udi_abort_file_line
      | inr errno => if errno =? EINTR then sentinel_loop fuel' fd else udi_abort_file_line
      end
  end.

Definition read_sentinel (fd : Z) : ST proc unit :=
  wait_for_others ;;;
  let* fuel := gets (fun s => read_fuel fd (get_env (p_u s))) in
  sentinel_loop fuel fd.

(** [write(fd, &sentinel, 1) != 1] ends the process. *)
Definition write_sentinel (fd : Z) : ST proc unit :=
  let* r := io_op (sys_write fd [sentinel]) in
  match r with
  | inl n => if n =? 1 then ret tt else udi_abort_file_line
  | inr _ => udi_abort_file_line
  end.

(** The loop over the thread list that forces the others into the handler: the
    number of signals sent. *)
Fixpoint suspend_others (fuel : nat) (thr : ptr) (iter : option ptr) (num_suspended : nat) : ST proc nat :=
  match fuel with
  | O => running
  | S fuel' =>
      match iter with
      | None => ret num_suspended
      | Some p =>
          let* n :=
            (if Nat.eqb p thr then ret num_suspended
             else
               thr_op (thr_update p (set_control_thread false)) ;;;
               let* t := thr_op (thr_load p) in
               if bool_decide (ts t <> UDI_TS_SUSPENDED) then
                 let* kill_result := on_os (os_pthread_kill (id t)) in
                 if negb (kill_result =? 0) then udi_abort_file_line
                 else ret (S num_suspended)
               else ret num_suspended) in
          let* t := thr_op (thr_load p) in
          suspend_others fuel' thr (next_thread t) n
      end
  end.

(** [for (i = 0; i < num_suspended; ++i)] *)
Fixpoint collect_sentinels (n : nat) : ST proc unit :=
  match n with
  | O => ret tt
  | S n' =>
      let* b := gets thread_barrier in
      read_sentinel (bar_read b) ;;;
      collect_sentinels n'
  end.

Definition block_other_threads : ST proc Z :=
  let* multithreaded := thr_op get_multithreaded in
  if negb multithreaded then ret 0
  else
    let* thr := thr_op get_current_thread in
    match thr with
    | None => ret (-1)
    | Some thr =>
        let* sync_var := gets (fun s => bar_sync (thread_barrier s)) in
        modify (set_sync_var (cas sync_var 0 1)) ;;;
        (if sync_var =? 0 then
           thr_op (thr_update thr (set_control_thread true)) ;;;
           let* iter := thr_op get_thread_list in
           let* fuel := gets (fun s => thread_fuel (p_u s)) in
           let* num_suspended := suspend_others fuel thr iter 0 in
           collect_sentinels num_suspended
         else
           let* b := gets thread_barrier in
           write_sentinel (bar_write b) ;;;
           let* t := thr_op (thr_load thr) in
           thr_op (thr_update thr
             (set_suspend_pending (negb (event_signal t =? THREAD_SUSPEND_SIGNAL)))) ;;;
           read_sentinel (control_read t)) ;;;
        let* t := thr_op (thr_load thr) in
        ret (if control_thread t then 0 else 1)
    end.

(** The first loop of [release_other_threads]: the first other thread with an
    event. *)
Definition event_pending (t : thread) : bool :=
  (negb (event_signal t =? THREAD_SUSPEND_SIGNAL) && negb (event_signal t =? 0)) || stack_event_pending t.

Fixpoint find_event (fuel : nat) (thr iter : option ptr) : ST proc (option ptr) :=
  match fuel with
  | O => running
  | S fuel' =>
      match iter with
      | None => ret None
      | Some p =>
          let* t := thr_op (thr_load p) in
          if bool_decide (thr <> Some p) && event_pending t then ret (Some p)
          else find_event fuel' thr (next_thread t)
      end
  end.

(** The second loop: release the threads that should be running. *)
Fixpoint release_loop (fuel : nat) (thr iter : option ptr) : ST proc unit :=
  match fuel with
  | O => running
  | S fuel' =>
      match iter with
      | None => ret tt
      | Some p =>
          let* t := thr_op (thr_load p) in
          (if bool_decide (thr <> Some p) && bool_decide (ts t = UDI_TS_RUNNING)
           then write_sentinel (control_write t) else ret tt) ;;;
          release_loop fuel' thr (next_thread t)
      end
  end.

(** Control goes to [iter]. The read of this function is not retried. *)
Definition hand_over (thr : option ptr) (iter : ptr) : ST proc unit :=
  (match thr with
   | Some p => thr_op (thr_update p (set_control_thread false))
   | None => ret tt
   end) ;;;
  thr_op (thr_update iter (set_control_thread true)) ;;;
  let* t := thr_op (thr_load iter) in
  write_sentinel (control_write t) ;;;
  match thr with
  | None => ret tt
  | Some p =>
      let* t := thr_op (thr_load p) in
      wait_for_others ;;;
      let* r := io_op (sys_read (control_read t) 1) in
      match r with
      | inl (trigger :: _) => if negb (trigger =? sentinel) then udi_abort_file_line else ret tt
      | _ => udi_abort_file_line
      end
  end.

Definition release_other_threads : ST proc Z :=
  let* capable := thr_op get_multithread_capable in
  if negb capable then ret 0
  else
    let* thr := thr_op get_current_thread in
    let* iter := thr_op get_thread_list in
    let* fuel := gets (fun s => thread_fuel (p_u s)) in
    let* iter := find_event fuel thr iter in
    match iter with
    | Some iter => hand_over thr iter ;;; ret 0
    | None =>
        modify (fun s => set_sync_var (cas (bar_sync (thread_barrier s)) 1 0) s) ;;;
        let* iter := thr_op get_thread_list in
        let* fuel := gets (fun s => thread_fuel (p_u s)) in
        release_loop fuel thr iter ;;;
        match thr with
        | None => ret 0
        | Some p =>
            let* t := thr_op (thr_load p) in
            (if bool_decide (ts t = UDI_TS_SUSPENDED) then read_sentinel (control_read t) else ret tt) ;;;
            ret 0
        end
    end.

(** ** [signal_entry_impl] *)

Definition SIGTRAP : Z := 5.

Record siginfo : Type := SigInfo { si_code : Z; si_addr : Z }.

Definition opt_thr {A} (thr : option ptr) (d : A) (m : ptr -> ST proc A) : ST proc A :=
  match thr with Some p => m p | None => ret d end.

(** A thread that the list does not have is dereferenced all the same. *)
Definition need_thr {A} (thr : option ptr) (m : ptr -> ST proc A) : ST proc A :=
  match thr with Some p => m p | None => undef NullDeref end.

Definition save_context (context : ucontext) (p : ptr) : ST proc unit :=
  thr_op (thr_update p (set_event_context (copy_context context))) ;;;
  thr_op (thr_update p (set_context_valid true)).

Section Entry.
Context `{Libc} `{Libcbor} `{Target} `{Udis86}.

(** The address of [abort_label] in [abortable_memcpy]. *)
Context (abort_label : Z).

(** The [switch] on the signal: the result, whether to wait for a request, and
    the context. *)
Definition decode_event (thr : option ptr) (signum : Z) (info : siginfo) (context : ucontext)
    : ST proc (Z * bool * ucontext) :=
  if (signum =? SIGBUS) || (signum =? SIGSEGV) then
    let* ev := run_u (on_access (decode_memory_access_event (si_code info))) in
    let* context :=
      (if me_abort ev then of_option OutOfBounds (set_pc context abort_label) else ret context) in
    ret (me_result ev, me_wait ev, context)
  else if signum =? SIGTRAP then run_u (decode_trap thr context true)
  else
    let* tid := thr_op get_user_thread_id in
    let* result := run_u (handle_unknown_event tid) in
    ret (result, true, context).

(** A breakpoint behind the instruction of a thread that is stepped. *)
Definition plant_single_step (p : ptr) (result : Z) (context : ucontext) : ST proc Z :=
  let* pc := of_option OutOfBounds (get_pc context) in
  let* successor := run_u (on_access (get_ctf_successor pc context)) in
  if successor =? 0 then ret RESULT_ERROR
  else
    let* existing_bp := bps_op (find_breakpoint successor) in
    match existing_bp with
    | Some _ => ret result
    | None =>
        let* bp := bps_op (create_breakpoint successor) in
        thr_op (set_single_step_breakpoint p bp) ;;;
        match bp with
        | None => ret RESULT_ERROR
        | Some bp =>
            bps_op (bp_update bp (set_bp_thread (Some p))) ;;;
            let* install_result := run_u (on_bps (install_breakpoint bp)) in
            ret (if negb (install_result =? 0) then RESULT_ERROR else result)
        end
    end.

(** The body of [do .. while (0)]: the result, [request_error] and the
    context. *)
Definition handle_event (thr : option ptr) (signum : Z) (info : siginfo) (context : ucontext)
    : ST proc (Z * bool * ucontext) :=
  let* (result, wait_for_request, context) := decode_event thr signum info context in
  let* result :=
    opt_thr thr result (fun p =>
      let* step := thr_op (is_single_step p) in
      if step then plant_single_step p result context else ret result) in
  let* result :=
    (if negb (result =? RESULT_SUCCESS) then
       let* tid := thr_op get_user_thread_id in
       let* error_result := run_u (handle_error_event tid) in
       if negb (error_result =? RESULT_SUCCESS) then udi_abort_file_line else ret RESULT_SUCCESS
     else ret result) in
  if wait_for_request then
    let* (result, _) := run_u (wait_and_execute_command None) in
    ret (result, result =? RESULT_ERROR, context)
  else ret (result, false, context).

(** Past the block: the event is handled by this thread. *)
Definition control_event (thr : option ptr) (signum : Z) (info : siginfo) (context : ucontext)
    : ST proc ucontext :=
  opt_thr thr tt (fun p => thr_op (thr_update p (set_event_signal 0))) ;;;
  let* (result, request_error, context) := handle_event thr signum info context in
  (if negb (result =? RESULT_SUCCESS) then
     if request_error then udi_abort_file_line else ret tt
   else
     let* single := run_u single_thread_executing in
     if negb single then let* _ := release_other_threads in ret tt else ret tt) ;;;
  opt_thr thr tt (fun p => thr_op (thr_update p (set_context_valid false))) ;;;
  ret context.

(** The thread stops the others, unless it is the only one that runs: whether
    it goes on to handle the event. *)
Definition take_control (thr : option ptr) (signum : Z) (context : ucontext) : ST proc bool :=
  let* single := run_u single_thread_executing in
  if negb single then
    need_thr thr (fun p =>
      thr_op (thr_update p (set_event_signal signum)) ;;;
      save_context context p ;;;
      let* block_result := block_other_threads in
      if block_result =? -1 then udi_abort_file_line
      else if block_result >? 0 then
        thr_op (thr_update p (set_context_valid false)) ;;;
        ret false
      else ret true)
  else
    let* cbp := gets (fun s => continue_bp (p_u s)) in
    (if bool_decide (cbp <> None) then opt_thr thr tt (save_context context) else ret tt) ;;;
    ret true.

Definition set_pipe_failure (b : bool) (u : udirt) : udirt :=
  put_env (Env (u_rt u) (u_fds u) b (u_pending u)) u.

Definition signal_entry_impl (signum : Z) (info : siginfo) (context : ucontext) : ST proc ucontext :=
  let* failure := gets (fun s => u_pipe_failure (p_u s)) in
  if failure && (signum =? SIGPIPE) then
    modify (fun s => put_u (set_pipe_failure false (p_u s)) s) ;;;
    app_signal_handler signum ;;;
    ret context
  else
    let* pass := gets (fun s => pass_signal (p_u s)) in
    if negb (pass =? 0) then
      app_signal_handler signum ;;;
      modify (fun s => put_u (put_signal 0 (sent_signals (p_u s)) (p_u s)) s) ;;;
      ret context
    else
      let* enabled := gets udi_enabled in
      let* performing := run_u (on_access is_performing_mem_access) in
      if negb enabled && negb performing then ret context
      else
        let* thr := thr_op get_current_thread in
        let* pending :=
          match thr with
          | None => ret true
          | Some p => let* t := thr_op (thr_load p) in ret (suspend_pending t)
          end in
        if (signum =? THREAD_SUSPEND_SIGNAL) && pending then
          opt_thr thr tt (fun p => thr_op (thr_update p (set_suspend_pending false))) ;;;
          ret context
        else
          let* go := take_control thr signum context in
          if go then control_event thr signum info context else ret context.
End Entry.
