(* ===== verification/SyncSpec.v ===== *)
(** * Theorems on signal entry *)

From Stdlib Require Import String.
From stdpp Require Import gmap.
From S2P Require Import Prelude External Types Barrier Format Memory Breakpoints Registers X86.
From S2P Require Import Io Cbor Requests Threads State Process Signals SignalSpec Handlers Events Posix Sync.

Lemma run_u_Ret {A} (m : ST udirt A) s a u : m (p_u s) = Ret a u -> run_u m s = Ret a (put_u u s).
Proof. intros E. unfold run_u. now rewrite (on_u_Ret _ _ _ _ E). Qed.

(** ** Updates of a thread *)

Definition heap_of (s : proc) : gmap ptr thread := thr_heap (u_thrs (p_u s)).

(** The block of thread [p] is [t]. *)
Definition upd_thr (p : ptr) (t : thread) (s : proc) : proc :=
  put_u (put_thrs (put_threads (num_threads (u_thrs (p_u s))) (threads (u_thrs (p_u s)))
                     (<[p := t]> (heap_of s)) (u_thrs (p_u s))) (p_u s)) s.

Lemma thr_op_load p t s : heap_of s !! p = Some t -> thr_op (thr_load p) s = Ret t s.
Proof.
  intros H. unfold thr_op. rewrite (run_u_Ret _ _ t (put_thrs (u_thrs (p_u s)) (p_u s))).
  - destruct s; cbn. now rewrite put_thrs_get.
  - now apply on_thrs_Ret, thr_load_ok.
Qed.

Lemma thr_op_update p t f s :
  heap_of s !! p = Some t -> thr_op (thr_update p f) s = Ret tt (upd_thr p (f t) s).
Proof. intros H. apply run_u_Ret, on_thrs_Ret. now apply thr_update_ok. Qed.

Lemma heap_upd p t s : heap_of (upd_thr p t s) !! p = Some t.
Proof. apply lookup_insert_eq. Qed.

Lemma upd_upd p t t' s : upd_thr p t (upd_thr p t' s) = upd_thr p t s.
Proof.
  unfold upd_thr, heap_of, put_u, put_thrs, put_threads. cbn. now rewrite insert_insert_eq.
Qed.

Lemma run_u_id {A} (m : ST udirt A) s a : m (p_u s) = Ret a (p_u s) -> run_u m s = Ret a s.
Proof. intros H. rewrite (run_u_Ret _ _ _ _ H). now destruct s. Qed.

Lemma thr_op_id {A} (m : ST thrs A) s a :
  m (u_thrs (p_u s)) = Ret a (u_thrs (p_u s)) -> thr_op m s = Ret a s.
Proof. intros H. apply run_u_id. rewrite (on_thrs_Ret _ _ _ _ H). now rewrite put_thrs_get. Qed.

Lemma save_context_ok c p t s :
  heap_of s !! p = Some t ->
  save_context c p s = Ret tt (upd_thr p (set_context_valid true (set_event_context c t)) s).
Proof.
  intros H. unfold save_context. mstep_with (thr_op_update p t (set_event_context (copy_context c)) s H).
  rewrite (thr_op_update p _ _ _ (heap_upd _ _ _)), upd_upd. done.
Qed.

(** ** A fault of the library's own memory access *)

(** The running thread. *)
Definition current (s : proc) (p : ptr) (t : thread) : Prop :=
  get_current_thread (u_thrs (p_u s)) = Ret (Some p) (u_thrs (p_u s)) /\ heap_of s !! p = Some t.

Section Entry.
Context `{Libc} `{Libcbor} `{Target} `{Udis86}.
Context (abort_label : Z).

Lemma decode_fault_total code a :
  performing_mem_access a = true ->
  exists ab a', decode_memory_access_event code a = Ret (MemEvent false ab RESULT_SUCCESS) a' /\
                performing_mem_access a' = true.
Proof.
  intros Hp. destruct (decide (code = SEGV_ACCERR)) as [->|Hc].
  - destruct (mprotect (space a) (page_align (mem_access_addr a)) (mem_access_size a) PROT_RWX) eqn:Hm.
    + rewrite (decode_fault_retry _ _ Hp Hm). eauto.
    + rewrite (decode_fault_denied _ _ Hp Hm). eauto 10.
  - unfold decode_memory_access_event, is_performing_mem_access. mstep_prim. rewrite Hp.
    rewrite (proj2 (Z.eqb_neq _ _)) by done. mstep_prim. cbn. eauto 10.
Qed.

Definition put_access (a : access) (s : proc) : proc :=
  put_u (put_bps (put_acc a (u_bps (p_u s))) (p_u s)) s.

(** The thread's record after the handler has run. *)
Definition after_fault (cbp : option ptr) (ctx : ucontext) (t : thread) : thread :=
  set_context_valid false
    (set_event_signal 0 (if bool_decide (cbp <> None) then set_event_context ctx t else t)).

Lemma single_thread_performing s :
  performing_mem_access (u_acc (p_u s)) = true -> run_u single_thread_executing s = Ret true s.
Proof.
  intros Hp. apply run_u_id. unfold single_thread_executing.
  rewrite (bind_Ret _ _ _ true (p_u s)).
  - mstep_prim. done.
  - rewrite (on_access_Ret _ _ true (u_acc (p_u s))).
    + now destruct s as [[[] ? ? ? ? ? ? ? ? ? ? ? ? ? ? ? ?]].
    + unfold is_performing_mem_access, gets. now rewrite Hp.
Qed.

Lemma take_control_performing p t signum ctx s :
  performing_mem_access (u_acc (p_u s)) = true -> heap_of s !! p = Some t ->
  take_control (Some p) signum ctx s =
  Ret true (if bool_decide (continue_bp (p_u s) <> None)
            then upd_thr p (set_context_valid true (set_event_context ctx t)) s else s).
Proof.
  intros Hp Ht. unfold take_control. mstep_with (single_thread_performing s Hp). cbn [negb].
  mstep_prim. destruct (bool_decide _).
  - cbn [opt_thr]. now mstep_with (save_context_ok ctx p t s Ht).
  - now mstep_prim.
Qed.

Lemma handle_event_fault p t signum info ctx s :
  signum = SIGBUS \/ signum = SIGSEGV -> performing_mem_access (u_acc (p_u s)) = true ->
  heap_of s !! p = Some t -> single_step t = false ->
  exists ab a, decode_memory_access_event (si_code info) (u_acc (p_u s)) =
                 Ret (MemEvent false ab RESULT_SUCCESS) a /\
    performing_mem_access a = true /\
    forall ctx', (if ab then set_pc ctx abort_label else Some ctx) = Some ctx' ->
      handle_event abort_label (Some p) signum info ctx s = Ret (RESULT_SUCCESS, false, ctx') (put_access a s).
Proof.
  intros Hs Hp Ht Hss. destruct (decode_fault_total (si_code info) _ Hp) as (ab & a & E & Ha).
  exists ab, a. split; [done|]. split; [done|]. intros ctx' Hc. unfold handle_event.
  assert (decode_event abort_label (Some p) signum info ctx s = Ret (RESULT_SUCCESS, false, ctx') (put_access a s))
    as Ed.
  { unfold decode_event. replace ((signum =? SIGBUS) || (signum =? SIGSEGV)) with true by (destruct Hs; now subst).
    rewrite (bind_Ret _ _ _ _ _ (run_u_Ret _ _ _ _ (on_access_Ret _ _ _ _ E))). cbn [me_abort me_result me_wait].
    destruct ab.
    - rewrite Hc. reflexivity.
    - injection Hc as <-. reflexivity. }
  mstep_with Ed. cbn [opt_thr].
  assert (thr_op (is_single_step p) (put_access a s) = Ret false (put_access a s)) as Es.
  { apply thr_op_id. unfold is_single_step. mstep_with (thr_load_ok (u_thrs (p_u (put_access a s))) p t Ht).
    now rewrite Hss. }
  unfold bind at 1. unfold bind at 1. rewrite Es. reflexivity.
Qed.

Lemma control_event_fault p t signum info ctx s :
  signum = SIGBUS \/ signum = SIGSEGV -> performing_mem_access (u_acc (p_u s)) = true ->
  heap_of s !! p = Some t -> single_step t = false ->
  exists ab a, decode_memory_access_event (si_code info) (u_acc (p_u s)) =
                 Ret (MemEvent false ab RESULT_SUCCESS) a /\
    forall ctx', (if ab then set_pc ctx abort_label else Some ctx) = Some ctx' ->
      control_event abort_label (Some p) signum info ctx s =
      Ret ctx' (upd_thr p (set_context_valid false (set_event_signal 0 t)) (put_access a s)).
Proof.
  intros Hs Hp Ht Hss. set (s1 := upd_thr p (set_event_signal 0 t) s).
  assert (heap_of s1 !! p = Some (set_event_signal 0 t)) as Ht1 by apply heap_upd.
  destruct (handle_event_fault p _ signum info ctx s1 Hs Hp Ht1 Hss) as (ab & a & E & Ha & Hh).
  exists ab, a. split; [exact E|]. intros ctx' Hc. unfold control_event. cbn [opt_thr].
  mstep_with (thr_op_update p t (set_event_signal 0) s Ht). fold s1. mstep_with (Hh _ Hc).
  cbn [negb Z.eqb RESULT_SUCCESS]. unfold bind at 1.
  rewrite (bind_Ret _ _ _ _ _ (single_thread_performing (put_access a s1) Ha)). cbn [negb].
  unfold ret at 1. rewrite (bind_Ret _ _ _ _ _ (thr_op_update p _ (set_context_valid false) (put_access a s1) Ht1)).
  unfold ret. f_equal. apply (upd_upd p _ _ (put_access a s)).
Qed.

Lemma performing_op s :
  run_u (on_access is_performing_mem_access) s = Ret (performing_mem_access (u_acc (p_u s))) s.
Proof.
  apply run_u_id. rewrite (on_access_Ret _ _ (performing_mem_access (u_acc (p_u s))) (u_acc (p_u s))); [|done].
  now destruct s as [[[] ? ? ? ? ? ? ? ? ? ? ? ? ? ? ? ?]].
Qed.

Lemma not_pipe b n : b = false \/ n <> SIGPIPE -> b && (n =? SIGPIPE) = false.
Proof. intros [->|Hn]; [done|]. rewrite (proj2 (Z.eqb_neq _ _)) by done. apply andb_false_r. Qed.

(** C8: a fault of the library's own access to memory, taken through the
    signal handler. When SIGSEGV or SIGBUS arrives while an access is under
    way, the handler runs [decode_memory_access_event] and nothing of the event
    machinery: no other thread is stopped, nothing is reported and no request
    is awaited. The copy is resumed, or continues at [abort_label]. Beyond
    that, only the record of the running thread changes: its register context
    becomes invalid (so that requests for its registers are refused until the
    next event), and while a breakpoint is stepped over it is overwritten with
    the library's own registers. The thread must not be single-stepped. *)
Theorem fault_entry signum info ctx s p t :
  signum = SIGBUS \/ signum = SIGSEGV -> performing_mem_access (u_acc (p_u s)) = true ->
  pass_signal (p_u s) = 0 -> current s p t -> single_step t = false ->
  exists ab a, decode_memory_access_event (si_code info) (u_acc (p_u s)) =
                 Ret (MemEvent false ab RESULT_SUCCESS) a /\
    forall ctx', (if ab then set_pc ctx abort_label else Some ctx) = Some ctx' ->
      signal_entry_impl abort_label signum info ctx s =
      Ret ctx' (upd_thr p (after_fault (continue_bp (p_u s)) ctx t) (put_access a s)).
Proof.
  intros Hs Hp Hpass [Hcur Ht] Hss.
  set (t1 := if bool_decide (continue_bp (p_u s) <> None) then set_context_valid true (set_event_context ctx t) else t).
  set (s1 := if bool_decide (continue_bp (p_u s) <> None) then upd_thr p t1 s else s).
  assert (heap_of s1 !! p = Some t1) as Ht1.
  { unfold s1, t1. destruct (bool_decide _); [apply heap_upd|done]. }
  assert (u_acc (p_u s1) = u_acc (p_u s)) as Ha1 by (unfold s1; now destruct (bool_decide _)).
  destruct (control_event_fault p t1 signum info ctx s1 Hs) as (ab & a & E & Hce);
    [now rewrite Ha1|done|unfold t1; now destruct (bool_decide _)|].
  rewrite Ha1 in E. exists ab, a. split; [done|]. intros ctx' Hc. unfold signal_entry_impl.
  mstep_prim. replace (u_pipe_failure (p_u s) && (signum =? SIGPIPE)) with false
    by (destruct Hs; subst; now rewrite andb_false_r).
  mstep_prim. rewrite Hpass. cbn [Z.eqb negb]. mstep_prim.
  rewrite (bind_Ret _ _ _ _ _ (performing_op s)), Hp, andb_false_r. mstep_with (thr_op_id _ _ _ Hcur). rewrite bind_assoc.
  mstep_with (thr_op_load p t s Ht). mstep_prim.
  replace (signum =? THREAD_SUSPEND_SIGNAL) with false by (destruct Hs; now subst). cbn [andb].
  mstep_with (take_control_performing p t signum ctx s Hp Ht).
  replace (if bool_decide (continue_bp (p_u s) <> None)
           then upd_thr p (set_context_valid true (set_event_context ctx t)) s else s) with s1
    by (unfold s1, t1; now destruct (bool_decide _)).
  rewrite (Hce _ Hc). f_equal. unfold s1, t1, after_fault. destruct (bool_decide _); [|done].
  rewrite <- (upd_upd p _ (set_context_valid true (set_event_context ctx t)) (put_access a s)). done.
Qed.

(** ** The context a thread resumes with *)

Lemma abort_no_return {A} s (a : A) s' : udi_abort_file_line s <> Ret a s'.
Proof. unfold udi_abort_file_line. intros E. minv. Qed.

Lemma run_u_inv {A} (m : ST udirt A) s a s' :
  run_u m s = Ret a s' -> exists u, m (p_u s) = Ret a u /\ s' = put_u u s.
Proof.
  unfold run_u. destruct (on_u m s) eqn:E; intros Hr; try discriminate.
  - injection Hr as -> ->. unfold on_u in E. minv. eauto.
  - now apply abort_no_return in Hr.
Qed.

Lemma of_option_inv {S A} u (o : option A) (s s' : S) a : of_option u o s = Ret a s' -> o = Some a.
Proof. destruct o; [|discriminate]. unfold of_option, ret. congruence. Qed.

Lemma decode_trap_context thr c w s r s' :
  decode_trap thr c w s = Ret r s' -> rewind_pc c = Some (r.2).
Proof.
  unfold decode_trap. intros E. minv. destruct a0 as [bp|]; [|minv].
  unfold decode_breakpoint in *. minv.
  assert (rewind_pc c = Some a0) as Hr.
  { unfold rewind_contexts in *. minv.
    match goal with E : of_option _ (rewind_pc c) _ = Ret ?x _ |- _ => apply of_option_inv in E as -> end.
    destruct thr; minv; done. }
  repeat match goal with E : (if ?b then _ else _) _ = Ret _ _ |- _ => destruct b; minv; try done end.
  all: match goal with E : (let '(_, _) := ?x in _) _ = _ |- _ => destruct x; minv; done end.
Qed.

Definition resumes (signum : Z) (c c' : ucontext) : Prop :=
  c' = c \/ (signum = SIGTRAP /\ rewind_pc c = Some c') \/
  ((signum = SIGBUS \/ signum = SIGSEGV) /\ set_pc c abort_label = Some c').

Lemma decode_event_context thr signum info c s r s' :
  decode_event abort_label thr signum info c s = Ret r s' -> resumes signum c (r.2).
Proof.
  unfold decode_event, resumes. destruct ((signum =? SIGBUS) || (signum =? SIGSEGV)) eqn:Es.
  - intros E. minv. destruct (me_abort _); minv; [|now left]. right. right. split; [lia|].
    now match goal with E : of_option _ _ _ = _ |- _ => apply of_option_inv in E end.
  - destruct (Z.eqb_spec signum SIGTRAP) as [->|Hs]; intros E.
    + apply run_u_inv in E as (u & E & ->). apply decode_trap_context in E. auto.
    + minv. now left.
Qed.

Lemma control_event_context thr signum info c s c' s' :
  control_event abort_label thr signum info c s = Ret c' s' -> resumes signum c c'.
Proof.
  unfold control_event. intros E. minv. destruct a0 as [[result err] c1]. minv.
  match goal with E : handle_event _ _ _ _ _ _ = _ |- _ => rename E into Eh end.
  unfold handle_event in Eh. minv.
  match goal with E : decode_event _ _ _ _ _ _ = Ret ?r _ |- _ =>
    apply decode_event_context in E; destruct r as [[? ?] ?]; cbn in E end.
  minv. match goal with b : bool |- _ => destruct b; minv; try done end.
  match goal with E : (let '(_, _) := ?x in _) _ = _ |- _ => destruct x; minv; done end.
Qed.

(** C20: the registers a thread resumes with. Whatever the debugger does while
    the thread is stopped, the handler returns to the context the signal came
    with, to that context with the program counter on the breakpoint after a
    trap, or to [abort_label] in the library's own copy. The copy of the
    context that register requests read and write is never put back: a
    register the debugger has written keeps its old value in the thread. *)
Theorem resumed_context signum info c s c' s' :
  signal_entry_impl abort_label signum info c s = Ret c' s' -> resumes signum c c'.
Proof.
  unfold signal_entry_impl. intros E. minv.
  repeat match goal with E : (if ?b then _ else _) _ = Ret _ _ |- _ =>
    lazymatch b with
    | context [if _ then _ else _] => fail
    | _ => destruct b; minv; try (now left)
    end end.
  now apply control_event_context in Hk.
Qed.

(** ** Signals that are not handled *)

(** C21: the signals the handler does not treat as events. SIGPIPE after a
    failed write to the debugger, and any signal while the debugger's continue
    request has one to pass, are given to the application, and only to it (by
    [app_signal_handler]: the handler that is called is the one for SIGHUP,
    whatever the signal); the mark that made the handler do so is cleared and
    nothing else changes. While the library is disabled and no memory access is
    under way a signal has no effect. A suspend signal for a thread that had
    stopped for another reason before it arrived only clears the note that it
    was to come. *)
Theorem signal_entry_passes signum info c s k :
  mask_ok s -> hidden k (p_sigs s) -> signum ∈ signals ->
  (u_pipe_failure (p_u s) = true -> signum = SIGPIPE ->
     signal_entry_impl abort_label signum info c s =
     Ret c (put_u (set_pipe_failure false (p_u s)) (put_sigs (passed k signum (p_sigs s)) s))) /\
  (u_pipe_failure (p_u s) = false \/ signum <> SIGPIPE -> pass_signal (p_u s) <> 0 ->
     signal_entry_impl abort_label signum info c s =
     Ret c (put_u (put_signal 0 (sent_signals (p_u s)) (p_u s)) (put_sigs (passed k signum (p_sigs s)) s))) /\
  (u_pipe_failure (p_u s) = false \/ signum <> SIGPIPE -> pass_signal (p_u s) = 0 ->
     udi_enabled s = false -> performing_mem_access (u_acc (p_u s)) = false ->
     signal_entry_impl abort_label signum info c s = Ret c s) /\
  (forall p t, signum = THREAD_SUSPEND_SIGNAL -> pass_signal (p_u s) = 0 -> udi_enabled s = true ->
     current s p t -> suspend_pending t = true ->
     signal_entry_impl abort_label signum info c s = Ret c (upd_thr p (set_suspend_pending false t) s)).
Proof.
  intros Hm Hh Hn. unfold signal_entry_impl. rewrite bind_gets. split_and!.
  - intros -> ->. cbn [andb Z.eqb SIGPIPE Pos.eqb]. mstep_prim.
    set (s1 := put_u _ s). now mstep_with (app_signal_handler_spec SIGPIPE k s1 Hm Hh Hn).
  - intros Hf Hp. rewrite not_pipe by done. mstep_prim. rewrite (proj2 (Z.eqb_neq _ _)) by done. cbn [negb].
    now mstep_with (app_signal_handler_spec signum k s Hm Hh Hn).
  - intros Hf Hp He Hpm. rewrite not_pipe by done. mstep_prim. rewrite Hp. cbn [Z.eqb negb].
    mstep_prim. rewrite (bind_Ret _ _ _ _ _ (performing_op s)), He, Hpm. reflexivity.
  - intros p t -> Hp He [Hcur Ht] Hsp. rewrite not_pipe by (now right). mstep_prim. rewrite Hp. cbn [Z.eqb negb].
    mstep_prim. rewrite (bind_Ret _ _ _ _ _ (performing_op s)), He. cbn [negb andb].
    mstep_with (thr_op_id _ _ _ Hcur). rewrite bind_assoc. mstep_with (thr_op_load p t s Ht). mstep_prim.
    rewrite Hsp. cbn [andb Z.eqb THREAD_SUSPEND_SIGNAL Pos.eqb opt_thr].
    now mstep_with (thr_op_update p t (set_suspend_pending false) s Ht).
Qed.
End Entry.
