(* ===== verification/SyncSim.v ===== *)
(** * The code of the barrier runs the steps of its model

    Sync.v has [block_other_threads] and [release_other_threads] as one thread
    executes them; Barrier.v has them as steps of all threads, which can be
    interleaved. This file relates the two: what a thread does between two
    waits is a sequence of its steps in Barrier.v, and the states correspond
    again when it waits or returns. The state of Barrier.v counts the bytes
    that are in a pipe and the signals that are pending; Sync.v has the bytes
    that were written and the signals that were sent. *)

From Stdlib Require Import String.
From stdpp Require Import gmap.
From S2P Require Import Prelude External Types Barrier Format Memory Breakpoints Registers X86.
From S2P Require Import Io Cbor Requests Threads State Process Signals SignalSpec Handlers Events Posix Sync SyncSpec.

(** ** The relation *)

(** What has left the pipes and the signals that have been delivered. *)
Record hist : Type := Hist { h_read : Z -> nat; h_taken : Z -> nat }.

Definition sent (fds : gmap Z chan) (fd : Z) : nat :=
  match fds !! fd with Some c => length (c_out c) | None => 0 end.

Definition kills (ks : list Z) (tid : Z) : nat := count_occ Z.eq_dec ks tid.

Record same_thread (h : hist) (fds : gmap Z chan) (ks : list Z) (t : thread) (x : bthread) : Prop := {
  st_ts : b_ts x = ts t;
  st_control : b_control x = if control_thread t then 1 else 0;
  st_pending : b_suspend_pending x = suspend_pending t;
  st_signal : b_signal x = event_signal t;
  st_pipe : (b_pipe x + h_read h (control_write t))%nat = sent fds (control_write t);
  st_kill : b_kill x = bool_decide (h_taken h (id t) < kills ks (id t))%nat;
  st_taken : (h_taken h (id t) <= kills ks (id t))%nat;
  st_stack : b_stack x = stack_event_pending t
}.

(** A pipe that takes what is written to it. *)
Definition writable (fds : gmap Z chan) (fd : Z) : Prop := exists c, fds !! fd = Some c /\ c_wr c = [].

(** Every thread has a pipe and an id of its own. *)
Record wired (ps : list ptr) (s : proc) : Prop := {
  w_pipes : forall p q t u, p ∈ ps -> q ∈ ps -> heap_of s !! p = Some t -> heap_of s !! q = Some u ->
    control_write t = control_write u -> p = q;
  w_ids : forall p q t u, p ∈ ps -> q ∈ ps -> heap_of s !! p = Some t -> heap_of s !! q = Some u ->
    id t = id u -> p = q;
  w_bar : forall p t, p ∈ ps -> heap_of s !! p = Some t -> control_write t <> bar_write (thread_barrier s);
  w_open : forall p t, p ∈ ps -> heap_of s !! p = Some t -> writable (u_fds (p_u s)) (control_write t);
  w_bar_open : writable (u_fds (p_u s)) (bar_write (thread_barrier s));
  w_kill : kill_results (p_os s) = []
}.

Record sim (h : hist) (ps : list ptr) (s : proc) (b : barrier) : Prop := {
  sim_list : thr_inv (u_thrs (p_u s)) ps;
  sim_wired : wired ps s;
  sim_length : length (bthreads b) = length ps;
  sim_sync : sync_var b = bar_sync (thread_barrier s);
  sim_sentinels : (sentinels b + h_read h (bar_write (thread_barrier s)))%nat
                  = sent (u_fds (p_u s)) (bar_write (thread_barrier s));
  sim_threads : forall i p, ps !! i = Some p ->
    exists t x, heap_of s !! p = Some t /\ bthreads b !! i = Some x /\
      same_thread h (u_fds (p_u s)) (killed (p_os s)) t x
}.

(** Thread [i] makes steps, the others do not. *)
Definition steps (i : nat) (b b' : barrier) : Prop := exists k, run (replicate k (Run i)) b = Some b'.

Lemma steps_refl i b : steps i b b.
Proof. now exists 0%nat. Qed.

Lemma steps_step i x b b1 b' :
  bthreads b !! i = Some x -> thread_step i x b = Some b1 -> steps i b1 b' -> steps i b b'.
Proof.
  intros Hx Hs [k Hk]. exists (S k). cbn. rewrite Hx. cbn. now rewrite Hs.
Qed.

Lemma run_app ls ls' b b1 : run ls b = Some b1 -> run (ls ++ ls') b = run ls' b1.
Proof.
  revert b. induction ls as [|l ls IH]; intros b; cbn; [now intros [= ->]|].
  destruct (step l b); cbn; [apply IH|discriminate].
Qed.

Lemma steps_trans i b b1 b' : steps i b b1 -> steps i b1 b' -> steps i b b'.
Proof.
  intros [k Hk] [k' Hk']. exists (k + k')%nat. rewrite replicate_add. now rewrite (run_app _ _ _ _ Hk).
Qed.

(** Thread [i] is at [l]. *)
Definition at_ (b : barrier) (i : nat) (l : loc) : Prop := exists x, bthreads b !! i = Some x /\ b_loc x = l.

(** ** Moves that keep the relation *)

Section Moves.
Context (h : hist) (ps : list ptr).

Lemma sim_at s b i p :
  sim h ps s b -> ps !! i = Some p ->
  exists t x, heap_of s !! p = Some t /\ bthreads b !! i = Some x /\
    same_thread h (u_fds (p_u s)) (killed (p_os s)) t x.
Proof. intros H. apply (sim_threads _ _ _ _ H). Qed.

Lemma sim_index s b i : sim h ps s b -> (i < length (bthreads b))%nat -> exists p, ps !! i = Some p.
Proof. intros H Hi. rewrite (sim_length _ _ _ _ H) in Hi. now apply lookup_lt_is_Some_2 in Hi. Qed.

Lemma ps_inj i j p s b : sim h ps s b -> ps !! i = Some p -> ps !! j = Some p -> i = j.
Proof. intros H. eapply NoDup_lookup, (inv_nodup _ _ (sim_list _ _ _ _ H)). Qed.

Lemma sim_loc s b i x l :
  sim h ps s b -> bthreads b !! i = Some x -> sim h ps s (set_thread i (at_loc l x) b).
Proof.
  intros H Hx. destruct H as [H1 H2 H3 H4 H5 H6]. split; cbn; try done; [now rewrite length_insert|].
  intros j p Hj. destruct (H6 j p Hj) as (t & y & Ht & Hy & Hs). exists t.
  destruct (decide (i = j)) as [<-|Hne].
  - exists (at_loc l x). split; [done|]. assert (y = x) as -> by congruence.
    split; [apply list_lookup_insert_eq, lookup_lt_is_Some_1; eauto|]. now destruct Hs.
  - exists y. rewrite list_lookup_insert_ne by done. done.
Qed.

Lemma wired_update s p t t' :
  wired ps s -> heap_of s !! p = Some t -> id t' = id t -> control_write t' = control_write t ->
  wired ps (upd_thr p t' s).
Proof.
  intros [W1 W2 W3 W4 W5 W6] Ht Hid Hcw.
  assert (forall q u, heap_of (upd_thr p t' s) !! q = Some u ->
    exists u0, heap_of s !! q = Some u0 /\ id u = id u0 /\ control_write u = control_write u0) as Hback.
  { intros q u Hu. change (heap_of (upd_thr p t' s)) with (<[p := t']> (heap_of s)) in Hu.
    apply lookup_insert_Some in Hu as [[<- <-]|[_ Hu]]; eauto. }
  split; try done.
  - intros q q' u u' Hq Hq' Hu Hu'. apply Hback in Hu as (v & Hv & _ & ->). apply Hback in Hu' as (v' & Hv' & _ & ->). eauto.
  - intros q q' u u' Hq Hq' Hu Hu'. apply Hback in Hu as (v & Hv & -> & _). apply Hback in Hu' as (v' & Hv' & -> & _). eauto.
  - intros q u Hq Hu. apply Hback in Hu as (v & Hv & _ & ->). eauto.
  - intros q u Hq Hu. apply Hback in Hu as (v & Hv & _ & ->). eauto.
Qed.

Lemma sim_update s b i p t t' x' :
  sim h ps s b -> ps !! i = Some p -> heap_of s !! p = Some t ->
  next_thread t' = next_thread t -> id t' = id t -> control_write t' = control_write t ->
  same_thread h (u_fds (p_u s)) (killed (p_os s)) t' x' ->
  sim h ps (upd_thr p t' s) (set_thread i x' b).
Proof.
  intros H Hp Ht Hn Hid Hcw Hs. pose proof H as [H1 H2 H3 H4 H5 H6]. split; cbn; try done.
  - exact (thr_update_inv _ _ p t (fun _ => t') H1 Ht Hn).
  - now apply wired_update with t.
  - now rewrite length_insert.
  - intros j q Hq. destruct (H6 j q Hq) as (u & y & Hu & Hy & Hs').
    change (heap_of (upd_thr p t' s)) with (<[p := t']> (heap_of s)).
    destruct (decide (i = j)) as [<-|Hne].
    + assert (q = p) as -> by congruence. exists t', x'. rewrite lookup_insert_eq.
      split; [done|]. split; [apply list_lookup_insert_eq, lookup_lt_is_Some_1; eauto|done].
    + exists u, y. assert (p <> q) by (intros ->; eauto using ps_inj).
      rewrite lookup_insert_ne, list_lookup_insert_ne by done. done.
Qed.

Lemma sim_set_sync s b v : sim h ps s b -> sim h ps (set_sync_var v s) (set_sync v b).
Proof. intros [H1 H2 H3 H4 H5 H6]. destruct H2. now split. Qed.

(** *** Signals *)

Definition after_kill (tid : Z) (s : proc) : proc :=
  put_os (OsEnv (root_env (p_os s)) (pid (p_os s)) (dl_results (p_os s)) (fs_results (p_os s)) (fs_log (p_os s))
            (open_results (p_os s)) (fork_results (p_os s)) (thread_results (p_os s)) []
            (killed (p_os s) ++ [tid]) (waits (p_os s))) s.

Lemma kill_ok tid s : kill_results (p_os s) = [] -> on_os (os_pthread_kill tid) s = Ret 0 (after_kill tid s).
Proof. intros Hk. unfold on_os, zoom, os_pthread_kill, after_kill. now rewrite Hk. Qed.

Lemma kills_snoc ks tid tid' : kills (ks ++ [tid]) tid' = (kills ks tid' + if decide (tid = tid') then 1 else 0)%nat.
Proof. unfold kills. rewrite count_occ_app. reflexivity. Qed.

Lemma sim_kill s b i p t x :
  sim h ps s b -> ps !! i = Some p -> heap_of s !! p = Some t -> bthreads b !! i = Some x ->
  sim h ps (after_kill (id t) s) (set_thread i (with_kill true x) b).
Proof.
  intros H Hp Ht Hx. pose proof H as [H1 H2 H3 H4 H5 H6]. split; cbn; try done.
  - destruct H2. now split.
  - now rewrite length_insert.
  - intros j q Hq. destruct (H6 j q Hq) as (u & y & Hu & Hy & Hs). exists u. destruct (decide (i = j)) as [<-|Hne].
    + simplify_eq. exists (with_kill true x). split; [done|].
      split; [apply list_lookup_insert_eq, lookup_lt_is_Some_1; eauto|]. destruct Hs. split; cbn; try done.
      * rewrite kills_snoc, decide_True by done. symmetry. apply bool_decide_eq_true. lia.
      * rewrite kills_snoc. lia.
    + exists y. rewrite list_lookup_insert_ne by done. split; [done|]. split; [done|].
      assert (id t <> id u) as Hid.
      { intros E. apply Hne. eapply ps_inj; [exact H|exact Hp|]. enough (p = q) as -> by done.
        eapply (w_ids _ _ H2); eauto using list_elem_of_lookup_2. }
      destruct Hs. split; cbn; rewrite ?kills_snoc, ?decide_False, ?Nat.add_0_r by done; done.
Qed.

(** *** Sentinels *)

Definition after_write (fd : Z) (s : proc) : proc :=
  let fds := alter (fun c => Chan (c_in c) (c_wr c) (c_out c ++ [sentinel])) fd (u_fds (p_u s)) in
  put_u (put_env (Env (u_rt (p_u s)) fds (u_pipe_failure (p_u s)) (u_pending (p_u s))) (p_u s)) s.

Lemma write_sentinel_ok fd s : writable (u_fds (p_u s)) fd -> write_sentinel fd s = Ret tt (after_write fd s).
Proof.
  intros (c & Hc & Hw). unfold write_sentinel, io_op.
  rewrite (bind_Ret _ _ _ (inl 1) (after_write fd s)); [reflexivity|].
  apply run_u_Ret. rewrite (on_env_Ret _ _ (inl 1) (Env (u_rt (p_u s))
    (<[fd := Chan (c_in c) [] (c_out c ++ [sentinel])]> (u_fds (p_u s))) (u_pipe_failure (p_u s)) (u_pending (p_u s)))).
  - do 2 f_equal. f_equal. apply map_eq. intros fd'. destruct (decide (fd = fd')) as [<-|Hne].
    + now rewrite lookup_alter_eq, lookup_insert_eq, Hc, <- Hw.
    + now rewrite lookup_alter_ne, lookup_insert_ne.
  - unfold sys_write. cbn. now rewrite Hc, Hw.
Qed.

Lemma after_write_fds fd fd' s :
  u_fds (p_u (after_write fd s)) !! fd' =
  if decide (fd = fd') then (fun c => Chan (c_in c) (c_wr c) (c_out c ++ [sentinel])) <$> u_fds (p_u s) !! fd'
  else u_fds (p_u s) !! fd'.
Proof.
  cbn. destruct (decide (fd = fd')) as [<-|Hne]; [apply lookup_alter_eq|now apply lookup_alter_ne].
Qed.

Lemma sent_write fd fd' s :
  writable (u_fds (p_u s)) fd ->
  sent (u_fds (p_u (after_write fd s))) fd' = (sent (u_fds (p_u s)) fd' + if decide (fd = fd') then 1 else 0)%nat.
Proof.
  intros (c & Hc & _). unfold sent. rewrite after_write_fds. destruct (decide (fd = fd')) as [<-|Hne]; [|lia].
  rewrite Hc. cbn. now rewrite length_app.
Qed.

Lemma writable_write fd fd' s : writable (u_fds (p_u s)) fd' -> writable (u_fds (p_u (after_write fd s))) fd'.
Proof.
  intros (c & Hc & Hw). unfold writable. rewrite after_write_fds, Hc. destruct (decide _); cbn; eauto.
Qed.

Lemma wired_write s fd : wired ps s -> wired ps (after_write fd s).
Proof.
  intros [W1 W2 W3 W4 W5 W6]. split; try done.
  - intros p t Hp Ht. apply writable_write. eauto.
  - now apply writable_write.
Qed.

Lemma sim_write_control s b i p t x :
  sim h ps s b -> ps !! i = Some p -> heap_of s !! p = Some t -> bthreads b !! i = Some x ->
  sim h ps (after_write (control_write t) s) (set_thread i (with_pipe (S (b_pipe x)) x) b).
Proof.
  intros H Hp Ht Hx. pose proof H as [H1 H2 H3 H4 H5 H6].
  assert (writable (u_fds (p_u s)) (control_write t)) as Hw
    by (eapply (w_open _ _ H2); eauto using list_elem_of_lookup_2).
  split; try done.
  - now apply wired_write.
  - cbn. now rewrite length_insert.
  - rewrite sent_write by done. rewrite decide_False, Nat.add_0_r; [done|].
    eapply (w_bar _ _ H2); eauto using list_elem_of_lookup_2.
  - intros j q Hq. destruct (H6 j q Hq) as (u & y & Hu & Hy & Hs). exists u. destruct (decide (i = j)) as [<-|Hne].
    + simplify_eq. exists (with_pipe (S (b_pipe x)) x). split; [done|].
      split; [apply list_lookup_insert_eq, lookup_lt_is_Some_1; eauto|]. destruct Hs.
      split; rewrite ?sent_write, ?decide_True by done; cbn; try done. lia.
    + exists y. cbn [set_thread bthreads]. rewrite list_lookup_insert_ne by done. split; [done|]. split; [done|].
      assert (control_write t <> control_write u) as Hcw.
      { intros E. apply Hne. eapply ps_inj; [exact H|exact Hp|]. enough (p = q) as -> by done.
        eapply (w_pipes _ _ H2); eauto using list_elem_of_lookup_2. }
      destruct Hs. split; rewrite ?sent_write, ?decide_False, ?Nat.add_0_r by done; done.
Qed.

Lemma sim_write_bar s b :
  sim h ps s b ->
  sim h ps (after_write (bar_write (thread_barrier s)) s) (set_sentinels (S (sentinels b)) b).
Proof.
  intros H. pose proof H as [H1 H2 H3 H4 H5 H6]. pose proof (w_bar_open _ _ H2) as Hw. split; try done.
  - now apply wired_write.
  - change (thread_barrier (after_write _ s)) with (thread_barrier s).
    rewrite sent_write by done. rewrite decide_True by done. cbn. lia.
  - intros j q Hq. destruct (H6 j q Hq) as (u & y & Hu & Hy & Hs). exists u, y. split; [done|]. split; [done|].
    assert (bar_write (thread_barrier s) <> control_write u) as Hcw.
    { intros E. symmetry in E. revert E. eapply (w_bar _ _ H2); eauto using list_elem_of_lookup_2. }
    destruct Hs. split; rewrite ?sent_write, ?decide_False, ?Nat.add_0_r by done; done.
Qed.
End Moves.

(** ** The loops *)

Lemma drop_cons_inv {A} (l : list A) j x r : drop j l = x :: r -> l !! j = Some x /\ drop (S j) l = r.
Proof.
  intros Hd. split.
  - rewrite <- (Nat.add_0_r j), <- lookup_drop, Hd. done.
  - rewrite <- Nat.add_1_r, <- drop_drop, Hd. done.
Qed.

Lemma lookup_set b i x y : bthreads b !! i = Some x -> bthreads (set_thread i y b) !! i = Some y.
Proof. intros Hx. apply list_lookup_insert_eq, lookup_lt_is_Some_1. eauto. Qed.

Lemma lookup_other b i j x y :
  i <> j -> bthreads b !! i = Some x -> bthreads (set_thread j y b) !! i = Some x.
Proof. intros Hne Hx. cbn. now rewrite list_lookup_insert_ne. Qed.

Lemma at_set b i x l : bthreads b !! i = Some x -> at_ (set_thread i (at_loc l x) b) i l.
Proof. intros Hx. exists (at_loc l x). split; [|done]. eapply lookup_set, Hx. Qed.

Lemma at_other b i j y l : i <> j -> at_ b i l -> at_ (set_thread j y b) i l.
Proof. intros Hne (x & Hx & Hl). exists x. split; [|done]. cbn. now rewrite list_lookup_insert_ne. Qed.

Lemma chain_update s p t t' o rest :
  heap_of s !! p = Some t -> next_thread t' = next_thread t ->
  thr_chain (heap_of s) o rest -> thr_chain (heap_of (upd_thr p t' s)) o rest.
Proof.
  intros Ht Hn. apply chain_frame. intros q u _ Hu. change (heap_of (upd_thr p t' s)) with (<[p := t']> (heap_of s)).
  destruct (decide (p = q)) as [<-|Hne]; [rewrite lookup_insert_eq; simplify_eq; eauto|rewrite lookup_insert_ne by done; eauto].
Qed.

Section Loops.
Context (h : hist) (ps : list ptr) (thr : ptr) (i : nat) (Hi : ps !! i = Some thr).

Lemma suspend_one p t j y x n l s b :
  sim h ps s b -> ps !! j = Some p -> j <> i -> heap_of s !! p = Some t ->
  bthreads b !! j = Some y -> bthreads b !! i = Some x -> b_loc x = BlockKill (j :: l) n ->
  exists s' b' m t', (thr_op (thr_update p (set_control_thread false)) ;;;
      let* t := thr_op (thr_load p) in
      if bool_decide (ts t <> UDI_TS_SUSPENDED) then
        let* kill_result := on_os (os_pthread_kill (id t)) in
        if negb (kill_result =? 0) then udi_abort_file_line else ret (S n)
      else ret n) s = Ret m s' /\
    thread_step i x b = Some b' /\ sim h ps s' b' /\ at_ b' i (BlockKill l m) /\
    heap_of s' = <[p := t']> (heap_of s) /\ next_thread t' = next_thread t.
Proof.
  intros H Hp Hne Ht Hy Hx Hl. set (t' := set_control_thread false t).
  destruct (sim_at _ _ _ _ _ _ H Hp) as (t0 & y0 & Ht0 & Hy0 & Hs). simplify_eq.
  assert (heap_of (upd_thr p t' s) !! p = Some t') as Ht' by apply heap_upd.
  mstep_with (thr_op_update p t (set_control_thread false) s Ht). fold t'.
  mstep_with (thr_op_load p t' _ Ht').
  unfold thread_step. rewrite Hl. cbn [block_kill]. rewrite decide_False by done. rewrite Hy. cbn [mbind option_bind].
  assert (forall m, sim h ps (upd_thr p t' s) (set_thread j (with_control 0 y) (set_thread i (at_loc (BlockKill l m) x) b))) as Hsim.
  { intros m. eapply sim_update; [eapply sim_loc; eauto|exact Hp|exact Ht|done..|]. destruct Hs. now split. }
  assert (ts t' = b_ts y) as Hts by (symmetry; apply (st_ts _ _ _ _ _ Hs)).
  change (b_ts (with_control 0 y)) with (b_ts y). rewrite Hts. destruct (decide (b_ts y = UDI_TS_SUSPENDED)) as [E|E].
  - rewrite bool_decide_false by (intros []; done). eexists _, _, n, t'. split; [reflexivity|]. split; [reflexivity|].
    split; [apply Hsim|]. split; [apply at_other; [done|now apply at_set]|done].
  - rewrite bool_decide_true by done. mstep_with (kill_ok (id t') (upd_thr p t' s) (w_kill _ _ (sim_wired _ _ _ _ H))).
    change (negb (0 =? 0)) with false. cbv iota. eexists _, _, (S n), t'. split; [reflexivity|]. split; [reflexivity|].
    split; [|split; [apply at_other; [done|now apply at_set]|done]].
    pose proof (sim_kill _ _ _ _ j p t' (with_control 0 y) (Hsim (S n)) Hp Ht') as Hk.
    assert (forall A (v w : A) k (L : list A), <[k := v]> (<[k := w]> L) = <[k := v]> L) as Hii
      by (intros; apply list_insert_insert_eq).
    unfold set_thread in Hk |- *. cbn in Hk |- *. rewrite Hii in Hk. apply Hk.
    apply list_lookup_insert_eq. rewrite length_insert. apply lookup_lt_is_Some_1. eauto.
Qed.

Lemma suspend_others_sim rest : forall j fuel n s b o,
  sim h ps s b -> drop j ps = rest -> thr_chain (heap_of s) o rest -> (length rest < fuel)%nat ->
  at_ b i (BlockKill (seq j (length rest)) n) ->
  exists s' b' m, suspend_others fuel thr o n s = Ret m s' /\ steps i b b' /\ sim h ps s' b' /\
    at_ b' i (BlockCollect m).
Proof.
  induction rest as [|p rest IH]; intros j [|fuel] n s b o H Hd Hc Hf (x & Hx & Hl); cbn in Hf; try lia;
    inversion Hc; subst; cbn [suspend_others].
  - exists s, (set_thread i (at_loc (BlockCollect n) x) b), n. split; [done|]. split; [|split].
    + eapply steps_step; [exact Hx|unfold thread_step; now rewrite Hl|apply steps_refl].
    + now apply sim_loc.
    + now apply at_set.
  - destruct (drop_cons_inv ps j p rest Hd) as [Hp Hd']. cbn [length seq] in Hl.
    match goal with Hb : heap_of s !! p = Some ?u |- _ => rename u into t; rename Hb into Ht end.
    destruct (Nat.eqb_spec p thr) as [->|Hne].
    + assert (j = i) as -> by eauto using ps_inj. mstep_prim. mstep_with (thr_op_load thr t s Ht).
      destruct (IH (S i) fuel n s (set_thread i (at_loc (BlockKill (seq (S i) (length rest)) n) x) b) (next_thread t))
        as (s' & b' & m & E & Hst & Hs & Ha); [now apply sim_loc|done|done|lia|now apply at_set|].
      exists s', b', m. split; [done|]. split; [|done].
      eapply steps_step; [exact Hx| |exact Hst]. unfold thread_step. rewrite Hl. cbn. now rewrite decide_True.
    + assert (j <> i) as Hji by (intros ->; congruence).
      destruct (sim_at _ _ _ _ _ _ H Hp) as (t0 & y & Ht0 & Hy & _).
      destruct (suspend_one p t j y x n (seq (S j) (length rest)) s b H Hp Hji Ht Hy Hx Hl)
        as (s1 & b1 & m & t' & E1 & Hst1 & Hs1 & Ha1 & Hheap & Hnext).
      rewrite (bind_Ret _ _ _ _ _ E1).
      assert (heap_of s1 !! p = Some t') as Ht' by (rewrite Hheap; apply lookup_insert_eq).
      mstep_with (thr_op_load p t' s1 Ht'). rewrite Hnext.
      destruct (IH (S j) fuel m s1 b1 (next_thread t)) as (s' & b' & m' & E & Hst & Hs & Ha); [done|done| |lia|done|].
      { rewrite Hheap. eapply chain_frame; [|eassumption]. intros q u _ Hu.
        destruct (decide (p = q)) as [<-|]; [rewrite lookup_insert_eq; simplify_eq; eauto|rewrite lookup_insert_ne by done; eauto]. }
      exists s', b', m'. split; [done|]. split; [|done]. eapply steps_step; [exact Hx|exact Hst1|exact Hst].
Qed.

(** The first loop of [release_other_threads]. *)
Lemma event_pending_has_event fds ks t x : same_thread h fds ks t x -> event_pending t = has_event x.
Proof. intros []. unfold event_pending, has_event. now rewrite st_signal0, st_stack0. Qed.

Lemma find_event_sim rest : forall j fuel s b o,
  sim h ps s b -> drop j ps = rest -> thr_chain (heap_of s) o rest -> (length rest < fuel)%nat ->
  at_ b i (RelScan (seq j (length rest))) ->
  exists r b', find_event fuel (Some thr) o s = Ret r s /\ steps i b b' /\ sim h ps s b' /\
    match r with
    | Some p => exists k, ps !! k = Some p /\ k <> i /\ at_ b' i (RelYield k)
    | None => at_ b' i RelClear
    end.
Proof.
  induction rest as [|p rest IH]; intros j [|fuel] s b o H Hd Hc Hf (x & Hx & Hl); cbn in Hf; try lia;
    inversion Hc; subst; cbn [find_event].
  - exists None, (set_thread i (at_loc RelClear x) b). split; [done|]. split; [|split].
    + eapply steps_step; [exact Hx|unfold thread_step; now rewrite Hl|apply steps_refl].
    + now apply sim_loc.
    + now apply at_set.
  - destruct (drop_cons_inv ps j p rest Hd) as [Hp Hd']. cbn [length seq] in Hl.
    match goal with Hb : heap_of s !! p = Some ?u |- _ => rename u into t; rename Hb into Ht end.
    destruct (sim_at _ _ _ _ _ _ H Hp) as (t0 & y & Ht0 & Hy & Hsame). simplify_eq.
    mstep_with (thr_op_load p t s Ht). rewrite (event_pending_has_event _ _ _ _ Hsame).
    set (go := fun k => set_thread i (at_loc (RelScan (seq (S k) (length (drop (S j) ps)))) x) b).
    destruct (decide (p = thr)) as [->|Hne].
    + assert (j = i) as -> by eauto using ps_inj. rewrite bool_decide_false by (intros []; done). cbn [andb].
      destruct (IH (S i) fuel s (go i) (next_thread t)) as (r & b' & E & Hst & Hs & Ha);
        [now apply sim_loc|done|done|lia|now apply at_set|].
      exists r, b'. split; [done|]. split; [|done]. eapply steps_step; [exact Hx| |exact Hst].
      unfold thread_step. rewrite Hl. cbn. now rewrite decide_True.
    + assert (j <> i) as Hji by (intros ->; congruence). rewrite bool_decide_true by congruence. cbn [andb].
      assert (thread_step i x b = Some (if has_event y then set_thread i (at_loc (RelYield j) x) b else go j)) as Hstep.
      { unfold thread_step. rewrite Hl. cbn. rewrite decide_False by done. rewrite Hy. cbn. now destruct (has_event y). }
      destruct (has_event y).
      * exists (Some p), (set_thread i (at_loc (RelYield j) x) b). split; [done|]. split; [|split; [now apply sim_loc|]].
        -- eapply steps_step; [exact Hx|exact Hstep|apply steps_refl].
        -- exists j. split; [done|]. split; [done|now apply at_set].
      * destruct (IH (S j) fuel s (go j) (next_thread t)) as (r & b' & E & Hst & Hs & Ha);
          [now apply sim_loc|done|done|lia|now apply at_set|].
        exists r, b'. split; [done|]. split; [|done]. eapply steps_step; [exact Hx|exact Hstep|exact Hst].
Qed.

(** The second loop. *)
Lemma release_loop_sim rest : forall j fuel s b o,
  sim h ps s b -> drop j ps = rest -> thr_chain (heap_of s) o rest -> (length rest < fuel)%nat ->
  at_ b i (RelWrite (seq j (length rest))) ->
  exists s' b', release_loop fuel (Some thr) o s = Ret tt s' /\ steps i b b' /\ sim h ps s' b' /\
    at_ b' i RelCheck /\ heap_of s' = heap_of s.
Proof.
  induction rest as [|p rest IH]; intros j [|fuel] s b o H Hd Hc Hf (x & Hx & Hl); cbn in Hf; try lia;
    inversion Hc; subst; cbn [release_loop].
  - exists s, (set_thread i (at_loc RelCheck x) b). split; [done|]. split; [|split; [|split; [|done]]].
    + eapply steps_step; [exact Hx|unfold thread_step; now rewrite Hl|apply steps_refl].
    + now apply sim_loc.
    + now apply at_set.
  - destruct (drop_cons_inv ps j p rest Hd) as [Hp Hd']. cbn [length seq] in Hl.
    match goal with Hb : heap_of s !! p = Some ?u |- _ => rename u into t; rename Hb into Ht end.
    destruct (sim_at _ _ _ _ _ _ H Hp) as (t0 & y & Ht0 & Hy & Hsame). simplify_eq.
    mstep_with (thr_op_load p t s Ht).
    set (next := set_thread i (at_loc (RelWrite (seq (S j) (length (drop (S j) ps)))) x) b).
    assert (exists s1 b1, (if bool_decide (Some thr <> Some p) && bool_decide (ts t = UDI_TS_RUNNING)
        then write_sentinel (control_write t) else ret tt) s = Ret tt s1 /\
      thread_step i x b = Some b1 /\ sim h ps s1 b1 /\
      at_ b1 i (RelWrite (seq (S j) (length (drop (S j) ps)))) /\ heap_of s1 = heap_of s)
      as (s1 & b1 & E1 & Hst1 & Hs1 & Ha1 & Hh1).
    { unfold thread_step. rewrite Hl. cbn [rel_write]. destruct (decide (p = thr)) as [->|Hne].
      - assert (j = i) as -> by eauto using ps_inj. rewrite bool_decide_false by (intros []; done). cbn [andb].
        rewrite decide_True by done. exists s, next. split; [done|]. split; [done|].
        split; [now apply sim_loc|]. split; [now apply at_set|done].
      - assert (j <> i) as Hji by (intros ->; congruence). rewrite bool_decide_true by congruence. cbn [andb].
        rewrite decide_False by done. rewrite Hy. cbn [mbind option_bind].
        rewrite (st_ts _ _ _ _ _ Hsame). destruct (decide (ts t = UDI_TS_RUNNING)) as [E|E].
        + rewrite bool_decide_true by done. eexists _, _. split; [|split; [reflexivity|split; [|split]]].
          * apply write_sentinel_ok. eapply (w_open _ _ (sim_wired _ _ _ _ H)); eauto using list_elem_of_lookup_2.
          * apply sim_write_control with p; [now apply sim_loc|done|done|].
            cbn. now rewrite list_lookup_insert_ne.
          * apply at_other; [done|now apply at_set].
          * done.
        + rewrite bool_decide_false by done. exists s, next. split; [done|]. split; [done|].
          split; [now apply sim_loc|]. split; [now apply at_set|done]. }
    rewrite (bind_Ret _ _ _ _ _ E1).
    destruct (IH (S j) fuel s1 b1 (next_thread t)) as (s' & b' & E & Hst & Hs & Ha & Hh); [done|done|now rewrite Hh1|lia|done|].
    exists s', b'. split; [done|]. split; [|split; [done|split; [done|congruence]]].
    eapply steps_step; [exact Hx|exact Hst1|exact Hst].
Qed.
End Loops.

(** ** The functions *)

(** The test behind the label of line 881. *)
Definition block_verdict (p : ptr) : ST proc Z :=
  let* t := thr_op (thr_load p) in
  ret (if control_thread t then 0 else 1).

(** The end of [release_other_threads] after it has handed over control. *)
Definition hand_wait (fd : Z) : ST proc unit :=
  wait_for_others ;;;
  let* r := io_op (sys_read fd 1) in
  match r with
  | inl (trigger :: _) => if negb (trigger =? sentinel) then udi_abort_file_line else ret tt
  | _ => udi_abort_file_line
  end.

Section Functions.
Context (h : hist) (ps : list ptr) (thr : ptr) (i : nat) (Hi : ps !! i = Some thr).

(** The thread that runs is number [i]. *)
Definition runs_as (s : proc) : Prop :=
  get_current_thread (u_thrs (p_u s)) = Ret (Some thr) (u_thrs (p_u s)) /\
  multithread_capable (u_thrs (p_u s)) = true.

Lemma multithreaded_op s b :
  sim h ps s b -> runs_as s ->
  thr_op get_multithreaded s = Ret (1 <? Z.of_nat (length ps)) s.
Proof.
  intros H [_ Hm]. apply thr_op_id. unfold get_multithreaded, get_multithread_capable, get_num_threads.
  do 2 mstep_prim. rewrite Hm, (inv_count _ _ (sim_list _ _ _ _ H)). unfold ret. cbn. f_equal. lia.
Qed.

Lemma sim_all s b : sim h ps s b -> all_threads b = seq 0 (length ps).
Proof. intros H. unfold all_threads. now rewrite (sim_length _ _ _ _ H). Qed.

Lemma sim_chain s b : sim h ps s b -> thr_chain (heap_of s) (threads (u_thrs (p_u s))) ps.
Proof. intros H. apply (sim_list _ _ _ _ H). Qed.

Lemma sim_fuel s b : sim h ps s b -> (length ps < thread_fuel (p_u s))%nat.
Proof. intros H. apply inv_fuel, (sim_list _ _ _ _ H). Qed.

Lemma thread_list_op s : thr_op get_thread_list s = Ret (threads (u_thrs (p_u s))) s.
Proof. now apply thr_op_id. Qed.

(** This thread takes control: up to the first sentinel it waits for. *)
Lemma block_takes s b :
  sim h ps s b -> runs_as s -> (1 < length ps)%nat -> at_ b i BlockCas -> sync_var b = 0 ->
  exists s' b' n, block_other_threads s = (collect_sentinels n ;;; block_verdict thr) s' /\
    steps i b b' /\ sim h ps s' b' /\ at_ b' i (BlockCollect n).
Proof.
  intros H Hr Hlen (x & Hx & Hl) Hsync. pose proof (sim_sync _ _ _ _ H) as Hss. rewrite Hsync in Hss.
  destruct (sim_at _ _ _ _ _ _ H Hi) as (t & x0 & Ht & Hx0 & Hsame). simplify_eq.
  set (s1 := upd_thr thr (set_control_thread true t) (set_sync_var 1 s)).
  set (b1 := set_sync 1 (set_thread i (at_loc (BlockKill (all_threads b) 0) (with_control 1 x)) b)).
  assert (sim h ps s1 b1) as H1.
  { unfold s1, b1. apply (sim_update h ps (set_sync_var 1 s) (set_sync 1 b) i thr t); try done.
    - now apply sim_set_sync.
    - destruct Hsame. now split. }
  assert (at_ b1 i (BlockKill (seq 0 (length ps)) 0)) as Ha1.
  { rewrite <- (sim_all s b H). exists (at_loc (BlockKill (all_threads b) 0) (with_control 1 x)). split; [|done].
    apply list_lookup_insert_eq, lookup_lt_is_Some_1. eauto. }
  destruct (suspend_others_sim h ps thr i Hi ps 0 (thread_fuel (p_u s1)) 0 s1 b1 (threads (u_thrs (p_u s1))))
    as (s' & b' & n & E & Hst & Hs' & Ha'); [done|done|now apply (sim_chain s1 b1)|now apply (sim_fuel s1 b1)|done|].
  exists s', b', n. split; [|split; [|done]].
  - unfold block_other_threads. mstep_with (multithreaded_op s b H Hr). replace (1 <? _) with true by lia. cbn [negb].
    mstep_with (thr_op_id _ _ _ (proj1 Hr)). mstep_prim. rewrite <- Hss. mstep_prim. change (cas 0 0 1) with 1. cbn [Z.eqb].
    rewrite bind_assoc. mstep_with (thr_op_update thr t (set_control_thread true) (set_sync_var 1 s) Ht). fold s1.
    rewrite bind_assoc. mstep_with (thread_list_op s1). rewrite bind_assoc. mstep_prim. rewrite bind_assoc.
    now mstep_with E.
  - eapply steps_step; [exact Hx| |exact Hst]. unfold thread_step. rewrite Hl. unfold block_cas.
    rewrite (proj2 (Nat.leb_gt _ _)) by (rewrite (sim_length _ _ _ _ H); lia). now rewrite Hsync.
Qed.

(** Another thread has it: up to the wait for its release. *)
Lemma block_yields s b :
  sim h ps s b -> runs_as s -> (1 < length ps)%nat -> at_ b i BlockCas -> sync_var b <> 0 ->
  exists s' b' t, block_other_threads s = (read_sentinel (control_read t) ;;; block_verdict thr) s' /\
    heap_of s' !! thr = Some t /\ steps i b b' /\ sim h ps s' b' /\ at_ b' i BlockWait.
Proof.
  intros H Hr Hlen (x & Hx & Hl) Hsync. pose proof (sim_sync _ _ _ _ H) as Hss. rewrite Hss in Hsync.
  destruct (sim_at _ _ _ _ _ _ H Hi) as (t & x0 & Ht & Hx0 & Hsame). simplify_eq.
  set (fd := bar_write (thread_barrier s)). set (s1 := after_write fd s).
  assert (set_sync_var (bar_sync (thread_barrier s)) s = s) as Hid by (now destruct s as [? ? ? [] ? ?]).
  set (pend := negb (event_signal t =? THREAD_SUSPEND_SIGNAL)).
  set (s2 := upd_thr thr (set_suspend_pending pend t) s1).
  set (b1 := set_thread i (at_loc BlockSentinel x) b).
  set (b2 := set_sentinels (S (sentinels b)) (set_thread i (at_loc BlockPend (at_loc BlockSentinel x)) b1)).
  set (b3 := set_thread i (at_loc BlockWait (with_suspend_pending pend (at_loc BlockPend (at_loc BlockSentinel x)))) b2).
  assert (bthreads b1 !! i = Some (at_loc BlockSentinel x)) as Hx1 by (eapply lookup_set, Hx).
  assert (bthreads b2 !! i = Some (at_loc BlockPend (at_loc BlockSentinel x))) as Hx2 by (eapply lookup_set, Hx1).
  assert (sim h ps s1 b2) as H2.
  { apply (sim_write_bar h ps s (set_thread i _ b1)). apply sim_loc; [now apply sim_loc|done]. }
  assert (sim h ps s2 b3) as H3.
  { destruct (sim_at _ _ _ _ _ _ H2 Hi) as (u & y & Hu & Hy & Hs2). assert (u = t) as -> by (change (heap_of s1) with (heap_of s) in Hu; congruence).
    unfold s2, b3. apply (sim_update h ps s1 b2 i thr t); try done.
    assert (y = at_loc BlockPend (at_loc BlockSentinel x)) as -> by congruence. destruct Hs2. now split. }
  exists s2, b3, (set_suspend_pending pend t). split; [|split; [apply heap_upd|split; [|split; [done|]]]].
  - unfold block_other_threads. mstep_with (multithreaded_op s b H Hr). replace (1 <? _) with true by lia. cbn [negb].
    mstep_with (thr_op_id _ _ _ (proj1 Hr)). mstep_prim. mstep_prim.
    replace (cas (bar_sync (thread_barrier s)) 0 1) with (bar_sync (thread_barrier s))
      by (unfold cas; now rewrite (proj2 (Z.eqb_neq _ _) Hsync)).
    rewrite Hid, (proj2 (Z.eqb_neq _ _) Hsync). rewrite bind_assoc. mstep_prim. rewrite bind_assoc.
    mstep_with (write_sentinel_ok _ _ (w_bar_open _ _ (sim_wired _ _ _ _ H))). fold fd s1. rewrite bind_assoc.
    mstep_with (thr_op_load thr t s1 Ht). rewrite bind_assoc.
    mstep_with (thr_op_update thr t (set_suspend_pending pend) s1 Ht). done.
  - eapply (steps_step _ _ _ b1); [exact Hx| |].
    { unfold thread_step. rewrite Hl. unfold block_cas.
      rewrite (proj2 (Nat.leb_gt _ _)) by (rewrite (sim_length _ _ _ _ H); lia).
      rewrite Hss. now rewrite (proj2 (Z.eqb_neq _ _) Hsync). }
    eapply (steps_step _ _ _ b2); [exact Hx1|done|].
    eapply (steps_step _ _ _ b3); [exact Hx2| |apply steps_refl].
    unfold thread_step. cbn [at_loc b_loc]. unfold block_pend. do 3 f_equal. unfold pend. cbn.
    now rewrite (st_signal _ _ _ _ _ Hsame).
  - eexists. split; [eapply lookup_set, Hx2|done].
Qed.

(** What the thread finds when it wakes up. *)
Lemma verdict_step s b :
  sim h ps s b -> at_ b i BlockResult ->
  exists b' v, block_verdict thr s = Ret v s /\ steps i b b' /\ sim h ps s b' /\
    (v = 0 /\ at_ b' i Control \/ v = 1 /\ at_ b' i Leave).
Proof.
  intros H (x & Hx & Hl). destruct (sim_at _ _ _ _ _ _ H Hi) as (t & x0 & Ht & Hx0 & Hsame). simplify_eq.
  exists (block_result i x b), (if control_thread t then 0 else 1). split; [|split; [|split]].
  - unfold block_verdict. now mstep_with (thr_op_load thr t s Ht).
  - eapply steps_step; [exact Hx|unfold thread_step; now rewrite Hl|apply steps_refl].
  - now apply sim_loc.
  - unfold block_result. rewrite (st_control _ _ _ _ _ Hsame).
    destruct (control_thread t); [left|right]; (split; [done|now apply at_set]).
Qed.

(** *** [release_other_threads] *)

Lemma cas_down (c : bool) : cas (if c then 1 else 0) 1 0 = 0.
Proof. now destruct c. Qed.
Lemma cas_up (c : bool) : cas (if c then 1 else 0) 0 1 = 1.
Proof. now destruct c. Qed.

(** Control goes to thread [k]. *)
Lemma hand_over_sim k p s b :
  sim h ps s b -> ps !! k = Some p -> k <> i -> at_ b i (RelYield k) ->
  exists s' b' t, hand_over (Some thr) p s = hand_wait (control_read t) s' /\ heap_of s' !! thr = Some t /\
    steps i b b' /\ sim h ps s' b' /\ at_ b' i RelHandWait.
Proof.
  intros H Hk Hne (x & Hx & Hl).
  assert (thr <> p) as Hpp by (intros ->; eauto using ps_inj).
  destruct (sim_at _ _ _ _ _ _ H Hi) as (t & x0 & Ht & Hx0 & Hsame). simplify_eq.
  set (t1 := set_control_thread false t). set (x1 := at_loc (RelHand k) (with_control (cas (b_control x) 1 0) x)).
  set (s1 := upd_thr thr t1 s). set (b1 := set_thread i x1 b).
  assert (sim h ps s1 b1) as H1.
  { eapply sim_update; try done. destruct Hsame. split; try done. cbn. now rewrite st_control0, cas_down. }
  assert (bthreads b1 !! i = Some x1) as Hx1 by (eapply lookup_set, Hx).
  destruct (sim_at _ _ _ _ _ _ H1 Hk) as (u & y & Hu & Hy & Hsame1).
  set (u1 := set_control_thread true u). set (y1 := with_control (cas (b_control y) 0 1) y).
  set (s2 := upd_thr p u1 s1). set (b2 := set_thread k y1 (set_thread i (at_loc (RelWake k) x1) b1)).
  assert (sim h ps s2 b2) as H2.
  { eapply sim_update; [now apply sim_loc|done|exact Hu|done..|]. destruct Hsame1.
    split; try done. cbn. now rewrite st_control0, cas_up. }
  assert (heap_of s2 !! p = Some u1) as Hu2 by apply heap_upd.
  assert (bthreads b2 !! k = Some y1) as Hy2.
  { eapply lookup_set, lookup_other; [done|exact Hy]. }
  assert (bthreads b2 !! i = Some (at_loc (RelWake k) x1)) as Hx2.
  { apply lookup_other; [done|]. eapply lookup_set, Hx1. }
  set (x3 := at_loc RelHandWait (at_loc (RelWake k) x1)).
  set (s3 := after_write (control_write u1) s2).
  set (b3 := set_thread k (with_pipe (S (b_pipe y1)) y1) (set_thread i x3 b2)).
  assert (sim h ps s3 b3) as H3.
  { apply (sim_write_control h ps s2 (set_thread i x3 b2) k p u1); [now apply sim_loc|done|done|now apply lookup_other]. }
  exists s3, b3, t1. split; [|split; [|split; [|split; [done|]]]].
  - unfold hand_over. mstep_with (thr_op_update thr t (set_control_thread false) s Ht). fold t1 s1.
    mstep_with (thr_op_update p u (set_control_thread true) s1 Hu). fold u1 s2.
    mstep_with (thr_op_load p u1 s2 Hu2).
    mstep_with (write_sentinel_ok (control_write u1) s2
      (w_open _ _ (sim_wired _ _ _ _ H2) p u1 (list_elem_of_lookup_2 _ _ _ Hk) Hu2)). fold s3.
    assert (heap_of s3 !! thr = Some t1) as Ht3.
    { change (heap_of s3) with (<[p := u1]> (heap_of s1)). rewrite lookup_insert_ne by done. apply heap_upd. }
    now mstep_with (thr_op_load thr t1 s3 Ht3).
  - change (heap_of s3) with (<[p := u1]> (heap_of s1)). rewrite lookup_insert_ne by done. apply heap_upd.
  - eapply (steps_step _ _ _ b1); [exact Hx|unfold thread_step; now rewrite Hl|].
    eapply (steps_step _ _ _ b2); [exact Hx1|unfold thread_step; cbn [x1 at_loc b_loc]; unfold rel_hand; now rewrite Hy|].
    eapply (steps_step _ _ _ b3); [exact Hx2|unfold thread_step; cbn [at_loc b_loc]; unfold rel_wake; now rewrite Hy2|].
    apply steps_refl.
  - apply at_other; [done|]. exists x3. split; [eapply lookup_set, Hx2|done].
Qed.

(** Nobody else has an event: the barrier opens. *)
Lemma release_opens s b :
  sim h ps s b -> runs_as s -> at_ b i RelClear ->
  exists s' b' t, heap_of s' !! thr = Some t /\ steps i b b' /\ sim h ps s' b' /\
    (modify (fun s => set_sync_var (cas (bar_sync (thread_barrier s)) 1 0) s) ;;;
     let* iter := thr_op get_thread_list in
     let* fuel := gets (fun s => thread_fuel (p_u s)) in
     release_loop fuel (Some thr) iter ;;;
     let* t := thr_op (thr_load thr) in
     (if bool_decide (ts t = UDI_TS_SUSPENDED) then read_sentinel (control_read t) else ret tt) ;;;
     ret 0) s
    = (if bool_decide (ts t = UDI_TS_SUSPENDED) then read_sentinel (control_read t) ;;; ret 0 else ret 0) s' /\
    at_ b' i (if bool_decide (ts t = UDI_TS_SUSPENDED) then RelWait else Leave).
Proof.
  intros H Hr (x & Hx & Hl). set (v := cas (bar_sync (thread_barrier s)) 1 0). set (s1 := set_sync_var v s).
  set (b1 := rel_clear i x b).
  assert (sim h ps s1 b1) as H1.
  { unfold b1, rel_clear. rewrite (sim_sync _ _ _ _ H). now apply sim_set_sync, sim_loc. }
  assert (at_ b1 i (RelWrite (seq 0 (length ps)))) as Ha1.
  { rewrite <- (sim_all s b H). exists (at_loc (RelWrite (all_threads b)) x). split; [eapply lookup_set, Hx|done]. }
  destruct (release_loop_sim h ps thr i Hi ps 0 (thread_fuel (p_u s1)) s1 b1 (threads (u_thrs (p_u s1))))
    as (s2 & b2 & E & Hst & H2 & (y & Hy & Hly) & Hh);
    [done|done|now apply (sim_chain s1 b1)|now apply (sim_fuel s1 b1)|done|].
  destruct (sim_at _ _ _ _ _ _ H2 Hi) as (t & y0 & Ht & Hy0 & Hsame). simplify_eq.
  exists s2, (rel_check i y b2), t. split; [done|]. split; [|split; [now apply sim_loc|split]].
  - eapply (steps_step _ _ _ b1); [exact Hx|unfold thread_step; now rewrite Hl|].
    eapply steps_trans; [exact Hst|]. eapply steps_step; [exact Hy|unfold thread_step; now rewrite Hly|apply steps_refl].
  - mstep_prim. fold v s1. mstep_with (thread_list_op s1). mstep_prim. mstep_with E.
    mstep_with (thr_op_load thr t s2 Ht). now destruct (bool_decide _).
  - unfold rel_check. rewrite (st_ts _ _ _ _ _ Hsame).
    destruct (decide (ts t = UDI_TS_SUSPENDED)) as [e|e];
      [rewrite bool_decide_true by done|rewrite bool_decide_false by done]; now apply at_set.
Qed.

Lemma release_steps s b :
  sim h ps s b -> runs_as s -> at_ b i (RelScan (all_threads b)) ->
  exists s' b' t, heap_of s' !! thr = Some t /\ steps i b b' /\ sim h ps s' b' /\
    (at_ b' i Leave /\ release_other_threads s = Ret 0 s' \/
     at_ b' i RelWait /\ release_other_threads s = (read_sentinel (control_read t) ;;; ret 0) s' \/
     at_ b' i RelHandWait /\ release_other_threads s = (hand_wait (control_read t) ;;; ret 0) s').
Proof.
  intros H Hr Ha. rewrite (sim_all s b H) in Ha.
  destruct (find_event_sim h ps thr i Hi ps 0 (thread_fuel (p_u s)) s b (threads (u_thrs (p_u s))))
    as (r & b1 & E & Hst & H1 & Hloc); [done|done|now apply (sim_chain s b)|now apply (sim_fuel s b)|done|].
  unfold release_other_threads.
  assert (thr_op get_multithread_capable s = Ret true s) as Hm
    by (apply thr_op_id; unfold get_multithread_capable, gets; now rewrite (proj2 Hr)).
  mstep_with Hm. cbn [negb]. mstep_with (thr_op_id _ _ _ (proj1 Hr)). mstep_with (thread_list_op s). mstep_prim.
  mstep_with E. destruct r as [p|].
  - destruct Hloc as (k & Hk & Hne & Ha1).
    destruct (hand_over_sim k p s b1 H1 Hk Hne Ha1) as (s' & b' & t & Eh & Ht & Hst' & Hs' & Ha').
    exists s', b', t. split; [done|]. split; [eapply steps_trans; eassumption|]. split; [done|]. right. right.
    split; [done|]. unfold bind. now rewrite Eh.
  - destruct (release_opens s b1 H1 Hr Hloc) as (s' & b' & t & Ht & Hst' & Hs' & Ec & Ha').
    exists s', b', t. split; [done|]. split; [eapply steps_trans; eassumption|]. split; [done|].
    change (bind (modify ?f) ?k s) with (bind (modify f) k s). rewrite Ec.
    destruct (bool_decide _); [right; left|left]; done.
Qed.

(** *** Reading a sentinel *)

(** One byte has left the pipe with the write end [fd]. *)
Definition took (fd : Z) : hist :=
  Hist (fun f => if decide (f = fd) then S (h_read h f) else h_read h f) (h_taken h).

(** The next thing that comes out of [fd] is a sentinel. *)
Definition delivers (fds : gmap Z chan) (fd : Z) : Prop :=
  exists c bs q, fds !! fd = Some c /\ c_in c = RData (sentinel :: bs) :: q.

Lemma sentinel_read fuel fd s :
  delivers (u_fds (p_u s)) fd ->
  exists fds, sentinel_loop (S fuel) fd s
      = Ret tt (put_u (put_env (Env (u_rt (p_u s)) fds (u_pipe_failure (p_u s)) (u_pending (p_u s))) (p_u s)) s) /\
    (forall f, sent fds f = sent (u_fds (p_u s)) f) /\
    (forall f, writable (u_fds (p_u s)) f -> writable fds f).
Proof.
  intros (c & bs & q & Hc & Hin). set (c' := Chan (if decide (length (sentinel :: bs) <= 1)%nat then q else RData bs :: q) (c_wr c) (c_out c)).
  exists (<[fd := c']> (u_fds (p_u s))). split; [|split].
  - cbn [sentinel_loop]. unfold io_op.
    erewrite bind_Ret; [|apply run_u_Ret, on_env_Ret; unfold sys_read; cbn; rewrite Hc, Hin; reflexivity].
    reflexivity.
  - intros f. unfold sent. destruct (decide (fd = f)) as [<-|Hne]; [now rewrite lookup_insert_eq, Hc|].
    now rewrite lookup_insert_ne.
  - intros f (c0 & Hc0 & Hw). unfold writable. destruct (decide (fd = f)) as [<-|Hne].
    + rewrite lookup_insert_eq. exists c'. split; [done|]. cbn. congruence.
    + rewrite lookup_insert_ne by done. eauto.
Qed.

Lemma sim_fds s b fds :
  sim h ps s b -> (forall f, sent fds f = sent (u_fds (p_u s)) f) ->
  (forall f, writable (u_fds (p_u s)) f -> writable fds f) ->
  sim h ps (put_u (put_env (Env (u_rt (p_u s)) fds (u_pipe_failure (p_u s)) (u_pending (p_u s))) (p_u s)) s) b.
Proof.
  intros [H1 H2 H3 H4 H5 H6] Hs Hw. split; try done.
  - destruct H2. split; try done; [|now apply Hw]. intros p t Hp Ht. apply Hw. eauto.
  - cbn. now rewrite Hs.
  - intros j p Hp. destruct (H6 j p Hp) as (t & x & Ht & Hx & []). exists t, x. split; [done|]. split; [done|].
    split; try done. cbn. now rewrite Hs.
Qed.

(** The thread's own pipe. *)
Lemma control_read_sim s b t x n next fuel :
  sim h ps s b -> heap_of s !! thr = Some t -> bthreads b !! i = Some x -> b_pipe x = S n ->
  delivers (u_fds (p_u s)) (control_read t) ->
  exists s' b', sentinel_loop (S fuel) (control_read t) s = Ret tt s' /\ read_control i next x b = Some b' /\
    sim (took (control_write t)) ps s' b' /\ at_ b' i next.
Proof.
  intros H Ht Hx Hn Hd. destruct (sentinel_read fuel (control_read t) s Hd) as (fds & E & Hs & Hw).
  set (x' := at_loc next (with_pipe n x)).
  eexists _, (set_thread i x' b). split; [exact E|]. split; [unfold read_control; now rewrite Hn|].
  split; [|exists x'; split; [eapply lookup_set, Hx|done]].
  pose proof (sim_fds s b fds H Hs Hw) as [H1 H2 H3 H4 H5 H6]. split; try done.
  - cbn. now rewrite length_insert.
  - cbn [took h_read]. rewrite decide_False; [exact H5|]. intros Eb. symmetry in Eb. revert Eb.
    eapply (w_bar _ _ H2); [eapply list_elem_of_lookup_2, Hi|exact Ht].
  - intros j p Hp. destruct (H6 j p Hp) as (u & y & Hu & Hy & Hsame). exists u.
    destruct (decide (i = j)) as [<-|Hne].
    + simplify_eq. assert (u = t) as -> by (change (heap_of s !! thr = Some u) in Hu; congruence).
      exists x'. split; [done|]. split; [eapply lookup_set, Hx|]. destruct Hsame. split; try done.
      cbn in *. rewrite decide_True by done. lia.
    + exists y. split; [done|]. split; [now apply lookup_other|]. destruct Hsame. split; try done.
      cbn [took h_read]. rewrite decide_False; [done|]. intros Ec.
      apply Hne. eapply (NoDup_lookup _ _ _ _ (inv_nodup _ _ H1)); [exact Hi|]. enough (thr = p) as -> by done.
      eapply (w_pipes _ _ H2); [eapply list_elem_of_lookup_2, Hi|eapply list_elem_of_lookup_2, Hp|exact Ht|exact Hu|done].
Qed.

(** The pipe of the barrier. *)
Lemma barrier_read_sim s b x n m fuel :
  sim h ps s b -> bthreads b !! i = Some x -> sentinels b = S n ->
  delivers (u_fds (p_u s)) (bar_read (thread_barrier s)) ->
  exists s' b', sentinel_loop (S fuel) (bar_read (thread_barrier s)) s = Ret tt s' /\
    block_collect i (S m) x b = Some b' /\
    sim (took (bar_write (thread_barrier s))) ps s' b' /\ at_ b' i (BlockCollect m).
Proof.
  intros H Hx Hn Hd. destruct (sentinel_read fuel (bar_read (thread_barrier s)) s Hd) as (fds & E & Hs & Hw).
  set (x' := at_loc (BlockCollect m) x).
  eexists _, (set_sentinels n (set_thread i x' b)). split; [exact E|].
  split; [unfold block_collect; now rewrite Hn|]. split; [|exists x'; split; [eapply lookup_set, Hx|done]].
  pose proof (sim_loc h ps _ b i x (BlockCollect m) (sim_fds s b fds H Hs Hw) Hx) as [H1 H2 H3 H4 H5 H6].
  split; try done.
  - cbn [took h_read]. rewrite decide_True by done. cbn in *. lia.
  - intros j p Hp. destruct (H6 j p Hp) as (u & y & Hu & Hy & Hsame). exists u, y. split; [done|]. split; [done|].
    destruct Hsame. split; try done. cbn [took h_read]. rewrite decide_False; [done|].
    eapply (w_bar _ _ H2); [eapply list_elem_of_lookup_2, Hp|exact Hu].
Qed.

(** C6: the code that stops and releases the other threads runs the steps of the
    barrier's model. From states that correspond, what the running thread does
    up to its next wait or its return is a sequence of its own steps, no other
    thread moving, and the states correspond again: [block_other_threads] up to
    the collection of the sentinels when it takes control, up to the wait on its
    pipe when another thread has it; the test when it wakes up; and
    [release_other_threads] up to its return, or the wait of a suspended thread
    or of one that has handed over control. A read that ends a wait is the
    step of the model that was blocked. *)
Theorem barrier_code_refines s b :
  sim h ps s b -> runs_as s ->
  (at_ b i BlockCas -> length ps = 1%nat ->
     block_other_threads s = Ret 0 s /\ exists b', steps i b b' /\ sim h ps s b' /\ at_ b' i Control) /\
  (at_ b i BlockCas -> (1 < length ps)%nat -> sync_var b = 0 ->
     exists s' b' n, block_other_threads s = (collect_sentinels n ;;; block_verdict thr) s' /\
       steps i b b' /\ sim h ps s' b' /\ at_ b' i (BlockCollect n)) /\
  (at_ b i BlockCas -> (1 < length ps)%nat -> sync_var b <> 0 ->
     exists s' b' t, block_other_threads s = (read_sentinel (control_read t) ;;; block_verdict thr) s' /\
       heap_of s' !! thr = Some t /\ steps i b b' /\ sim h ps s' b' /\ at_ b' i BlockWait) /\
  (at_ b i BlockResult ->
     exists b' v, block_verdict thr s = Ret v s /\ steps i b b' /\ sim h ps s b' /\
       (v = 0 /\ at_ b' i Control \/ v = 1 /\ at_ b' i Leave)) /\
  (at_ b i (RelScan (all_threads b)) ->
     exists s' b' t, heap_of s' !! thr = Some t /\ steps i b b' /\ sim h ps s' b' /\
       (at_ b' i Leave /\ release_other_threads s = Ret 0 s' \/
        at_ b' i RelWait /\ release_other_threads s = (read_sentinel (control_read t) ;;; ret 0) s' \/
        at_ b' i RelHandWait /\ release_other_threads s = (hand_wait (control_read t) ;;; ret 0) s')) /\
  (forall t x n fuel, heap_of s !! thr = Some t -> bthreads b !! i = Some x -> b_pipe x = S n ->
     b_loc x = BlockWait \/ b_loc x = RelWait -> delivers (u_fds (p_u s)) (control_read t) ->
     exists s' b', sentinel_loop (S fuel) (control_read t) s = Ret tt s' /\ step (Run i) b = Some b' /\
       sim (took (control_write t)) ps s' b' /\
       at_ b' i (if decide (b_loc x = BlockWait) then BlockResult else Leave)) /\
  (forall x n m fuel, bthreads b !! i = Some x -> b_loc x = BlockCollect (S m) -> sentinels b = S n ->
     delivers (u_fds (p_u s)) (bar_read (thread_barrier s)) ->
     exists s' b', sentinel_loop (S fuel) (bar_read (thread_barrier s)) s = Ret tt s' /\ step (Run i) b = Some b' /\
       sim (took (bar_write (thread_barrier s))) ps s' b' /\ at_ b' i (BlockCollect m)).
Proof.
  intros H Hr. split; [|split; [|split; [|split; [|split; [|split]]]]].
  - intros (x & Hx & Hl) Hlen. split.
    + unfold block_other_threads. mstep_with (multithreaded_op s b H Hr). now rewrite Hlen.
    + exists (set_thread i (at_loc Control x) b). split; [|split; [now apply sim_loc|now apply at_set]].
      eapply steps_step; [exact Hx| |apply steps_refl]. unfold thread_step. rewrite Hl. unfold block_cas.
      now rewrite (sim_length _ _ _ _ H), Hlen.
  - intros. now apply block_takes.
  - intros. now apply block_yields.
  - intros. now apply verdict_step.
  - intros. now apply release_steps.
  - intros t x n fuel Ht Hx Hn Hl Hd. cbn [step]. rewrite Hx. cbn [mbind option_bind]. unfold thread_step.
    destruct Hl as [Hl|Hl]; rewrite Hl;
      [rewrite decide_True by done|rewrite decide_False by done]; now apply control_read_sim with n.
  - intros x n m fuel Hx Hl Hn Hd. cbn [step]. rewrite Hx. cbn [mbind option_bind]. unfold thread_step. rewrite Hl.
    now apply barrier_read_sim with n.
Qed.
End Functions.
