(* ===== verification/Startup.v ===== *)
(** * Start-up: the debugger's file system, the handshakes and the constructor
    (udirt-posix.c)

    Every debuggee has a directory with a request, a response and an events
    pipe, and one directory with two pipes per thread. Opening a pipe waits for
    the debugger; the init handshake is a request that is answered with the
    protocol version, the architecture and the thread. *)

From Stdlib Require Import String.
From stdpp Require Import gmap.
From S2P Require Import Prelude External Types Barrier Format Memory Breakpoints Registers X86.
From S2P Require Import Io Cbor Requests Threads State Process Signals Handlers Events Posix Sync.

(** ** The globals of udirt-posix.c *)

Definition put_handles (req resp ev : Z) (s : udirt) : udirt :=
  Udirt (u_bps s) (u_fds s) (u_pipe_failure s) (u_pending s) (u_thrs s) (continue_bp s)
    (last_bp_address s) req resp ev (exit_bp s) (exiting s)
    (pass_signal s) (basedir_name s) (sent_signals s) (syscalls s) (selects s).
Definition put_basedir (x : list Z) (s : udirt) : udirt :=
  Udirt (u_bps s) (u_fds s) (u_pipe_failure s) (u_pending s) (u_thrs s) (continue_bp s)
    (last_bp_address s) (proc_request_handle s) (proc_response_handle s) (events_handle s)
    (exit_bp s) (exiting s) (pass_signal s) x (sent_signals s) (syscalls s) (selects s).

Definition set_request_fd (fd : Z) (s : proc) : proc :=
  put_u (put_handles fd (proc_response_handle (p_u s)) (events_handle (p_u s)) (p_u s)) s.
Definition set_response_fd (fd : Z) (s : proc) : proc :=
  put_u (put_handles (proc_request_handle (p_u s)) fd (events_handle (p_u s)) (p_u s)) s.
Definition set_events_fd (fd : Z) (s : proc) : proc :=
  put_u (put_handles (proc_request_handle (p_u s)) (proc_response_handle (p_u s)) fd (p_u s)) s.

Definition set_root (x : list Z) (p : paths) : paths :=
  Paths x (requestfile_name p) (responsefile_name p) (eventsfile_name p).
Definition set_requestfile (x : list Z) (p : paths) : paths :=
  Paths (UDI_ROOT_DIR p) x (responsefile_name p) (eventsfile_name p).
Definition set_responsefile (x : list Z) (p : paths) : paths :=
  Paths (UDI_ROOT_DIR p) (requestfile_name p) x (eventsfile_name p).
Definition set_eventsfile (x : list Z) (p : paths) : paths :=
  Paths (UDI_ROOT_DIR p) (requestfile_name p) (responsefile_name p) x.

Definition on_paths (f : paths -> paths) (s : proc) : proc := put_paths (f (p_paths s)) s.

Definition DEFAULT_UDI_ROOT_DIR : string := "/tmp/udi".
Definition DS_LEN : nat := 1.
Definition PID_STR_LEN : nat := 10.

Section Files.
Context `{Libc}.

(** ** The files of the process *)

Definition malloc_op : ST proc bool := run_u (on_msg udi_malloc).

(** [udi_formatted_str] into a new block of [len] bytes. *)
Definition format_path (len : nat) (format : string) (args : list va) : ST proc (list Z) :=
  match udi_formatted_str (replicate len 0) (Z.of_nat len) format args with
  | None => undef BadFormat
  | Some buf => ret (c_string buf)
  end.

(** One of the three pipes: allocate its name, format it and make it. *)
Definition create_fifo (basedir_length : nat) (name : string) (set_name : list Z -> paths -> paths)
    : ST proc Z :=
  let len := (basedir_length + length (cstr name) + DS_LEN)%nat in
  let* ok := malloc_op in
  if negb ok then ret ENOMEM
  else
    let* root := gets (fun s => UDI_ROOT_DIR (p_paths s)) in
    let* pid := gets (fun s => pid (p_os s)) in
    let* path := format_path len "%s/%d/%s" [VStr root; VInt pid; VStr (cstr name)] in
    modify (on_paths (set_name path)) ;;;
    on_os (os_make (MkFifo path)).

(** A failed allocation has set errno to ENOMEM. *)
Definition create_udi_filesystem : ST proc Z :=
  let* env := gets (fun s => root_env (p_os s)) in
  (match env with
   | Some root => modify (on_paths (set_root root))
   | None =>
       let* ok := malloc_op in
       if negb ok then undef NullDeref
       else modify (on_paths (set_root (cstr DEFAULT_UDI_ROOT_DIR)))
   end) ;;;
  let* root := gets (fun s => UDI_ROOT_DIR (p_paths s)) in
  let basedir_length := (length root + PID_STR_LEN + 1 * DS_LEN + 1)%nat in
  let* ok := malloc_op in
  if negb ok then ret ENOMEM
  else
    let* pid := gets (fun s => pid (p_os s)) in
    let* base := format_path basedir_length "%s/%d" [VStr root; VInt pid] in
    modify (fun s => put_u (put_basedir base (p_u s)) s) ;;;
    let* errnum := on_os (os_make (MkDir base)) in
    if negb (errnum =? 0) then ret errnum
    else
      let* errnum := create_fifo basedir_length REQUEST_FILE_NAME set_requestfile in
      if negb (errnum =? 0) then ret errnum
      else
        let* errnum := create_fifo basedir_length RESPONSE_FILE_NAME set_responsefile in
        if negb (errnum =? 0) then ret errnum
        else create_fifo basedir_length EVENTS_FILE_NAME set_eventsfile.

(** ** The files of a thread *)

Definition thread_create_callback (thr : ptr) : ST proc Z :=
  let* thread_dir := run_u (get_thread_dir thr) in
  match thread_dir with
  | None => ret (-1)
  | Some thread_dir =>
      let* e := on_os (os_make (MkDir thread_dir)) in
      if negb (e =? 0) then
        errmsg_op "failed to create directory %s: %e" [VStr thread_dir; VInt e] ;;; ret (-1)
      else
        let* response_file := run_u (get_thread_file thread_dir RESPONSE_FILE_NAME) in
        match response_file with
        | None => ret (-1)
        | Some response_file =>
            let* request_file := run_u (get_thread_file thread_dir REQUEST_FILE_NAME) in
            match request_file with
            | None => ret (-1)
            | Some request_file =>
                let* e := on_os (os_make (MkFifo request_file)) in
                if negb (e =? 0) then
                  errmsg_op "failed to create request pipe %s: %e" [VStr request_file; VInt e] ;;; ret (-1)
                else
                  let* e := on_os (os_make (MkFifo response_file)) in
                  if negb (e =? 0) then
                    errmsg_op "failed to create response pipe %s: %e" [VStr response_file; VInt e] ;;;
                    ret (-1)
                  else ret 0
            end
        end
  end.

(** ** The handshakes *)

Context `{Libcbor} `{Target} `{Udis86}.

(** The result and [*resp_fd]. *)
Definition thread_create_response_fd_callback (thr : ptr) (response_file : list Z) : ST proc (Z * Z) :=
  let* r := on_os (os_open (OpenWrite response_file)) in
  match r with
  | inr e =>
      thr_op (thr_update thr (set_response_handle (-1))) ;;;
      errmsg_op "failed to open %s: %e" [VStr response_file; VInt e] ;;;
      ret (RESULT_ERROR, -1)
  | inl fd => thr_op (thr_update thr (set_response_handle fd)) ;;; ret (RESULT_SUCCESS, fd)
  end.

Definition thread_create_handshake (thr : ptr) : ST proc Z :=
  let* thread_dir := run_u (get_thread_dir thr) in
  match thread_dir with
  | None => ret RESULT_ERROR
  | Some thread_dir =>
      let* response_file := run_u (get_thread_file thread_dir RESPONSE_FILE_NAME) in
      match response_file with
      | None => ret RESULT_ERROR
      | Some response_file =>
          let* request_file := run_u (get_thread_file thread_dir REQUEST_FILE_NAME) in
          match request_file with
          | None => ret RESULT_ERROR
          | Some request_file =>
              let* r := on_os (os_open (OpenRead request_file)) in
              match r with
              | inr e =>
                  thr_op (thr_update thr (set_request_handle (-1))) ;;;
                  errmsg_op "failed to open %s: %e" [VStr request_file; VInt e] ;;;
                  ret RESULT_ERROR
              | inl fd =>
                  thr_op (thr_update thr (set_request_handle fd)) ;;;
                  let* tid := thr_op (get_thread_id thr) in
                  perform_init_handshake (@run_u) fd
                    (thread_create_response_fd_callback thr response_file) tid
              end
          end
      end
  end.

(** The result, [*resp_fd] and [*output], the initial thread. *)
Definition process_response_fd_callback : ST proc (Z * Z * option ptr) :=
  let* path := gets (fun s => responsefile_name (p_paths s)) in
  let* r := on_os (os_open (OpenWrite path)) in
  match r with
  | inr e =>
      modify (set_response_fd (-1)) ;;;
      errmsg_op "error opening response file fifo: %e" [VInt e] ;;;
      ret (RESULT_ERROR, -1, None)
  | inl fd =>
      modify (set_response_fd fd) ;;;
      let* ok := malloc_op in
      let* thr := thr_op (create_initial_thread ok) in
      match thr with
      | None =>
          errmsg_op "failed to create initial thread" [] ;;;
          ret (RESULT_ERROR, -1, None)
      | Some thr =>
          let* rc := thread_create_callback thr in
          if negb (rc =? 0) then ret (RESULT_ERROR, -1, None)
          else
            let* path := gets (fun s => eventsfile_name (p_paths s)) in
            let* r := on_os (os_open (OpenWrite path)) in
            match r with
            | inr e =>
                modify (set_events_fd (-1)) ;;;
                errmsg_op "error opening response file fifo: %e" [VInt e] ;;;
                ret (RESULT_ERROR, -1, None)
            | inl efd => modify (set_events_fd efd) ;;; ret (RESULT_SUCCESS, fd, Some thr)
            end
      end
  end.

(** A computation with the local [thread *thr] of the caller in its state. *)
Definition beside_out {A} (m : ST proc A) : ST (proc * option ptr) A :=
  zoom fst (fun x s => (x, s.2)) m.

Definition with_out {A} (m : ST (proc * option ptr) A) : ST proc (A * option ptr) := fun s =>
  match m (s, None) with
  | Ret a (s', thr) => Ret (a, thr) s'
  | Undef u => Undef u
  | Aborted (s', _) => Aborted s'
  | Running (s', _) => Running s'
  end.

Definition handshake_with_debugger : ST proc Z :=
  let* path := gets (fun s => requestfile_name (p_paths s)) in
  let* r := on_os (os_open (OpenRead path)) in
  match r with
  | inr e =>
      modify (set_request_fd (-1)) ;;;
      errmsg_op "error opening request file fifo: %e" [VInt e] ;;;
      ret RESULT_ERROR
  | inl fd =>
      modify (set_request_fd fd) ;;;
      let* tid := thr_op get_user_thread_id in
      let* (result, thr) :=
        with_out (perform_init_handshake (fun A m => beside_out (run_u m)) fd
          (let* (result, resp_fd, thr) := beside_out process_response_fd_callback in
           modify (fun s => (s.1, thr)) ;;;
           ret (result, resp_fd)) tid) in
      if negb (result =? RESULT_SUCCESS) then ret result
      else
        match thr with
        | None => undef NullDeref
        | Some thr =>
            let* result := thread_create_handshake thr in
            if negb (result =? RESULT_SUCCESS) then ret result
            else modify (put_enabled true) ;;; ret result
        end
  end.

(** ** The constructor *)

(** Past the masking of signals: the steps of [init_udirt] up to the first
    failure. [exit_addr] is the address of [exit]. *)
Definition init_steps (exit_addr : Z) : ST proc Z :=
  let* rc := locate_wrapper_functions in
  if negb (rc =? 0) then ret RESULT_ERROR
  else
    let* rc := locate_thread_wrapper_functions in
    if negb (rc =? 0) then ret RESULT_ERROR
    else
      let* rc := initialize_thread_sync in
      if negb (rc =? 0) then errmsg_op "failed to initialize thread sync" [] ;;; ret RESULT_ERROR
      else
        let* signal_result := on_sigs setup_signal_handlers in
        if negb (signal_result =? 0) then
          errmsg_op "failed to setup signal handlers: %e" [VInt signal_result] ;;; ret RESULT_ERROR
        else
          let* rc := run_u (install_event_breakpoints exit_addr) in
          if negb (rc =? 0) then ret RESULT_ERROR
          else
            let* rc := create_udi_filesystem in
            if negb (rc =? 0) then errmsg_op "failed to create udi filesystem" [] ;;; ret RESULT_ERROR
            else
              let* result := handshake_with_debugger in
              if negb (result =? RESULT_SUCCESS) then ret result
              else let* (result, _) := run_u (wait_and_execute_command None) in ret result.

(** [testing]: the symbol [testing_udirt] is linked. [global_initialization]
    sets up the log lock and libcbor's allocator, which have no state here. [pthread_sigmask] returns
    an error number, so that the test for -1 does not see its failures; what
    the mask is restored to is then not initialised. *)
Definition init_udirt (testing : bool) (exit_addr : Z) : ST proc unit :=
  if testing then ret tt
  else
    let* (rc, original_set) := mask_op SIG_SETMASK (Some full_set) in
    let* result :=
      (if rc =? -1 then errmsg_op "failed to block all signals: %e" [VInt EINVAL] ;;; ret RESULT_ERROR
       else init_steps exit_addr) in
    if negb (result =? RESULT_SUCCESS) then
      modify (put_enabled false) ;;;
      udi_abort_file_line
    else if negb (rc =? 0) then undef Uninitialized
    else let* _ := mask_op SIG_SETMASK (Some original_set) in ret tt.
End Files.
