(* ===== verification/StartupSpec.v ===== *)
(** * Theorems on start-up *)

From Stdlib Require Import Ascii String.
From stdpp Require Import gmap.
From S2P Require Import Prelude External Types Barrier Format Memory Breakpoints Registers X86.
From S2P Require Import Io Cbor Requests Threads State Process Signals SignalSpec Handlers Events Posix.
From S2P Require Import Sync SyncSpec Startup.

(** ** Path names *)

(** No character is the terminator. *)
Definition c_text (l : list Z) : Prop := Forall (fun c => c <> 0) l.

Lemma c_string_text l : c_text l -> c_string l = l.
Proof.
  induction 1 as [|c l Hc _ IH]; [done|]. cbn. rewrite (proj2 (Z.eqb_neq _ _)) by done. now rewrite IH.
Qed.

Definition decimal (v : Z) : list Z := rev (integer_digits 10 v).
#[global] Arguments decimal : simpl never.

Lemma integer_digits_length n w : (length (integer_digits n w) <= n)%nat.
Proof.
  revert w. induction n as [|n IH]; intros w; cbn; [lia|].
  destruct (0 <? Z.quot w 10); cbn; [specialize (IH (Z.quot w 10))|]; lia.
Qed.

Lemma decimal_length v : (length (decimal v) <= 10)%nat.
Proof. unfold decimal. rewrite length_rev. apply integer_digits_length. Qed.

Lemma decimal_correct v :
  0 <= v <= INT_MAX -> digits_value (decimal v) = v /\ c_text (decimal v).
Proof.
  unfold INT_MAX. intros Hv. destruct (integer_digits_correct 9 v) as [Hval Hdig].
  { change (10 ^ Z.of_nat 10) with 10000000000. lia. }
  split; [exact Hval|]. apply Forall_rev. eapply Forall_impl; [exact Hdig|].
  intros c. unfold is_digit. chars. lia.
Qed.

Lemma udi_log_integer_append l v :
  0 <= v <= INT_MAX -> udi_log_integer (@app Z) l v = Some (l ++ decimal v).
Proof.
  unfold INT_MAX. intros Hv. unfold udi_log_integer, decimal.
  rewrite (proj2 (Z.eqb_neq _ _)) by (unfold INT_MIN; lia). rewrite (proj2 (Z.ltb_ge _ _)) by lia.
  f_equal. generalize (rev (integer_digits 10 v)) as ds. intros ds. revert l.
  induction ds as [|d ds IH]; intros l; cbn; [now rewrite app_nil_r|]. now rewrite IH, <- app_assoc.
Qed.

(** A directory and a name in it. *)
Definition slash (dir name : list Z) : list Z := dir ++ [chr "/"%char] ++ name.

Lemma slash_text dir name : c_text dir -> c_text name -> c_text (slash dir name).
Proof. intros Hd Hn. apply Forall_app; split; [done|]. now constructor. Qed.

Section Paths.
Context `{Libc}.

Lemma varargs_str l x args f :
  udi_log_varargs (@app Z) l (chr "%"%char :: chr "s"%char :: f) (VStr x :: args)
  = udi_log_varargs (@app Z) (l ++ x) f args.
Proof. reflexivity. Qed.

Lemma varargs_int l v args f :
  0 <= v <= INT_MAX ->
  udi_log_varargs (@app Z) l (chr "%"%char :: chr "d"%char :: f) (VInt v :: args)
  = udi_log_varargs (@app Z) (l ++ decimal v) f args.
Proof.
  intros Hv.
  assert (udi_log_directive (@app Z) l (chr "d"%char) (VInt v :: args) = Some (l ++ decimal v, args)) as E.
  { change (udi_log_directive (@app Z) l (chr "d"%char) (VInt v :: args))
      with ((fun c => (c, args)) <$> udi_log_integer (@app Z) l (i32 v)).
    rewrite i32_small by (unfold INT_MIN, INT_MAX in *; lia). now rewrite udi_log_integer_append. }
  change (udi_log_varargs (@app Z) l (chr "%"%char :: chr "d"%char :: f) (VInt v :: args))
    with (match udi_log_directive (@app Z) l (chr "d"%char) (VInt v :: args) with
          | Some (ctx', args') => udi_log_varargs (@app Z) ctx' f args' | None => None end).
  now rewrite E.
Qed.

Lemma varargs_slash l args f :
  udi_log_varargs (@app Z) l (chr "/"%char :: f) args = udi_log_varargs (@app Z) (l ++ [chr "/"%char]) f args.
Proof. reflexivity. Qed.

Lemma formatted_base root v :
  0 <= v <= INT_MAX ->
  formatted (cstr "%s/%d") [VStr root; VInt v] = Some (slash root (decimal v)).
Proof.
  intros Hv. rewrite <- formatted_append. cbn [cstr].
  rewrite varargs_str, varargs_slash, varargs_int by done. unfold slash.
  change (udi_log_varargs app ?l [] []) with (Some l). now rewrite <- ?app_assoc.
Qed.

Lemma formatted_file root v name :
  0 <= v <= INT_MAX ->
  formatted (cstr "%s/%d/%s") [VStr root; VInt v; VStr name] = Some (slash (slash root (decimal v)) name).
Proof.
  intros Hv. rewrite <- formatted_append. cbn [cstr].
  rewrite varargs_str, varargs_slash, varargs_int, varargs_slash, varargs_str by done. unfold slash.
  change (udi_log_varargs app ?l [] []) with (Some l). now rewrite <- ?app_assoc.
Qed.

(** The block is large enough: nothing is cut off. *)
Lemma format_path_exact len format args out (s : proc) :
  Z.of_nat len < 2 ^ 64 -> (length out < len)%nat -> c_text out ->
  formatted (cstr format) args = Some out -> format_path len format args s = Ret out s.
Proof.
  intros Hl Ho Ht Hf. unfold format_path.
  destruct (formatted_str_spec (replicate len 0) (Z.of_nat len) format args out) as (buf & -> & -> & _); [lia| |done|].
  - rewrite length_replicate. lia.
  - rewrite take_ge by lia. cbn [app]. now rewrite c_string_app, c_string_text.
Qed.

(** ** The files of the process *)

Definition allocs_ok (s : proc) : Prop := allocs (u_rt (p_u s)) = [].

Lemma malloc_op_ok s : allocs_ok s -> malloc_op s = Ret true s.
Proof.
  intros Ha. apply run_u_id. rewrite (on_msg_Ret _ _ true (u_rt (p_u s))).
  - now destruct s as [[[[] ? ? ?] ? ? ? ? ? ? ? ? ? ? ? ? ? ? ? ?]].
  - unfold udi_malloc. unfold allocs_ok in Ha. now rewrite Ha.
Qed.

(** What a sequence of creations leaves: those before the first that fails,
    and its error. *)
Fixpoint made (rs : list Z) (evs : list fs_event) : list fs_event * Z :=
  match evs with
  | [] => ([], 0)
  | ev :: evs =>
      let '(e, rs) := next_or 0 rs in
      if e =? 0 then let '(l, e) := made rs evs in (ev :: l, e) else ([], e)
  end.

(** [create_fifo] makes exactly the pipe [root/pid/name]. *)
Lemma create_fifo_exact root base bl name set_name s :
  allocs_ok s -> 0 <= pid (p_os s) <= INT_MAX -> UDI_ROOT_DIR (p_paths s) = root ->
  c_text root -> c_text (cstr name) -> base = slash root (decimal (pid (p_os s))) ->
  (length base < bl)%nat -> Z.of_nat (bl + length (cstr name) + 1) < 2 ^ 64 ->
  create_fifo bl name set_name s =
  on_os (os_make (MkFifo (slash base (cstr name)))) (on_paths (set_name (slash base (cstr name))) s).
Proof.
  intros Ha Hp Hr Ht Hn -> Hb Hl. unfold create_fifo. mstep_with (malloc_op_ok s Ha). cbn [negb].
  mstep_prim. mstep_prim. rewrite Hr.
  pose proof (decimal_correct _ Hp) as [_ Hd].
  assert (length (slash (slash root (decimal (pid (p_os s)))) (cstr name))
          < bl + length (cstr name) + DS_LEN)%nat as Hlen.
  { unfold slash at 1. rewrite length_app. cbn [length app]. unfold DS_LEN. lia. }
  rewrite (bind_Ret _ _ _ _ _ (format_path_exact _ _ _ _ s Hl Hlen
    (slash_text _ _ (slash_text _ _ Ht Hd) Hn) (formatted_file root _ (cstr name) Hp))).
  now mstep_prim.
Qed.

Lemma os_make_step {A} ev (k : Z -> ST proc A) s :
  bind (on_os (os_make ev)) k s =
  k (next_or 0 (fs_results (p_os s))).1
    (put_os (OsEnv (root_env (p_os s)) (pid (p_os s)) (dl_results (p_os s))
       (next_or 0 (fs_results (p_os s))).2
       (if (next_or 0 (fs_results (p_os s))).1 =? 0 then fs_log (p_os s) ++ [ev] else fs_log (p_os s))
       (open_results (p_os s)) (fork_results (p_os s)) (thread_results (p_os s))
       (kill_results (p_os s)) (killed (p_os s)) (waits (p_os s))) s).
Proof.
  unfold on_os, zoom, bind, os_make. now destruct (next_or 0 (fs_results (p_os s))) as [e es].
Qed.

Definition process_files (base : list Z) : list fs_event :=
  [MkDir base; MkFifo (slash base (cstr REQUEST_FILE_NAME));
   MkFifo (slash base (cstr RESPONSE_FILE_NAME)); MkFifo (slash base (cstr EVENTS_FILE_NAME))].

Lemma made_step rs ev evs :
  made rs (ev :: evs) =
  if (next_or 0 rs).1 =? 0 then let '(l, e) := made (next_or 0 rs).2 evs in (ev :: l, e)
  else ([], (next_or 0 rs).1).
Proof. cbn. now destruct (next_or 0 rs). Qed.

(** The result, the log and the state of a chain of creations. *)
Definition chain_ok (o : outcome proc Z) (log : list fs_event) (r : list fs_event * Z) (fin : proc -> Prop) : Prop :=
  exists e s', o = Ret e s' /\ (fs_log (p_os s'), e) = (log ++ r.1, r.2) /\ (e = 0 -> fin s').

Lemma make_then ev evs (k : ST proc Z) s fin :
  (forall o, pid o = pid (p_os s) -> fs_log o = fs_log (p_os s) ++ [ev] ->
     fs_results o = (next_or 0 (fs_results (p_os s))).2 ->
     chain_ok (k (put_os o s)) (fs_log o) (made (fs_results o) evs) fin) ->
  chain_ok (bind (on_os (os_make ev)) (fun e => if negb (e =? 0) then ret e else k) s)
    (fs_log (p_os s)) (made (fs_results (p_os s)) (ev :: evs)) fin.
Proof.
  intros Hk. rewrite os_make_step, made_step.
  destruct (Z.eqb_spec (next_or 0 (fs_results (p_os s))).1 0) as [E|E]; cbn [negb].
  - match goal with |- context [put_os ?o s] => destruct (Hk o eq_refl eq_refl eq_refl) as (e & s' & -> & Hl & Hf) end.
    exists e, s'. split; [done|]. split; [|done]. cbn in Hl. destruct (made _ _) as [l e']. cbn in *.
    rewrite Hl. f_equal. now rewrite <- app_assoc.
  - eexists _, _. split; [reflexivity|]. cbn. split; [now rewrite app_nil_r|done].
Qed.

Lemma fifo_then base bl name set_name evs (k : ST proc Z) s fin :
  allocs_ok s -> 0 <= pid (p_os s) <= INT_MAX -> c_text (UDI_ROOT_DIR (p_paths s)) -> c_text (cstr name) ->
  base = slash (UDI_ROOT_DIR (p_paths s)) (decimal (pid (p_os s))) ->
  (length base < bl)%nat -> Z.of_nat (bl + length (cstr name) + 1) < 2 ^ 64 ->
  (forall o, pid o = pid (p_os s) ->
     chain_ok (k (put_os o (on_paths (set_name (slash base (cstr name))) s))) (fs_log o)
       (made (fs_results o) evs) fin) ->
  chain_ok (bind (create_fifo bl name set_name) (fun e => if negb (e =? 0) then ret e else k) s)
    (fs_log (p_os s)) (made (fs_results (p_os s)) (MkFifo (slash base (cstr name)) :: evs)) fin.
Proof.
  intros Ha Hp Ht Hn Hb Hbb Hl Hk. unfold bind at 1.
  rewrite (create_fifo_exact _ base bl name set_name s Ha Hp eq_refl Ht Hn Hb Hbb Hl).
  apply (make_then (MkFifo (slash base (cstr name))) evs k (on_paths _ s)). auto.
Qed.

Lemma bind_last {S} (m : ST S Z) s : m s = bind m (fun e => if negb (e =? 0) then ret e else ret 0) s.
Proof. unfold bind. destruct (m s) as [e s'| | |]; try done. now destruct (Z.eqb_spec e 0) as [->|]. Qed.

(** The side conditions of [fifo_then] in the theorem below. *)
Ltac next_fifo root o Hpo :=
  lazymatch goal with
  | Ha : allocs_ok _, Hp : 0 <= pid _ <= INT_MAX, Ht : c_text root, Hbb : (length ?base < _)%nat,
    Hbn : forall n, (n <= 8)%nat -> _ |- _ =>
      apply (fifo_then base);
      [ exact Ha
      | change (0 <= pid o <= INT_MAX); rewrite Hpo; exact Hp
      | exact Ht
      | now repeat constructor
      | change (base = slash root (decimal (pid o))); now rewrite Hpo
      | exact Hbb
      | apply Hbn; cbn; lia
      | ]
  end.

(** C23: the debugger finds its files. Unless an allocation fails,
    [create_udi_filesystem] makes the directory [root/pid] and in it the pipes
    request, response and events, in this order, up to the first system call
    that fails, and returns the error of that call; none of the names is cut
    off by the block it is formatted into, whatever the process id and the
    root directory (UDI_ROOT_DIR or /tmp/udi), and the directory's name is the
    process id in decimal. On success the names are those the handshake
    opens. *)
Theorem udi_filesystem_exact s :
  let root := default (cstr DEFAULT_UDI_ROOT_DIR) (root_env (p_os s)) in
  let base := slash root (decimal (pid (p_os s))) in
  allocs_ok s -> 0 <= pid (p_os s) <= INT_MAX -> c_text root -> Z.of_nat (length root) < 2 ^ 63 ->
  digits_value (decimal (pid (p_os s))) = pid (p_os s) /\
  exists e s', create_udi_filesystem s = Ret e s' /\
    (fs_log (p_os s'), e) =
      (let '(l, e) := made (fs_results (p_os s)) (process_files base) in (fs_log (p_os s) ++ l, e)) /\
    (e = 0 -> basedir_name (p_u s') = base /\
       p_paths s' = Paths root (slash base (cstr REQUEST_FILE_NAME)) (slash base (cstr RESPONSE_FILE_NAME))
                      (slash base (cstr EVENTS_FILE_NAME))).
Proof.
  intros root base Ha Hp Ht Hl. split; [now apply decimal_correct|].
  pose proof (decimal_correct _ Hp) as [_ Hd]. pose proof (decimal_length (pid (p_os s))) as Hdl.
  assert (length base = length root + 1 + length (decimal (pid (p_os s))))%nat as Hbl
    by (unfold base, slash; rewrite length_app; cbn [length app]; lia).
  unfold create_udi_filesystem. mstep_prim.
  set (s1 := on_paths (set_root root) s).
  assert (forall k, bind (match root_env (p_os s) with
    | Some r => modify (on_paths (set_root r))
    | None => let* ok := malloc_op in if negb ok then undef NullDeref
              else modify (on_paths (set_root (cstr DEFAULT_UDI_ROOT_DIR))) end) k s = k tt s1) as ->.
  { intros k. unfold s1, root. destruct (root_env (p_os s)); [now mstep_prim|].
    rewrite (bind_assoc (S := proc)). now mstep_with (malloc_op_ok s Ha). }
  mstep_prim. change (UDI_ROOT_DIR (p_paths s1)) with root.
  set (bl := (length root + PID_STR_LEN + 1 * DS_LEN + 1)%nat).
  assert (length base < bl)%nat as Hbb by (unfold bl, PID_STR_LEN, DS_LEN; lia).
  mstep_with (malloc_op_ok s1 Ha). cbn [negb]. mstep_prim.
  rewrite (bind_Ret _ _ _ _ _ (format_path_exact bl _ _ _ s1 ltac:(unfold bl, PID_STR_LEN, DS_LEN; lia)
    Hbb (slash_text _ _ Ht Hd) (formatted_base root _ Hp))). fold base. mstep_prim.
  set (s2 := put_u _ s1).
  assert (forall n, (n <= 8)%nat -> Z.of_nat (bl + n + 1) < 2 ^ 64) as Hbn
    by (unfold bl, PID_STR_LEN, DS_LEN; intros; lia).
  assert (chain_ok (bind (on_os (os_make (MkDir base))) (fun errnum => if negb (errnum =? 0) then ret errnum else
    let* errnum := create_fifo bl REQUEST_FILE_NAME set_requestfile in
    if negb (errnum =? 0) then ret errnum else
    let* errnum := create_fifo bl RESPONSE_FILE_NAME set_responsefile in
    if negb (errnum =? 0) then ret errnum else create_fifo bl EVENTS_FILE_NAME set_eventsfile) s2)
    (fs_log (p_os s)) (made (fs_results (p_os s)) (process_files base))
    (fun s' => basedir_name (p_u s') = base /\
       p_paths s' = Paths root (slash base (cstr REQUEST_FILE_NAME)) (slash base (cstr RESPONSE_FILE_NAME))
                      (slash base (cstr EVENTS_FILE_NAME)))) as (e & s' & E & Hlog & Hfin).
  { apply (make_then _ _ _ s2). intros o1 Hp1 _ _. change (pid o1 = pid (p_os s)) in Hp1.
    next_fifo root o1 Hp1. intros o2 Hp2. change (pid o2 = pid o1) in Hp2. rewrite Hp1 in Hp2.
    next_fifo root o2 Hp2. intros o3 Hp3. change (pid o3 = pid o2) in Hp3. rewrite Hp2 in Hp3.
    rewrite bind_last. next_fifo root o3 Hp3.
    intros o4 _. eexists _, _. split; [reflexivity|]. cbn. split; [now rewrite app_nil_r|done]. }
  exists e, s'. split; [exact E|]. split; [|done]. destruct (made _ _). exact Hlog.
Qed.
End Paths.

(** ** All or nothing *)

(** Computations on a state that holds the process's. *)
Section Inert.
Context {S : Type} (view : S -> proc).

(** [m] leaves the dispositions alone and enables nothing: if it returns, the
    library is as enabled as before; if it aborts, it is disabled, or has not
    located [sigaction] yet. *)
Definition inert {A} (m : ST S A) : Prop := forall s,
  match m s with
  | Ret _ s' => p_sigs (view s') = p_sigs (view s) /\ udi_enabled (view s') = udi_enabled (view s)
  | Aborted s' =>
      udi_enabled (view s') = false \/
      (udi_enabled (view s') = udi_enabled (view s) /\ real_sigaction_located (p_sigs (view s)) = false)
  | _ => True
  end.

Lemma inert_ret {A} (a : A) : inert (ret a).
Proof. now intros s. Qed.
Lemma inert_gets {A} (f : S -> A) : inert (gets f).
Proof. now intros s. Qed.
Lemma inert_undef {A} u : inert (A := A) (undef u).
Proof. now intros s. Qed.
Lemma inert_running {A} : inert (A := A) running.
Proof. now intros s. Qed.
Lemma inert_of_option {A} u (o : option A) : inert (of_option u o).
Proof. now destruct o. Qed.

Lemma inert_modify f :
  (forall s, p_sigs (view (f s)) = p_sigs (view s) /\ udi_enabled (view (f s)) = udi_enabled (view s)) ->
  inert (modify f).
Proof. intros Hf s. apply Hf. Qed.

Lemma inert_bind {A B} (m : ST S A) (k : A -> ST S B) :
  inert m -> (forall a, inert (k a)) -> inert (bind m k).
Proof.
  intros Hm Hk s. unfold bind. specialize (Hm s). destruct (m s) as [a s1| |s1|s1]; try done.
  destruct Hm as [E1 E2]. specialize (Hk a s1). destruct (k a s1); try done.
  - now rewrite <- E1, <- E2.
  - now rewrite <- E1, <- E2.
Qed.

Lemma inert_handshake `{Libc} `{Libcbor} `{Target} lift req_fd callback tid :
  (forall A m, inert (lift A m)) -> inert callback ->
  inert (perform_init_handshake lift req_fd callback tid).
Proof.
  intros Hl Hc. unfold perform_init_handshake.
  apply inert_bind; [apply Hl|]. intros [r ty]. destruct (negb _); [apply inert_ret|].
  apply inert_bind; [exact Hc|]. intros [r' fd]. destruct (negb _); [apply inert_ret|].
  destruct (negb _); [|apply Hl]. apply inert_bind; [apply Hl|]. intros ?. apply inert_ret.
Qed.
End Inert.

Notation inert_p := (inert (fun s : proc => s)).

Lemma inert_on_os {A} (m : ST osenv A) :
  (forall s, match m s with Aborted _ => False | _ => True end) -> inert_p (on_os m).
Proof. intros Hm s. unfold on_os, zoom. specialize (Hm (p_os s)). now destruct (m (p_os s)). Qed.

Lemma inert_on_u {A} (m : ST udirt A) :
  (forall s, match m s with Aborted _ => False | _ => True end) -> inert_p (on_u m).
Proof. intros Hm s. unfold on_u, zoom. specialize (Hm (p_u s)). now destruct (m (p_u s)). Qed.

Lemma on_sigs_enabled {A} (m : ST sigs A) s :
  match on_sigs m s with
  | Ret _ s' | Aborted s' | Running s' => udi_enabled s' = udi_enabled s
  | Undef _ => True
  end.
Proof. unfold on_sigs, zoom. now destruct (m (p_sigs s)). Qed.

Lemma inert_abort {A} : inert_p (udi_abort_file_line (A := A)).
Proof.
  intros s. unfold udi_abort_file_line. rewrite bind_gets. unfold bind at 1.
  destruct (real_sigaction_located _) eqn:Hl; [|cbn; auto].
  unfold bind at 1, on_sigs, zoom, real_sigaction. rewrite Hl.
  destruct (sys_sigaction _ _ _) as [r k]. unfold disable_debugging, bind at 1, modify at 1.
  unfold bind at 1, uninstall_signal_handlers. rewrite bind_gets.
  match goal with |- context [on_sigs ?m ?t] => pose proof (on_sigs_enabled m t) as H; destruct (on_sigs m t) end;
    cbn in *; auto.
Qed.

Lemma inert_run_u {A} (m : ST udirt A) : inert_p (run_u m).
Proof.
  intros s. unfold run_u, on_u, zoom. destruct (m (p_u s)) as [| |u|]; cbn -[udi_abort_file_line]; auto.
  pose proof (inert_abort (A := A) (put_u u s)) as Ha.
  destruct (udi_abort_file_line (put_u u s)) as [? s2| |s2|] eqn:E; done.
Qed.

Lemma inert_beside {A} (m : ST proc A) : inert_p m -> inert fst (beside_out m).
Proof. intros Hm [s o]. unfold beside_out, zoom. cbn. specialize (Hm s). destruct (m s); auto. Qed.

Lemma inert_with_out {A} (m : ST (proc * option ptr) A) : inert fst m -> inert_p (with_out m).
Proof.
  intros Hm s. unfold with_out. specialize (Hm (s, None)). destruct (m (s, None)) as [? []| |[]|[]]; done.
Qed.

Lemma inert_errmsg `{Libc} f args : inert_p (errmsg_op f args).
Proof.
  apply inert_on_u. intros s. unfold set_errmsg, on_msg, on_access, on_bps, on_acc, on_rt, zoom, udi_set_errmsg.
  now destruct (errmsg_text f args).
Qed.

Lemma inert_mask how m : inert_p (mask_op how m).
Proof.
  apply inert_on_u. intros s. unfold on_access, on_bps, on_acc, zoom, setsigmask.
  destruct (sigmask_rc _) as [|rc rcs]; cbn; [done|]. now destruct (rc =? 0).
Qed.

Lemma inert_make ev : inert_p (on_os (os_make ev)).
Proof. apply inert_on_os. intros s. unfold os_make. now destruct (next_or _ _). Qed.
Lemma inert_open ev : inert_p (on_os (os_open ev)).
Proof. apply inert_on_os. intros s. unfold os_open. now destruct (next_or _ _). Qed.
Lemma inert_dlsym : inert_p (on_os os_dlsym).
Proof. apply inert_on_os. intros s. unfold os_dlsym. now destruct (next_or _ _). Qed.

Create HintDb inert.
#[export] Hint Resolve inert_ret inert_gets inert_undef inert_running inert_of_option inert_abort inert_run_u
  inert_errmsg inert_mask inert_make inert_open inert_dlsym : inert.

(** Walk through a computation, one case for every branch of the code. *)
Ltac inert_walk :=
  repeat
    (cbv beta zeta;
     first
     [ solve [auto with inert nocore]
     | match goal with
       | |- inert _ (bind _ _) => apply inert_bind; [|intros ?]
       | |- inert _ (modify _) => apply inert_modify; intros ?; split; reflexivity
       | |- inert _ (if ?b then _ else _) => destruct b
       | |- inert _ (match ?x with _ => _ end) => destruct x
       end ]).

Section Init.
Context `{Libc} `{Libcbor} `{Target} `{Udis86}.

Lemma inert_create_filesystem : inert_p create_udi_filesystem.
Proof. unfold create_udi_filesystem, create_fifo, format_path, malloc_op. inert_walk. Qed.

Lemma inert_thread_create thr : inert_p (thread_create_callback thr).
Proof. unfold thread_create_callback. inert_walk. Qed.

Lemma inert_thread_handshake thr : inert_p (thread_create_handshake thr).
Proof.
  unfold thread_create_handshake, thr_op. inert_walk.
  apply inert_handshake; [auto with inert nocore|]. unfold thread_create_response_fd_callback, thr_op.
  inert_walk.
Qed.

Lemma inert_response_callback : inert_p process_response_fd_callback.
Proof.
  pose proof inert_thread_create. unfold process_response_fd_callback, malloc_op, thr_op. inert_walk.
Qed.

(** From a state with [sigaction] located and the library enabled or not
    ([e0]): [m] leaves the dispositions alone, its result and the flag are
    related by [Q], and an abort disables the library. *)
Definition tells {A} (e0 : bool) (Q : A -> bool -> Prop) (m : ST proc A) : Prop := forall s,
  real_sigaction_located (p_sigs s) = true -> udi_enabled s = e0 ->
  match m s with
  | Ret a s' => p_sigs s' = p_sigs s /\ Q a (udi_enabled s')
  | Aborted s' => udi_enabled s' = false
  | _ => True
  end.

Lemma tells_inert {A} e0 Q (m : ST proc A) : inert_p m -> (forall a, Q a e0) -> tells e0 Q m.
Proof.
  intros Hm HQ s Hl He. specialize (Hm s). destruct (m s); try done.
  - destruct Hm as [E1 E2]. split; [done|]. now rewrite E2, He.
  - destruct Hm as [Hm|[_ Hm]]; congruence.
Qed.

Lemma tells_ret {A} e0 (Q : A -> bool -> Prop) a : Q a e0 -> tells e0 Q (ret a).
Proof. intros HQ s _ He. cbn. now rewrite He. Qed.

Lemma tells_bind {A B} e0 Q (m : ST proc A) (k : A -> ST proc B) :
  inert_p m -> (forall a, tells e0 Q (k a)) -> tells e0 Q (bind m k).
Proof.
  intros Hm Hk s Hl He. unfold bind. specialize (Hm s). destruct (m s) as [a s1| |s1|s1]; try done.
  - destruct Hm as [E1 E2]. specialize (Hk a s1). rewrite E1 in Hk. apply Hk; congruence.
  - destruct Hm as [Hm|[_ Hm]]; congruence.
Qed.

Definition enabled_iff (r : Z) (e : bool) : Prop := e = (r =? RESULT_SUCCESS).

Lemma handshake_tells : tells false enabled_iff handshake_with_debugger.
Proof.
  unfold handshake_with_debugger, thr_op. apply tells_bind; [auto with inert nocore|]. intros path.
  apply tells_bind; [auto with inert nocore|]. intros [fd|e].
  - apply tells_bind; [inert_walk|]. intros _. apply tells_bind; [inert_walk|]. intros tid.
    apply tells_bind.
    + apply inert_with_out, inert_handshake; [intros; apply inert_beside; auto with inert nocore|].
      apply inert_bind; [apply inert_beside, inert_response_callback|]. intros [[r fd'] thr]. inert_walk.
    + intros [r thr]. destruct (r =? RESULT_SUCCESS) eqn:Er; cbn [negb].
      2: { apply tells_ret. unfold enabled_iff. now rewrite Er. }
      destruct thr as [thr|]; [|now intros s Hl He].
      apply tells_bind; [apply inert_thread_handshake|]. intros r'.
      destruct (r' =? RESULT_SUCCESS) eqn:Er'; cbn [negb].
      * intros s Hl He. cbn. split; [done|]. unfold enabled_iff. now rewrite Er'.
      * apply tells_ret. unfold enabled_iff. now rewrite Er'.
  - apply tells_bind; [inert_walk|]. intros _. apply tells_bind; [inert_walk|]. intros _. now apply tells_ret.
Qed.

(** ** Locating the wrapped functions *)

Lemma inert_locate_ids n : inert_p (locate_all (replicate n (fun _ x => x))).
Proof.
  induction n as [|n IH]; cbn [replicate locate_all]; [apply inert_ret|].
  apply inert_bind; [|intros []; auto with inert nocore].
  unfold locate_one. inert_walk. now intros s.
Qed.

Lemma inert_thread_sync : inert_p initialize_thread_sync.
Proof. unfold initialize_thread_sync, thr_op. inert_walk. Qed.

(** With the library disabled: what [locate_wrapper_functions] leaves. *)
Lemma locate_wrapper_spec s :
  udi_enabled s = false ->
  match locate_wrapper_functions s with
  | Ret r s' => udi_enabled s' = false /\ k_actions (p_sigs s') = k_actions (p_sigs s) /\
                (r = 0 -> real_sigaction_located (p_sigs s') = true) /\
                app_actions (p_sigs s') = app_actions (p_sigs s)
  | Aborted s' => udi_enabled s' = false
  | _ => True
  end.
Proof.
  intros He. unfold locate_wrapper_functions. cbn [locate_all]. unfold bind at 1.
  unfold locate_one at 1, bind at 1, on_os, zoom, os_dlsym.
  destruct (next_or None (dl_results (p_os s))) as [[text|] rs]; cbn -[locate_all locate_one].
  { done. }
  match goal with |- context [put_sigs ?x ?y] => set (s1 := put_sigs x y) end.
  pose proof (inert_locate_ids 3 s1) as Hi. cbn [replicate locate_all] in Hi.
  match goal with |- match ?m with _ => _ end => destruct m as [r s'| |s'|] end; try done.
  - destruct Hi as [E1 E2]. rewrite E1, E2. done.
  - destruct Hi as [->|[-> _]]; done.
Qed.

(** ** The constructor *)

(** What a step of [init_udirt] may leave, when the system's table was [k]. *)
Definition init_ok (k : gmap Z sigact) (o : outcome proc Z) : Prop :=
  match o with
  | Ret r s' => r = RESULT_SUCCESS -> udi_enabled s' = true /\ hidden k (p_sigs s')
  | Aborted s' => udi_enabled s' = false
  | _ => True
  end.

Lemma init_ok_tells k m s :
  tells false (fun r e => r = RESULT_SUCCESS -> e = true) m -> udi_enabled s = false -> hidden k (p_sigs s) ->
  init_ok k (m s).
Proof.
  intros Hm He Hh. specialize (Hm s (hid_located _ _ Hh) He). unfold init_ok.
  destruct (m s) as [r s'| |s'|]; try done. destruct Hm as [E Hq]. intros Hr. rewrite E. auto.
Qed.

(** The last step, a failed one included. *)
Lemma init_ok_bind k (m : ST proc Z) (f : Z -> ST proc Z) s :
  inert_p m -> udi_enabled s = false ->
  (forall r s', p_sigs s' = p_sigs s -> udi_enabled s' = false -> init_ok k (f r s')) ->
  init_ok k (bind m f s).
Proof.
  intros Hm He Hf. unfold bind. specialize (Hm s). destruct (m s) as [r s'| |s'|]; try done.
  - destruct Hm as [E1 E2]. apply Hf; congruence.
  - cbn. destruct Hm as [->|[-> _]]; done.
Qed.

Lemma init_failed k s (f : ST proc unit) : inert_p f -> udi_enabled s = false -> init_ok k ((f ;;; ret RESULT_ERROR) s).
Proof.
  intros Hf He. unfold bind. specialize (Hf s). destruct (f s) as [r s'| |s'|]; try done.
  cbn. destruct Hf as [->|[-> _]]; done.
Qed.

(** The second half: the handshake and the first requests. *)
Lemma handshake_then_command k s :
  udi_enabled s = false -> hidden k (p_sigs s) ->
  init_ok k ((let* result := handshake_with_debugger in
              if negb (result =? RESULT_SUCCESS) then ret result
              else let* (result, _) := run_u (wait_and_execute_command None) in ret result) s).
Proof.
  intros He Hh. pose proof (handshake_tells s (hid_located _ _ Hh) He) as Ht. unfold bind at 1.
  destruct (handshake_with_debugger s) as [r s1| |s1|]; try done. destruct Ht as [E1 E2].
  unfold enabled_iff in E2. destruct (r =? RESULT_SUCCESS) eqn:Er; cbn [negb].
  - pose proof (inert_run_u (wait_and_execute_command None) s1) as Hw. unfold bind.
    destruct (run_u _ s1) as [[r2 o] s2| |s2|]; try done; cbn.
    + destruct Hw as [-> ->]. rewrite E1. auto.
    + destruct Hw as [Hw|[_ Hw]]; [done|]. rewrite E1, (hid_located _ _ Hh) in Hw. done.
  - cbn. intros ->. done.
Qed.

Lemma init_steps_ok exit_addr s :
  udi_enabled s = false -> init_ok (k_actions (p_sigs s)) (init_steps exit_addr s).
Proof.
  intros He. unfold init_steps. unfold bind at 1. pose proof (locate_wrapper_spec s He) as Hw.
  destruct (locate_wrapper_functions s) as [r s1| |s1|]; try done. destruct Hw as (He1 & Hk & Hl & _).
  destruct (Z.eqb_spec r 0) as [->|]; [|done]. cbn [negb]. specialize (Hl eq_refl). rewrite <- Hk.
  apply init_ok_bind; [apply (inert_locate_ids 2)|done|]. intros r2 s2 Hs2 He2.
  destruct (r2 =? 0); [|done]. cbn [negb].
  apply init_ok_bind; [apply inert_thread_sync|done|]. intros r3 s3 Hs3 He3.
  destruct (r3 =? 0); cbn [negb]; [|now apply init_failed; [auto with inert nocore|]].
  assert (p_sigs s3 = p_sigs s1) as Es by congruence.
  destruct (setup_hides (p_sigs s3)) as (x & Ex & Hx & _); [congruence|]. rewrite Es in Hx.
  unfold on_sigs. rewrite (bind_Ret _ _ _ _ _ (zoom_Ret p_sigs put_sigs _ s3 _ _ Ex)). cbn [Z.eqb negb].
  apply init_ok_bind; [auto with inert nocore|done|]. intros r4 s4 Hs4 He4.
  destruct (r4 =? 0); [|done]. cbn [negb].
  apply init_ok_bind; [apply inert_create_filesystem|done|]. intros r5 s5 Hs5 He5.
  destruct (r5 =? 0); cbn [negb]; [|now apply init_failed; [auto with inert nocore|]].
  apply handshake_then_command; [done|]. rewrite Hs5, Hs4. exact Hx.
Qed.

(** *** The steps one by one *)

(** What the constructor has to do once signals are blocked, in this order; a
    step has succeeded when it returns 0. *)
Definition init_sequence (exit_addr : Z) : list (ST proc Z) :=
  [locate_wrapper_functions; locate_thread_wrapper_functions; initialize_thread_sync;
   on_sigs setup_signal_handlers; run_u (install_event_breakpoints exit_addr);
   create_udi_filesystem; handshake_with_debugger;
   (let* (result, _) := run_u (wait_and_execute_command None) in ret result)].

(** All steps succeed, and leave [s']. *)
Fixpoint all_succeed (ms : list (ST proc Z)) (s s' : proc) : Prop :=
  match ms with
  | [] => s' = s
  | m :: ms => exists s1, m s = Ret 0 s1 /\ all_succeed ms s1 s'
  end.

(** The first that does not succeed returns an error. *)
Fixpoint one_fails (ms : list (ST proc Z)) (s : proc) : Prop :=
  match ms with
  | [] => False
  | m :: ms => exists r s1, m s = Ret r s1 /\ if r =? 0 then one_fails ms s1 else True
  end.

Lemma checked_iff (m : ST proc Z) (failed : Z -> ST proc Z) (k : ST proc Z) (P : proc -> Prop) s s' :
  (forall s1, P s1 <-> k s1 = Ret RESULT_SUCCESS s') ->
  (forall r s1, r <> 0 -> failed r s1 <> Ret RESULT_SUCCESS s') ->
  (exists s1, m s = Ret 0 s1 /\ P s1) <->
  (let* rc := m in if negb (rc =? 0) then failed rc else k) s = Ret RESULT_SUCCESS s'.
Proof.
  intros Hk Hf. split.
  - intros (s1 & Hm & HP). rewrite (bind_Ret _ _ _ _ _ Hm). now apply Hk.
  - intros E. apply bind_inv in E as (r & s1 & Hm & E). destruct (Z.eqb_spec r 0) as [->|Hr]; cbn [negb] in E.
    + exists s1. split; [exact Hm|]. now apply Hk.
    + now apply Hf in E.
Qed.

Lemma errmsg_no_success f args s s' : (errmsg_op f args ;;; ret RESULT_ERROR) s <> Ret RESULT_SUCCESS s'.
Proof. intros E. apply bind_inv in E as (? & ? & _ & E). discriminate E. Qed.

Lemma init_steps_succeed exit_addr s s' :
  all_succeed (init_sequence exit_addr) s s' <-> init_steps exit_addr s = Ret RESULT_SUCCESS s'.
Proof.
  unfold init_steps, init_sequence. cbn [all_succeed].
  apply checked_iff; [intros s1|done]. apply checked_iff; [intros s2|done].
  apply checked_iff; [intros s3|intros r s4 _; apply errmsg_no_success].
  apply checked_iff; [intros s4|intros r s5 _; apply errmsg_no_success].
  apply checked_iff; [intros s5|done].
  apply checked_iff; [intros s6|intros r s7 _; apply errmsg_no_success].
  apply (checked_iff _ ret); [intros s7|intros r s8 Hr E; by apply Ret_inj in E as [-> _]].
  split; [intros (s8 & E & ->); exact E|intros E; by exists s'].
Qed.

(** The abort at the end of the constructor. *)
Definition tabled (s : proc) : Prop := length (app_actions (p_sigs s)) = length signals.

Lemma uninstall_ends failure l : forall i s,
  real_sigaction_located s = true -> (i + length l <= length (app_actions s))%nat ->
  exists r s', uninstall_loop failure l i s = Ret r s'.
Proof.
  induction l as [|n l IH]; intros i s Hl Hi; cbn [uninstall_loop]; [now do 2 eexists|]. cbn [length] in Hi.
  destruct (n =? 0); [apply IH; [done|lia]|]. destruct (_ && _); [apply IH; [done|lia]|].
  rewrite bind_gets. destruct (lookup_lt_is_Some_2 (app_actions s) i) as [x ->]; [lia|].
  unfold bind, real_sigaction. rewrite Hl. destruct (sys_sigaction n (Some (as_action x)) (k_actions s)) as [[e old] k].
  destruct (negb (e =? 0)); [now do 2 eexists|]. apply IH; [done|cbn; lia].
Qed.

Lemma abort_ends {A} s : tabled s -> exists s', udi_abort_file_line (A := A) s = Aborted s'.
Proof.
  intros Ht. unfold udi_abort_file_line. rewrite bind_gets. destruct (real_sigaction_located (p_sigs s)) eqn:Hl; [|now eexists].
  unfold disable_debugging, uninstall_signal_handlers.
  assert (exists e k, sys_sigaction SIGABRT (Some zero_action) (k_actions (p_sigs s)) = (e, k)) as (e & k & Es)
    by (destruct (sys_sigaction _ _ _); eauto).
  set (x := Sigs true k (app_actions (p_sigs s)) (default_lib_action (p_sigs s)) (app_calls (p_sigs s))).
  destruct (uninstall_ends (u_pipe_failure (p_u s)) signals 0 x eq_refl) as (r & y & Hu); [unfold x, tabled in *; cbn [app_actions]; rewrite Ht; apply Nat.le_refl|].
  eexists. unfold bind, on_sigs at 1, zoom at 1, real_sigaction. rewrite Hl, Es. cbn -[uninstall_loop signals].
  fold x. unfold on_sigs, zoom. cbn -[uninstall_loop signals]. rewrite Hu. reflexivity.
Qed.

Definition ends_badly (o : outcome proc Z) : Prop :=
  exists r s', o = Ret r s' /\ r <> RESULT_SUCCESS /\ tabled s'.

Lemma fails_bind (Q : proc -> Prop) (m : ST proc Z) ms (f : Z -> ST proc Z) s :
  one_fails (m :: ms) s ->
  (forall r s1, m s = Ret r s1 -> Q s1) ->
  (forall r s1, r <> 0 -> Q s1 -> ends_badly (f r s1)) ->
  (forall s1, m s = Ret 0 s1 -> Q s1 -> one_fails ms s1 -> ends_badly (f 0 s1)) ->
  ends_badly (bind m f s).
Proof.
  intros (r & s1 & Hm & Hr) Ht Hf Hk. rewrite (bind_Ret _ _ _ _ _ Hm).
  destruct (Z.eqb_spec r 0) as [->|Hne]; [apply Hk|apply Hf]; eauto.
Qed.

Lemma fails_ret (r : Z) s : r <> RESULT_SUCCESS -> tabled s -> ends_badly (ret r s).
Proof. intros Hr Ht. now exists r, s. Qed.

Lemma fails_errmsg f args s :
  is_Some (formatted (cstr f) args) -> tabled s -> ends_badly ((errmsg_op f args ;;; ret RESULT_ERROR) s).
Proof.
  intros Hf Ht. unfold errmsg_op, on_u. erewrite bind_Ret by (apply zoom_Ret, set_errmsg_Ret, Hf). now apply fails_ret.
Qed.

(** With [sigaction] located, and not enabled yet. *)
Definition starting (s : proc) : Prop :=
  tabled s /\ real_sigaction_located (p_sigs s) = true /\ udi_enabled s = false.

Lemma inert_starting {A} (m : ST proc A) s a s' : inert_p m -> m s = Ret a s' -> starting s -> starting s'.
Proof. intros Hm E. specialize (Hm s). rewrite E in Hm. unfold starting, tabled. now destruct Hm as [-> ->]. Qed.

Lemma on_sigs_inv {A} (m : ST sigs A) s a s' :
  on_sigs m s = Ret a s' -> exists x, m (p_sigs s) = Ret a x /\ s' = put_sigs x s.
Proof. unfold on_sigs. apply zoom_inv. Qed.

Lemma setup_starting s r s' :
  on_sigs setup_signal_handlers s = Ret r s' -> starting s -> r = 0 /\ starting s'.
Proof.
  intros E (Ht & Hl & He). destruct (setup_hides (p_sigs s) Hl) as (x & Ex & Hx & _).
  apply on_sigs_inv in E as (y & E & ->). rewrite Ex in E. apply Ret_inj in E as [<- <-].
  split; [done|]. split; [|split; [exact (hid_located _ _ Hx)|exact He]].
  unfold tabled. cbn [p_sigs put_sigs]. rewrite (hid_table _ _ Hx). unfold table. now rewrite length_map.
Qed.

Lemma handshake_tabled s r s' : handshake_with_debugger s = Ret r s' -> starting s -> tabled s'.
Proof.
  intros E (Ht & Hl & He). pose proof (handshake_tells s Hl He) as Hs. rewrite E in Hs. unfold tabled.
  now destruct Hs as [-> _].
Qed.

(** A step of the constructor and the test of its result. *)
Ltac step_fails H Q keeps := eapply (fails_bind Q); [exact H|intros ? ? ?; keeps
  |intros r sr Hr Hq; match goal with |- context [Z.eqb r ?v] => rewrite (proj2 (Z.eqb_neq r v) Hr) end; cbn [negb];
   first [apply fails_ret; [done|apply Hq] | apply fails_errmsg; [fmt_ok|apply Hq]]
  |].

Lemma init_steps_fail exit_addr s :
  udi_enabled s = false -> tabled s -> one_fails (init_sequence exit_addr) s ->
  ends_badly (init_steps exit_addr s).
Proof.
  intros He Ht Hf. unfold init_steps, init_sequence in *. pose proof (locate_wrapper_spec s He) as Hw.
  step_fails Hf tabled ltac:(idtac).
  { match goal with E : locate_wrapper_functions _ = _ |- _ => rewrite E in Hw end. unfold tabled.
    destruct Hw as (_ & _ & _ & ->). exact Ht. }
  intros s1 E1 Ht1 Hf1. rewrite E1 in Hw. destruct Hw as (He1 & _ & Hl & _).
  assert (starting s1) as Hs1 by (split; [exact Ht1|auto]).
  step_fails Hf1 starting ltac:(eapply inert_starting; eauto; apply (inert_locate_ids 2)). intros s2 _ Hs2 Hf2.
  step_fails Hf2 starting ltac:(eapply inert_starting; eauto; apply inert_thread_sync). intros s3 _ Hs3 Hf3.
  step_fails Hf3 starting ltac:(eapply setup_starting; eauto). intros s4 _ Hs4 Hf4.
  step_fails Hf4 starting ltac:(eapply inert_starting; eauto; apply inert_run_u). intros s5 _ Hs5 Hf5.
  step_fails Hf5 starting ltac:(eapply inert_starting; eauto; apply inert_create_filesystem). intros s6 _ Hs6 Hf6.
  step_fails Hf6 tabled ltac:(eapply handshake_tabled; eauto). intros s7 _ Ht7 (r8 & s8 & E8 & Hf8).
  cbn [negb Z.eqb RESULT_SUCCESS]. exists r8, s8. split; [exact E8|].
  destruct (Z.eqb_spec r8 0) as [->|Hr8]; [done|]. split; [done|].
  unfold tabled. apply bind_inv in E8 as ([? ?] & s9 & E9 & E8). apply Ret_inj in E8 as [_ <-].
  pose proof (inert_run_u (wait_and_execute_command None) s7) as Hi. rewrite E9 in Hi. now destruct Hi as [-> _].
Qed.

Lemma init_after_mask exit_addr s rc original_set s0 :
  mask_op SIG_SETMASK (Some full_set) s = Ret (rc, original_set) s0 ->
  init_udirt false exit_addr s =
  (let* result :=
     (if rc =? -1 then errmsg_op "failed to block all signals: %e" [VInt EINVAL] ;;; ret RESULT_ERROR
      else init_steps exit_addr) in
   if negb (result =? RESULT_SUCCESS) then modify (put_enabled false) ;;; udi_abort_file_line
   else if negb (rc =? 0) then undef Uninitialized
   else let* _ := mask_op SIG_SETMASK (Some original_set) in ret tt) s0.
Proof. intros Hm. unfold init_udirt. cbn [negb]. now rewrite (bind_Ret _ _ _ _ _ Hm). Qed.

Lemma init_abort_no_return s s' : (modify (put_enabled false) ;;; udi_abort_file_line) s <> Ret tt s'.
Proof. rewrite bind_modify. apply abort_no_return. Qed.

(** Whatever the steps do: what the constructor leaves when it returns, and when it aborts. *)
Lemma init_ends exit_addr s :
  udi_enabled s = false ->
  match init_udirt false exit_addr s with
  | Ret _ s' => udi_enabled s' = true /\ hidden (k_actions (p_sigs s)) (p_sigs s')
  | Aborted s' => udi_enabled s' = false
  | _ => True
  end.
Proof.
  intros He. unfold init_udirt. cbn [negb]. pose proof (inert_mask SIG_SETMASK (Some full_set) s) as Hm.
  unfold bind at 1. destruct (mask_op SIG_SETMASK (Some full_set) s) as [[rc orig] s1| |s1|]; try done.
  2: { destruct Hm as [->|[-> _]]; done. }
  destruct Hm as [E1 E2]. rewrite <- E1.
  assert (init_ok (k_actions (p_sigs s1))
    ((if rc =? -1 then errmsg_op "failed to block all signals: %e" [VInt EINVAL] ;;; ret RESULT_ERROR
      else init_steps exit_addr) s1)) as Hi.
  { destruct (rc =? -1); [apply init_failed; [auto with inert nocore|]|apply init_steps_ok]; congruence. }
  unfold bind at 1. revert Hi.
  match goal with |- init_ok _ ?m -> _ => destruct m as [r s2| |s2|] end; intros Hi; try done.
  cbn in Hi. destruct (Z.eqb_spec r RESULT_SUCCESS) as [Hr|Hr]; cbn [negb].
  - specialize (Hi Hr) as [Hi1 Hi2]. destruct (rc =? 0); [|done]. cbn [negb].
    pose proof (inert_mask SIG_SETMASK (Some orig) s2) as Hm. unfold bind.
    destruct (mask_op SIG_SETMASK (Some orig) s2) as [? s3| |s3|]; try done; cbn.
    + destruct Hm as [-> ->]. auto.
    + destruct Hm as [Hm|[_ Hm]]; [done|]. rewrite (hid_located _ _ Hi2) in Hm. done.
  - rewrite bind_modify. pose proof (inert_abort (A := unit) (put_enabled false s2)) as Ha.
    destruct (udi_abort_file_line (put_enabled false s2)) as [? s3| |s3|] eqn:E; try done.
    + now apply abort_no_return in E.
    + destruct Ha as [->|[-> _]]; done.
Qed.

(** C9: start-up is all or nothing. With signals blocked the constructor goes
    through eight steps ([init_sequence]: locating the wrapped functions of the C
    and of the thread library, the barrier, the signal handlers, the event
    breakpoints, the debugger's file system, the handshake, the first requests).
    It returns exactly when all of them succeed, after restoring the signal mask;
    the library is then enabled and handles every signal of its table, and the
    application's dispositions are those the system had before ([hidden], the
    state from which C11 and C21 start). As soon as one step returns an
    error, or the mask could not be blocked with -1, the process is aborted with the
    library disabled, whatever the later steps would have done; and so it is when
    a step aborts by itself. Two things are not covered: a step that does
    not return, and blocking the signals failing with an error number, which the
    code does not notice (udirt-posix.c:1378). *)
Theorem init_all_or_nothing exit_addr s rc original_set s0 :
  udi_enabled s = false -> tabled s ->
  mask_op SIG_SETMASK (Some full_set) s = Ret (rc, original_set) s0 ->
  (rc = 0 -> forall s', init_udirt false exit_addr s = Ret tt s' <->
     exists s1 r, all_succeed (init_sequence exit_addr) s0 s1 /\
       mask_op SIG_SETMASK (Some original_set) s1 = Ret r s') /\
  (forall s', init_udirt false exit_addr s = Ret tt s' ->
     rc = 0 /\ udi_enabled s' = true /\ hidden (k_actions (p_sigs s)) (p_sigs s')) /\
  (rc = -1 \/ one_fails (init_sequence exit_addr) s0 ->
     exists s', init_udirt false exit_addr s = Aborted s' /\ udi_enabled s' = false) /\
  (forall s', init_udirt false exit_addr s = Aborted s' -> udi_enabled s' = false).
Proof.
  intros He Ht Hm. pose proof (init_ends exit_addr s He) as Hends.
  pose proof (inert_mask SIG_SETMASK (Some full_set) s) as Hin. rewrite Hm in Hin. destruct Hin as [E1 E2].
  assert (He0 : udi_enabled s0 = false) by congruence. assert (Ht0 : tabled s0) by (unfold tabled; now rewrite E1).
  split; [|split; [|split]].
  - intros -> s'. rewrite (init_after_mask _ _ _ _ _ Hm). cbn [Z.eqb]. split.
    + intros E. apply bind_inv in E as (r & s1 & E & Hk).
      destruct (Z.eqb_spec r RESULT_SUCCESS) as [->|_]; cbn [negb] in Hk; [|now apply init_abort_no_return in Hk].
      apply bind_inv in Hk as (r' & s2 & Hr' & Hk). apply Ret_inj in Hk as [_ ->].
      exists s1, r'. split; [by apply init_steps_succeed|exact Hr'].
    + intros (s1 & r & Hs & Hr). apply init_steps_succeed in Hs. rewrite (bind_Ret _ _ _ _ _ Hs).
      cbn [Z.eqb negb RESULT_SUCCESS]. now rewrite (bind_Ret _ _ _ _ _ Hr).
  - intros s' E. rewrite E in Hends. split; [|exact Hends]. rewrite (init_after_mask _ _ _ _ _ Hm) in E.
    apply bind_inv in E as (r & s1 & _ & Hk).
    destruct (r =? RESULT_SUCCESS); cbn [negb] in Hk; [|now apply init_abort_no_return in Hk].
    destruct (Z.eqb_spec rc 0); [done|discriminate Hk].
  - intros Hf. rewrite (init_after_mask _ _ _ _ _ Hm) in Hends |- *.
    assert (ends_badly ((if rc =? -1 then errmsg_op "failed to block all signals: %e" [VInt EINVAL] ;;; ret RESULT_ERROR
      else init_steps exit_addr) s0)) as (r & s1 & E & Hr & Ht1).
    { destruct (Z.eqb_spec rc (-1)) as [|Hrc]; [apply fails_errmsg; [fmt_ok|done]|].
      apply init_steps_fail; [done|done|]. by destruct Hf. }
    rewrite (bind_Ret _ _ _ _ _ E) in Hends |- *. rewrite (proj2 (Z.eqb_neq _ _) Hr) in Hends |- *. cbn [negb] in *.
    rewrite bind_modify in Hends |- *. destruct (abort_ends (A := unit) (put_enabled false s1) Ht1) as [s' E'].
    rewrite E' in Hends |- *. by exists s'.
  - intros s' E. now rewrite E in Hends.
Qed.
End Init.
