(* ===== verification/Wrappers.v ===== *)
(** * Wrapped functions of the application: fork and execve
    (udirt-posix-sys.c), thread creation and death (udirt-posix-pthreads.c)

    The wrappers stop the other threads, report the event, serve the debugger
    until it continues the process, and release the threads again. A
    computation is run by one thread; [wrapped_start_routine] is run by the new
    one. *)

From Stdlib Require Import String.
From stdpp Require Import gmap.
From S2P Require Import Prelude External Types Barrier Format Memory Breakpoints Registers X86.
From S2P Require Import Io Cbor Requests Threads State Process Signals Handlers Events Posix Sync Startup.

Section Wrappers.
Context `{Libc} `{Libcbor} `{Target} `{Udis86}.

(** ** fork *)

(** [while (block_result > 0)]: -1 is a failure. *)
Fixpoint block_loop (fuel : nat) : ST proc Z :=
  match fuel with
  | O => running
  | S fuel' =>
      let* block_result := block_other_threads in
      if block_result =? -1 then ret (-1)
      else if block_result >? 0 then block_loop fuel'
      else ret 0
  end.

Definition block_fuel (s : proc) : nat := S (S (length (waits (p_os s)))).

(** [reinit_udirt], which the child runs, is a stub in the source. A failed
    fork ([child] is -1) takes the parent's branch. *)
Definition fork : ST proc Z :=
  let* child := on_os os_fork in
  if child =? 0 then ret child
  else
    let* thread_id := thr_op get_user_thread_id in
    let* fuel := gets block_fuel in
    let* block_result := block_loop fuel in
    if block_result =? -1 then ret (-1)
    else
      let* result := run_u (handle_fork_event thread_id child) in
      if negb (result =? RESULT_SUCCESS) then ret (-1)
      else
        let* (result, _) := run_u (wait_and_execute_command None) in
        if result =? RESULT_ERROR then ret (-1)
        else
          let* release_result := release_other_threads in
          ret (if negb (release_result =? 0) then -1 else child).

(** [execve] only calls the function it wraps. *)
Definition execve {A} (real_execve : ST proc A) : ST proc A := real_execve.

(** ** Thread creation, in the new thread *)

(** [while (trigger == 0)]: the result and the byte. End-of-file leaves the
    byte 0 and is read again. *)
Fixpoint trigger_loop (fuel : nat) (fd : Z) : ST proc (Z * Z) :=
  match fuel with
  | O => running
  | S fuel' =>
      let* r := io_op (sys_read fd 1) in
      match r with
      | inl (trigger :: _) => if trigger =? 0 then trigger_loop fuel' fd else ret (RESULT_SUCCESS, trigger)
      | inl [] => trigger_loop fuel' fd
      | inr errno => if errno =? EINTR then trigger_loop fuel' fd else ret (RESULT_ERROR, 0)
      end
  end.

Definition handle_thread_create (creator_thr : Z) : ST proc Z :=
  let* tid := thr_op get_user_thread_id in
  let* ok := malloc_op in
  let* thr := thr_op (create_thread ok tid) in
  match thr with
  | None => ret RESULT_ERROR
  | Some thr =>
      let* rc := thread_create_callback thr in
      if negb (rc =? 0) then ret RESULT_ERROR
      else
        let* result := run_u (handle_thread_create_event creator_thr tid) in
        if negb (result =? RESULT_SUCCESS) then ret result
        else
          let* result := thread_create_handshake thr in
          if negb (result =? RESULT_SUCCESS) then ret result
          else
            let* b := gets thread_barrier in
            let* r := io_op (sys_write (bar_write b) [sentinel]) in
            if bool_decide (r <> inl 1) then ret RESULT_ERROR
            else
              let* t := thr_op (thr_load thr) in
              wait_for_others ;;;
              let* fuel := gets (fun s => read_fuel (control_read t) (get_env (p_u s))) in
              let* (result, trigger) := trigger_loop fuel (control_read t) in
              if negb (result =? RESULT_SUCCESS) then ret result
              else if negb (trigger =? sentinel) then udi_abort_file_line
              else ret result
  end.

(** ** Thread death *)

Definition report_thread_death : ST proc unit :=
  let* (rc, original_set) := mask_op SIG_SETMASK (Some full_set) in
  if rc =? -1 then udi_abort_file_line
  else
    let* thr := thr_op get_current_thread in
    need_thr thr (fun p =>
      thr_op (thr_update p (set_stack_event true)) ;;;
      let* block_result := block_other_threads in
      if negb (block_result =? 0) then udi_abort_file_line
      else
        thr_op (thr_update p (set_stack_event false)) ;;;
        let* death_result := run_u handle_thread_death in
        if negb (death_result =? RESULT_SUCCESS) then udi_abort_file_line
        else
          let* (request_result, _) := run_u (wait_and_execute_command None) in
          if request_result =? RESULT_ERROR then udi_abort_file_line
          else
            let* _ := release_other_threads in
            if negb (rc =? 0) then undef Uninitialized
            else let* _ := mask_op SIG_SETMASK (Some original_set) in ret tt).

(** [real_pthread_exit] ends the thread. *)
Definition pthread_exit : ST proc unit := report_thread_death.

(** [start_routine] is the application's code. *)
Definition wrapped_start_routine {A} (start_routine : ST proc A) (creator_tid : Z) : ST proc A :=
  let* create_result := handle_thread_create creator_tid in
  if negb (create_result =? RESULT_SUCCESS) then udi_abort_file_line
  else
    let* ret_value := start_routine in
    report_thread_death ;;;
    ret ret_value.

(** ** Thread creation, in the creating thread *)

Definition handshake_with_thread : ST proc Z :=
  let* b := gets thread_barrier in
  wait_for_others ;;;
  let* r := io_op (sys_read (bar_read b) 1) in
  match r with
  | inl (trigger :: _) =>
      if negb (trigger =? sentinel) then udi_abort_file_line
      else
        let* (result, _) := run_u (wait_and_execute_command None) in
        if result =? RESULT_ERROR then udi_abort_file_line
        else
          let* _ := release_other_threads in
          ret result
  | _ => ret RESULT_ERROR
  end.

(** The new thread runs [wrapped_start_routine] with the creator's id. The pipe
    made here is used by nobody. *)
Definition pthread_create : ST proc Z :=
  let* block_result := block_other_threads in
  if block_result <? 0 then udi_abort_file_line
  else
    let* ok := malloc_op in
    if negb ok then undef NullDeref
    else
      let* control_pipe := thr_op init_control_pipe in
      match control_pipe with
      | None => ret ENOMEM
      | Some _ =>
          let* create_result := on_os os_pthread_create in
          if create_result =? 0 then
            let* handshake_result := handshake_with_thread in
            ret (if negb (handshake_result =? RESULT_SUCCESS) then ENOMEM else create_result)
          else
            let* capable := thr_op get_multithread_capable in
            (if capable then run_u (syscall ;;; syscall) else ret 0) ;;;
            ret create_result
      end.
End Wrappers.
