(* ===== verification/WrapperSpec.v ===== *)
(** * Theorems on the wrapped functions *)

From Stdlib Require Import String.
From stdpp Require Import gmap.
From S2P Require Import Prelude External Types Barrier Format Memory Breakpoints Registers X86.
From S2P Require Import Io Cbor Requests Threads State Process Signals Handlers Events Posix.
From S2P Require Import Sync SyncSpec Startup StartupSpec Wrappers.

Section Wrappers.
Context `{Libc} `{Libcbor} `{Target} `{Udis86}.

(** The creation of a thread fails in [s]: there are no descriptors for the
    pipe, or the system refuses the thread with [e]. *)
Definition creation_fails (s : proc) (e : Z) : Prop :=
  (e = ENOMEM /\ exists u, init_control_pipe (u_thrs (p_u s)) = Ret None u) \/
  (e <> 0 /\ (next_or 0 (thread_results (p_os s))).1 = e /\
   exists p u, init_control_pipe (u_thrs (p_u s)) = Ret (Some p) u).

(** Nothing another thread waits for has happened: the barrier is as closed as
    before and no byte was written to any pipe. *)
Definition still_blocked (s s' : proc) : Prop :=
  thread_barrier s' = thread_barrier s /\ u_fds (p_u s') = u_fds (p_u s) /\ heap_of s' = heap_of s.

Lemma init_control_pipe_heap s r s' :
  init_control_pipe s = Ret r s' ->
  thr_heap s' = thr_heap s /\ multithread_capable s' = multithread_capable s.
Proof.
  unfold init_control_pipe. destruct (multithread_capable s) eqn:E.
  - destruct (pipes s); intros Hr; now injection Hr as <- <-.
  - intros Hr. now injection Hr as <- <-.
Qed.

Lemma os_pthread_create_op s :
  exists o, on_os os_pthread_create s = Ret (next_or 0 (thread_results (p_os s))).1 (put_os o s).
Proof.
  unfold on_os, zoom, os_pthread_create. destruct (next_or _ _) as [r rs]. eauto.
Qed.

Lemma two_closes s : exists r l, run_u (syscall ;;; syscall) s = Ret r (put_u (put_syscalls l (p_u s)) s).
Proof.
  assert (exists r l, (syscall ;;; syscall) (p_u s) = Ret r (put_syscalls l (p_u s))) as (r & l & E).
  { unfold bind, syscall. destruct (syscalls (p_u s)) as [|e [|e' es]] eqn:El; cbn; rewrite ?El; eauto.
    exists 0, []. rewrite <- El. now destruct (p_u s). }
  exists r, l. now apply run_u_Ret.
Qed.

(** A thread that cannot be created. The wrapper of [pthread_create] stops
    the other threads first. When the creation then fails, it returns the
    error to the application but never releases them: the barrier stays
    closed, no thread is woken, and the rest of the process stays blocked
    while the caller runs on. *)
Theorem failed_create_keeps_blocked s s1 e :
  block_other_threads s = Ret 0 s1 -> allocs_ok s1 -> creation_fails s1 e ->
  exists s2, pthread_create s = Ret e s2 /\ e <> 0 /\ still_blocked s1 s2.
Proof.
  intros Hb Ha [(-> & u & Ep)|(He & Er & pp & u & Ep)]; unfold pthread_create; mstep_with Hb;
    change (0 <? 0) with false; cbv iota; mstep_with (malloc_op_ok s1 Ha); cbn [negb]; unfold thr_op;
    rewrite (bind_Ret _ _ _ _ _ (run_u_Ret _ s1 _ _ (on_thrs_Ret _ _ _ _ Ep)));
    destruct (init_control_pipe_heap _ _ _ Ep) as [Hh Hc].
  - eexists. split; [reflexivity|]. split; [done|]. unfold still_blocked, heap_of. now cbn.
  - set (s2 := put_u _ s1). destruct (os_pthread_create_op s2) as [o Eo].
    mstep_with Eo. change (p_os s2) with (p_os s1). rewrite Er, (proj2 (Z.eqb_neq _ _)) by done.
    rewrite (bind_Ret _ _ _ _ _ (thr_op_id get_multithread_capable (put_os o s2) (multithread_capable u) eq_refl)).
    destruct (multithread_capable u).
    + destruct (two_closes (put_os o s2)) as (r & l & Ec). rewrite (bind_Ret _ _ _ _ _ Ec).
      eexists. split; [reflexivity|]. split; [done|]. unfold still_blocked, heap_of. now cbn.
    + eexists. split; [reflexivity|]. split; [done|]. unfold still_blocked, heap_of. now cbn.
Qed.
End Wrappers.
