(* ===== verification/ErrMsg.v ===== *)
(** * The error message buffer

    [udi_errmsg] is a buffer of [ERRMSG_SIZE] bytes that every operation that
    can fail writes its reason into. The invariant of this file is that the
    text always fits with its terminator, whatever the arguments are; the
    dispatcher sends it to the debugger. *)

From Stdlib Require Import String.
From stdpp Require Import gmap.
From S2P Require Import Prelude External Types Format Memory Breakpoints Registers X86.
From S2P Require Import Io Cbor Requests Threads State Handlers.

Definition msg_fits (t : rt) : Prop := Z.of_nat (length (errmsg t)) < ERRMSG_SIZE.

Lemma c_string_length l : (length (c_string l) <= length l)%nat.
Proof. induction l as [|c l IH]; cbn; [lia|]. destruct (c =? 0); cbn; lia. Qed.

Section Messages.
Context `{LC : Libc}.

Lemma errmsg_text_fits format args m :
  errmsg_text format args = Some m -> Z.of_nat (length m) < ERRMSG_SIZE.
Proof.
  unfold errmsg_text. destruct (formatted (cstr format) args) as [out|] eqn:Hf.
  - destruct (formatted_str_spec (replicate (Z.to_nat ERRMSG_SIZE) 0) ERRMSG_SIZE
                format args out) as (buf & -> & -> & _);
      [unfold ERRMSG_SIZE; lia|rewrite length_replicate; lia|done|].
    injection 1 as <-. cbn [app]. rewrite c_string_app.
    pose proof (c_string_length (take (Z.to_nat (ERRMSG_SIZE - 1)) out)) as Hl.
    rewrite length_take in Hl. unfold ERRMSG_SIZE in *. lia.
  - unfold udi_formatted_str. rewrite varargs_chunks. unfold formatted in Hf.
    destruct (chunks _ _); [discriminate|]. discriminate.
Qed.

Lemma set_errmsg_fits format args : preserves msg_fits (udi_set_errmsg format args).
Proof.
  intros s a s' Hs. unfold udi_set_errmsg. destruct (errmsg_text format args) eqn:Hm; [|discriminate].
  injection 1 as <- <-. now apply errmsg_text_fits in Hm.
Qed.

Lemma malloc_fits : preserves msg_fits udi_malloc.
Proof. intros s a s' Hs. unfold udi_malloc. destruct (allocs s); injection 1 as <- <-; exact Hs. Qed.
Hint Resolve set_errmsg_fits malloc_fits : keeps.

(** ** Memory accesses *)

Definition acc_fits (a : access) : Prop := msg_fits (a_rt a).

Lemma on_rt_fits {A} (m : ST rt A) : preserves msg_fits m -> preserves acc_fits (on_rt m).
Proof. apply preserves_zoom; auto. Qed.
Hint Resolve on_rt_fits : keeps.

Lemma acc_modify_fits f : (forall a, a_rt (f a) = a_rt a) -> preserves acc_fits (modify f).
Proof. intros Hf. apply preserves_modify. intros s. unfold acc_fits. now rewrite Hf. Qed.

Lemma setsigmask_fits how set : preserves acc_fits (setsigmask how set).
Proof.
  intros s a s' Hs. unfold setsigmask. destruct (sigmask_rc s) as [|rc rcs]; cbv zeta iota.
  - injection 1 as <- <-. exact Hs.
  - destruct (rc =? 0); injection 1 as <- <-; exact Hs.
Qed.
Hint Resolve setsigmask_fits : keeps.

Ltac acc_keeps := keeps; try (apply acc_modify_fits; reflexivity).

Lemma decode_fault_fits code : preserves acc_fits (decode_memory_access_event code).
Proof. unfold decode_memory_access_event, abort_mem_access, is_performing_mem_access, get_mem_access_addr, get_mem_access_size. acc_keeps. Qed.

Lemma copy_loop_fits fuel dest src n : forall i buf, preserves acc_fits (copy_loop fuel dest src n i buf).
Proof.
  induction fuel as [|fuel IH]; intros i buf s a s' Hs; cbn [copy_loop]; [discriminate|].
  case_decide; [|intros; now minv].
  destruct (copy_byte dest src buf i s) as [[[buf' s1]|code]|] eqn:Hb; [| |discriminate].
  - apply IH. revert Hb. unfold copy_byte. destruct (load_place src buf i s) as [[b|c]|]; try discriminate.
    destruct dest as [d|]; cbn; [destruct (store _ _ _)|case_decide]; try discriminate;
      intros [= <- <-]; exact Hs.
  - destruct (decode_memory_access_event code s) as [ev s1| | |] eqn:Hd; try discriminate.
    apply decode_fault_fits in Hd; [|done]. destruct (me_abort ev); [intros; now minv|now apply IH].
Qed.
Hint Resolve copy_loop_fits : keeps.

Lemma udi_memcpy_fits dest src buf n : preserves acc_fits (udi_memcpy dest src buf n).
Proof. unfold udi_memcpy, pre_mem_access_hook, abortable_memcpy, post_mem_access_hook. acc_keeps. Qed.
Hint Resolve udi_memcpy_fits : keeps.

Lemma read_memory_fits dest src n : preserves acc_fits (read_memory dest src n).
Proof. unfold read_memory. acc_keeps. Qed.

Lemma write_memory_fits dest src n : preserves acc_fits (write_memory dest src n).
Proof. unfold write_memory. acc_keeps. Qed.
Hint Resolve read_memory_fits write_memory_fits : keeps.

(** ** Breakpoints *)

Definition bps_fits (b : bps) : Prop := acc_fits (b_acc b).

Lemma on_acc_fits {A} (m : ST access A) : preserves acc_fits m -> preserves bps_fits (on_acc m).
Proof. apply preserves_zoom; auto. Qed.
Hint Resolve on_acc_fits : keeps.

Lemma bps_modify_fits f : (forall b, b_acc (f b) = b_acc b) -> preserves bps_fits (modify f).
Proof. intros Hf. apply preserves_modify. intros s. unfold bps_fits. now rewrite Hf. Qed.

Lemma bp_load_fits p : preserves bps_fits (bp_load p).
Proof. intros s a s' Hs. unfold bp_load. destruct (bp_heap s !! p); [|discriminate]. now injection 1 as <- <-. Qed.
Hint Resolve bp_load_fits : keeps.

Lemma bucket_fits h : preserves bps_fits (bucket h).
Proof. intros s a s' Hs. unfold bucket. destruct (breakpoints s !! _); [|discriminate]. now injection 1 as <- <-. Qed.

Lemma set_bucket_fits h o : preserves bps_fits (set_bucket h o).
Proof. intros s a s' Hs. unfold set_bucket. destruct (breakpoints s !! _); [|discriminate]. now injection 1 as <- <-. Qed.

Lemma bp_alloc_fits b : preserves bps_fits (bp_alloc b).
Proof. intros s a s' Hs. unfold bp_alloc. now injection 1 as <- <-. Qed.

Lemma bp_update_fits p f : preserves bps_fits (bp_update p f).
Proof. unfold bp_update. keeps. now apply bps_modify_fits. Qed.

Lemma bp_free_fits p : preserves bps_fits (bp_free p).
Proof. unfold bp_free. keeps. now apply bps_modify_fits. Qed.
Hint Resolve bucket_fits set_bucket_fits bp_alloc_fits bp_update_fits bp_free_fits : keeps.

Lemma find_breakpoint_fits a : preserves bps_fits (find_breakpoint a).
Proof.
  unfold find_breakpoint. keeps. generalize (a1 : nat) a0. clear. intros fuel.
  induction fuel; intros o; cbn [find_walk]; keeps.
Qed.

Lemma create_breakpoint_fits a : preserves bps_fits (create_breakpoint a).
Proof.
  assert (Hw : forall fuel p q, preserves bps_fits (create_walk fuel p q)).
  { induction fuel; intros p q; cbn [create_walk]; keeps. }
  unfold create_breakpoint. keeps.
Qed.

Lemma write_breakpoint_instruction_fits p : preserves bps_fits (write_breakpoint_instruction p).
Proof. unfold write_breakpoint_instruction. keeps. Qed.

Lemma write_saved_bytes_fits p : preserves bps_fits (write_saved_bytes p).
Proof. unfold write_saved_bytes. keeps. Qed.
Hint Resolve write_breakpoint_instruction_fits write_saved_bytes_fits : keeps.

Lemma install_breakpoint_fits p : preserves bps_fits (install_breakpoint p).
Proof. unfold install_breakpoint. keeps. Qed.

Lemma remove_breakpoint_fits p : preserves bps_fits (remove_breakpoint p).
Proof. unfold remove_breakpoint. keeps. Qed.
Hint Resolve install_breakpoint_fits remove_breakpoint_fits : keeps.

Lemma delete_breakpoint_fits p : preserves bps_fits (delete_breakpoint p).
Proof.
  assert (Hw : forall fuel o o' q, preserves bps_fits (delete_walk fuel o o' q)).
  { induction fuel; intros o o' q; cbn [delete_walk]; keeps. }
  unfold delete_breakpoint. keeps.
Qed.
Hint Resolve find_breakpoint_fits create_breakpoint_fits delete_breakpoint_fits : keeps.
End Messages.

#[export] Hint Resolve set_errmsg_fits malloc_fits on_rt_fits udi_memcpy_fits read_memory_fits write_memory_fits
  on_acc_fits bp_load_fits install_breakpoint_fits remove_breakpoint_fits find_breakpoint_fits
  create_breakpoint_fits delete_breakpoint_fits write_saved_bytes_fits : keeps.

(** ** Descriptors and messages *)

Definition env_fits (e : env) : Prop := msg_fits (e_rt e).

Lemma env_rt_fits {A} (m : ST rt A) : preserves msg_fits m -> preserves env_fits (env_rt m).
Proof. apply preserves_zoom; auto. Qed.

Lemma env_modify_fits f : (forall e, e_rt (f e) = e_rt e) -> preserves env_fits (modify f).
Proof. intros Hf. apply preserves_modify. intros s. unfold env_fits. now rewrite Hf. Qed.

Lemma sys_read_fits fd n : preserves env_fits (sys_read fd n).
Proof.
  intros s a s' Hs. unfold sys_read. destruct (e_fds s !! fd) as [c|]; [|now injection 1 as <- <-].
  destruct (c_in c) as [|[| |] ?]; now injection 1 as <- <-.
Qed.

Lemma sys_write_fits fd src : preserves env_fits (sys_write fd src).
Proof.
  intros s a s' Hs. unfold sys_write. destruct (e_fds s !! fd) as [c|]; [|now injection 1 as <- <-].
  destruct (c_wr c) as [|[| |e] ?]; [now injection 1 as <- <-..|]. destruct (e =? EPIPE); now injection 1 as <- <-.
Qed.
#[export] Hint Resolve env_rt_fits sys_read_fits sys_write_fits : keeps.

Lemma read_from_fits fd n : preserves env_fits (read_from fd n).
Proof.
  assert (Hl : forall fuel dst, preserves env_fits (read_loop fuel fd n dst)).
  { induction fuel; intros dst; cbn [read_loop]; keeps. }
  unfold read_from. keeps.
Qed.

Lemma write_to_fits fd src : preserves env_fits (write_to fd src).
Proof.
  assert (Hl : forall fuel k, preserves env_fits (write_loop fuel fd src k)).
  { induction fuel; intros k; cbn [write_loop]; keeps. }
  unfold write_to, handle_pipe_write_failure. keeps; now apply env_modify_fits.
Qed.
#[export] Hint Resolve read_from_fits write_to_fits : keeps.

Section Requests.
Context `{LC : Libc} `{LB : Libcbor} {D : Type}.

Definition callbacks_fit (cbs : callbacks D) : Prop := forall ev r, preserves msg_fits (cbs ev r).
Definition items_fit (items : list (msg_item D)) : Prop :=
  forall i it, items !! i = Some it -> callbacks_fit (item_cbs it).

Lemma invalid_callbacks_fit ev r : preserves msg_fits (@invalid_callbacks LC D ev r).
Proof. unfold invalid_callbacks, set_invalid_error. keeps. Qed.

Lemma item_callbacks_fit items ev r : items_fit items -> preserves msg_fits (item_callbacks items ev r).
Proof.
  intros Hi. unfold item_callbacks. apply preserves_bind; [unfold check_state; keeps|].
  intros [[i|] r']; [|keeps]. destruct (items !! i) eqn:E; [|keeps]. now apply (Hi i).
Qed.

Lemma request_data_callbacks_fit items : items_fit items -> callbacks_fit (request_data_callbacks items).
Proof.
  intros Hi ev r.
  assert (forall ev r, preserves msg_fits (item_callbacks items ev r)) by auto using item_callbacks_fit.
  unfold request_data_callbacks, request_data_map_start, request_data_string. keeps.
Qed.

Lemma read_cbor_items_fits fd cbs r : callbacks_fit cbs -> preserves env_fits (read_cbor_items fd cbs r).
Proof.
  intros Hc. unfold callbacks_fit in Hc.
  assert (Hl : forall fuel buf mb bl cd r, preserves env_fits (read_items_loop fuel fd cbs buf mb bl cd r)).
  { clear r. induction fuel; intros buf mb bl cd r; cbn [read_items_loop]; keeps. }
  unfold read_cbor_items. keeps.
Qed.

Lemma read_request_data_fits fd items (d : D) :
  items_fit items -> preserves env_fits (read_request_data fd items d).
Proof.
  intros Hi. pose proof (fun r => read_cbor_items_fits fd _ r (request_data_callbacks_fit items Hi)).
  unfold read_request_data. keeps.
Qed.

Lemma store_value_fits n f (r : rstate D) : preserves msg_fits (store_value n f r).
Proof. unfold store_value. keeps. Qed.
End Requests.
#[export] Hint Resolve invalid_callbacks_fit store_value_fits read_request_data_fits : keeps.

Section Responses.
Context `{LC : Libc} `{LB : Libcbor}.

Lemma read_request_type_fits fd type : preserves env_fits (read_request_type fd type).
Proof.
  assert (callbacks_fit request_type_callbacks) as Hc.
  { intros ev r. unfold request_type_callbacks. keeps. }
  pose proof (fun r => read_cbor_items_fits fd _ r Hc). unfold read_request_type. keeps.
Qed.

Lemma write_cbor_item_fits fd it name : preserves env_fits (write_cbor_item fd it name).
Proof. unfold write_cbor_item. keeps. Qed.
Hint Resolve write_cbor_item_fits : keeps.

Lemma write_response_fits fd resp req d : preserves env_fits (write_response fd resp req d).
Proof. unfold write_response. keeps. Qed.
Hint Resolve write_response_fits : keeps.

Lemma write_error_response_fits fd req : preserves env_fits (write_error_response fd req).
Proof.
  unfold write_error_response. intros s a s' Hs. rewrite bind_gets. intros Hr.
  apply bind_inv in Hr as (r & s1 & _ & Hr). rewrite bind_modify in Hr. minv. exact Hs.
Qed.
End Responses.
#[export] Hint Resolve read_request_type_fits write_response_fits write_error_response_fits : keeps.

(** ** The handlers *)

Definition fits (s : udirt) : Prop := msg_fits (u_rt s).

Section Handlers.
Context `{LC : Libc} `{LB : Libcbor} `{TG : Target} `{UD : Udis86}.

Lemma on_bps_fits {A} (m : ST bps A) : preserves bps_fits m -> preserves fits (on_bps m).
Proof. apply preserves_zoom; auto. Qed.
Lemma on_access_fits {A} (m : ST access A) : preserves acc_fits m -> preserves fits (on_access m).
Proof. intros Hm. apply on_bps_fits. now apply on_acc_fits. Qed.
Lemma on_msg_fits {A} (m : ST rt A) : preserves msg_fits m -> preserves fits (on_msg m).
Proof. intros Hm. apply on_access_fits. now apply on_rt_fits. Qed.
Lemma on_env_fits {A} (m : ST env A) : preserves env_fits m -> preserves fits (on_env m).
Proof. apply preserves_zoom; auto. Qed.
Lemma on_thrs_fits {A} (m : ST thrs A) : preserves fits (on_thrs m).
Proof. apply preserves_zoom with (fun _ => True); auto. now intros s a s'. Qed.
Lemma syscall_fits : preserves fits syscall.
Proof. intros s a s' Hs. unfold syscall. destruct (syscalls s); now injection 1 as <- <-. Qed.
Lemma set_msg_fits format args : preserves fits (set_errmsg format args).
Proof. apply on_msg_fits, set_errmsg_fits. Qed.
Lemma respond_fits fd req d : preserves fits (respond fd req d).
Proof. apply on_env_fits, write_response_fits. Qed.
Hint Resolve on_bps_fits on_access_fits on_msg_fits on_env_fits on_thrs_fits syscall_fits
  set_msg_fits respond_fits : keeps.

Lemma read_data_fits {D} fd items (d : D) : items_fit items -> preserves fits (read_data fd items d).
Proof. intros Hi. now apply on_env_fits, read_request_data_fits. Qed.

(** Every item of every configuration. *)
Ltac items_fit :=
  intros i it Hi ev r; repeat (destruct i as [|i]; [injection Hi as <-; cbn [item_cbs]; keeps|]); discriminate Hi.

Lemma continue_items_fit : items_fit continue_items.
Proof. unfold continue_items, continue_sig_callback. items_fit. Qed.
Lemma read_items_fit : items_fit read_items.
Proof. unfold read_items, read_addr_callback, read_len_callback. items_fit. Qed.
Lemma write_items_fit : items_fit write_items.
Proof. unfold write_items, write_addr_callback, write_data_callback. items_fit. Qed.
Lemma breakpoint_items_fit : items_fit breakpoint_items.
Proof. unfold breakpoint_items, breakpoint_addr_callback. items_fit. Qed.
Lemma read_reg_items_fit : items_fit read_reg_items.
Proof. unfold read_reg_items, read_reg_callback. items_fit. Qed.
Lemma write_reg_items_fit : items_fit write_reg_items.
Proof. unfold write_reg_items, write_reg_callback, write_reg_value_callback. items_fit. Qed.
Lemma single_step_items_fit : items_fit single_step_items.
Proof. unfold single_step_items, single_step_callback. items_fit. Qed.
Hint Resolve read_data_fits continue_items_fit read_items_fit write_items_fit breakpoint_items_fit
  read_reg_items_fit write_reg_items_fit single_step_items_fit : keeps.

Lemma thread_death_handshake_fits thr : preserves fits (thread_death_handshake thr).
Proof.
  assert (Hf : forall d f, preserves fits (get_thread_file d f)) by (intros; unfold get_thread_file; keeps).
  unfold thread_death_handshake, remove_thread_files, get_thread_dir. keeps.
Qed.
Hint Resolve thread_death_handshake_fits : keeps.

Lemma continue_handler_fits a b : preserves fits (continue_handler a b).
Proof.
  assert (Hr : forall fuel o, preserves fits (some_thread_running fuel o)).
  { induction fuel; intros o; cbn [some_thread_running]; keeps. }
  assert (Hb : forall fuel o, preserves fits (bury_threads fuel o)).
  { induction fuel; intros o; cbn [bury_threads]; keeps. }
  unfold continue_handler, post_continue_hook. keeps. now apply preserves_modify.
Qed.

Lemma read_handler_fits a b : preserves fits (read_handler a b).
Proof. unfold read_handler. keeps. Qed.
Lemma write_handler_fits a b : preserves fits (write_handler a b).
Proof.
  assert (Hn : forall d n, preserves acc_fits (write_memory_null d n))
    by (intros; unfold write_memory_null; keeps; now apply acc_modify_fits).
  unfold write_handler. keeps. apply on_access_fits. keeps.
Qed.
Lemma state_handler_fits a b : preserves fits (state_handler a b).
Proof.
  assert (Hr : forall fuel o, preserves fits (thread_states fuel o)).
  { induction fuel; intros o; cbn [thread_states]; keeps. }
  unfold state_handler. keeps.
Qed.
Lemma breakpoint_create_handler_fits a b : preserves fits (breakpoint_create_handler a b).
Proof. unfold breakpoint_create_handler, read_breakpoint_addr. keeps. Qed.
Lemma breakpoint_install_handler_fits a b : preserves fits (breakpoint_install_handler a b).
Proof. unfold breakpoint_install_handler, read_breakpoint, read_breakpoint_addr, deref_breakpoint. keeps. Qed.
Lemma breakpoint_remove_handler_fits a b : preserves fits (breakpoint_remove_handler a b).
Proof. unfold breakpoint_remove_handler, read_breakpoint, read_breakpoint_addr, deref_breakpoint. keeps. Qed.
Lemma breakpoint_delete_handler_fits a b : preserves fits (breakpoint_delete_handler a b).
Proof. unfold breakpoint_delete_handler, read_breakpoint, read_breakpoint_addr, deref_breakpoint. keeps. Qed.
Lemma invalid_handler_fits a b : preserves fits (invalid_handler a b).
Proof. unfold invalid_handler. keeps. Qed.
Hint Resolve continue_handler_fits read_handler_fits write_handler_fits state_handler_fits
  breakpoint_create_handler_fits breakpoint_install_handler_fits breakpoint_remove_handler_fits
  breakpoint_delete_handler_fits invalid_handler_fits : keeps.

Lemma report_failure_fits fd type r : preserves fits (report_failure fd type r).
Proof. unfold report_failure. keeps. Qed.
Hint Resolve report_failure_fits : keeps.

Lemma request_handlers_fit n h a b : request_handlers !! n = Some h -> preserves fits (h a b).
Proof. unfold request_handlers. intros Hh. repeat (destruct n as [|n]; [injection Hh as <-; keeps|]). discriminate. Qed.

Lemma handle_process_request_fits a b t : preserves fits (handle_process_request a b t).
Proof.
  unfold handle_process_request. apply preserves_bind; [keeps|]. intros [r ty].
  apply preserves_bind; [|intros ?; keeps]. destruct (negb _); [keeps|].
  destruct (request_handlers !! _) eqn:E; [|keeps].
  apply preserves_bind; [eapply request_handlers_fit; exact E|keeps].
Qed.

(** ** Thread requests *)

Lemma of_option_fits {S A} (P : S -> Prop) u (o : option A) : preserves P (of_option u o).
Proof. unfold of_option. keeps. Qed.
Hint Resolve of_option_fits : keeps.

Lemma ud_register_fits {S} (P : S -> Prop) r c : preserves P (get_register_ud_type r c).
Proof. unfold get_register_ud_type. keeps. Qed.
Hint Resolve ud_register_fits : keeps.

Lemma get_register_fits r c : preserves msg_fits (get_register r c).
Proof. unfold get_register, validate_register. keeps. Qed.
Lemma set_register_fits r v c : preserves msg_fits (set_register r v c).
Proof. unfold set_register, validate_register. keeps. Qed.
Lemma get_ctf_successor_fits pc c : preserves acc_fits (get_ctf_successor pc c).
Proof.
  assert (Hc : forall op pc c, preserves acc_fits (compute_target op pc c)).
  { intros. unfold compute_target, optional_register. keeps. }
  assert (Hm : forall m c, preserves acc_fits (ctf_condition_met m c)).
  { intros. unfold ctf_condition_met. keeps. }
  assert (Hn : forall a b, preserves acc_fits (no_successor a b)) by (intros; unfold no_successor; keeps).
  unfold get_ctf_successor. keeps.
Qed.
Hint Resolve get_register_fits set_register_fits get_ctf_successor_fits : keeps.

Lemma thr_request_handlers_fit n h a b thr : thr_request_handlers !! n = Some h -> preserves fits (h a b thr).
Proof.
  unfold thr_request_handlers, thr_invalid_handler, read_register_handler, write_register_handler,
    thr_state_handler, thr_suspend_handler, thr_resume_handler, next_instr_handler, single_step_handler.
  intros Hh. repeat (destruct n as [|n]; [injection Hh as <-; keeps|]). discriminate.
Qed.

Lemma handle_thread_request_fits a b thr t : preserves fits (handle_thread_request a b thr t).
Proof.
  unfold handle_thread_request. apply preserves_bind; [keeps|]. intros [r ty].
  apply preserves_bind; [|intros ?; keeps]. destruct (negb _); [keeps|].
  destruct (thr_request_handlers !! _) eqn:E; [|keeps].
  apply preserves_bind; [eapply thr_request_handlers_fit; exact E|keeps].
Qed.
End Handlers.
#[export] Hint Resolve on_bps_fits on_access_fits on_msg_fits on_env_fits on_thrs_fits syscall_fits
  set_msg_fits respond_fits read_data_fits of_option_fits handle_process_request_fits
  handle_thread_request_fits report_failure_fits : keeps.
