(* ===== verification/HandlerSpec.v ===== *)
(** * What the request handlers do

    Every theorem runs a whole handler, from the bytes of the request to the
    bytes of the response. *)

From Stdlib Require Import String.
From stdpp Require Import gmap.
From S2P Require Import Prelude External Types Format Memory Breakpoints BreakpointSpec Registers X86.
From S2P Require Import Io Cbor Requests Threads State Handlers ErrMsg.

(** ** Framing *)

(** [s'] differs from [s] in the descriptors at most. *)
Definition io_only (s s' : udirt) : Prop :=
  exists e, s' = put_env e s /\ e_rt e = u_rt s.

Lemma put_rt_get a : put_rt (a_rt a) a = a.
Proof. now destruct a. Qed.

Lemma put_acc_get b : put_acc (b_acc b) b = b.
Proof. now destruct b. Qed.

Lemma io_only_bps s s' : io_only s s' -> u_bps s' = u_bps s.
Proof.
  intros (e & -> & He). cbn. rewrite He. unfold u_rt, u_acc. now rewrite put_rt_get, put_acc_get.
Qed.

Lemma io_only_frame s s' :
  io_only s s' ->
  u_bps s' = u_bps s /\ u_thrs s' = u_thrs s /\ continue_bp s' = continue_bp s /\
  last_bp_address s' = last_bp_address s /\ sent_signals s' = sent_signals s /\
  pass_signal s' = pass_signal s /\ exiting s' = exiting s.
Proof. intros Hio. split; [now apply io_only_bps|]. now destruct Hio as (e & -> & _). Qed.

#[export] Instance io_only_refl : Reflexive io_only.
Proof. intros s. exists (get_env s). split; [now rewrite put_env_get|done]. Qed.

#[export] Instance io_only_trans : Transitive io_only.
Proof.
  intros s1 s2 s3 (e1 & -> & H1) (e2 & -> & H2). exists e2. split; [apply put_put_env|].
  rewrite H2. unfold u_rt, u_acc. cbn. exact H1.
Qed.

Lemma only_reads_open fd fd' s s' :
  only_reads fd s s' -> fd' <> fd -> open_for_write s fd' -> open_for_write s' fd'.
Proof.
  intros (_ & _ & _ & Ho & _) Hne (c & Hc & Ha). exists c. now rewrite Ho.
Qed.

Lemma only_reads_same_write fd s s' :
  only_reads fd s s' -> open_for_write s fd -> open_for_write s' fd.
Proof.
  intros (_ & _ & _ & _ & Ho) (c & Hc & Ha). destruct (Ho c Hc) as [q Hq].
  exists (Chan q (c_wr c) (c_out c)). auto.
Qed.

(** The debugger can be answered on [resp_fd] after a read of [req_fd]. *)
Lemma still_open fd fd' s s' :
  only_reads fd (get_env s) (get_env s') -> open_for_write (get_env s) fd' ->
  open_for_write (get_env s') fd'.
Proof.
  intros Hr Ho. destruct (decide (fd' = fd)) as [->|Hne].
  - eauto using only_reads_same_write.
  - eauto using only_reads_open.
Qed.

(** Bytes appended to [fd]: what the debugger finds on its side. *)
Definition sent (fd : Z) (s : udirt) : list Z :=
  match u_fds s !! fd with Some c => c_out c | None => [] end.

Lemma appends_sent fd bs s s' :
  appends fd bs (get_env s) (get_env s') -> open_for_write (get_env s) fd ->
  sent fd s' = sent fd s ++ bs.
Proof.
  intros (_ & _ & Hap) (c & Hc & _). destruct (Hap c Hc) as (w & Hw & _).
  unfold sent. cbn in Hc, Hw. now rewrite Hc, Hw.
Qed.

Lemma reads_sent fd fd' s s' :
  only_reads fd (get_env s) (get_env s') -> sent fd' s' = sent fd' s \/ u_fds s !! fd' = None.
Proof.
  intros (_ & _ & _ & Ho & Hf). unfold sent. cbn in Ho, Hf.
  destruct (decide (fd' = fd)) as [->|Hne]; [|rewrite Ho; auto].
  destruct (u_fds s !! fd) as [c|] eqn:Hc; [|now right].
  destruct (Hf c eq_refl) as [q ->]. now left.
Qed.

Lemma open_is_Some fd s : open_for_write (get_env s) fd -> u_fds s !! fd <> None.
Proof. intros (c & Hc & _). cbn in Hc. congruence. Qed.

Lemma reads_sent_open fd fd' s s' :
  only_reads fd (get_env s) (get_env s') -> open_for_write (get_env s) fd' ->
  sent fd' s' = sent fd' s.
Proof.
  intros Hr Ho. destruct (reads_sent fd fd' s s' Hr) as [?|Hn]; [done|].
  now apply open_is_Some in Ho.
Qed.

Section Steps.
Context `{LC : Libc} `{CO : LibcborOk}.

Lemma read_data_ok {D} (items : list (msg_item D)) fs d fd bs rest e s :
  stream (request_events fs) bs -> Forall (fun '(k, ev, f) => field items k ev f) fs ->
  fs <> [] -> length fs = length items -> Z.of_nat (length bs) < 2 ^ 64 ->
  allocs (u_rt s) = [] -> readable_fd (get_env s) fd (bs ++ rest) e ->
  exists s', read_data fd items d s = Ret (RESULT_SUCCESS, apply_fields fs d) s' /\
    io_only s s' /\ only_reads fd (get_env s) (get_env s') /\ readable_fd (get_env s') fd rest e.
Proof.
  intros Hst Hf Hne Hl Hlen Ha Hr.
  destruct (read_request_data_ok items fs d fd bs rest e (get_env s) Hst Hf Hne Hl Hlen Ha Hr)
    as (e' & Hrd & Ho & Hr').
  exists (put_env e' s). unfold read_data. split; [now apply on_env_Ret|].
  rewrite get_put_env. split; [|done]. exists e'. split; [done|]. apply Ho.
Qed.

Lemma read_type_ok v ev h rest fd e s type :
  ev = EUint8 v \/ ev = EUint16 v -> encodes ev h -> allocs (u_rt s) = [] ->
  Z.of_nat (length h) < 2 ^ 64 -> readable_fd (get_env s) fd (h ++ rest) e ->
  exists s', on_env (read_request_type fd type) s = Ret (RESULT_SUCCESS, v) s' /\
    io_only s s' /\ only_reads fd (get_env s) (get_env s') /\ readable_fd (get_env s') fd rest e.
Proof.
  intros Hev He Ha Hl Hr.
  destruct (read_request_type_ok v ev h rest fd e (get_env s) type Hev He Ha Hl Hr) as (e' & Hrd & Ho & Hr').
  exists (put_env e' s). split; [now apply on_env_Ret|].
  rewrite get_put_env. split; [|done]. exists e'. split; [done|]. apply Ho.
Qed.

(** The bytes of a response. *)
Definition response_bytes (resp : udi_response_type_e) (type : Z) (d : option cbor_item) : list Z :=
  flat_map encode_item (response_items (Z_of_response resp) type d).

Lemma respond_ok fd req d s :
  open_for_write (get_env s) fd -> (forall it, d = Some it -> item_ok it = true) ->
  exists s', respond fd req d s = Ret RESULT_SUCCESS s' /\ io_only s s' /\
    open_for_write (get_env s') fd /\
    sent fd s' = sent fd s ++ response_bytes UDI_RESP_VALID (Z_of_request req) d.
Proof.
  intros Ho Hd.
  destruct (write_response_ok fd (Z_of_response UDI_RESP_VALID) (Z_of_request req) d (get_env s) Ho Hd)
    as (e' & Hw & Hap).
  exists (put_env e' s). unfold respond. split; [now apply on_env_Ret|]. split; [|split].
  - exists e'. split; [done|]. apply Hap.
  - rewrite get_put_env. eapply appends_open; eassumption.
  - apply appends_sent; [now rewrite get_put_env|done].
Qed.

(** Answering does not disturb what is still to be read. *)
Lemma respond_keeps_reading fd req d s s' r x bs e :
  respond fd req d s = Ret r s' -> open_for_write (get_env s) fd ->
  (forall it, d = Some it -> item_ok it = true) ->
  readable_fd (get_env s) x bs e -> readable_fd (get_env s') x bs e.
Proof.
  intros Hr Ho Hd (c & Hc & Hav & He).
  destruct (write_response_ok fd (Z_of_response UDI_RESP_VALID) (Z_of_request req) d (get_env s) Ho Hd)
    as (e' & Hw & _ & Hne & Heq).
  unfold respond in Hr. rewrite (on_env_Ret _ _ _ _ Hw) in Hr. injection Hr as <- <-. rewrite get_put_env.
  destruct (decide (x = fd)) as [->|Hx].
  - destruct (Heq c Hc) as (w & Hw' & _). now exists (Chan (c_in c) w (c_out c ++ flat_map encode_item
      (response_items (Z_of_response UDI_RESP_VALID) (Z_of_request req) d))).
  - exists c. now rewrite Hne.
Qed.

Lemma error_response_ok fd type s :
  open_for_write (get_env s) fd -> Z.of_nat (length (errmsg (u_rt s))) < 2 ^ 64 ->
  exists s', on_env (write_error_response fd type) s = Ret RESULT_SUCCESS s' /\ io_only s s' /\
    sent fd s' = sent fd s ++ response_bytes UDI_RESP_ERROR type
                   (Some (IMap [(IString (cstr "msg"), IString (errmsg (u_rt s)))])).
Proof.
  intros Ho Hl. destruct (write_error_response_ok fd type (get_env s) Ho Hl) as (e' & Hw & Hap).
  exists (put_env e' s). split; [now apply on_env_Ret|]. split.
  - exists e'. split; [done|]. apply Hap.
  - apply appends_sent; [now rewrite get_put_env|done].
Qed.

(** A refused request: the error response carries the message, and the
    refusal is passed on. *)
Lemma report_failure_ok fd type result s :
  result = RESULT_FAILURE \/ result = RESULT_ERROR ->
  open_for_write (get_env s) fd -> Z.of_nat (length (errmsg (u_rt s))) < 2 ^ 64 ->
  exists s', report_failure fd type result s = Ret result s' /\ io_only s s' /\
    sent fd s' = sent fd s ++ response_bytes UDI_RESP_ERROR type
                   (Some (IMap [(IString (cstr "msg"), IString (errmsg (u_rt s)))])).
Proof.
  intros Hres Ho Hl. destruct (error_response_ok fd type s Ho Hl) as (s' & Hw & Hio & Hs).
  exists s'. unfold report_failure. destruct Hres as [->| ->]; cbn [negb Z.eqb Pos.eqb RESULT_SUCCESS
    RESULT_FAILURE RESULT_ERROR]; mstep_with Hw; auto.
Qed.
End Steps.

(** ** Requests on the wire *)

(** The bytes in front of [fd] are the data items [evs], in some encoding and
    cut up in some way, then [rest]. *)
Definition awaits (s : udirt) (fd : Z) (evs : list cbor_event) (rest : list Z) (e : Z) : Prop :=
  exists bs, stream evs bs /\ Z.of_nat (length bs) < 2 ^ 64 /\ readable_fd (get_env s) fd (bs ++ rest) e.

(** A request type as the two encodings the library accepts. *)
Definition type_event (req : udi_request_type_e) (ev : cbor_event) : Prop :=
  ev = EUint8 (Z_of_request req) \/ ev = EUint16 (Z_of_request req).

(** The answer to [req] on [fd]: the data, or the refusal and its reason. *)
Definition answered (fd : Z) (req : udi_request_type_e) (d : option cbor_item) (s s' : udirt) : Prop :=
  sent fd s' = sent fd s ++ response_bytes UDI_RESP_VALID (Z_of_request req) d.
Definition refused (fd : Z) (req : udi_request_type_e) (msg : list Z) (s s' : udirt) : Prop :=
  sent fd s' = sent fd s ++ response_bytes UDI_RESP_ERROR (Z_of_request req)
                 (Some (IMap [(IString (cstr "msg"), IString msg)])).

Lemma awaits_cons s fd ev evs rest e :
  awaits s fd (ev :: evs) rest e ->
  exists h bs, encodes ev h /\ stream evs bs /\ Z.of_nat (length h) < 2 ^ 64 /\
    Z.of_nat (length bs) < 2 ^ 64 /\ readable_fd (get_env s) fd (h ++ bs ++ rest) e.
Proof.
  intros (b & Hst & Hl & Hr). inversion Hst as [|? h ? bs He Hs]; subst.
  rewrite length_app in Hl. rewrite <- app_assoc in Hr. exists h, bs. repeat split; auto; lia.
Qed.

Lemma fits_64 s : fits s -> Z.of_nat (length (errmsg (u_rt s))) < 2 ^ 64.
Proof. unfold fits, msg_fits, ERRMSG_SIZE. lia. Qed.

Lemma io_only_rt s s' : io_only s s' -> u_rt s' = u_rt s.
Proof. intros Hio. unfold u_rt, u_acc. now rewrite (io_only_bps _ _ Hio). Qed.

Section Dispatch.
Context `{LC : Libc} `{CO : LibcborOk}.

Lemma type_read v ev evs rest e req_fd resp_fd type s :
  ev = EUint8 v \/ ev = EUint16 v -> allocs (u_rt s) = [] -> awaits s req_fd (ev :: evs) rest e ->
  open_for_write (get_env s) resp_fd ->
  exists s1, on_env (read_request_type req_fd type) s = Ret (RESULT_SUCCESS, v) s1 /\
    io_only s s1 /\ awaits s1 req_fd evs rest e /\ open_for_write (get_env s1) resp_fd /\
    sent resp_fd s1 = sent resp_fd s.
Proof.
  intros Hev Ha Haw Ho. apply awaits_cons in Haw as (h & bs & He & Hst & Hlh & Hlb & Hr).
  destruct (read_type_ok v ev h (bs ++ rest) req_fd e s type Hev He Ha Hlh Hr)
    as (s1 & Hrt & Hio & Hor & Hr1).
  exists s1. split; [done|]. split; [done|]. split; [now exists bs|]. split; [eauto using still_open|].
  eauto using reads_sent_open.
Qed.

(** The part of [handle_process_request] after the type was read. *)
Lemma dispatch_process req ev evs rest e req_fd resp_fd type handler s :
  type_event req ev -> request_handlers !! Z.to_nat (Z_of_request req) = Some handler ->
  allocs (u_rt s) = [] -> awaits s req_fd (ev :: evs) rest e ->
  open_for_write (get_env s) resp_fd ->
  exists s1, io_only s s1 /\ awaits s1 req_fd evs rest e /\ open_for_write (get_env s1) resp_fd /\
    sent resp_fd s1 = sent resp_fd s /\
    handle_process_request req_fd resp_fd type s
    = (let* result := handler req_fd resp_fd in
       let* result := report_failure resp_fd (Z_of_request req) result in
       ret (result, Z_of_request req)) s1.
Proof.
  intros Hev Hh Ha Haw Ho.
  destruct (type_read _ ev evs rest e req_fd resp_fd type s Hev Ha Haw Ho) as (s1 & Hrt & Hio & Haw1 & Ho1 & Hs1).
  exists s1. do 4 (split; [done|]).
  unfold handle_process_request. mstep_with Hrt. cbn [negb Z.eqb RESULT_SUCCESS].
  rewrite Hh. now rewrite bind_assoc.
Qed.

(** Reading the data that follow. *)
Lemma request_data_read {D} (items : list (msg_item D)) fs d req_fd resp_fd rest e s :
  Forall (fun '(k, ev, f) => field items k ev f) fs -> fs <> [] -> length fs = length items ->
  allocs (u_rt s) = [] -> awaits s req_fd (request_events fs) rest e ->
  open_for_write (get_env s) resp_fd ->
  exists s1, read_data req_fd items d s = Ret (RESULT_SUCCESS, apply_fields fs d) s1 /\
    io_only s s1 /\ readable_fd (get_env s1) req_fd rest e /\
    open_for_write (get_env s1) resp_fd /\ sent resp_fd s1 = sent resp_fd s.
Proof.
  intros Hf Hne Hl Ha (bs & Hst & Hlb & Hr) Ho.
  destruct (read_data_ok items fs d req_fd bs rest e s Hst Hf Hne Hl Hlb Ha Hr)
    as (s1 & Hrd & Hio & Hor & Hr1).
  exists s1. split; [done|]. split; [done|]. split; [done|].
  split; [eauto using still_open|eauto using reads_sent_open].
Qed.

(** Both, for a handler that reads [items]. *)
Lemma dispatch_data {D} req ev (items : list (msg_item D)) fs d rest e req_fd resp_fd type handler s :
  type_event req ev -> request_handlers !! Z.to_nat (Z_of_request req) = Some handler ->
  Forall (fun '(k, ev, f) => field items k ev f) fs -> fs <> [] -> length fs = length items ->
  allocs (u_rt s) = [] -> awaits s req_fd (ev :: request_events fs) rest e ->
  open_for_write (get_env s) resp_fd ->
  exists s1 s2,
    handle_process_request req_fd resp_fd type s
    = (let* result := handler req_fd resp_fd in
       let* result := report_failure resp_fd (Z_of_request req) result in
       ret (result, Z_of_request req)) s1 /\
    read_data req_fd items d s1 = Ret (RESULT_SUCCESS, apply_fields fs d) s2 /\
    io_only s s2 /\ readable_fd (get_env s2) req_fd rest e /\
    open_for_write (get_env s2) resp_fd /\ sent resp_fd s2 = sent resp_fd s.
Proof.
  intros Hev Hh Hf Hne Hl Ha Haw Ho.
  destruct (dispatch_process req ev _ rest e req_fd resp_fd type handler s Hev Hh Ha Haw Ho)
    as (s1 & Hio1 & Haw1 & Ho1 & Hs1 & Heq).
  destruct (request_data_read items fs d req_fd resp_fd rest e s1 Hf Hne Hl)
    as (s2 & Hrd & Hio2 & Hr2 & Ho2 & Hs2); [now rewrite (io_only_rt _ _ Hio1)|done|done|].
  exists s1, s2. split; [done|]. split; [done|]. split; [etransitivity; eassumption|].
  rewrite Hs2. auto.
Qed.

(** How a handler that ended with [result] in [s] is reported. *)
Lemma dispatch_success resp_fd req s :
  (let* result := report_failure resp_fd (Z_of_request req) RESULT_SUCCESS in
   ret (result, Z_of_request req)) s = Ret (RESULT_SUCCESS, Z_of_request req) s.
Proof. reflexivity. Qed.

Lemma dispatch_refused resp_fd req result s :
  result = RESULT_FAILURE \/ result = RESULT_ERROR -> fits s -> open_for_write (get_env s) resp_fd ->
  exists s', (let* result := report_failure resp_fd (Z_of_request req) result in
    ret (result, Z_of_request req)) s = Ret (result, Z_of_request req) s' /\
    io_only s s' /\ refused resp_fd req (errmsg (u_rt s)) s s'.
Proof.
  intros Hr Hf Ho. destruct (report_failure_ok resp_fd (Z_of_request req) result s Hr Ho (fits_64 s Hf))
    as (s' & Hw & Hio & Hs).
  exists s'. split; [now mstep_with Hw|]. auto.
Qed.
End Dispatch.

(** ** The fields of the request messages *)

Section RequestFields.
Context `{LC : Libc}.

Lemma read_addr_field a :
  field read_items (cstr "addr") (EUint64 a) (fun d => {| rm_addr := a; rm_len := rm_len d |}).
Proof. now eapply (field_intro _ _ _ _ 0). Qed.

Lemma read_len_field n :
  field read_items (cstr "len") (EUint32 n) (fun d => {| rm_addr := rm_addr d; rm_len := n |}).
Proof. now eapply (field_intro _ _ _ _ 1). Qed.

Lemma write_addr_field a :
  field write_items (cstr "addr") (EUint64 a)
    (fun d => {| wm_addr := a; wm_data := wm_data d; wm_len := wm_len d |}).
Proof. now eapply (field_intro _ _ _ _ 0). Qed.

Lemma write_data_field bs :
  field write_items (cstr "data") (EByteString bs)
    (fun d => {| wm_addr := wm_addr d; wm_data := Some bs; wm_len := Z.of_nat (length bs) |}).
Proof.
  eapply (field_intro _ _ _ _ 1); [reflexivity|reflexivity|]. intros r t Ha. cbn [item_cbs].
  unfold write_data_callback, bind, udi_malloc. rewrite Ha. reflexivity.
Qed.

(** An address in any width. *)
Definition uint_value (v : Z) (ev : cbor_event) : Prop :=
  ev = EUint8 v \/ ev = EUint16 v \/ ev = EUint32 v \/ ev = EUint64 v.

Lemma breakpoint_addr_field a ev :
  uint_value a ev -> field breakpoint_items (cstr "addr") ev (fun _ => {| br_addr := a |}).
Proof. intros [->|[->|[->| ->]]]; now eapply (field_intro _ _ _ _ 0). Qed.
End RequestFields.

(** ** Memory requests *)

Section MemoryRequests.
Context `{LO : LibcOk} `{CO : LibcborOk}.

(** The request data, in either order. *)
Definition read_mem_data (a n : Z) (evs : list cbor_event) : Prop :=
  evs = [EMapStart 2; EString (cstr "addr"); EUint64 a; EString (cstr "len"); EUint32 n] \/
  evs = [EMapStart 2; EString (cstr "len"); EUint32 n; EString (cstr "addr"); EUint64 a].

Definition write_mem_data (a : Z) (bs : list Z) (evs : list cbor_event) : Prop :=
  evs = [EMapStart 2; EString (cstr "addr"); EUint64 a; EString (cstr "data"); EByteString bs] \/
  evs = [EMapStart 2; EString (cstr "data"); EByteString bs; EString (cstr "addr"); EUint64 a].

Lemma read_mem_fields a n evs :
  read_mem_data a n evs ->
  exists fs, evs = request_events fs /\ Forall (fun '(k, ev, f) => field read_items k ev f) fs /\
    length fs = 2%nat /\ forall d, apply_fields fs d = {| rm_addr := a; rm_len := n |}.
Proof.
  intros [->| ->];
    [exists [(cstr "addr", EUint64 a, fun d => {| rm_addr := a; rm_len := rm_len d |});
             (cstr "len", EUint32 n, fun d => {| rm_addr := rm_addr d; rm_len := n |})]
    |exists [(cstr "len", EUint32 n, fun d => {| rm_addr := rm_addr d; rm_len := n |});
             (cstr "addr", EUint64 a, fun d => {| rm_addr := a; rm_len := rm_len d |})]];
    (split; [reflexivity|]); (split; [repeat constructor; auto using read_addr_field, read_len_field|done]).
Qed.

Lemma write_mem_fields a bs evs :
  write_mem_data a bs evs ->
  exists fs, evs = request_events fs /\ Forall (fun '(k, ev, f) => field write_items k ev f) fs /\
    length fs = 2%nat /\
    forall d, apply_fields fs d
      = {| wm_addr := a; wm_data := Some bs; wm_len := Z.of_nat (length bs) |}.
Proof.
  intros [->| ->];
    [exists [(cstr "addr", EUint64 a, fun d => {| wm_addr := a; wm_data := wm_data d; wm_len := wm_len d |});
             (cstr "data", EByteString bs, fun d => {| wm_addr := wm_addr d; wm_data := Some bs; wm_len := Z.of_nat (length bs) |})]
    |exists [(cstr "data", EByteString bs, fun d => {| wm_addr := wm_addr d; wm_data := Some bs; wm_len := Z.of_nat (length bs) |});
             (cstr "addr", EUint64 a, fun d => {| wm_addr := a; wm_data := wm_data d; wm_len := wm_len d |})]];
    (split; [reflexivity|]); (split; [repeat constructor; auto using write_addr_field, write_data_field|done]).
Qed.

(** Only the access component and the descriptors change. *)
Definition only_access (s s' : udirt) : Prop :=
  u_thrs s' = u_thrs s /\ breakpoints (u_bps s') = breakpoints (u_bps s) /\
  bp_heap (u_bps s') = bp_heap (u_bps s) /\ continue_bp s' = continue_bp s /\
  sent_signals s' = sent_signals s.

Lemma io_only_access s s' : io_only s s' -> only_access s s'.
Proof. intros Hio. destruct (io_only_frame _ _ Hio) as (Hb & ? & ? & ? & ? & _). unfold only_access. now rewrite Hb. Qed.

Lemma only_access_trans s1 s2 s3 : only_access s1 s2 -> only_access s2 s3 -> only_access s1 s3.
Proof. unfold only_access. intuition congruence. Qed.

Lemma io_only_acc s s' : io_only s s' -> u_acc s' = u_acc s.
Proof. intros Hio. unfold u_acc. now rewrite (io_only_bps _ _ Hio). Qed.

Lemma on_msg_pure {A} (m : ST rt A) s a : m (u_rt s) = Ret a (u_rt s) -> on_msg m s = Ret a s.
Proof.
  intros Hm. rewrite (on_msg_Ret _ _ _ _ Hm). f_equal. unfold put_msg, u_rt.
  rewrite put_rt_get. unfold u_acc. now rewrite put_acc_get, put_bps_get.
Qed.

Lemma msg_malloc_ok s : allocs (u_rt s) = [] -> on_msg udi_malloc s = Ret true s.
Proof. intros Ha. apply on_msg_pure. unfold udi_malloc. now rewrite Ha. Qed.

(** The reason that a failed memory access is reported with. *)
Definition mem_reason (si_code : Z) : list Z := errmsg_of "%s" [VStr (cstr (get_mem_errstr si_code))].

Lemma mem_failure code s :
  set_errmsg "%s" [VStr (cstr (get_mem_errstr code))] s
  = Ret tt (put_msg (Rt (mem_reason code) (allocs (u_rt s))) s).
Proof. apply set_errmsg_Ret. fmt_ok. Qed.

Lemma errmsg_of_fits format args : Z.of_nat (length (errmsg_of format args)) < ERRMSG_SIZE.
Proof.
  unfold errmsg_of. destruct (errmsg_text format args) eqn:E; cbn; [now apply errmsg_text_fits in E|].
  unfold ERRMSG_SIZE. lia.
Qed.

(** A failed access, as the handlers report it. *)
Lemma access_refused req resp_fd s :
  allocs (u_rt s) = [] -> open_for_write (get_env s) resp_fd ->
  exists s', (let* result := (let* code := gets (fun s => failed_si_code (u_acc s)) in
                              set_errmsg "%s" [VStr (cstr (get_mem_errstr code))] ;;;
                              ret RESULT_FAILURE) in
              let* result := report_failure resp_fd (Z_of_request req) result in
              ret (result, Z_of_request req)) s = Ret (RESULT_FAILURE, Z_of_request req) s' /\
    only_access s s' /\ space (u_acc s') = space (u_acc s) /\
    refused resp_fd req (mem_reason (failed_si_code (u_acc s))) s s'.
Proof.
  intros Ha Ho. rewrite bind_assoc, bind_gets, bind_assoc, (bind_Ret _ _ _ _ _ (mem_failure _ s)), bind_ret.
  set (s1 := put_msg _ s). assert (fits s1) as Hf by apply errmsg_of_fits.
  destruct (dispatch_refused resp_fd req RESULT_FAILURE s1 (or_introl eq_refl) Hf Ho) as (s' & -> & Hio & Hr).
  exists s'. split; [done|]. split; [apply io_only_access in Hio; exact Hio|].
  split; [now rewrite (io_only_acc _ _ Hio)|exact Hr].
Qed.

Lemma mem_item_ok bs :
  Z.of_nat (length bs) <= 2 ^ 64 - 1 -> item_ok (IMap [(IString (cstr "data"), IByteString bs)]) = true.
Proof. intros Hl. cbn [item_ok forallb]. replace (Z.of_nat (length bs) <? 2 ^ 64) with true by lia. reflexivity. Qed.

(** Why byte [k] of an access of [n] bytes at [a] cannot be accessed. *)
Definition inaccessible (a : Z) (n k : nat) (si_code : Z) (sp : aspace) : Prop :=
  (si_code = SEGV_MAPERR /\ as_prot sp !! ((a + Z.of_nat k) / page_size) = None) \/
  (si_code = SEGV_ACCERR /\
   exists errno, mprotect sp (page_align a) (Z.of_nat n) PROT_RWX = inr errno).

Lemma access_result_cases a n k r s s' :
  access_result a n k r s s' ->
  (k = n /\ r = 0) \/ ((k < n)%nat /\ r = -1 /\ inaccessible a n k (failed_si_code s') (space s')).
Proof. intros []; unfold inaccessible; [left|right..]; eauto 10. Qed.

(** What the debugger is told of a failed access. *)
Definition access_failure (req : udi_request_type_e) (a : Z) (n k : nat) (resp_fd : Z) (s s' : udirt) : Prop :=
  (k < n)%nat /\ exists code, inaccessible a n k code (space (u_acc s')) /\
    refused resp_fd req (mem_reason code) s s'.

Lemma failed_access req a n k resp_fd s s1 :
  only_access s s1 -> calm (u_acc s1) -> open_for_write (get_env s1) resp_fd ->
  sent resp_fd s1 = sent resp_fd s -> (k < n)%nat ->
  inaccessible a n k (failed_si_code (u_acc s1)) (space (u_acc s1)) ->
  exists s', (let* result := (let* code := gets (fun s => failed_si_code (u_acc s)) in
                              set_errmsg "%s" [VStr (cstr (get_mem_errstr code))] ;;;
                              ret RESULT_FAILURE) in
              let* result := report_failure resp_fd (Z_of_request req) result in
              ret (result, Z_of_request req)) s1 = Ret (RESULT_FAILURE, Z_of_request req) s' /\
    only_access s s' /\ space (u_acc s') = space (u_acc s1) /\ access_failure req a n k resp_fd s s'.
Proof.
  intros Hfr Hc Ho Hs Hk Hin.
  destruct (access_refused req resp_fd s1 (calm_allocs _ Hc) Ho) as (s' & -> & Hfr' & Hsp & Hrf).
  exists s'. split; [done|]. split; [eauto using only_access_trans|]. split; [done|].
  split; [done|]. eexists. rewrite Hsp. split; [exact Hin|]. unfold refused in *. congruence.
Qed.

(** C13: a well-formed memory read request, from its bytes to the bytes of
    the answer. The debugger gets the bytes that the debuggee has at the
    address, or an error response with the reason when some byte of the
    range cannot be accessed; the memory, the threads and the breakpoints
    of the debuggee are as before. The range must be covered by the mprotect
    of the fault handler, which starts at the page of the address but has the
    length of the access: a read that goes on to a protected page beyond
    faults for ever and is never answered (udirt-posix.c:345). *)
Theorem read_mem_request (s : udirt) (a : Z) (n : nat) ev evs rest e req_fd resp_fd type :
  calm (u_acc s) -> 0 <= a -> a + Z.of_nat n <= 2 ^ 64 -> covered a n -> Z.of_nat n < 2 ^ 32 ->
  type_event UDI_REQ_READ_MEM ev -> read_mem_data a (Z.of_nat n) evs ->
  awaits s req_fd (ev :: evs) rest e -> open_for_write (get_env s) resp_fd ->
  exists k result s', handle_process_request req_fd resp_fd type s
    = Ret (result, Z_of_request UDI_REQ_READ_MEM) s' /\ only_access s s' /\
    as_bytes (space (u_acc s')) = as_bytes (space (u_acc s)) /\
    ((result = RESULT_SUCCESS /\
      answered resp_fd UDI_REQ_READ_MEM
        (Some (IMap [(IString (cstr "data"), IByteString (peeks (space (u_acc s)) a n))])) s s') \/
     (result = RESULT_FAILURE /\ access_failure UDI_REQ_READ_MEM a n k resp_fd s s')).
Proof.
  intros Hc Ha0 Ha1 Hcov Hn32 Hev Hd Haw Ho.
  destruct (read_mem_fields _ _ _ Hd) as (fs & -> & Hf & Hlf & Hap).
  destruct (dispatch_data UDI_REQ_READ_MEM ev read_items fs {| rm_addr := 0; rm_len := 0 |} rest e
              req_fd resp_fd type read_handler s Hev eq_refl Hf)
    as (s1 & s2 & -> & Hrd & Hio & _ & Ho2 & Hs2); [now destruct fs|done|apply Hc|done|done|].
  pose proof (io_only_acc _ _ Hio) as Hacc. rewrite <- Hacc in Hc |- *.
  unfold read_handler. rewrite bind_assoc. mstep_with Hrd. cbn [negb Z.eqb RESULT_SUCCESS].
  rewrite Hap. cbn [rm_addr rm_len]. rewrite Nat2Z.id, bind_assoc.
  mstep_with (msg_malloc_ok s2 (calm_allocs _ Hc)). cbn [negb]. rewrite bind_assoc.
  destruct (read_memory_calm (replicate n 0) a n (u_acc s2) Hc Ha0 Ha1 Hcov)
    as (k & r & buf & x & Hrm & Hcx & _ & Hres & Hby & Hbuf); [now rewrite length_replicate|].
  mstep_with (on_access_Ret _ _ _ _ Hrm). set (s3 := put_bps _ s2).
  assert (Hfr : only_access s s3) by (apply io_only_access in Hio; exact Hio). exists k.
  apply access_result_cases in Hres as [[-> ->]|(Hk & -> & Hin)]; cbn [negb Z.eqb].
  - rewrite drop_ge, app_nil_r in Hbuf by (rewrite length_replicate; done).
    destruct (respond_ok resp_fd UDI_REQ_READ_MEM
                (Some (IMap [(IString (cstr "data"), IByteString buf)])) s3 Ho2)
      as (s4 & Hw & Hio4 & _ & Hs4);
      [intros it [= <-]; apply mem_item_ok; subst buf; rewrite peeks_length; lia|].
    mstep_with Hw. do 2 eexists. split; [apply dispatch_success|].
    split; [eauto using only_access_trans, io_only_access|].
    split; [now rewrite (io_only_acc _ _ Hio4)|]. left. split; [done|].
    unfold answered. rewrite Hs4, Hbuf. f_equal. exact Hs2.
  - destruct (failed_access UDI_REQ_READ_MEM a n k resp_fd s s3 Hfr Hcx Ho2 Hs2 Hk Hin)
      as (s4 & -> & Hfr4 & Hsp & Hrf).
    do 2 eexists. split; [reflexivity|]. split; [done|]. rewrite Hsp. auto.
Qed.

(** C14: a well-formed memory write request. On success the debuggee has the
    new bytes at the address and nothing else has changed in its memory; on
    failure the bytes before the inaccessible one have been written and the
    debugger is told why it stopped. As for reads the range must be covered by
    the mprotect of the fault handler: a write that goes on to a protected page
    beyond faults for ever and is never answered (udirt-posix.c:345). *)
Theorem write_mem_request (s : udirt) (a : Z) (bs : list Z) ev evs rest e req_fd resp_fd type :
  calm (u_acc s) -> 0 <= a -> a + Z.of_nat (length bs) <= 2 ^ 64 -> covered a (length bs) ->
  type_event UDI_REQ_WRITE_MEM ev -> write_mem_data a bs evs ->
  awaits s req_fd (ev :: evs) rest e -> open_for_write (get_env s) resp_fd ->
  exists k result s', handle_process_request req_fd resp_fd type s
    = Ret (result, Z_of_request UDI_REQ_WRITE_MEM) s' /\ only_access s s' /\
    as_bytes (space (u_acc s')) = poke_bytes (as_bytes (space (u_acc s))) a (take k bs) /\
    ((result = RESULT_SUCCESS /\ k = length bs /\ answered resp_fd UDI_REQ_WRITE_MEM None s s') \/
     (result = RESULT_FAILURE /\ access_failure UDI_REQ_WRITE_MEM a (length bs) k resp_fd s s')).
Proof.
  intros Hc Ha0 Ha1 Hcov Hev Hd Haw Ho.
  destruct (write_mem_fields _ _ _ Hd) as (fs & -> & Hf & Hlf & Hap).
  destruct (dispatch_data UDI_REQ_WRITE_MEM ev write_items fs
              {| wm_addr := 0; wm_data := None; wm_len := 0 |} rest e
              req_fd resp_fd type write_handler s Hev eq_refl Hf)
    as (s1 & s2 & -> & Hrd & Hio & _ & Ho2 & Hs2); [now destruct fs|done|apply Hc|done|done|].
  pose proof (io_only_acc _ _ Hio) as Hacc. rewrite <- Hacc in Hc |- *.
  unfold write_handler. rewrite bind_assoc. mstep_with Hrd. cbn [negb Z.eqb RESULT_SUCCESS].
  rewrite Hap. cbn [wm_addr wm_len wm_data default]. rewrite Nat2Z.id, bind_assoc.
  destruct (write_memory_calm a bs (length bs) (u_acc s2) Hc Ha0 Ha1 Hcov)
    as (k & r & x & Hwm & Hcx & _ & Hres & Hby); [lia|].
  mstep_with (on_access_Ret _ _ _ _ Hwm). set (s3 := put_bps _ s2).
  assert (Hfr : only_access s s3) by (apply io_only_access in Hio; exact Hio). exists k.
  apply access_result_cases in Hres as [[-> ->]|(Hk & -> & Hin)]; cbn [negb Z.eqb].
  - destruct (respond_ok resp_fd UDI_REQ_WRITE_MEM None s3 Ho2)
      as (s4 & Hw & Hio4 & _ & Hs4); [done|].
    mstep_with Hw. do 2 eexists. split; [apply dispatch_success|].
    split; [eauto using only_access_trans, io_only_access|].
    split; [now rewrite (io_only_acc _ _ Hio4)|]. left. split; [done|]. split; [done|].
    unfold answered. rewrite Hs4. f_equal. exact Hs2.
  - destruct (failed_access UDI_REQ_WRITE_MEM a (length bs) k resp_fd s s3 Hfr Hcx Ho2 Hs2 Hk Hin)
      as (s4 & -> & Hfr4 & Hsp & Hrf).
    do 2 eexists. split; [reflexivity|]. split; [done|]. rewrite Hsp. auto.
Qed.
End MemoryRequests.

(** ** Breakpoint requests *)

Section BreakpointRequests.
Context `{LO : LibcOk} `{CO : LibcborOk}.
Variable orig : Z -> Z.

Definition op_request (op : bp_op) : udi_request_type_e :=
  match op with
  | Create _ => UDI_REQ_CREATE_BREAKPOINT
  | Install _ => UDI_REQ_INSTALL_BREAKPOINT
  | Remove _ => UDI_REQ_REMOVE_BREAKPOINT
  | Delete _ => UDI_REQ_DELETE_BREAKPOINT
  end.

(** The request type in the answer: a delete request is answered as a remove
    request. *)
Definition op_answer (op : bp_op) : udi_request_type_e :=
  match op with Delete _ => UDI_REQ_REMOVE_BREAKPOINT | _ => op_request op end.

Definition op_addr (op : bp_op) : Z :=
  match op with Create a | Install a | Remove a | Delete a => a end.

Definition op_handler (op : bp_op) : Z -> Z -> ST udirt Z :=
  match op with
  | Create _ => breakpoint_create_handler
  | Install _ => breakpoint_install_handler
  | Remove _ => breakpoint_remove_handler
  | Delete _ => breakpoint_delete_handler
  end.



(** The lookup and the operation of the handlers are [run_op]. *)
Lemma handler_runs_op a k s :
  (let* bp := on_bps (find_breakpoint a) in deref_breakpoint bp k) s
  = on_bps (with_breakpoint a k) s.
Proof.
  unfold with_breakpoint, on_bps, zoom, bind. now destruct (find_breakpoint a (u_bps s)) as [[p|] b| | |].
Qed.



Lemma registered_find s A a :
  represents orig ∅ s A -> exists o, find_breakpoint a s = Ret o s /\ (o = None <-> A !! a = None).
Proof.
  intros (m & [Hc Hm Hf Hs Hmem]). exists (m !! a). split; [now apply find_breakpoint_models|].
  rewrite Hf. destruct (m !! a) as [p|] eqn:Hp; cbn; [|done].
  destruct (models_block s m a p Hm Hp) as (b & -> & _). cbn. split; discriminate.
Qed.

(** The end of the handlers: run the operation and answer. *)
Definition finish_op (op : bp_op) (resp_fd : Z) : ST udirt Z :=
  let* result := on_bps (run_op op) in
  if negb (result =? 0) then ret RESULT_FAILURE
  else respond resp_fd (op_answer op) None.


(** The handlers, once the address has been read. *)
Lemma read_breakpoint_finish a k ans req_fd resp_fd s1 s2 :
  read_data req_fd breakpoint_items {| br_addr := 0 |} s1 = Ret (RESULT_SUCCESS, {| br_addr := a |}) s2 ->
  (let* (result, bp) := read_breakpoint req_fd in
   if negb (result =? RESULT_SUCCESS) then ret result
   else
     let* result := deref_breakpoint bp k in
     if negb (result =? 0) then ret RESULT_FAILURE else respond resp_fd ans None) s1
  = (let* result := on_bps (with_breakpoint a k) in
     if negb (result =? 0) then ret RESULT_FAILURE else respond resp_fd ans None) s2.
Proof.
  intros Hrd. unfold read_breakpoint, read_breakpoint_addr. rewrite !bind_assoc. mstep_with Hrd.
  rewrite bind_ret. change (negb (RESULT_SUCCESS =? RESULT_SUCCESS)) with false. cbv iota.
  unfold bind at 4. rewrite <- handler_runs_op. unfold bind, ret. cbn [br_addr].
  destruct (on_bps (find_breakpoint a) s2); try done.
Qed.

Lemma op_handler_finish op req_fd resp_fd s1 s2 :
  read_data req_fd breakpoint_items {| br_addr := 0 |} s1
  = Ret (RESULT_SUCCESS, {| br_addr := op_addr op |}) s2 ->
  (forall a, op = Create a -> find_breakpoint a (u_bps s2) = Ret None (u_bps s2) /\
     exists b, run_op op (u_bps s2) = Ret 0 b) ->
  op_handler op req_fd resp_fd s1 = finish_op op resp_fd s2.
Proof.
  intros Hrd Hcr. destruct op as [a|a|a|a]; [|exact (read_breakpoint_finish a _ _ _ _ _ _ Hrd)..].
  destruct (Hcr a eq_refl) as [Hfd [b Hrun]]. cbn [op_handler op_addr] in *.
  unfold breakpoint_create_handler, read_breakpoint_addr. rewrite bind_assoc. mstep_with Hrd.
  rewrite bind_ret. change (negb (RESULT_SUCCESS =? RESULT_SUCCESS)) with false. cbv iota.
  mstep_with (on_bps_Ret _ _ _ _ Hfd). rewrite put_bps_get.
  apply bind_inv in Hrun as (o & b' & Hc & Ho). destruct o as [p|]; [|discriminate].
  mstep_with (on_bps_Ret _ _ _ _ Hc). unfold finish_op. cbn [run_op].
  unfold bind at 1, on_bps at 1, zoom at 1. now rewrite (bind_Ret _ _ _ _ _ Hc).
Qed.




(** C15: a request about a breakpoint that does not exist ends in undefined
    behaviour: [read_breakpoint] looks for the missing breakpoint in the wrong
    place, so a well-formed install, remove or delete request for an address
    without a breakpoint makes the library dereference a null pointer, instead
    of refusing the request with the message the function has for the case. *)
Theorem unknown_breakpoint_undefined (s : udirt) (A : gmap Z bool) (op : bp_op) ev aev rest e req_fd resp_fd type :
  represents orig ∅ (u_bps s) A -> A !! op_addr op = None -> op <> Create (op_addr op) ->
  type_event (op_request op) ev -> uint_value (op_addr op) aev ->
  awaits s req_fd [ev; EMapStart 1; EString (cstr "addr"); aev] rest e ->
  open_for_write (get_env s) resp_fd ->
  handle_process_request req_fd resp_fd type s = Undef NullDeref.
Proof.
  intros Hr HA Hop Hev Haev Haw Ho. pose proof Hr as (m & [Hc _ _ _ _]).
  set (fs := [(cstr "addr", aev, fun _ : brkpt_req => {| br_addr := op_addr op |})]).
  assert (Hfs : Forall (fun '(k, ev, f) => field breakpoint_items k ev f) fs)
    by (constructor; [now apply breakpoint_addr_field|constructor]).
  destruct (dispatch_data (op_request op) ev breakpoint_items fs {| br_addr := 0 |} rest e
              req_fd resp_fd type (op_handler op) s Hev)
    as (s1 & s2 & -> & Hrd & Hio & _ & _ & _); try done; [now destruct op|apply Hc|].
  rewrite <- (io_only_bps _ _ Hio) in Hr.
  destruct (registered_find _ _ (op_addr op) Hr) as (o & Hfd & HoA). rewrite (proj2 HoA HA) in Hfd.
  apply bind_Undef. rewrite op_handler_finish with (s2 := s2); [|exact Hrd|intros a ->; now destruct Hop].
  unfold finish_op. apply bind_Undef. unfold on_bps, zoom.
  assert (run_op op (u_bps s2) = Undef NullDeref) as ->; [|done].
  destruct op; cbn [run_op op_addr] in *; [now destruct Hop|unfold with_breakpoint; now mstep_with Hfd..].
Qed.
End BreakpointRequests.

(** ** The dispatch tables *)

Section Tables.
Context `{LC : Libc} `{CO : LibcborOk} `{TG : Target} `{UD : Udis86}.

(** The request types a dispatcher serves. *)
Definition process_request (v : Z) : bool :=
  bool_decide (v ∈ Z_of_request <$>
    [UDI_REQ_CONTINUE; UDI_REQ_READ_MEM; UDI_REQ_WRITE_MEM; UDI_REQ_STATE; UDI_REQ_CREATE_BREAKPOINT;
     UDI_REQ_INSTALL_BREAKPOINT; UDI_REQ_REMOVE_BREAKPOINT; UDI_REQ_DELETE_BREAKPOINT]).
Definition thread_request (v : Z) : bool :=
  bool_decide (v ∈ Z_of_request <$>
    [UDI_REQ_READ_REGISTER; UDI_REQ_WRITE_REGISTER; UDI_REQ_STATE; UDI_REQ_THREAD_SUSPEND;
     UDI_REQ_THREAD_RESUME; UDI_REQ_NEXT_INSTRUCTION; UDI_REQ_SINGLE_STEP]).

Lemma process_table v :
  0 <= v -> process_request v = false ->
  request_handlers !! Z.to_nat v = if v <? 16 then Some invalid_handler else None.
Proof.
  intros Hv Hp. destruct (Z.ltb_spec v 16) as [Hlt|Hge]; [|apply lookup_ge_None_2; cbn; lia].
  assert (v ∈ seqZ 0 16) as Hin by (apply elem_of_seqZ; lia). cbn in Hin.
  repeat (apply elem_of_cons in Hin as [->|Hin]; [vm_compute in Hp; first [discriminate Hp|reflexivity]|]).
  now apply not_elem_of_nil in Hin.
Qed.

Lemma thread_table v :
  0 <= v -> thread_request v = false ->
  thr_request_handlers !! Z.to_nat v = if v <? 16 then Some thr_invalid_handler else None.
Proof.
  intros Hv Hp. destruct (Z.ltb_spec v 16) as [Hlt|Hge]; [|apply lookup_ge_None_2; cbn; lia].
  assert (v ∈ seqZ 0 16) as Hin by (apply elem_of_seqZ; lia). cbn in Hin.
  repeat (apply elem_of_cons in Hin as [->|Hin]; [vm_compute in Hp; first [discriminate Hp|reflexivity]|]).
  now apply not_elem_of_nil in Hin.
Qed.

(** What becomes of a request of type [v] that the dispatcher does not serve. *)
Definition unserved (v : Z) (msg : string) (resp_fd : Z) (s : udirt) (o : outcome udirt (Z * Z)) : Prop :=
  if v <? 16 then
    exists s', o = Ret (RESULT_ERROR, v) s' /\ only_access s s' /\ u_acc s' = put_rt (u_rt s') (u_acc s) /\
      sent resp_fd s' = sent resp_fd s ++ response_bytes UDI_RESP_ERROR v
        (Some (IMap [(IString (cstr "msg"), IString (errmsg_of msg []))]))
  else o = Undef OutOfBounds.

(** The handlers of the unserved types, and the table lookup before them. *)
Lemma unserved_ok {B} (table : list B) (run : B -> ST udirt Z) inv v msg resp_fd s0 s :
  table !! Z.to_nat v = (if v <? 16 then Some inv else None) ->
  (forall s, run inv s = (set_errmsg msg [] ;;; ret RESULT_ERROR) s) ->
  is_Some (formatted (cstr msg) []) -> io_only s0 s ->
  open_for_write (get_env s) resp_fd -> sent resp_fd s = sent resp_fd s0 ->
  unserved v msg resp_fd s0
    ((let* (result, type) :=
       (match table !! Z.to_nat v with
        | None => undef OutOfBounds
        | Some h => let* result := run h in ret (result, v)
        end) in
      let* result := report_failure resp_fd type result in
      ret (result, type)) s).
Proof.
  intros -> Hrun Hmsg Hio Ho Hs. unfold unserved. destruct (v <? 16); [|reflexivity].
  rewrite bind_assoc. unfold bind at 1. rewrite Hrun. erewrite bind_Ret by now apply set_errmsg_Ret.
  unfold ret at 1. rewrite bind_ret. set (s1 := put_msg _ s).
  destruct (report_failure_ok resp_fd v RESULT_ERROR s1 (or_intror eq_refl) Ho) as (s2 & Hw & Hio2 & Hs2).
  { pose proof (errmsg_of_fits msg []). cbn. unfold ERRMSG_SIZE in *. lia. }
  mstep_with Hw. exists s2. split; [done|].
  split; [apply io_only_access in Hio, Hio2; eapply only_access_trans; [exact Hio|exact Hio2]|].
  split; [|rewrite Hs2; f_equal; exact Hs].
  rewrite (io_only_rt _ _ Hio2), (io_only_acc _ _ Hio2), <- (io_only_acc _ _ Hio). reflexivity.
Qed.

(** C40: a request that is not for the process (or not for a thread) is
    refused with an error response and nothing else happens; a request type
    beyond the last one indexes the table of handlers out of its bounds. *)
Theorem unserved_requests (v : Z) ev rest e req_fd resp_fd type thr (s : udirt) :
  ev = EUint8 v \/ ev = EUint16 v -> 0 <= v -> allocs (u_rt s) = [] ->
  awaits s req_fd [ev] rest e -> open_for_write (get_env s) resp_fd ->
  (process_request v = false ->
   unserved v "invalid request for process" resp_fd s (handle_process_request req_fd resp_fd type s)) /\
  (thread_request v = false ->
   unserved v "invalid request for thread" resp_fd s (handle_thread_request req_fd resp_fd thr type s)).
Proof.
  intros Hev Hv Ha Haw Ho.
  destruct (type_read v ev [] rest e req_fd resp_fd type s Hev Ha Haw Ho) as (s1 & Hrt & Hio & _ & Ho1 & Hs1).
  split; intros Hp.
  - unfold handle_process_request. mstep_with Hrt. cbn [negb Z.eqb RESULT_SUCCESS].
    apply (unserved_ok request_handlers (fun h => h req_fd resp_fd) invalid_handler);
      [now apply process_table|done|fmt_ok|done..].
  - unfold handle_thread_request. mstep_with Hrt. cbn [negb Z.eqb RESULT_SUCCESS].
    apply (unserved_ok thr_request_handlers (fun h => h req_fd resp_fd thr) thr_invalid_handler);
      [now apply thread_table|done|fmt_ok|done..].
Qed.
End Tables.
