(* ===== verification/ThreadSpec.v ===== *)
(** * Continuing the process and the requests of a thread

    The list of threads as the handlers see it, the continue request, and the
    requests that a debugger sends to one thread. *)

From Stdlib Require Import String.
From stdpp Require Import gmap.
From S2P Require Import Prelude External Types Format Memory Breakpoints Registers X86.
From S2P Require Import Io Cbor Requests Threads State Handlers ErrMsg HandlerSpec.

(** ** Walks over the list of threads *)

(** The live blocks of a list. *)
Definition blocks (s : thrs) (ps : list ptr) : list thread := omap (fun p => thr_heap s !! p) ps.

Definition runs (t : thread) : bool := bool_decide (ts t = UDI_TS_RUNNING).

Lemma on_thrs_load s p t : thr_heap (u_thrs s) !! p = Some t -> on_thrs (thr_load p) s = Ret t s.
Proof. intros Hp. rewrite (on_thrs_Ret _ _ _ _ (thr_load_ok _ _ _ Hp)). now rewrite put_thrs_get. Qed.

(** A query of one field of a block. *)
Lemma on_thrs_query {A} (f : thread -> A) s p t :
  thr_heap (u_thrs s) !! p = Some t ->
  on_thrs (let* t := thr_load p in ret (f t)) s = Ret (f t) s.
Proof.
  intros Hp. assert ((let* t := thr_load p in ret (f t)) (u_thrs s) = Ret (f t) (u_thrs s)) as Hq
    by now mstep_with (thr_load_ok _ _ _ Hp).
  rewrite (on_thrs_Ret _ _ _ _ Hq). now rewrite put_thrs_get.
Qed.

Lemma on_thrs_gets {A} (f : thrs -> A) s : on_thrs (gets f) s = Ret (f (u_thrs s)) s.
Proof. unfold on_thrs, zoom, gets. now rewrite put_thrs_get. Qed.

Lemma some_thread_running_spec s : forall fuel o ps,
  thr_chain (thr_heap (u_thrs s)) o ps -> (length ps < fuel)%nat ->
  some_thread_running fuel o s = Ret (existsb runs (blocks (u_thrs s) ps)) s.
Proof.
  intros fuel o ps Hc. revert fuel.
  induction Hc as [|p t ps Hp Hc IH]; intros [|fuel] Hf; cbn in Hf; try lia; cbn [some_thread_running]; [done|].
  unfold get_thread_state, get_next_thread. mstep_with (on_thrs_query ts s p t Hp).
  cbn [blocks omap list_omap]. rewrite Hp. cbn [existsb]. unfold runs at 1.
  case_decide as Hr; [now rewrite bool_decide_eq_true_2|]. rewrite bool_decide_eq_false_2 by done.
  mstep_with (on_thrs_query next_thread s p t Hp). rewrite IH by lia. done.
Qed.

Section Walks.
Context `{LC : Libc}.

Lemma bury_threads_none s : forall fuel o ps,
  thr_chain (thr_heap (u_thrs s)) o ps -> (length ps < fuel)%nat ->
  Forall (fun t => dead t = false) (blocks (u_thrs s) ps) ->
  bury_threads fuel o s = Ret true s.
Proof.
  intros fuel o ps Hc. revert fuel.
  induction Hc as [|p t ps Hp Hc IH]; intros [|fuel] Hf Hd; cbn in Hf; try lia; cbn [bury_threads]; [done|].
  cbn [blocks omap list_omap] in Hd. rewrite Hp in Hd. apply Forall_cons in Hd as [Ht Hd].
  unfold get_next_thread, is_thread_dead. mstep_with (on_thrs_query next_thread s p t Hp).
  mstep_with (on_thrs_query dead s p t Hp). rewrite Ht, bind_ret. cbn [negb Z.eqb]. apply IH; [lia|done].
Qed.

Lemma thread_states_spec s : forall fuel o ps,
  thr_chain (thr_heap (u_thrs s)) o ps -> (length ps < fuel)%nat ->
  thread_states fuel o s = Ret (thread_state_map <$> blocks (u_thrs s) ps) s.
Proof.
  intros fuel o ps Hc. revert fuel.
  induction Hc as [|p t ps Hp Hc IH]; intros [|fuel] Hf; cbn in Hf; try lia; cbn [thread_states]; [done|].
  mstep_with (on_thrs_load s p t Hp). rewrite (bind_Ret _ _ _ _ _ (IH fuel ltac:(lia))).
  cbn [blocks omap list_omap]. rewrite Hp. reflexivity.
Qed.
End Walks.

Lemma blocks_length s ps : thr_inv s ps -> length (blocks s ps) = length ps.
Proof.
  intros [Hc _ _ _]. induction Hc as [|p t ps Hp Hc IH]; [done|].
  cbn [blocks omap list_omap]. rewrite Hp. cbn. now f_equal.
Qed.

(** ** The continue request *)

Section Continue.
Context `{LO : LibcOk} `{CO : LibcborOk}.

Definition sig_value (v : Z) (ev : cbor_event) : Prop :=
  ev = EUint8 v \/ ev = EUint16 v \/ ev = EUint32 v.

Lemma continue_sig_field v ev :
  sig_value v ev -> field continue_items (cstr "sig") ev (fun _ => {| cr_sig := v |}).
Proof. intros [->|[->| ->]]; now eapply (field_intro _ _ _ _ 0). Qed.

(** The breakpoint that is put back when the process continues. *)
Definition continue_bp_ok (s : udirt) : Prop :=
  forall p, continue_bp s = Some p ->
    exists b, bp_heap (u_bps s) !! p = Some b /\ 0 <= address b < 2 ^ 64 /\ saved_bytes b <> [].

(** What becomes of it: there is none, or it was in memory before, or it is
    planted now, or its byte cannot be accessed. *)
Inductive continue_bp_installed (s s' : udirt) : Prop :=
| cb_none : continue_bp s = None -> u_bps s' = u_bps s -> continue_bp_installed s s'
| cb_before p b :
    continue_bp s = Some p -> bp_heap (u_bps s) !! p = Some b -> in_memory b = true ->
    u_bps s' = u_bps s -> continue_bp_installed s s'
| cb_planted p b b' :
    continue_bp s = Some p -> bp_heap (u_bps s) !! p = Some b -> in_memory b = false ->
    only_bp p (u_bps s) (u_bps s') -> bp_heap (u_bps s') !! p = Some b' -> in_memory b' = true ->
    saved_bytes b' !! 0%nat = Some (peek (space (u_acc s)) (address b)) ->
    as_bytes (space (u_acc s')) = <[address b := BREAKPOINT_INSN]> (as_bytes (space (u_acc s))) ->
    continue_bp_installed s s'
| cb_inaccessible p b b' :
    continue_bp s = Some p -> bp_heap (u_bps s) !! p = Some b -> in_memory b = false ->
    only_bp p (u_bps s) (u_bps s') -> bp_heap (u_bps s') !! p = Some b' -> in_memory b' = false ->
    as_bytes (space (u_acc s')) = as_bytes (space (u_acc s)) ->
    byte_inaccessible (address b) (space (u_acc s')) -> continue_bp_installed s s'.

Lemma continue_bp_installed_io s0 s s' s1 :
  u_bps s = u_bps s0 -> continue_bp s = continue_bp s0 -> u_bps s1 = u_bps s' ->
  continue_bp_installed s s' -> continue_bp_installed s0 s1.
Proof.
  intros Hb Hc Hb1. assert (u_acc s1 = u_acc s') as Ha1 by exact (f_equal b_acc Hb1).
  assert (u_acc s = u_acc s0) as Ha by exact (f_equal b_acc Hb).
  intros []; [eapply cb_none|eapply cb_before|eapply cb_planted|eapply cb_inaccessible];
    rewrite <- ?Hb, <- ?Hc, <- ?Ha, ?Hb1, ?Ha1; eassumption.
Qed.

Lemma continue_install s :
  calm (u_acc s) -> continue_bp_ok s ->
  exists r s', (match continue_bp s with
                | Some bp => on_bps (install_breakpoint bp)
                | None => ret 0
                end) s = Ret r s' /\
    s' = put_bps (u_bps s') s /\ continue_bp_installed s s' /\ calm (u_acc s').
Proof.
  intros Hc Hok. unfold continue_bp_ok in *. destruct (continue_bp s) as [p|] eqn:Hcb.
  - destruct (Hok p eq_refl) as (b & Hp & Ha & Hsv). destruct (in_memory b) eqn:Hi.
    + exists 0, s. split; [|rewrite put_bps_get; split; [done|]; split; [by eapply cb_before|done]].
      rewrite <- (put_bps_get s) at 2. apply on_bps_Ret. unfold install_breakpoint.
      mstep_with (bp_load_ok _ _ _ Hp). now rewrite Hi.
    + destruct (install_breakpoint_spec (u_bps s) p b Hc Hp Hi Ha Hsv)
        as (r & x & b' & Hr & Hob & Hcx & Hb' & _ & Hcase).
      exists r, (put_bps x s). split; [now apply on_bps_Ret|]. split; [done|]. split; [|exact Hcx].
      destruct Hcase as [(_ & Hi' & Hsv' & Hby)|(_ & Hi' & Hby & Hin)]; [by eapply cb_planted|by eapply cb_inaccessible].
  - exists 0, s. split; [done|]. rewrite put_bps_get. split; [done|]. split; [by apply cb_none|done].
Qed.

(** The handler, once a running thread has been found. *)
Lemma continue_resumes s ps sig resp_fd fuel :
  calm (u_acc s) -> thr_inv (u_thrs s) ps -> fuel = thread_fuel s -> continue_bp_ok s ->
  Forall (fun t => dead t = false) (blocks (u_thrs s) ps) -> exiting s = false ->
  open_for_write (get_env s) resp_fd ->
  exists s', (let* cbp := gets continue_bp in
     let* _ := (match cbp with Some bp => on_bps (install_breakpoint bp) | None => ret 0 end) in
     let* capable := on_thrs get_multithread_capable in
     let* buried := (if capable then bury_threads fuel (threads (u_thrs s)) else ret true) in
     if negb buried then ret RESULT_ERROR
     else
       let* result := respond resp_fd UDI_REQ_CONTINUE None in
       (if result =? RESULT_SUCCESS then post_continue_hook sig else ret tt) ;;;
       ret result) s = Ret RESULT_SUCCESS s' /\
    u_thrs s' = u_thrs s /\ continue_bp_installed s s' /\
    sent_signals s' = sent_signals s ++ [sig] /\ pass_signal s' = i32 sig /\
    answered resp_fd UDI_REQ_CONTINUE None s s'.
Proof.
  intros Hc Hi -> Hok Hd Hex Ho. mstep.
  destruct (continue_install s Hc Hok) as (r & s1 & Hr & Hs1 & Hin & Hc1). mstep_with Hr.
  assert (Ht : u_thrs s1 = u_thrs s) by now rewrite Hs1.
  unfold get_multithread_capable. mstep_with (on_thrs_gets multithread_capable s1).
  assert (Hb : (if multithread_capable (u_thrs s1) then bury_threads (thread_fuel s) (threads (u_thrs s))
                else ret true) s1 = Ret true s1).
  { destruct (multithread_capable _); [|done].
    apply bury_threads_none with ps; rewrite ?Ht; [apply Hi|now apply inv_fuel|done]. }
  mstep_with Hb. cbn [negb].
  assert (Ho1 : open_for_write (get_env s1) resp_fd) by (rewrite Hs1; exact Ho).
  destruct (respond_ok resp_fd UDI_REQ_CONTINUE None s1 Ho1) as (s2 & Hw & Hio & _ & Hs2); [done|].
  destruct (io_only_frame _ _ Hio) as (Hb2 & Ht2 & _ & _ & Hsg & _ & Hex2).
  mstep_with Hw. cbn [Z.eqb RESULT_SUCCESS]. unfold post_continue_hook. rewrite bind_assoc. mstep.
  replace (exiting s2) with false by (rewrite Hex2, Hs1; done). cbn [negb]. mstep.
  eexists. split; [reflexivity|]. cbn. split; [congruence|].
  split; [by eapply (continue_bp_installed_io s s s1)|].
  split; [rewrite Hsg, Hs1; done|]. split; [done|].
  unfold answered. etransitivity; [exact Hs2|]. f_equal. now rewrite Hs1.
Qed.

(** C18: the continue request, while no thread has ended and the process is not
    exiting. When some thread is not suspended, the continue breakpoint that a
    breakpoint hit has registered at the successor of its instruction, if there
    is one, is planted: the byte that was there is saved and the instruction is
    in its place, and no other breakpoint and no other byte has changed. When
    that byte cannot be accessed nothing is planted, which is only logged, and the
    process goes on all the same (udirt-msg.c:600). In both cases the debugger is
    answered with success, and the signal it chose is sent to the process. When all
    threads are suspended, the request is refused and no signal is sent. The
    threads stay as they are. *)
Theorem continue_request (s : udirt) (ps : list ptr) (sig : Z) ev sev rest e req_fd resp_fd type :
  calm (u_acc s) -> thr_inv (u_thrs s) ps -> continue_bp_ok s ->
  Forall (fun t => dead t = false) (blocks (u_thrs s) ps) -> exiting s = false ->
  type_event UDI_REQ_CONTINUE ev -> sig_value sig sev ->
  awaits s req_fd [ev; EMapStart 1; EString (cstr "sig"); sev] rest e ->
  open_for_write (get_env s) resp_fd ->
  exists result s', handle_process_request req_fd resp_fd type s
    = Ret (result, Z_of_request UDI_REQ_CONTINUE) s' /\ u_thrs s' = u_thrs s /\
    if existsb runs (blocks (u_thrs s) ps) then
      result = RESULT_SUCCESS /\ continue_bp_installed s s' /\
      sent_signals s' = sent_signals s ++ [sig] /\ pass_signal s' = i32 sig /\
      answered resp_fd UDI_REQ_CONTINUE None s s'
    else
      result = RESULT_FAILURE /\ sent_signals s' = sent_signals s /\
      refused resp_fd UDI_REQ_CONTINUE
        (errmsg_of "cannot continue process, all threads are suspended" []) s s'.
Proof.
  intros Hc Hi Hok Hd Hex Hev Hsv Haw Ho.
  set (fs := [(cstr "sig", sev, fun _ : continue_req => {| cr_sig := sig |})]).
  assert (Hfs : Forall (fun '(k, ev, f) => field continue_items k ev f) fs)
    by (constructor; [now apply continue_sig_field|constructor]).
  destruct (dispatch_data UDI_REQ_CONTINUE ev continue_items fs {| cr_sig := 0 |} rest e
              req_fd resp_fd type continue_handler s Hev eq_refl Hfs)
    as (s1 & s2 & -> & Hrd & Hio & _ & Ho2 & Hs2); try done; [apply Hc|].
  destruct (io_only_frame _ _ Hio) as (Hb2 & Ht2 & Hcb & _ & Hsg & _ & Hex2).
  unfold continue_handler. rewrite bind_assoc. mstep_with Hrd.
  change (negb (RESULT_SUCCESS =? RESULT_SUCCESS)) with false. cbv iota. rewrite !bind_assoc.
  unfold get_thread_list. mstep_with (on_thrs_gets threads s2). rewrite !bind_assoc. mstep. rewrite !bind_assoc.
  rewrite <- Ht2 in Hi, Hd |- *.
  rewrite (bind_Ret _ _ _ _ _ (some_thread_running_spec s2 _ _ ps (inv_chain _ _ Hi) (inv_fuel _ _ Hi))).
  destruct (existsb runs _); cbn [negb].
  - destruct (continue_resumes s2 ps sig resp_fd _ (ltac:(now rewrite (io_only_acc _ _ Hio))) Hi eq_refl)
      as (s3 & H3 & Ht3 & Hin & Hsg3 & Hps3 & Han); [|done|congruence|done|].
    { unfold continue_bp_ok. now rewrite Hb2, Hcb. }
    rewrite (bind_Ret _ _ _ _ _ H3). do 2 eexists. split; [apply dispatch_success|].
    split; [done|]. split; [done|]. unfold answered in *. rewrite Hs2 in Han.
    split; [by eapply (continue_bp_installed_io s s2 s3)|]. split; [congruence|]. auto.
  - rewrite bind_assoc. erewrite bind_Ret by (apply set_errmsg_Ret; fmt_ok). rewrite bind_ret.
    set (s3 := put_msg _ s2). assert (Hf3 : fits s3) by apply errmsg_of_fits.
    destruct (dispatch_refused resp_fd UDI_REQ_CONTINUE RESULT_FAILURE s3 (or_introl eq_refl) Hf3 Ho2)
      as (s4 & Hw & Hio4 & Hrf).
    destruct (io_only_frame _ _ Hio4) as (_ & Ht4 & _ & _ & Hsg4 & _).
    exists RESULT_FAILURE, s4. split; [exact Hw|]. split; [exact Ht4|]. split; [done|].
    split; [etransitivity; [exact Hsg4|exact Hsg]|]. unfold refused in *. rewrite Hrf. f_equal. exact Hs2.
Qed.
End Continue.

(** ** Thread requests *)

Section ThreadRequests.
Context `{LO : LibcOk} `{CO : LibcborOk} `{TO : TargetOk} `{UD : Udis86}.

(** The part of [handle_thread_request] after the type was read. *)
Lemma dispatch_thread req ev evs rest e req_fd resp_fd thr type handler s :
  type_event req ev -> thr_request_handlers !! Z.to_nat (Z_of_request req) = Some handler ->
  allocs (u_rt s) = [] -> awaits s req_fd (ev :: evs) rest e ->
  open_for_write (get_env s) resp_fd ->
  exists s1, io_only s s1 /\ awaits s1 req_fd evs rest e /\ open_for_write (get_env s1) resp_fd /\
    sent resp_fd s1 = sent resp_fd s /\
    handle_thread_request req_fd resp_fd thr type s
    = (let* result := handler req_fd resp_fd thr in
       let* result := report_failure resp_fd (Z_of_request req) result in
       ret (result, Z_of_request req)) s1.
Proof.
  intros Hev Hh Ha Haw Ho.
  destruct (type_read _ ev evs rest e req_fd resp_fd type s Hev Ha Haw Ho) as (s1 & Hrt & Hio & Haw1 & Ho1 & Hs1).
  exists s1. do 4 (split; [done|]).
  unfold handle_thread_request. mstep_with Hrt. cbn [negb Z.eqb RESULT_SUCCESS].
  rewrite Hh. now rewrite bind_assoc.
Qed.

Lemma dispatch_thread_data {D} req ev (items : list (msg_item D)) fs d rest e req_fd resp_fd thr type handler s :
  type_event req ev -> thr_request_handlers !! Z.to_nat (Z_of_request req) = Some handler ->
  Forall (fun '(k, ev, f) => field items k ev f) fs -> fs <> [] -> length fs = length items ->
  allocs (u_rt s) = [] -> awaits s req_fd (ev :: request_events fs) rest e ->
  open_for_write (get_env s) resp_fd ->
  exists s1 s2,
    handle_thread_request req_fd resp_fd thr type s
    = (let* result := handler req_fd resp_fd thr in
       let* result := report_failure resp_fd (Z_of_request req) result in
       ret (result, Z_of_request req)) s1 /\
    read_data req_fd items d s1 = Ret (RESULT_SUCCESS, apply_fields fs d) s2 /\
    io_only s s2 /\ readable_fd (get_env s2) req_fd rest e /\
    open_for_write (get_env s2) resp_fd /\ sent resp_fd s2 = sent resp_fd s.
Proof.
  intros Hev Hh Hf Hne Hl Ha Haw Ho.
  destruct (dispatch_thread req ev _ rest e req_fd resp_fd thr type handler s Hev Hh Ha Haw Ho)
    as (s1 & Hio1 & Haw1 & Ho1 & Hs1 & Heq).
  destruct (request_data_read items fs d req_fd resp_fd rest e s1 Hf Hne Hl)
    as (s2 & Hrd & Hio2 & Hr2 & Ho2 & Hs2); [now rewrite (io_only_rt _ _ Hio1)|done|done|].
  exists s1, s2. split; [done|]. split; [done|]. split; [etransitivity; eassumption|].
  rewrite Hs2. auto.
Qed.

(** [s'] differs from [s] in the block of [thr] and the descriptors at most. *)
Definition thread_set (thr : ptr) (t : thread) (s s' : udirt) : Prop :=
  u_bps s' = u_bps s /\ sent_signals s' = sent_signals s /\ continue_bp s' = continue_bp s /\
  u_thrs s' = put_threads (num_threads (u_thrs s)) (threads (u_thrs s))
                (<[thr := t]> (thr_heap (u_thrs s))) (u_thrs s).

(** The two requests that change the state of a thread. *)
Definition state_request (st : udi_thread_state_e) : udi_request_type_e :=
  match st with UDI_TS_RUNNING => UDI_REQ_THREAD_RESUME | UDI_TS_SUSPENDED => UDI_REQ_THREAD_SUSPEND end.

(** Suspending and resuming. The request puts the thread into the state
    it asks for and changes nothing else; the list of threads, and with it
    the continue request, sees exactly this change. *)
Theorem suspend_resume_request (st : udi_thread_state_e) (s : udirt) (ps : list ptr) thr t ev rest e req_fd resp_fd type :
  allocs (u_rt s) = [] -> thr_inv (u_thrs s) ps -> thr_heap (u_thrs s) !! thr = Some t ->
  type_event (state_request st) ev -> awaits s req_fd [ev] rest e -> open_for_write (get_env s) resp_fd ->
  exists s', handle_thread_request req_fd resp_fd thr type s
    = Ret (RESULT_SUCCESS, Z_of_request (state_request st)) s' /\
    thread_set thr (set_ts st t) s s' /\ thr_inv (u_thrs s') ps /\
    (thr ∈ ps -> st = UDI_TS_RUNNING -> existsb runs (blocks (u_thrs s') ps) = true) /\
    answered resp_fd (state_request st) None s s'.
Proof.
  intros Ha Hi Ht Hev Haw Ho.
  set (h := match st with UDI_TS_RUNNING => thr_resume_handler | UDI_TS_SUSPENDED => thr_suspend_handler end).
  destruct (dispatch_thread (state_request st) ev [] rest e req_fd resp_fd thr type h s Hev)
    as (s1 & Hio & _ & Ho1 & Hs1 & ->); try done; [now destruct st|].
  destruct (io_only_frame _ _ Hio) as (Hb & Ht1 & Hcb & _ & Hsg & _).
  rewrite <- Ht1 in Ht, Hi.
  set (s2 := put_thrs (put_threads (num_threads (u_thrs s1)) (threads (u_thrs s1))
                         (<[thr := set_ts st t]> (thr_heap (u_thrs s1))) (u_thrs s1)) s1).
  assert (Hh : h req_fd resp_fd thr s1 = respond resp_fd (state_request st) None s2).
  { unfold h, s2; destruct st; unfold thr_resume_handler, thr_suspend_handler, set_thread_state;
      now rewrite (bind_Ret _ _ _ _ _ (on_thrs_Ret _ _ _ _ (thr_update_ok _ _ _ _ Ht))). }
  destruct (respond_ok resp_fd (state_request st) None s2 Ho1) as (s3 & Hw & Hio3 & _ & Hs3); [done|].
  unfold bind at 1. rewrite Hh, Hw. exists s3. split; [apply dispatch_success|].
  destruct (io_only_frame _ _ Hio3) as (Hb3 & Ht3 & Hcb3 & _ & Hsg3 & _).
  assert (Hinv : thr_inv (u_thrs s2) ps) by now apply thr_update_inv.
  split; [|split; [now rewrite Ht3|split]].
  - split; [now rewrite Hb3|]. split; [now rewrite Hsg3|]. split; [now rewrite Hcb3|].
    rewrite Ht3. cbn. now rewrite Ht1.
  - intros Hin ->. rewrite Ht3. apply existsb_exists. exists (set_ts UDI_TS_RUNNING t). split; [|done].
    apply list_elem_of_In, list_elem_of_omap. exists thr. split; [done|]. apply lookup_insert_eq.
  - unfold answered. etransitivity; [exact Hs3|]. f_equal. exact Hs1.
Qed.

(** *** Registers *)

Definition reg_value (v : Z) (ev : cbor_event) : Prop := ev = EUint8 v \/ ev = EUint16 v.

Lemma read_reg_field v ev :
  reg_value v ev -> field read_reg_items (cstr "reg") ev (fun _ => {| rr_reg := v |}).
Proof. intros [->| ->]; now eapply (field_intro _ _ _ _ 0). Qed.

Lemma write_reg_field v ev :
  reg_value v ev -> field write_reg_items (cstr "reg") ev (fun d => {| wr_reg := v; wr_value := wr_value d |}).
Proof. intros [->| ->]; now eapply (field_intro _ _ _ _ 0). Qed.

Lemma write_value_field v ev :
  uint_value v ev -> field write_reg_items (cstr "value") ev (fun d => {| wr_reg := wr_reg d; wr_value := v |}).
Proof. intros [->|[->|[->| ->]]]; now eapply (field_intro _ _ _ _ 1). Qed.

(** One write request. *)
Lemma write_register_ok reg value thr t c' ev rev vev rest e req_fd resp_fd type s :
  allocs (u_rt s) = [] -> thr_heap (u_thrs s) !! thr = Some t -> context_valid t = true ->
  set_register reg value (event_context t) (u_rt s) = Ret (0, c') (u_rt s) ->
  type_event UDI_REQ_WRITE_REGISTER ev -> reg_value reg rev -> uint_value value vev ->
  awaits s req_fd [ev; EMapStart 2; EString (cstr "reg"); rev; EString (cstr "value"); vev] rest e ->
  open_for_write (get_env s) resp_fd ->
  exists s', handle_thread_request req_fd resp_fd thr type s
    = Ret (RESULT_SUCCESS, Z_of_request UDI_REQ_WRITE_REGISTER) s' /\
    thread_set thr (set_event_context c' t) s s' /\ readable_fd (get_env s') req_fd rest e /\
    open_for_write (get_env s') resp_fd /\ answered resp_fd UDI_REQ_WRITE_REGISTER None s s'.
Proof.
  intros Ha Ht Hcv Hset Hev Hrv Hvv Haw Ho.
  set (fs := [(cstr "reg", rev, fun d => {| wr_reg := reg; wr_value := wr_value d |});
              (cstr "value", vev, fun d => {| wr_reg := wr_reg d; wr_value := value |})]).
  assert (Hfs : Forall (fun '(k, ev, f) => field write_reg_items k ev f) fs)
    by (repeat constructor; [now apply write_reg_field|now apply write_value_field]).
  destruct (dispatch_thread_data UDI_REQ_WRITE_REGISTER ev write_reg_items fs {| wr_reg := 0; wr_value := 0 |}
              rest e req_fd resp_fd thr type write_register_handler s Hev eq_refl Hfs)
    as (s1 & s2 & -> & Hrd & Hio & Hr2 & Ho2 & Hs2); try done.
  destruct (io_only_frame _ _ Hio) as (Hb & Ht2 & Hcb & _ & Hsg & _). rewrite <- Ht2 in Ht.
  rewrite <- (io_only_rt _ _ Hio) in Hset.
  unfold write_register_handler, is_thread_context_valid, get_thread_context. rewrite bind_assoc. mstep_with Hrd.
  change (negb (RESULT_SUCCESS =? RESULT_SUCCESS)) with false. cbv iota.
  rewrite bind_assoc. mstep_with (on_thrs_query context_valid s2 thr t Ht). rewrite Hcv. cbn [negb].
  rewrite bind_assoc. mstep_with (on_thrs_query event_context s2 thr t Ht).
  rewrite bind_assoc. mstep_with (on_msg_pure _ s2 _ Hset).
  rewrite bind_assoc. mstep_with (on_thrs_Ret _ _ _ _ (thr_update_ok _ _ _ (set_event_context c') Ht)).
  change (negb (0 =? 0)) with false. cbv iota. set (s3 := put_thrs _ s2).
  destruct (respond_ok resp_fd UDI_REQ_WRITE_REGISTER None s3 Ho2) as (s4 & Hw & Hio4 & Ho4 & Hs4); [done|].
  mstep_with Hw. exists s4. split; [apply dispatch_success|].
  destruct (io_only_frame _ _ Hio4) as (Hb4 & Ht4 & Hcb4 & _ & Hsg4 & _).
  split; [|split; [eapply respond_keeps_reading; eauto; done|split; [done|]]].
  - split; [now rewrite Hb4|]. split; [now rewrite Hsg4|]. split; [now rewrite Hcb4|].
    rewrite Ht4. cbn. now rewrite Ht2.
  - unfold answered. etransitivity; [exact Hs4|]. f_equal. exact Hs2.
Qed.

(** One read request. *)
Lemma read_register_ok reg value thr t ev rev rest e req_fd resp_fd type s :
  allocs (u_rt s) = [] -> thr_heap (u_thrs s) !! thr = Some t -> context_valid t = true ->
  get_register reg (event_context t) (u_rt s) = Ret (0, Some value) (u_rt s) -> 0 <= value < 2 ^ 64 ->
  type_event UDI_REQ_READ_REGISTER ev -> reg_value reg rev ->
  awaits s req_fd [ev; EMapStart 1; EString (cstr "reg"); rev] rest e ->
  open_for_write (get_env s) resp_fd ->
  exists s', handle_thread_request req_fd resp_fd thr type s
    = Ret (RESULT_SUCCESS, Z_of_request UDI_REQ_READ_REGISTER) s' /\ io_only s s' /\
    answered resp_fd UDI_REQ_READ_REGISTER (Some (IMap [(IString (cstr "value"), IUint64 value)])) s s'.
Proof.
  intros Ha Ht Hcv Hget Hv Hev Hrv Haw Ho.
  set (fs := [(cstr "reg", rev, fun _ : read_reg_req => {| rr_reg := reg |})]).
  assert (Hfs : Forall (fun '(k, ev, f) => field read_reg_items k ev f) fs)
    by (constructor; [now apply read_reg_field|constructor]).
  destruct (dispatch_thread_data UDI_REQ_READ_REGISTER ev read_reg_items fs {| rr_reg := 0 |}
              rest e req_fd resp_fd thr type read_register_handler s Hev eq_refl Hfs)
    as (s1 & s2 & -> & Hrd & Hio & Hr2 & Ho2 & Hs2); try done.
  destruct (io_only_frame _ _ Hio) as (_ & Ht2 & _). rewrite <- Ht2 in Ht.
  rewrite <- (io_only_rt _ _ Hio) in Hget.
  unfold read_register_handler, is_thread_context_valid, get_thread_context. rewrite bind_assoc. mstep_with Hrd.
  change (negb (RESULT_SUCCESS =? RESULT_SUCCESS)) with false. cbv iota.
  rewrite bind_assoc. mstep_with (on_thrs_query context_valid s2 thr t Ht). rewrite Hcv. cbn [negb].
  rewrite bind_assoc. mstep_with (on_thrs_query event_context s2 thr t Ht).
  rewrite bind_assoc. mstep_with (on_msg_pure _ s2 _ Hget). change (negb (0 =? 0)) with false. cbv iota.
  destruct (respond_ok resp_fd UDI_REQ_READ_REGISTER (Some (IMap [(IString (cstr "value"), IUint64 value)])) s2 Ho2)
    as (s3 & Hw & Hio3 & _ & Hs3).
  { intros it [= <-]. cbn [item_ok forallb]. replace (0 <=? value) with true by lia.
    replace (value <? 2 ^ 64) with true by lia. reflexivity. }
  mstep_with Hw. exists s3. split; [apply dispatch_success|]. split; [etransitivity; eassumption|].
  unfold answered. etransitivity; [exact Hs3|]. f_equal. exact Hs2.
Qed.

Lemma states_item_ok l :
  Z.of_nat (length l) < 2 ^ 64 ->
  item_ok (IMap [(IString (cstr "states"), IArray (thread_state_map <$> l))]) = true.
Proof.
  intros Hl. cbn [item_ok forallb]. rewrite length_fmap. replace (Z.of_nat (length l) <? 2 ^ 64) with true by lia.
  replace (forallb item_ok (thread_state_map <$> l)) with true; [reflexivity|].
  symmetry. apply forallb_forall. intros it Hin. apply list_elem_of_In, list_elem_of_fmap in Hin as (t & -> & _).
  pose proof (u64_range (id t)). unfold thread_state_map. cbn [item_ok forallb].
  replace (0 <=? u64 (id t)) with true by lia. replace (u64 (id t) <? 2 ^ 64) with true by lia.
  now destruct (ts t).
Qed.

(** C27: a register of a stopped thread, over the wire. A debugger that
    writes a general purpose register and then asks for it gets two valid
    answers, the second with the value it wrote (on 64 bit), whatever the
    widths it encodes its numbers with; only that thread's context has
    changed. *)
Theorem register_session (reg value : Z) (thr : ptr) (t : thread) (s : udirt)
    wev wrev vev rev rrev bs rest e req_fd resp_fd type :
  allocs (u_rt s) = [] -> thr_heap (u_thrs s) !! thr = Some t -> context_valid t = true ->
  ctx_ok (event_context t) -> WORDSIZE = 64 ->
  arch_register reg = true -> is_gp_register reg = true -> 0 <= value < 2 ^ 64 ->
  type_event UDI_REQ_WRITE_REGISTER wev -> reg_value reg wrev -> uint_value value vev ->
  type_event UDI_REQ_READ_REGISTER rev -> reg_value reg rrev ->
  awaits s req_fd [wev; EMapStart 2; EString (cstr "reg"); wrev; EString (cstr "value"); vev] (bs ++ rest) e ->
  stream [rev; EMapStart 1; EString (cstr "reg"); rrev] bs -> Z.of_nat (length bs) < 2 ^ 64 ->
  open_for_write (get_env s) resp_fd ->
  exists s1 s2 c', handle_thread_request req_fd resp_fd thr type s
      = Ret (RESULT_SUCCESS, Z_of_request UDI_REQ_WRITE_REGISTER) s1 /\
    handle_thread_request req_fd resp_fd thr type s1
      = Ret (RESULT_SUCCESS, Z_of_request UDI_REQ_READ_REGISTER) s2 /\
    thread_set thr (set_event_context c' t) s s2 /\
    answered resp_fd UDI_REQ_WRITE_REGISTER None s s1 /\
    answered resp_fd UDI_REQ_READ_REGISTER (Some (IMap [(IString (cstr "value"), IUint64 value)])) s1 s2.
Proof.
  intros Ha Ht Hcv Hctx Hw Har Hgp Hv Hwev Hwrev Hvev Hrev Hrrev Haw Hst Hl Ho.
  destruct (gp_write_read reg value (event_context t) (u_rt s) Hctx Har Hgp Hv) as (c' & Hset & _ & Hget & _).
  rewrite Hw in Hget. change (64 =? 64) with true in Hget. cbv iota in Hget.
  destruct (write_register_ok reg value thr t c' wev wrev vev (bs ++ rest) e req_fd resp_fd type s)
    as (s1 & Hq1 & Hts & Hr1 & Ho1 & Han1); try done.
  destruct Hts as (Hb1 & Hsg1 & Hcb1 & Ht1).
  assert (Hrt : u_rt s1 = u_rt s) by (unfold u_rt, u_acc; now rewrite Hb1).
  destruct (read_register_ok reg value thr (set_event_context c' t) rev rrev rest e req_fd resp_fd type s1)
    as (s2 & Hq2 & Hio2 & Han2); try done.
  - now rewrite Hrt.
  - rewrite Ht1. cbn. apply lookup_insert_eq.
  - rewrite Hrt. exact Hget.
  - now exists bs.
  - destruct (io_only_frame _ _ Hio2) as (Hb2 & Ht2 & Hcb2 & _ & Hsg2 & _).
    exists s1, s2, c'. split; [done|]. split; [done|]. split; [|done].
    split; [congruence|]. split; [congruence|]. split; congruence.
Qed.

(** The state request of the process lists every thread, in the order
    of the list, with its identifier and whether it runs. *)
Theorem state_request_lists_threads (s : udirt) (ps : list ptr) ev rest e req_fd resp_fd type :
  allocs (u_rt s) = [] -> thr_inv (u_thrs s) ps -> Z.of_nat (length ps) < 2 ^ 64 ->
  type_event UDI_REQ_STATE ev -> awaits s req_fd [ev] rest e -> open_for_write (get_env s) resp_fd ->
  exists s', handle_process_request req_fd resp_fd type s
    = Ret (RESULT_SUCCESS, Z_of_request UDI_REQ_STATE) s' /\ io_only s s' /\
    answered resp_fd UDI_REQ_STATE
      (Some (IMap [(IString (cstr "states"),
                    IArray (thread_state_map <$> blocks (u_thrs s) ps))])) s s' /\
    length (blocks (u_thrs s) ps) = length ps.
Proof.
  intros Ha Hi Hl Hev Haw Ho.
  destruct (dispatch_process UDI_REQ_STATE ev [] rest e req_fd resp_fd type state_handler s Hev eq_refl Ha Haw Ho)
    as (s1 & Hio & _ & Ho1 & Hs1 & ->).
  destruct (io_only_frame _ _ Hio) as (_ & Ht1 & _). rewrite <- Ht1 in Hi |- *.
  unfold state_handler, get_num_threads, get_thread_list.
  rewrite bind_assoc. mstep_with (on_thrs_gets num_threads s1).
  rewrite bind_assoc. mstep_with (on_thrs_gets threads s1). rewrite bind_assoc. mstep. rewrite bind_assoc.
  rewrite (bind_Ret _ _ _ _ _ (thread_states_spec s1 _ _ ps (inv_chain _ _ Hi) (inv_fuel _ _ Hi))).
  pose proof (blocks_length _ _ Hi) as Hlen.
  rewrite length_fmap, Hlen, (inv_count _ _ Hi). replace (_ >? _) with false by lia.
  destruct (respond_ok resp_fd UDI_REQ_STATE
              (Some (IMap [(IString (cstr "states"), IArray (thread_state_map <$> blocks (u_thrs s1) ps))])) s1 Ho1)
    as (s2 & Hw & Hio2 & _ & Hs2).
  { intros it [= <-]. now apply states_item_ok; rewrite Hlen. }
  mstep_with Hw. exists s2. split; [apply dispatch_success|]. split; [etransitivity; eassumption|].
  split; [|done]. unfold answered. etransitivity; [exact Hs2|]. now rewrite Hs1.
Qed.
End ThreadRequests.
