(* ===== verification/EventSpec.v ===== *)
(** * What the event half of the library promises

    The bytes of an event, and the protocol that steps the debuggee over a
    breakpoint, on top of the abstract breakpoint component. *)

From Stdlib Require Import String.
From stdpp Require Import gmap.
From S2P Require Import Prelude External Types Format Memory Breakpoints BreakpointSpec Registers X86.
From S2P Require Import Io Cbor Requests Threads State Handlers Events ErrMsg HandlerSpec ThreadSpec.

(** ** Events on the wire *)

Definition event_items (ty : udi_event_type_e) (tid : Z) (d : option cbor_item) : list cbor_item :=
  IUint16 (u16 (Z_of_event ty)) :: IUint64 (u64 tid) :: match d with Some it => [it] | None => [] end.

(** The event has been appended to the events descriptor. *)
Definition reported (ty : udi_event_type_e) (tid : Z) (d : option cbor_item) (s s' : udirt) : Prop :=
  sent (events_handle s) s' = sent (events_handle s) s ++ flat_map encode_item (event_items ty tid d).

Section Reporting.
Context `{LC : Libc} `{CO : LibcborOk}.

Lemma u64_item_ok v : item_ok (IUint64 (u64 v)) = true.
Proof. cbn. pose proof (u64_range v). lia. Qed.

(** The bytes of an event are all that is written. *)
Lemma report_event_appends ty tid d s :
  open_for_write (get_env s) (events_handle s) -> (forall it, d = Some it -> item_ok it = true) ->
  exists e, report_event ty tid d s = Ret RESULT_SUCCESS (put_env e s) /\
    appends (events_handle s) (flat_map encode_item (event_items ty tid d)) (get_env s) e.
Proof.
  intros Ho Hd. unfold report_event, write_event. mstep. set (fd := events_handle s) in *.
  destruct (write_cbor_item_ok fd (IUint16 (u16 (Z_of_event ty))) "event type" _ Ho (u16_item_ok _)) as (e1 & H1 & A1).
  mstep_with (on_env_Ret _ s _ _ H1). cbn [negb Z.eqb RESULT_SUCCESS].
  pose proof (appends_open _ _ _ _ A1 Ho) as Ho1. rewrite <- (get_put_env e1 s) in Ho1.
  destruct (write_cbor_item_ok fd (IUint64 (u64 tid)) "tid" _ Ho1 (u64_item_ok _)) as (e2 & H2 & A2).
  mstep_with (on_env_Ret _ (put_env e1 s) _ _ H2). cbn [negb Z.eqb]. rewrite put_put_env.
  rewrite get_put_env in A2, Ho1. pose proof (appends_open _ _ _ _ A2 Ho1) as Ho2. cbn [negb Z.eqb RESULT_SUCCESS].
  cbn [event_items flat_map]. destruct d as [it|]; cbn [flat_map]; rewrite app_nil_r.
  - rewrite <- (get_put_env e2 s) in Ho2.
    destruct (write_cbor_item_ok fd it "event data" _ Ho2 (Hd it eq_refl)) as (e3 & H3 & A3).
    exists e3. split; [rewrite (on_env_Ret _ (put_env e2 s) _ _ H3); now rewrite put_put_env|].
    rewrite get_put_env in A3. eapply appends_trans; [exact A1|]. eapply appends_trans; eassumption.
  - exists e2. split; [done|]. eapply appends_trans; eassumption.
Qed.

Lemma report_event_ok ty tid d s :
  open_for_write (get_env s) (events_handle s) -> (forall it, d = Some it -> item_ok it = true) ->
  exists s', report_event ty tid d s = Ret RESULT_SUCCESS s' /\ io_only s s' /\ reported ty tid d s s'.
Proof.
  intros Ho Hd. destruct (report_event_appends ty tid d s Ho Hd) as (e & Hr & Hap).
  exists (put_env e s). split; [exact Hr|]. split; [exists e; split; [done|apply Hap]|].
  apply appends_sent; [now rewrite get_put_env|done].
Qed.
End Reporting.

(** ** The exit status *)

(** The integer an item stands for (RFC 8949: a negative integer item with
    argument [n] is [-1 - n]). *)
Definition item_int (it : cbor_item) : option Z :=
  match it with
  | IUint16 v | IUint32 v | IUint64 v => Some v
  | INegint32 v => Some (-1 - v)
  | _ => None
  end.

Section Exit.
Context `{LC : Libc} `{CO : LibcborOk}.

Lemma exit_code_ok status : INT_MIN <= status <= INT_MAX -> item_ok (exit_code_item status) = true.
Proof.
  intros Hs. unfold exit_code_item, u32. pose proof (Z.mod_pos_bound status (2 ^ 32) ltac:(lia)).
  destruct (status >=? 0); cbn [item_ok]; lia.
Qed.

(** The exit event. The process exits with [status]; the event that the
    debugger decodes carries it when it is not negative, and otherwise the
    different number [-1 - (status + 2^32)]. *)
Theorem exit_event_status (tid status : Z) (s : udirt) :
  INT_MIN <= status <= INT_MAX -> open_for_write (get_env s) (events_handle s) ->
  exists s' code, handle_exit_event tid status s = Ret RESULT_SUCCESS s' /\ io_only s s' /\
    reported UDI_EVENT_PROCESS_EXIT tid (Some (IMap [(IString (cstr "code"), code)])) s s' /\
    item_int code = Some (if status >=? 0 then status else -1 - (status + 2 ^ 32)).
Proof.
  intros Hs Ho. unfold handle_exit_event.
  destruct (report_event_ok UDI_EVENT_PROCESS_EXIT tid
              (Some (IMap [(IString (cstr "code"), exit_code_item status)])) s Ho) as (s' & Hr & Hio & Hrep).
  { intros it [= <-]. cbn [item_ok forallb]. rewrite exit_code_ok by done. reflexivity. }
  exists s', (exit_code_item status). split; [done|]. split; [done|]. split; [done|].
  unfold exit_code_item, u32. unfold INT_MIN, INT_MAX in Hs.
  destruct (Z.geb_spec status 0); cbn [item_int].
  - now rewrite Z.mod_small by lia.
  - now rewrite <- (Z.mod_add status 1), Z.mod_small by lia.
Qed.
End Exit.

(** ** Stepping over a breakpoint *)

Section StepOver.
Context `{LO : LibcOk} `{CO : LibcborOk} `{TO : TargetOk} `{UD : Udis86}.
Variable orig : Z -> Z.

(** The debuggee is between the breakpoint at [a] and the continue breakpoint
    [q] at its successor [b], which is in memory when [i] is set. *)
Record stepping (A : gmap Z bool) (a b : Z) (q : ptr) (i : bool) (s : udirt) : Prop := {
  st_a : A !! a = Some true;
  st_b : A !! b = None;
  st_rep : exists m, represents_by orig {[a]} m (u_bps s) (<[b := i]> A) /\ m !! b = Some q;
  st_removable : removable (u_bps s) (<[b := i]> A) b q;
  st_continue : continue_bp s = Some q;
  st_last : last_bp_address s = a
}.

(** The successor of the instruction at [a], whatever the state of the
    access component, as long as the bytes of the debuggee are the given
    ones. *)
Definition successor_is (bytes : Z -> Z) (a b : Z) (context : ucontext) : Prop :=
  forall acc, calm acc -> (forall x, peek (space acc) x = bytes x) ->
  exists acc', get_ctf_successor a context acc = Ret b acc' /\ calm acc' /\
    as_bytes (space acc') = as_bytes (space acc).

Lemma pc_offset_range : 0 <= pc_offset < NGREG.
Proof.
  clear -TO. match goal with
  | T : Target |- _ => destruct T as [w]; destruct TO as [[Hw|Hw]]; cbn in Hw; subst w; vm_compute; split; congruence
  end.
Qed.

(** Both copies of the program counter are moved back by one. *)
Lemma rewind_contexts_ok thr t context s :
  thr_heap (u_thrs s) !! thr = Some t -> ctx_ok context -> ctx_ok (event_context t) ->
  exists c c', rewind_pc context = Some c /\ rewind_pc (event_context t) = Some c' /\
    rewind_contexts (Some thr) context s
    = Ret c (put_thrs (put_threads (num_threads (u_thrs s)) (threads (u_thrs s))
               (<[thr := set_event_context c' t]> (thr_heap (u_thrs s))) (u_thrs s)) s).
Proof.
  assert (Hrw : forall c, ctx_ok c -> exists c', rewind_pc c = Some c').
  { intros c Hc. pose proof pc_offset_range as Ho. unfold rewind_pc. destruct (greg_ok c _ Hc Ho) as [v ->].
    destruct (set_greg_ok c _ (v - 1) Hc Ho) as (c' & -> & _). eauto. }
  intros Ht Hc Hct. destruct (Hrw _ Hc) as [c Hc1]. destruct (Hrw _ Hct) as [c' Hc2].
  exists c, c'. split; [done|]. split; [done|]. unfold rewind_contexts. rewrite Hc1. cbn [of_option]. mstep.
  unfold get_thread_context. mstep_with (on_thrs_query event_context s thr t Ht). rewrite Hc2. cbn [of_option]. mstep.
  mstep_with (on_thrs_Ret _ _ _ _ (thr_update_ok _ _ _ (set_event_context c') Ht)). reflexivity.
Qed.

Lemma on_bps_find a s m A lift :
  represents_by orig lift m (u_bps s) A -> on_bps (find_breakpoint a) s = Ret (m !! a) s.
Proof.
  intros Hr. rewrite (on_bps_Ret _ _ _ _ (find_breakpoint_models _ m a (rep_models _ _ _ _ _ Hr))).
  now rewrite put_bps_get.
Qed.

Lemma on_bps_load p b s : bp_heap (u_bps s) !! p = Some b -> on_bps (bp_load p) s = Ret b s.
Proof. intros Hp. rewrite (on_bps_Ret _ _ _ _ (bp_load_ok _ _ _ Hp)). now rewrite put_bps_get. Qed.

Lemma represents_acc lift m s A acc :
  represents_by orig lift m s A -> calm acc -> as_bytes (space acc) = as_bytes (space (b_acc s)) ->
  represents_by orig lift m (put_acc acc s) A.
Proof.
  intros [Hc Hm Hf Hs Hmem] Hca Hby. split; try done.
  - eapply only_bp_models; [apply (only_bp_acc 0%nat)|exact Hm].
  - intros x. cbn. rewrite (peek_same _ _ _ Hby). apply Hmem.
Qed.

(** The part of [decode_breakpoint] that is specific to a breakpoint of the
    debugger, once the saved byte is back. *)
Lemma user_breakpoint_ok m A a b p bk thr tid c w s :
  represents_by orig {[a]} m (u_bps s) A -> m !! a = Some p -> A !! a = Some true ->
  A !! b = None -> 0 < b < 2 ^ 64 -> successor_is (overlay orig {[a]} A) a b c ->
  bp_heap (u_bps s) !! p = Some bk -> bp_thread bk = None -> exit_bp s <> Some p ->
  (exists t, thr_heap (u_thrs s) !! thr = Some t /\ id t = tid) ->
  open_for_write (get_env s) (events_handle s) ->
  exists q s', user_breakpoint_hit (Some thr) p c w s = Ret (RESULT_SUCCESS, w) s' /\
    stepping A a b q false s' /\
    reported UDI_EVENT_BREAKPOINT tid (Some (IMap [(IString (cstr "addr"), IUint64 a)])) s s'.
Proof.
  intros Hr Hp HA HB Hb Hsucc Hbk Hth Hex (t & Ht & Hid) Ho.
  destruct (models_block _ m a p (rep_models _ _ _ _ _ Hr) Hp) as (bk' & Hbk' & Haddr & Hrg & _).
  rewrite Hbk in Hbk'. injection Hbk' as <-.
  unfold user_breakpoint_hit. mstep_with (on_bps_load p bk s Hbk). rewrite Haddr.
  destruct (Hsucc (u_acc s)) as (acc & Hgs & Hca & Hby); [apply Hr|apply Hr|].
  mstep_with (on_access_Ret _ _ _ _ Hgs). set (s1 := put_bps _ s). replace (b =? 0) with false by lia.
  assert (Hr1 : represents_by orig {[a]} m (u_bps s1) A) by now apply represents_acc.
  destruct (create_refines_new orig {[a]} m (u_bps s1) A b Hr1 HB ltac:(lia))
    as (q & x & Hcr & _ & Hr2 & Hrem & Hkp).
  mstep_with (on_bps_Ret _ _ _ _ Hcr). mstep. mstep. set (s2 := put_continue _ a _).
  unfold is_event_breakpoint. rewrite bind_assoc. mstep. rewrite bind_ret.
  rewrite bool_decide_eq_false_2 by exact Hex.
  destruct (Hkp p bk Hbk) as (bk2 & Hbk2 & Hpl). injection Hpl as Hsv2 Ha2 Hi2 Ht2.
  mstep_with (on_bps_load p bk2 s2 Hbk2). rewrite Ht2, Hth. rewrite bool_decide_eq_false_2 by (intros Hn; now apply Hn).
  cbn [andb]. unfold thread_id, get_thread_id. mstep_with (on_thrs_query id s2 thr t Ht).
  rewrite Ha2, Haddr, u64_small, Hid by done.
  destruct (report_event_ok UDI_EVENT_BREAKPOINT tid (Some (IMap [(IString (cstr "addr"), IUint64 a)])) s2 Ho)
    as (s3 & Hw & Hio & Hrep).
  { intros it [= <-]. cbn [item_ok forallb]. replace (0 <=? a) with true by lia.
    replace (a <? 2 ^ 64) with true by lia. reflexivity. }
  mstep_with Hw. exists q, s3. split; [done|]. split; [|exact Hrep].
  destruct (io_only_frame _ _ Hio) as (Hb3 & _ & Hcb3 & Hl3 & _).
  split; [done|done| | |now rewrite Hcb3|now rewrite Hl3].
  - exists (<[b := q]> m). rewrite Hb3. split; [exact Hr2|apply lookup_insert_eq].
  - rewrite Hb3. exact Hrem.
Qed.

Lemma not_step_breakpoint thr t p s :
  thr_heap (u_thrs s) !! thr = Some t -> single_step_bp t <> Some p ->
  is_step_breakpoint (Some thr) p s = Ret false s.
Proof.
  intros Ht Hn. unfold is_step_breakpoint, get_single_step_breakpoint.
  mstep_with (on_thrs_query single_step_bp s thr t Ht). now rewrite bool_decide_eq_false_2.
Qed.

(** C16: a thread runs into a breakpoint of the debugger. The program counter
    is moved back onto it, the byte of the debuggee is back in its place, a
    continue breakpoint is registered at the successor of the instruction,
    and the debugger gets the event with the address; every other
    breakpoint is as it was. If the byte cannot be written, the call fails
    and the breakpoints are as before. *)
Theorem breakpoint_hit (m : gmap Z ptr) (A : gmap Z bool) (a b : Z) (p : ptr) (bk : breakpoint)
    (thr : ptr) (t : thread) (context c : ucontext) (w : bool) (s : udirt) :
  represents_by orig ∅ m (u_bps s) A -> m !! a = Some p -> A !! a = Some true ->
  bp_heap (u_bps s) !! p = Some bk -> bp_thread bk = None -> exit_bp s <> Some p -> continue_bp s <> Some p ->
  thr_heap (u_thrs s) !! thr = Some t -> ctx_ok context -> ctx_ok (event_context t) ->
  single_step_bp t <> Some p -> rewind_pc context = Some c ->
  A !! b = None -> 0 < b < 2 ^ 64 -> successor_is (overlay orig {[a]} A) a b c ->
  open_for_write (get_env s) (events_handle s) ->
  exists result s', decode_breakpoint (Some thr) p context w s = Ret (result, w, c) s' /\
    ((result = RESULT_SUCCESS /\
      (exists q, stepping A a b q false s') /\ peek (space (u_acc s')) a = orig a /\
      reported UDI_EVENT_BREAKPOINT (id t) (Some (IMap [(IString (cstr "addr"), IUint64 a)])) s s') \/
     (result = RESULT_ERROR /\ represents orig ∅ (u_bps s') A /\ continue_bp s' = continue_bp s)).
Proof.
  intros Hr Hp HA Hbk Hth Hex Hcb Ht Hctx Hctx' Hss Hrw HB Hb Hsucc Ho.
  destruct (rewind_contexts_ok thr t context s Ht Hctx Hctx') as (c1 & c' & Hrw1 & _ & Hrc).
  rewrite Hrw in Hrw1. injection Hrw1 as <-.
  unfold decode_breakpoint. mstep_with Hrc. set (s1 := put_thrs _ s).
  assert (Ht1 : thr_heap (u_thrs s1) !! thr = Some (set_event_context c' t)) by apply lookup_insert_eq.
  mstep_with (not_step_breakpoint thr _ p s1 Ht1 Hss).
  destruct (lift_refines orig ∅ m (u_bps s1) A a p Hr Hp HA) as (r & x & Hrm & Htb & Hhp & Hcase).
  mstep_with (on_bps_Ret _ _ _ _ Hrm). set (s2 := put_bps x s1).
  destruct Hcase as [[-> Hr2]|[-> Hr2]]; cbn [negb Z.eqb].
  2: { exists RESULT_ERROR, s2. split; [done|]. right. split; [done|]. split; [now exists m|done]. }
  mstep. rewrite bool_decide_eq_false_2 by exact Hcb.
  rewrite (union_empty_r_L (C := gset Z)) in Hr2.
  destruct (user_breakpoint_ok m A a b p bk thr (id t) c w s2) as (q & s3 & Hu & Hst & Hrep); try done.
  { cbn. now rewrite Hhp. }
  { exists (set_event_context c' t). done. }
  mstep_with Hu. exists RESULT_SUCCESS, s3. split; [done|]. left. split; [done|]. split; [eauto|].
  split; [|exact Hrep]. destruct Hst as [_ _ (m3 & Hr3 & _) _ _ _].
  rewrite (rep_memory _ _ _ _ _ Hr3). unfold overlay, planted.
  destruct (decide (a = b)) as [->|Hne]; [congruence|].
  rewrite lookup_insert_ne, HA by done. rewrite decide_True by set_solver. done.
Qed.

(** Planting the continue breakpoint. *)
Lemma stepping_install A a b q s :
  stepping A a b q false s -> a <> b ->
  exists r x, install_breakpoint q (u_bps s) = Ret r x /\
    ((r = 0 /\ stepping A a b q true (put_bps x s)) \/ r = -1).
Proof.
  intros [HA HB (m & Hr & Hq) Hrem Hcb Hl] Hne.
  destruct (install_refines_at orig {[a]} m _ _ b q Hr Hq) as (r & x & Hrun & Htb & Hcase);
    [rewrite lookup_insert_eq; eauto|set_solver|].
  exists r, x. split; [done|]. destruct Hcase as [[-> Hr']|(-> & _ & _)]; [left|now right]. split; [done|].
  rewrite insert_insert_eq in Hr'. split; try done; [now exists m|].
  unfold removable in *. cbn. rewrite Htb. intros Hhd y Hy. apply (Hrem Hhd).
  apply lookup_insert_is_Some in Hy. apply lookup_insert_is_Some. destruct Hy; auto.
Qed.

(** Planting the original breakpoint again. *)
Lemma reinstall_ok lift r0 A a s :
  represents orig lift (u_bps s) A -> A !! a = Some true -> a ∈ lift -> last_bp_address s = a ->
  exists result s', reinstall_original r0 s = Ret result s' /\
    u_thrs s' = u_thrs s /\ continue_bp s' = continue_bp s /\ last_bp_address s' = 0 /\
    u_fds s' = u_fds s /\ events_handle s' = events_handle s /\
    ((result = r0 /\ represents orig (lift ∖ {[a]}) (u_bps s') A) \/
     (result = RESULT_ERROR /\ represents orig (lift ∖ {[a]}) (u_bps s') (<[a := false]> A))).
Proof.
  intros [m Hr] HA Hin Hl.
  destruct (represents_registered orig lift m _ A a Hr ltac:(eauto)) as (p & bk & Hp & Hbk & _ & _ & _ & Hi).
  rewrite HA in Hi. injection Hi as Hi.
  unfold reinstall_original. mstep. rewrite Hl. mstep_with (on_bps_find a s m A _ Hr). rewrite Hp. mstep.
  set (s1 := put_continue _ 0 s). mstep_with (on_bps_load p bk s1 Hbk). rewrite <- Hi.
  destruct (unlift_refines orig lift m (u_bps s1) A a p Hr Hp HA Hin) as (x & Hx & _ & Hr1).
  mstep_with (on_bps_Ret _ _ _ _ Hx).
  destruct (install_refines_at orig _ m x _ a p Hr1 Hp) as (r & y & Hy & _ & Hcase);
    [rewrite lookup_insert_eq; eauto|set_solver|].
  mstep_with (on_bps_Ret _ (put_bps x s1) _ _ Hy).
  destruct Hcase as [[-> Hr2]|(-> & _ & Hr2)]; do 2 eexists; (split; [reflexivity|]);
    do 5 (split; [done|]); [left|right]; (split; [done|]); exists m; [|exact Hr2].
  rewrite insert_insert_eq, insert_id in Hr2 by done. exact Hr2.
Qed.

(** What is left when a byte could not be written on the way back: the continue
    breakpoint is still registered, with its byte lifted; the original one is
    registered but not in memory; or both. *)
Inductive half_restored (A : gmap Z bool) (a b : Z) : gset Z -> gmap Z bool -> Prop :=
| half_leftover : half_restored A a b {[b]} (<[b := true]> A)
| half_missing : half_restored A a b ∅ (<[a := false]> A)
| half_both : half_restored A a b {[b]} (<[a := false]> (<[b := true]> A)).

(** The thread [t] has run into the continue breakpoint: the result, and whether
    to wait for a request. *)
Inductive stepped_over (A : gmap Z bool) (a b : Z) (q : ptr) (t : thread) (s s' : udirt) : Z -> bool -> Prop :=
| over_goes_on :
    single_step t = false -> u_fds s' = u_fds s ->
    represents orig ∅ (u_bps s') A -> continue_bp s' = None -> last_bp_address s' = 0 ->
    stepped_over A a b q t s s' RESULT_SUCCESS false
| over_single_step :
    single_step t = true -> reported UDI_EVENT_SINGLE_STEP (id t) None s s' ->
    represents orig ∅ (u_bps s') A -> continue_bp s' = None -> last_bp_address s' = 0 ->
    stepped_over A a b q t s s' RESULT_SUCCESS true
| over_kept :
    u_fds s' = u_fds s -> represents orig {[a]} (u_bps s') (<[b := true]> A) ->
    continue_bp s' = Some q -> last_bp_address s' = a ->
    stepped_over A a b q t s s' RESULT_ERROR true
| over_half lift A' :
    half_restored A a b lift A' -> u_fds s' = u_fds s -> represents orig lift (u_bps s') A' ->
    continue_bp s' = None -> last_bp_address s' = 0 ->
    stepped_over A a b q t s s' RESULT_ERROR false.

(** The continue breakpoint is deleted, and the original one planted again. *)
Lemma restore_ok m A a b q s :
  represents_by orig ({[b]} ∪ {[a]}) m (u_bps s) (<[b := true]> A) -> m !! b = Some q ->
  A !! a = Some true -> A !! b = None -> removable (u_bps s) (<[b := true]> A) b q ->
  last_bp_address s = a ->
  exists result s', (forall {B} (k : Z -> ST udirt B), (modify (fun s => put_continue None (last_bp_address s) s) ;;;
      let* delete_result := on_bps (delete_breakpoint q) in
      let* result := reinstall_original (if negb (delete_result =? 0) then RESULT_ERROR else RESULT_SUCCESS) in
      k result) s = k result s') /\
    continue_bp s' = None /\ last_bp_address s' = 0 /\ u_thrs s' = u_thrs s /\ u_fds s' = u_fds s /\
    events_handle s' = events_handle s /\
    ((result = RESULT_SUCCESS /\ represents orig ∅ (u_bps s') A) \/
     (result = RESULT_ERROR /\ exists lift A', half_restored A a b lift A' /\ represents orig lift (u_bps s') A')).
Proof.
  intros Hr Hq HA HB Hrem Hl. assert (Hab : a <> b) by congruence.
  set (s1 := put_continue None (last_bp_address s) s).
  destruct (delete_refines_at orig _ m (u_bps s1) _ b q Hr Hq) as (r & x & Hd & Hcase);
    [rewrite lookup_insert_eq; eauto|exact Hrem|].
  set (s2 := put_bps x s1). set (r0 := if negb (r =? 0) then RESULT_ERROR else RESULT_SUCCESS).
  set (A2 := if r =? 0 then A else <[b := true]> A).
  assert (Hr2 : represents orig ({[b]} ∪ {[a]}) (u_bps s2) A2).
  { unfold A2. destruct Hcase as [[-> Hr2]|(-> & _ & Hr2)]; cbn [Z.eqb].
    - rewrite delete_insert_eq, (delete_id A) in Hr2 by done. eexists. exact Hr2.
    - now exists m. }
  assert (HA2 : A2 !! a = Some true) by (unfold A2; destruct (r =? 0); [done|now rewrite lookup_insert_ne]).
  destruct (reinstall_ok _ r0 A2 a s2 Hr2 HA2 ltac:(set_solver) Hl) as (res & s3 & H3 & Ht3 & Hc3 & Hl3 & Hf3 & Hn3 & Hcase3).
  exists res, s3. split.
  { intros B k. mstep. fold s1. mstep_with (on_bps_Ret _ _ _ _ Hd). now mstep_with H3. } split; [now rewrite Hc3|]. split; [done|].
  split; [now rewrite Ht3|]. split; [now rewrite Hf3|]. split; [now rewrite Hn3|].
  assert (({[b]} ∪ {[a]}) ∖ {[a]} = ({[b]} : gset Z)) as HL by set_solver. rewrite HL in Hcase3.
  unfold r0, A2 in *. destruct Hcase as [[-> _]|(-> & _)]; cbn [Z.eqb negb] in Hcase3.
  - destruct Hcase3 as [[-> [m3 Hr3]]|[-> [m3 Hr3]]]; [left|right]; (split; [done|]).
    + exists m3. eapply represents_lift; [|exact Hr3]. intros y Hy. cbn in Hy. set_unfold. naive_solver.
    + exists ∅, (<[a := false]> A). split; [constructor|]. exists m3. eapply represents_lift; [|exact Hr3].
      intros y Hy. set_unfold. split; [|done]. intros ->. rewrite lookup_insert_ne in Hy by done. naive_solver.
  - destruct Hcase3 as [[-> Hr3]|[-> Hr3]]; right; (split; [done|]); eexists _, _; (split; [|exact Hr3]); constructor.
Qed.

Lemma continue_breakpoint_ok m A a b q thr t s :
  represents_by orig ({[b]} ∪ {[a]}) m (u_bps s) (<[b := true]> A) -> m !! b = Some q ->
  A !! a = Some true -> A !! b = None -> removable (u_bps s) (<[b := true]> A) b q ->
  last_bp_address s = a -> thr_heap (u_thrs s) !! thr = Some t ->
  (single_step t = true -> open_for_write (get_env s) (events_handle s)) ->
  exists result w s', continue_breakpoint_hit (Some thr) q s = Ret (result, w) s' /\
    stepped_over A a b q t s s' result w.
Proof.
  intros Hr Hq HA HB Hrem Hl Ht Ho.
  unfold continue_breakpoint_hit.
  destruct (restore_ok m A a b q s Hr Hq HA HB Hrem Hl)
    as (res & s3 & H3 & Hc3 & Hl3 & Ht3 & Hf3 & Hn3 & Hcase). rewrite H3.
  assert (Ht' : thr_heap (u_thrs s3) !! thr = Some t) by now rewrite Ht3.
  unfold is_single_step, get_thread_id. mstep_with (on_thrs_query single_step s3 thr t Ht').
  destruct Hcase as [[-> Hrep]|(-> & lift & A' & Hh & Hrep)]; cbn [Z.eqb RESULT_SUCCESS andb].
  - destruct (single_step t) eqn:Hss; [|do 3 eexists; split; [reflexivity|]; by apply over_goes_on].
    mstep_with (on_thrs_query id s3 thr t Ht').
    destruct (report_event_ok UDI_EVENT_SINGLE_STEP (id t) None s3) as (s4 & Hw & Hio & Hsent);
      [unfold open_for_write, get_env in *; cbn in *; rewrite Hf3, Hn3; auto|done|].
    mstep_with Hw. do 3 eexists. split; [reflexivity|]. destruct (io_only_frame _ _ Hio) as (Hb4 & _ & Hc4 & Hl4 & _).
    apply over_single_step; try congruence.
    unfold reported, sent in *. now rewrite Hn3, Hf3 in Hsent.
  - do 3 eexists. split; [reflexivity|]. by eapply over_half.
Qed.

(** C17: the way over the breakpoint. In the state in which a breakpoint hit
    leaves the library ([stepping]), the continue breakpoint can be planted (the
    step [install_breakpoint q] of the continue request); suppose it was. When a
    thread then runs into it, that breakpoint disappears, the original one is in
    memory again, and the debuggee is as the debugger left it: the same
    breakpoints, the same code bytes. A thread that is not single stepping goes
    on, with nothing reported and no request awaited; for one that is, the
    event is reported and a request awaited. When the byte of the continue
    breakpoint cannot be put back, the call fails, a request is awaited and
    nothing has changed; when a later write fails, the call fails and
    [half_restored] says which of the two breakpoints is not where it should be. *)
Theorem step_over_restores (A : gmap Z bool) (a b : Z) (q thr : ptr) (t : thread) (s : udirt) :
  stepping A a b q false s ->
  exists r x, install_breakpoint q (u_bps s) = Ret r x /\
    (r = 0 ->
     forall s2 context c, u_bps s2 = x -> continue_bp s2 = Some q -> last_bp_address s2 = a ->
     thr_heap (u_thrs s2) !! thr = Some t -> ctx_ok context -> ctx_ok (event_context t) ->
     single_step_bp t <> Some q -> rewind_pc context = Some c ->
     (single_step t = true -> open_for_write (get_env s2) (events_handle s2)) ->
     exists result w s3, decode_breakpoint (Some thr) q context true s2 = Ret (result, w, c) s3 /\
       stepped_over A a b q t s2 s3 result w).
Proof.
  intros Hst. assert (Hab : a <> b) by (destruct Hst; congruence).
  destruct (stepping_install A a b q s Hst Hab) as (r & x & Hin & Hcase). exists r, x. split; [done|].
  intros ->. destruct Hcase as [[_ Hst2]|]; [|done].
  intros s2 context c Hx Hcb Hl Ht Hctx Hctx' Hss Hrw Ho.
  destruct Hst2 as [HA HB (m & Hr & Hq) Hrem _ _]. cbn [u_bps put_bps] in Hr, Hrem. rewrite <- Hx in Hr, Hrem.
  destruct (rewind_contexts_ok thr t context s2 Ht Hctx Hctx') as (c1 & c' & Hrw1 & _ & Hrc).
  rewrite Hrw in Hrw1. injection Hrw1 as <-.
  unfold decode_breakpoint. mstep_with Hrc. set (s3 := put_thrs _ s2).
  assert (Ht3 : thr_heap (u_thrs s3) !! thr = Some (set_event_context c' t)) by apply lookup_insert_eq.
  mstep_with (not_step_breakpoint thr _ q s3 Ht3 Hss).
  destruct (lift_refines orig {[a]} m (u_bps s3) _ b q Hr Hq) as (r & y & Hrm & Htb & _ & Hcase);
    [apply lookup_insert_eq|].
  mstep_with (on_bps_Ret _ _ _ _ Hrm). set (s4 := put_bps y s3).
  destruct Hcase as [[-> Hr4]|[-> Hr4]]; cbn [negb Z.eqb].
  2: { do 3 eexists. split; [reflexivity|]. apply over_kept; try done. now exists m. }
  mstep. rewrite bool_decide_eq_true_2 by exact Hcb.
  destruct (continue_breakpoint_ok m A a b q thr (set_event_context c' t) s4)
    as (res & w & s5 & Hc & Hover); try done.
  { unfold removable in *. cbn. now rewrite Htb. }
  mstep_with Hc. do 3 eexists. split; [reflexivity|].
  destruct Hover; [by apply over_goes_on|by apply over_single_step|by apply over_kept|by eapply over_half].
Qed.
End StepOver.
