(* ===== verification/ThreadStart.v ===== *)
(** * The first steps of a new thread

    What a thread does between its creation and the application's start
    routine (udirt-posix-pthreads.c, [wrapped_start_routine]): it enters the
    list, makes its files, reports itself, is greeted by the debugger and waits
    to be let go. *)

From Stdlib Require Import String.
From stdpp Require Import gmap.
From S2P Require Import Prelude External Types Barrier Format Memory Breakpoints Registers X86.
From S2P Require Import Io Cbor Requests Threads State Process Signals Handlers Events Posix.
From S2P Require Import Sync SyncSpec Startup StartupSpec ErrMsg HandlerSpec EventSpec Wrappers WrapperSpec.

(** ** The names of a thread's files *)

Definition hex (v : Z) : list Z := udi_log_64bit (@app Z) [] (u64 v).

Definition thread_dir (base : list Z) (tid : Z) : list Z := slash base (hex tid).

Lemma nibble_char_text n : 0 <= n < 16 -> nibble_char n <> 0.
Proof. intros Hn. unfold nibble_char. chars. destruct (Z.ltb_spec n 10); lia. Qed.

(** [n] bytes print as [2 * n] digits. *)
Definition digits (n : nat) (l : list Z) : Prop := length l = (2 * n)%nat /\ c_text l.

Lemma byte_digits acc v : exists out, udi_log_byte (@app Z) acc (Z.land (u8 v) 255) = acc ++ out /\ digits 1 out.
Proof.
  rewrite land_255_u8, udi_log_byte_text by apply u8_range. eexists. split; [reflexivity|].
  pose proof (u8_range v). split; [done|]. unfold c_text.
  pose proof (Z.mod_pos_bound (u8 v) 16 ltac:(lia)).
  repeat constructor; apply nibble_char_text; [|lia].
  split; [apply Z.div_pos; lia|apply Z.div_lt_upper_bound; lia].
Qed.

Lemma digits_app n m l l' : digits n l -> digits m l' -> digits (n + m) (l ++ l').
Proof. intros [Hl Ht] [Hl' Ht']. split; [rewrite length_app; lia|]. now apply Forall_app. Qed.

Lemma loop_digits a : forall n acc, exists out, udi_log_64bit_loop (@app Z) n acc a = acc ++ out /\ digits n out.
Proof.
  induction n as [|n IH]; intros acc.
  { exists []. cbn. rewrite app_nil_r. repeat split. constructor. }
  cbn [udi_log_64bit_loop].
  destruct (byte_digits acc (Z.shiftr a (8 * Z.of_nat (S n)))) as (o1 & -> & H1).
  destruct (IH (acc ++ o1)) as (o2 & -> & H2). exists (o1 ++ o2). rewrite app_assoc. split; [done|].
  now apply (digits_app 1 n).
Qed.

Lemma hex_digits v : digits 8 (hex v).
Proof.
  unfold hex, udi_log_64bit. destruct (loop_digits (u64 v) 7 []) as (o1 & -> & H1).
  destruct (byte_digits ([] ++ o1) (u64 v)) as (o2 & -> & H2). cbn [app]. now apply (digits_app 7 1).
Qed.

(** The name is the thread's id, in hexadecimal. *)
Lemma hex_id v : 0 <= v < 2 ^ 64 -> hex_value (hex v) = v.
Proof. intros Hv. unfold hex. rewrite u64_small by lia. now apply udi_log_64bit_value. Qed.

Section Names.
Context `{Libc}.

Lemma formatted_hex v : formatted (cstr "%x") [VInt v] = Some (hex v).
Proof. now rewrite <- formatted_append. Qed.

Lemma formatted_slash a b : formatted (cstr "%s/%s") [VStr a; VStr b] = Some (slash a b).
Proof.
  rewrite <- formatted_append. cbn [cstr]. rewrite varargs_str, varargs_slash, varargs_str.
  unfold slash. change (udi_log_varargs app ?l [] []) with (Some l). now rewrite <- ?app_assoc.
Qed.

(** A text that fits its block is formatted in full. *)
Lemma formatted_whole len format args out :
  (length out < len)%nat -> Z.of_nat len < 2 ^ 64 -> c_text out -> formatted (cstr format) args = Some out ->
  exists buf, udi_formatted_str (replicate len 0) (Z.of_nat len) format args = Some buf /\ c_string buf = out.
Proof.
  intros Hl Hn Ht Hf.
  destruct (formatted_str_spec (replicate len 0) (Z.of_nat len) format args out) as (buf & -> & -> & _); [lia| |done|].
  - rewrite length_replicate. lia.
  - eexists. split; [reflexivity|]. rewrite take_ge by lia. cbn [app]. now rewrite c_string_app, c_string_text.
Qed.
End Names.

(** ** The files *)

(** What [mkdir], [mkfifo] and [open] have made, and what is still to come. *)
Definition after_fs (evs : list fs_event) (opens : list (Z + Z)) (s : proc) : proc :=
  put_os (OsEnv (root_env (p_os s)) (pid (p_os s)) (dl_results (p_os s)) (fs_results (p_os s))
            (fs_log (p_os s) ++ evs) opens (fork_results (p_os s)) (thread_results (p_os s))
            (kill_results (p_os s)) (killed (p_os s)) (waits (p_os s))) s.

Definition made_now (evs : list fs_event) (s : proc) : proc := after_fs evs (open_results (p_os s)) s.

Lemma made_made evs evs' s : made_now evs' (made_now evs s) = made_now (evs ++ evs') s.
Proof. unfold made_now, after_fs, put_os. cbn. now rewrite <- app_assoc. Qed.

Lemma make_op ev s : fs_results (p_os s) = [] -> on_os (os_make ev) s = Ret 0 (made_now [ev] s).
Proof. intros Hf. unfold on_os, zoom, os_make. rewrite Hf. cbn. unfold made_now, after_fs. now rewrite Hf. Qed.

Lemma open_op ev fd rest s :
  open_results (p_os s) = inl fd :: rest -> on_os (os_open ev) s = Ret (inl fd) (after_fs [ev] rest s).
Proof. intros Ho. unfold on_os, zoom, os_open. now rewrite Ho. Qed.

Definition request_path (dir : list Z) : list Z := slash dir (cstr REQUEST_FILE_NAME).
Definition response_path (dir : list Z) : list Z := slash dir (cstr RESPONSE_FILE_NAME).

(** The runtime can format the names below [basedir_name]. *)
Definition names_ok (u : udirt) : Prop :=
  allocs (u_rt u) = [] /\ c_text (basedir_name u) /\ Z.of_nat (length (basedir_name u)) < 2 ^ 63.

Section Files.
Context `{Libc}.

Lemma get_thread_dir_ok p t u :
  names_ok u -> thr_heap (u_thrs u) !! p = Some t ->
  get_thread_dir p u = Ret (Some (thread_dir (basedir_name u) (id t))) u.
Proof.
  intros (Ha & Ht & Hl) Hp. destruct (hex_digits (id t)) as [Hhl Hht]. unfold get_thread_dir.
  assert (on_thrs (get_thread_id p) u = Ret (id t) u) as Hid.
  { rewrite (on_thrs_Ret _ _ (id t) (u_thrs u)); [now rewrite put_thrs_get|].
    unfold get_thread_id. now mstep_with (thr_load_ok _ _ _ Hp). }
  mstep_with Hid. mstep_prim.
  destruct (formatted_whole 32 "%x" [VInt (id t)] (hex (id t))) as (b & Hb & Hbc);
    [lia|lia|done|apply formatted_hex|]. change (Z.of_nat 32) with 32 in Hb. rewrite Hb, Hbc.
  mstep_with (msg_malloc_ok u Ha). cbn [negb].
  set (len := (length (basedir_name u) + 1 + length (hex (id t)) + 1)%nat).
  destruct (formatted_whole len "%s/%s" [VStr (basedir_name u); VStr (hex (id t))]
    (thread_dir (basedir_name u) (id t))) as (b2 & -> & ->).
  - unfold thread_dir, slash, len. rewrite length_app. cbn. lia.
  - unfold len. lia.
  - now apply slash_text.
  - apply formatted_slash.
  - reflexivity.
Qed.

Lemma thread_dir_short u tid : names_ok u -> c_text (thread_dir (basedir_name u) tid) /\
  Z.of_nat (length (thread_dir (basedir_name u) tid)) < 2 ^ 63 + 17.
Proof.
  intros (_ & Ht & Hl). destruct (hex_digits tid) as [Hhl Hht]. split; [now apply slash_text|].
  unfold thread_dir, slash. rewrite length_app. cbn [length app]. lia.
Qed.

Lemma get_thread_file_ok dir name u :
  allocs (u_rt u) = [] -> c_text dir -> Z.of_nat (length dir) < 2 ^ 63 + 17 ->
  c_text (cstr name) -> (length (cstr name) <= 8)%nat ->
  get_thread_file dir name u = Ret (Some (slash dir (cstr name))) u.
Proof.
  intros Ha Hd Hl Hn Hnl. unfold get_thread_file. mstep_with (msg_malloc_ok u Ha). cbn [negb].
  set (len := (length dir + 1 + length (cstr name) + 1)%nat).
  destruct (formatted_whole len "%s/%s" [VStr dir; VStr (cstr name)] (slash dir (cstr name))) as (b2 & -> & ->).
  - unfold slash, len. rewrite length_app. cbn. lia.
  - unfold len. lia.
  - now apply slash_text.
  - apply formatted_slash.
  - reflexivity.
Qed.

Lemma request_file_ok u tid : names_ok u ->
  get_thread_file (thread_dir (basedir_name u) tid) REQUEST_FILE_NAME u
  = Ret (Some (request_path (thread_dir (basedir_name u) tid))) u.
Proof.
  intros Hn. destruct (thread_dir_short u tid Hn). apply get_thread_file_ok; [apply Hn|done|done| |cbn; lia].
  now repeat constructor.
Qed.

Lemma response_file_ok u tid : names_ok u ->
  get_thread_file (thread_dir (basedir_name u) tid) RESPONSE_FILE_NAME u
  = Ret (Some (response_path (thread_dir (basedir_name u) tid))) u.
Proof.
  intros Hn. destruct (thread_dir_short u tid Hn). apply get_thread_file_ok; [apply Hn|done|done| |cbn; lia].
  now repeat constructor.
Qed.

(** The directory and the two pipes of thread [p]. *)
Lemma thread_create_callback_ok p t s :
  names_ok (p_u s) -> fs_results (p_os s) = [] -> heap_of s !! p = Some t ->
  let dir := thread_dir (basedir_name (p_u s)) (id t) in
  thread_create_callback p s
  = Ret 0 (made_now [MkDir dir; MkFifo (request_path dir); MkFifo (response_path dir)] s).
Proof.
  intros Hn Hf Hp dir. unfold thread_create_callback.
  mstep_with (run_u_id _ s _ (get_thread_dir_ok p t _ Hn Hp)). fold dir.
  mstep_with (make_op (MkDir dir) s Hf). cbn [negb Z.eqb].
  set (s1 := made_now _ s).
  mstep_with (run_u_id _ s1 _ (response_file_ok _ (id t) Hn)).
  mstep_with (run_u_id _ s1 _ (request_file_ok _ (id t) Hn)). fold dir.
  mstep_with (make_op (MkFifo (request_path dir)) s1 Hf). cbn [negb Z.eqb].
  set (s2 := made_now _ s1).
  mstep_with (make_op (MkFifo (response_path dir)) s2 Hf). cbn [negb Z.eqb].
  unfold s2, s1. rewrite !made_made. reflexivity.
Qed.
End Files.

(** ** What a thread has said *)

(** [out fd] has been written to [fd]; what is still to be read may have
    changed, or not. *)
Definition talked (out : Z -> list Z) (f f' : gmap Z chan) : Prop :=
  forall fd c, f !! fd = Some c ->
    exists q w, f' !! fd = Some (Chan q w (c_out c ++ out fd)) /\ suffix w (c_wr c).
Definition wrote (out : Z -> list Z) (f f' : gmap Z chan) : Prop :=
  forall fd c, f !! fd = Some c ->
    exists w, f' !! fd = Some (Chan (c_in c) w (c_out c ++ out fd)) /\ suffix w (c_wr c).

Definition on (fd : Z) (bs : list Z) : Z -> list Z := fun x => if decide (x = fd) then bs else [].
Definition silent : Z -> list Z := fun _ => [].
Definition also (out out' : Z -> list Z) : Z -> list Z := fun x => out x ++ out' x.

Lemma appends_wrote fd bs s s' : appends fd bs s s' -> wrote (on fd bs) (e_fds s) (e_fds s').
Proof.
  intros (_ & Ho & Hap) x [i w o] Hc. unfold on. destruct (decide (x = fd)) as [->|Hx].
  - destruct (Hap _ Hc) as (w' & Hw & Hs). eauto.
  - exists w. rewrite Ho, Hc by done. cbn. now rewrite app_nil_r.
Qed.

Lemma wrote_talked out f f' : wrote out f f' -> talked out f f'.
Proof. intros H fd c Hc. destruct (H fd c Hc) as (w & ? & ?). eauto. Qed.

Lemma reads_talked fd s s' : only_reads fd s s' -> talked silent (e_fds s) (e_fds s').
Proof.
  intros (_ & _ & _ & Ho & Hap) x [i w o] Hc. unfold silent. rewrite app_nil_r. destruct (decide (x = fd)) as [->|Hx].
  - destruct (Hap _ Hc) as (q & Hq). eauto.
  - exists i, w. rewrite Ho, Hc by done. eauto.
Qed.

Lemma talked_also out out' f1 f2 f3 : talked out f1 f2 -> talked out' f2 f3 -> talked (also out out') f1 f3.
Proof.
  intros H1 H2 fd c Hc. destruct (H1 fd c Hc) as (q & w & Hw & Hs). destruct (H2 fd _ Hw) as (q' & w' & Hw' & Hs').
  exists q', w'. cbn in *. unfold also. rewrite app_assoc. split; [done|]. now transitivity w.
Qed.

Lemma talked_sent out u u' fd : talked out (u_fds u) (u_fds u') -> u_fds u !! fd <> None -> sent fd u' = sent fd u ++ out fd.
Proof.
  intros H Hfd. unfold sent. destruct (u_fds u !! fd) as [c|] eqn:Hc; [|done].
  destruct (H fd c Hc) as (q & w & -> & _). done.
Qed.

Lemma talked_open out u u' fd :
  talked out (u_fds u) (u_fds u') -> open_for_write (get_env u) fd -> open_for_write (get_env u') fd.
Proof.
  intros H (c & Hc & Ha). destruct (H fd c Hc) as (q & w & Hw & Hs).
  eexists. split; [exact Hw|]. now apply suffix_accepting with c.
Qed.

Lemma wrote_awaits out u u' fd evs rest e :
  wrote out (u_fds u) (u_fds u') -> awaits u fd evs rest e -> awaits u' fd evs rest e.
Proof.
  intros H (bs & Hst & Hl & c & Hc & Ha & He). exists bs. split; [done|]. split; [done|].
  destruct (H fd c Hc) as (w & Hw & _). eexists. split; [exact Hw|]. done.
Qed.

(** ** The steps *)

Section Steps.
Context `{LC : Libc} `{CO : LibcborOk} `{T : Target} `{U : Udis86}.

(** The bytes of the event, and of the answer to the debugger's first request. *)
Definition create_event (creator tid : Z) : list Z :=
  flat_map encode_item (event_items UDI_EVENT_THREAD_CREATE creator
    (Some (IMap [(IString (cstr "tid"), IUint64 (u64 tid))]))).
Definition init_answer (capable : bool) (tid : Z) : list Z :=
  response_bytes UDI_RESP_VALID (Z_of_request UDI_REQ_INIT)
    (Some (IMap [(IString (cstr "v"), IUint32 get_protocol_version);
                 (IString (cstr "arch"), IUint16 (Z_of_arch get_architecture));
                 (IString (cstr "mt"), IBool capable);
                 (IString (cstr "tid"), IUint64 (u64 tid))])).

Lemma create_event_ok creator tid u :
  open_for_write (get_env u) (events_handle u) ->
  exists u', handle_thread_create_event creator tid u = Ret RESULT_SUCCESS u' /\ io_only u u' /\
    wrote (on (events_handle u) (create_event creator tid)) (u_fds u) (u_fds u').
Proof.
  intros Ho. destruct (report_event_appends UDI_EVENT_THREAD_CREATE creator
    (Some (IMap [(IString (cstr "tid"), IUint64 (u64 tid))])) u Ho) as (e & Hr & Hap).
  { intros it [= <-]. pose proof (u64_range tid). cbn [item_ok forallb length]. apply andb_true_iff; split; [done|].
    repeat (apply andb_true_iff; split); try done; lia. }
  exists (put_env e u). split; [exact Hr|]. split; [exists e; split; [done|apply Hap]|]. now apply appends_wrote in Hap.
Qed.

Lemma init_answer_ok tid fd u :
  open_for_write (get_env u) fd ->
  exists u', init_handler tid fd u = Ret RESULT_SUCCESS u' /\ io_only u u' /\
    wrote (on fd (init_answer (multithread_capable (u_thrs u)) tid)) (u_fds u) (u_fds u').
Proof.
  intros Ho. unfold init_handler.
  assert (on_thrs get_multithread_capable u = Ret (multithread_capable (u_thrs u)) u) as Hc.
  { rewrite (on_thrs_Ret _ _ (multithread_capable (u_thrs u)) (u_thrs u)); [now rewrite put_thrs_get|done]. }
  mstep_with Hc. unfold respond.
  set (d := IMap _). assert (item_ok d = true) as Hd.
  { pose proof (u64_range tid). unfold d. cbn [item_ok forallb length].
    apply andb_true_iff; split; [done|]. unfold get_architecture.
    repeat (apply andb_true_iff; split); try done; try lia; now destruct (WORDSIZE =? 64). }
  destruct (write_response_ok fd (Z_of_response UDI_RESP_VALID) (Z_of_request UDI_REQ_INIT) (Some d) (get_env u) Ho)
    as (e & Hw & Hap); [now intros it [= <-]|].
  exists (put_env e u). split; [now apply on_env_Ret|]. split; [exists e; split; [done|apply Hap]|].
  now apply appends_wrote in Hap.
Qed.

Lemma init_request_ok ev rest e fd type u :
  type_event UDI_REQ_INIT ev -> allocs (u_rt u) = [] -> awaits u fd [ev] rest e ->
  exists u', on_env (read_request_type fd type) u = Ret (RESULT_SUCCESS, Z_of_request UDI_REQ_INIT) u' /\
    io_only u u' /\ talked silent (u_fds u) (u_fds u').
Proof.
  intros Hev Ha Haw. apply awaits_cons in Haw as (h & bs & He & _ & Hlh & _ & Hr).
  destruct (read_type_ok _ ev h (bs ++ rest) fd e u type Hev He Ha Hlh Hr) as (u' & Hrt & Hio & Hor & _).
  exists u'. split; [done|]. split; [done|]. now apply reads_talked in Hor.
Qed.

Lemma io_only_thrs u x u' : io_only u u' -> io_only (put_thrs x u) (put_thrs x u').
Proof. intros (e & -> & He). now exists e. Qed.

(** The debugger opens the files of thread [p] and greets it. *)
Lemma handshake_ok p t s req resp opens ev rest e :
  names_ok (p_u s) -> heap_of s !! p = Some t -> open_results (p_os s) = inl req :: inl resp :: opens ->
  type_event UDI_REQ_INIT ev -> awaits (p_u s) req [ev] rest e -> open_for_write (get_env (p_u s)) resp ->
  let dir := thread_dir (basedir_name (p_u s)) (id t) in
  let greeted := set_response_handle resp (set_request_handle req t) in
  exists u', thread_create_handshake p s
      = Ret RESULT_SUCCESS (put_u u' (after_fs [OpenRead (request_path dir); OpenWrite (response_path dir)] opens s)) /\
    io_only (p_u (upd_thr p greeted s)) u' /\
    talked (on resp (init_answer (multithread_capable (u_thrs (p_u s))) (id t))) (u_fds (p_u s)) (u_fds u').
Proof.
  intros Hn Hp Ho Hev Haw Hw dir greeted. unfold thread_create_handshake.
  mstep_with (run_u_id _ s _ (get_thread_dir_ok p t _ Hn Hp)). fold dir.
  mstep_with (run_u_id _ s _ (response_file_ok _ (id t) Hn)).
  mstep_with (run_u_id _ s _ (request_file_ok _ (id t) Hn)). fold dir.
  mstep_with (open_op (OpenRead (request_path dir)) req _ s Ho).
  set (s1 := after_fs _ _ s).
  mstep_with (thr_op_update p t (set_request_handle req) s1 Hp).
  set (s2 := upd_thr p _ s1).
  assert (thr_op (get_thread_id p) s2 = Ret (id t) s2) as Hid.
  { apply thr_op_id. unfold get_thread_id. now mstep_with (thr_load_ok _ _ _ (heap_upd p (set_request_handle req t) s1)). }
  mstep_with Hid. unfold perform_init_handshake.
  destruct (init_request_ok ev rest e req (Z_of_request UDI_REQ_INVALID) (p_u s2) Hev (proj1 Hn) Haw)
    as (u3 & Hrd & Hio3 & Ht3).
  mstep_with (run_u_Ret _ s2 _ _ Hrd). cbn [negb Z.eqb RESULT_SUCCESS]. set (s3 := put_u u3 s2).
  unfold thread_create_response_fd_callback. rewrite (bind_assoc (S := proc)).
  mstep_with (open_op (OpenWrite (response_path dir)) resp opens s3 eq_refl). set (s4 := after_fs _ _ s3).
  destruct (io_only_frame _ _ Hio3) as (_ & Hthr & _).
  assert (heap_of s4 !! p = Some (set_request_handle req t)) as Hp4.
  { unfold heap_of. change (u_thrs (p_u s4)) with (u_thrs u3). rewrite Hthr. apply lookup_insert_eq. }
  rewrite (bind_assoc (S := proc)). mstep_with (thr_op_update p _ (set_response_handle resp) s4 Hp4).
  mstep_prim. cbn [negb Z.eqb Pos.eqb RESULT_SUCCESS Z_of_request]. fold greeted. set (s5 := upd_thr p greeted s4).
  destruct (init_answer_ok (id t) resp (p_u s5)) as (u6 & Hi & Hio6 & Hw6).
  { exact (talked_open _ _ u3 _ Ht3 Hw). }
  exists u6. split.
  { rewrite (run_u_Ret _ s5 _ _ Hi). f_equal. unfold s5, s4, s3, s2, s1, after_fs, upd_thr, put_os, put_u. cbn.
    now rewrite <- app_assoc. }
  assert (u_thrs (p_u s5) = u_thrs (p_u (upd_thr p greeted s))) as E5.
  { unfold s5, upd_thr, heap_of. change (u_thrs (p_u s4)) with (u_thrs u3). cbn. rewrite Hthr. cbn.
    unfold put_threads. cbn. now rewrite insert_insert_eq. }
  split.
  - transitivity (p_u s5); [|exact Hio6]. apply (io_only_thrs _ (u_thrs (p_u s5))) in Hio3.
    change (p_u s5) with (put_thrs (u_thrs (p_u s5)) u3). rewrite E5 in Hio3 |- *. exact Hio3.
  - assert (multithread_capable (u_thrs (p_u s5)) = multithread_capable (u_thrs (p_u s))) as Em by now rewrite E5.
    rewrite Em in Hw6. exact (talked_also _ _ _ _ _ Ht3 (wrote_talked _ _ _ Hw6)).
Qed.

Lemma io_only_names u u' : io_only u u' -> names_ok u -> names_ok u'.
Proof. intros Hio (Ha & Ht & Hl). split; [now rewrite (io_only_rt _ _ Hio)|]. now destruct Hio as (e & -> & _). Qed.

Lemma create_thread_capable ok tid b :
  preserves (fun s => multithread_capable s = b) (create_thread ok tid).
Proof.
  assert (forall p, preserves (fun s => multithread_capable s = b) (thr_load p)) as Hl.
  { intros p s t s' Hs. unfold thr_load. destruct (thr_heap s !! p); [|done]. now intros [= _ <-]. }
  assert (forall fuel a o, preserves (fun s => multithread_capable s = b) (last_thread_walk fuel a o)) as Hw.
  { induction fuel; intros a o; cbn [last_thread_walk]; keeps; auto. }
  assert (preserves (fun s => multithread_capable s = b) init_control_pipe) as Hi.
  { intros s r s' Hs Hr. destruct (init_control_pipe_heap _ _ _ Hr) as [_ Hc]. now rewrite Hc. }
  unfold create_thread, create_thread_struct, link_thread, thr_update. keeps; auto;
    try (apply preserves_modify; auto). intros s a s' Hs [= _ <-]. exact Hs.
Qed.

(** The new thread is in the list, and nothing else has changed. *)
Lemma create_op ps tid r w more s :
  thr_inv (u_thrs (p_u s)) ps -> multithread_capable (u_thrs (p_u s)) = true ->
  pipes (u_thrs (p_u s)) = Some (r, w) :: more ->
  exists p l t, thr_op (create_thread true tid) s = Ret (Some p) (put_u (put_thrs l (p_u s)) s) /\
    thr_inv l (ps ++ [p]) /\ multithread_capable l = true /\ thr_heap l !! p = Some t /\
    id t = tid /\ ts t = UDI_TS_RUNNING /\ control_read t = r /\ control_write t = w.
Proof.
  intros Hi Hc Hp.
  destruct (create_thread_appends _ ps tid r w more Hi Hc Hp) as (p & l & t & Hcr & Hi' & Ht & Hid & Hts & _ & Hr & Hw & _).
  exists p, l, t. split; [now apply run_u_Ret, on_thrs_Ret|]. split; [done|].
  split; [exact (create_thread_capable true tid true _ _ _ Hc Hcr)|]. done.
Qed.

(** ** The trigger *)

(** The first byte other than 0, or a failure ([None]); end-of-file is read
    again and again. *)
Fixpoint trigger_of (q : list rd_outcome) : option (option Z) :=
  match q with
  | [] => None
  | RData bs :: q =>
      match list_find (fun b => b <> 0) bs with
      | Some (_, b) => Some (Some b)
      | None => trigger_of q
      end
  | RIntr :: q => trigger_of q
  | RErr e :: q => if e =? EINTR then trigger_of q else Some None
  end.

Lemma trigger_byte b bs q :
  trigger_of (RData (b :: bs) :: q) = if b =? 0 then trigger_of (RData bs :: q) else Some (Some b).
Proof.
  cbn. destruct (Z.eqb_spec b 0) as [->|Hb].
  - rewrite decide_False by tauto. now destruct (list_find _ bs) as [[? ?]|].
  - now rewrite decide_True.
Qed.

Definition trigger_result (r : option (option Z)) (s : proc) : outcome proc (Z * Z) :=
  match r with
  | Some (Some b) => Ret (RESULT_SUCCESS, b) s
  | Some None => Ret (RESULT_ERROR, 0) s
  | None => Running s
  end.

Lemma put_u_get s : put_u (p_u s) s = s.
Proof. now destruct s. Qed.

Lemma sys_read_head fd n ev q w o (s : env) :
  e_fds s !! fd = Some (Chan (ev :: q) w o) ->
  sys_read fd n s =
  match ev with
  | RData [] => Ret (inl []) (put_fds (<[fd := Chan q w o]> (e_fds s)) s)
  | RData bs =>
      Ret (inl (take n bs))
        (put_fds (<[fd := Chan (if decide (length bs <= n)%nat then q else RData (drop n bs) :: q) w o]> (e_fds s)) s)
  | RIntr => Ret (inr EINTR) (put_fds (<[fd := Chan q w o]> (e_fds s)) s)
  | RErr e => Ret (inr e) (put_fds (<[fd := Chan q w o]> (e_fds s)) s)
  end.
Proof.
  intros Hc. unfold sys_read. rewrite Hc. destruct ev as [[|b bs]| |e]; try done.
  cbn [c_in c_wr c_out]. rewrite take_nil. now rewrite decide_True by (cbn; lia).
Qed.

Lemma trigger_loop_ok fd : forall fuel s c,
  u_fds (p_u s) !! fd = Some c -> (queue_size (c_in c) < fuel)%nat ->
  exists u', io_only (p_u s) u' /\ talked silent (u_fds (p_u s)) (u_fds u') /\
    trigger_loop fuel fd s = trigger_result (trigger_of (c_in c)) (put_u u' s).
Proof.
  assert (forall s, io_only (p_u s) (p_u s) /\ talked silent (u_fds (p_u s)) (u_fds (p_u s))) as Hid.
  { intros s. split; [done|]. intros x [i w o] Hc. exists i, w. unfold silent. rewrite app_nil_r. done. }
  induction fuel as [|fuel IH]; intros s c Hc Hf; [lia|]. cbn [trigger_loop].
  destruct (decide (c_in c = [])) as [He|Hne].
  { (* end-of-file *)
    exists (p_u s). destruct (Hid s) as [H1 H2]. do 2 (split; [done|]). rewrite He, put_u_get.
    assert (forall k, trigger_loop k fd s = Running s) as Hrun; [|exact (Hrun (S fuel))].
    induction k as [|k IHk]; [done|]. cbn [trigger_loop].
    assert (io_op (sys_read fd 1) s = Ret (inl []) s) as ->%(bind_Ret _ _ _); [|exact IHk].
    apply run_u_id. rewrite (on_env_Ret _ _ (inl []) (get_env (p_u s))); [now rewrite put_env_get|].
    unfold sys_read. cbn. now rewrite Hc, He. }
  destruct c as [[|ev q] w o]; [done|]. clear Hne.
  assert (forall q', talked silent (u_fds (p_u s)) (<[fd := Chan q' w o]> (u_fds (p_u s)))) as Htalk.
  { intros q'. pose proof (put_queue_reads fd (Chan (ev :: q) w o) q' (get_env (p_u s)) Hc) as Hr.
    now apply reads_talked in Hr. }
  set (after q' := put_env (put_fds (<[fd := Chan q' w o]> (u_fds (p_u s))) (get_env (p_u s))) (p_u s)).
  assert (forall q', io_only (p_u s) (after q')) as Hio by (intros q'; now eexists).
  assert (forall q' (Hq : (queue_size q' < fuel)%nat), exists u', io_only (p_u s) u' /\
    talked silent (u_fds (p_u s)) (u_fds u') /\
    trigger_loop fuel fd (put_u (after q') s) = trigger_result (trigger_of q') (put_u u' s)) as Hgo.
  { intros q' Hq. destruct (IH (put_u (after q') s) (Chan q' w o)) as (u' & Hi & Ht & ->); [apply lookup_insert_eq|done|].
    exists u'. split; [etransitivity; [apply Hio|exact Hi]|]. split; [|done].
    exact (talked_also _ _ _ _ _ (Htalk q') Ht). }
  cbn [c_in] in Hf. rewrite queue_size_cons in Hf.
  assert (forall r q', sys_read fd 1 (get_env (p_u s)) = Ret r (put_fds (<[fd := Chan q' w o]> (u_fds (p_u s))) (get_env (p_u s))) ->
    io_op (sys_read fd 1) s = Ret r (put_u (after q') s)) as Hrd.
  { intros r q' Hr. now apply run_u_Ret, on_env_Ret. }
  pose proof (fun n => sys_read_head fd n ev q w o (get_env (p_u s)) Hc) as Hsys.
  cbn [c_in]. destruct ev as [[|b bs]| |e]; cbn [event_size length] in Hf.
  - mstep_with (Hrd _ _ (Hsys 1%nat)). apply (Hgo q). lia.
  - rewrite trigger_byte. set (q' := if decide (length (b :: bs) <= 1)%nat then q else RData bs :: q) in *.
    mstep_with (Hrd _ q' (Hsys 1%nat)). cbn [take].
    destruct (Z.eqb_spec b 0) as [->|Hb].
    + assert (trigger_of q' = trigger_of (RData bs :: q)) as <-.
      { unfold q'. case_decide as Hd; [|done]. cbn in Hd. destruct bs; [done|cbn in Hd; lia]. }
      apply Hgo. unfold q'. case_decide; rewrite ?queue_size_cons; cbn [event_size]; lia.
    + exists (after q'). split; [done|]. split; [apply Htalk|]. reflexivity.
  - mstep_with (Hrd _ _ (Hsys 1%nat)). apply (Hgo q). lia.
  - mstep_with (Hrd _ _ (Hsys 1%nat)). cbn [trigger_of]. destruct (e =? EINTR).
    + apply Hgo. lia.
    + exists (after q). split; [done|]. split; [apply Htalk|]. reflexivity.
Qed.

(** ** The start *)

Lemma abort_bind {A B} (k : A -> ST proc B) s : bind udi_abort_file_line k s = udi_abort_file_line s.
Proof.
  unfold udi_abort_file_line, bind, gets.
  now match goal with |- context [match ?m with Ret _ s' => udi_abort s' | _ => _ end] => destruct m end.
Qed.

Lemma write_byte_ok fd c s :
  u_fds (p_u s) !! fd = Some c -> c_wr c = [] ->
  exists u', io_op (sys_write fd [sentinel]) s = Ret (inl 1) (put_u u' s) /\ io_only (p_u s) u' /\
    wrote (on fd [sentinel]) (u_fds (p_u s)) (u_fds u').
Proof.
  intros Hc Hw.
  assert (sys_write fd [sentinel] (get_env (p_u s))
    = Ret (inl 1) (put_fds (<[fd := Chan (c_in c) [] (c_out c ++ [sentinel])]> (u_fds (p_u s))) (get_env (p_u s)))) as E.
  { unfold sys_write. cbn [get_env e_fds]. now rewrite Hc, Hw. }
  eexists. split; [exact (run_u_Ret _ _ _ _ (on_env_Ret _ _ _ _ E))|]. split; [now eexists|].
  intros x [i w o] Hx. cbn. unfold on. destruct (decide (x = fd)) as [->|Hne].
  - rewrite lookup_insert_eq. simplify_eq/=. eauto.
  - rewrite lookup_insert_ne, app_nil_r by done. eauto.
Qed.

(** The wait, with what comes after it. *)
Lemma wait_ok {B} (k : Z -> Z -> ST proc B) others more fd c s :
  waits (p_os s) = others :: more -> u_fds (others (p_u s)) !! fd = Some c ->
  exists s1, io_only (others (p_u s)) (p_u s1) /\ talked silent (u_fds (others (p_u s))) (u_fds (p_u s1)) /\
    fs_log (p_os s1) = fs_log (p_os s) /\
    (wait_for_others ;;;
     let* fuel := gets (fun s => read_fuel fd (get_env (p_u s))) in
     let* (result, trigger) := trigger_loop fuel fd in k result trigger) s =
    match trigger_of (c_in c) with
    | Some (Some b) => k RESULT_SUCCESS b s1
    | Some None => k RESULT_ERROR 0 s1
    | None => Running s1
    end.
Proof.
  intros Hw Hc. unfold wait_for_others, on_os, zoom, os_wait. rewrite bind_assoc. unfold bind at 1. rewrite Hw.
  cbn [next_or]. mstep_prim. set (s2 := put_u _ _). mstep_prim.
  assert (read_fuel fd (get_env (p_u s2)) = S (S (queue_size (c_in c)))) as ->.
  { unfold read_fuel. cbn [get_env e_fds]. unfold s2. cbn [p_u put_u put_os]. now rewrite Hc. }
  destruct (trigger_loop_ok fd (S (S (queue_size (c_in c)))) s2 c Hc) as (u' & Hio & Ht & Hl); [lia|].
  exists (put_u u' s2). split; [exact Hio|]. split; [exact Ht|]. split; [done|].
  unfold bind. rewrite Hl. now destruct (trigger_of (c_in c)) as [[b|]|].
Qed.

(** A thread that nothing hinders, in a process whose threads are [ps]. Its
    control pipe has the ends [r] and [w], the debugger has opened its files
    ([req], [resp]) and greeted it, and while it waits the other threads do
    [others], which leaves [q] in front of the control pipe. *)
Record can_start (ps : list ptr) (r w req resp : Z) (others : udirt -> udirt) (q : list rd_outcome) (s : proc) : Prop := {
  cs_names : names_ok (p_u s);
  cs_list : thr_inv (u_thrs (p_u s)) ps;
  cs_capable : multithread_capable (u_thrs (p_u s)) = true;
  cs_pipe : exists more, pipes (u_thrs (p_u s)) = Some (r, w) :: more;
  cs_made : fs_results (p_os s) = [];
  cs_opened : exists more, open_results (p_os s) = inl req :: inl resp :: more;
  cs_waits : exists more, waits (p_os s) = others :: more;
  cs_events : open_for_write (get_env (p_u s)) (events_handle (p_u s));
  cs_resp : open_for_write (get_env (p_u s)) resp;
  cs_init : exists ev rest e, type_event UDI_REQ_INIT ev /\ awaits (p_u s) req [ev] rest e;
  cs_barrier : exists c, u_fds (p_u s) !! bar_write (thread_barrier s) = Some c /\ c_wr c = [];
  cs_others : forall u, exists c, u_fds (others u) !! r = Some c /\ c_in c = q
}.

(** The block of the new thread, which is [p], and the list around it. *)
Record enlisted (ps : list ptr) (tid r w req resp : Z) (p : ptr) (l : thrs) : Prop := {
  en_list : thr_inv l (ps ++ [p]);
  en_block : exists t, thr_heap l !! p = Some t /\ id t = tid /\ ts t = UDI_TS_RUNNING /\
    control_read t = r /\ control_write t = w /\ request_handle t = req /\ response_handle t = resp
}.

Definition thread_files (dir : list Z) : list fs_event :=
  [MkDir dir; MkFifo (request_path dir); MkFifo (response_path dir);
   OpenRead (request_path dir); OpenWrite (response_path dir)].

(** What it has told the debugger and, at last, the creator. *)
Definition announced (creator tid events resp bar : Z) : Z -> list Z :=
  also (also (on events (create_event creator tid)) (on resp (init_answer true tid))) (on bar [sentinel]).

(** What is left of [handle_thread_create] once the debugger has answered. *)
Definition let_go (thr : ptr) : ST proc Z :=
  let* b := gets thread_barrier in
  let* r := io_op (sys_write (bar_write b) [sentinel]) in
  if bool_decide (r <> inl 1) then ret RESULT_ERROR
  else
    let* t := thr_op (thr_load thr) in
    wait_for_others ;;;
    let* fuel := gets (fun s => read_fuel (control_read t) (get_env (p_u s))) in
    let* (result, trigger) := trigger_loop fuel (control_read t) in
    if negb (result =? RESULT_SUCCESS) then ret result
    else if negb (trigger =? sentinel) then udi_abort_file_line
    else ret result.

(** Up to there: the files, the event and the answer. *)
Lemma announces creator ps r w req resp others q s :
  can_start ps r w req resp others q s ->
  let tid := pthread_self (u_thrs (p_u s)) in
  exists p s', handle_thread_create creator s = let_go p s' /\
    enlisted ps tid r w req resp p (u_thrs (p_u s')) /\
    talked (also (on (events_handle (p_u s)) (create_event creator tid)) (on resp (init_answer true tid)))
      (u_fds (p_u s)) (u_fds (p_u s')) /\
    fs_log (p_os s') = fs_log (p_os s) ++ thread_files (thread_dir (basedir_name (p_u s)) tid) /\
    waits (p_os s') = waits (p_os s) /\ thread_barrier s' = thread_barrier s.
Proof.
  intros [Hn Hli Hcap [mp Hp] Hfs [mo Ho] _ Hev Hre (ev & rest & e & Hie & Hia) _ _] tid.
  unfold handle_thread_create.
  assert (thr_op get_user_thread_id s = Ret tid s) as Hid.
  { apply thr_op_id. unfold get_user_thread_id, get_multithread_capable. mstep. now rewrite Hcap. }
  mstep_with Hid. mstep_with (malloc_op_ok s (proj1 Hn)).
  destruct (create_op ps tid r w mp s Hli Hcap Hp) as (p & l & t & Hcr & Hil & Hcl & Hpt & Ht1 & Ht2 & Ht3 & Ht4).
  mstep_with Hcr. set (s1 := put_u (put_thrs l (p_u s)) s).
  mstep_with (thread_create_callback_ok p t s1 Hn Hfs Hpt). cbn [negb Z.eqb]. set (s2 := made_now _ s1).
  destruct (create_event_ok creator tid (p_u s2) Hev) as (u3 & Hr3 & Hio3 & Hw3).
  mstep_with (run_u_Ret _ s2 _ _ Hr3). cbn [negb Z.eqb RESULT_SUCCESS]. set (s3 := put_u u3 s2).
  destruct (io_only_frame _ _ Hio3) as (_ & Hthr3 & _).
  assert (heap_of s3 !! p = Some t) as Hp3 by (unfold heap_of; change (u_thrs (p_u s3)) with (u_thrs u3); now rewrite Hthr3).
  assert (basedir_name u3 = basedir_name (p_u s)) as Hbase by now destruct Hio3 as (x & -> & _).
  destruct (handshake_ok p t s3 req resp mo ev rest e (io_only_names _ _ Hio3 Hn) Hp3 Ho Hie
    (wrote_awaits _ _ _ _ _ _ _ Hw3 Hia) (talked_open _ _ _ _ (wrote_talked _ _ _ Hw3) Hre)) as (u4 & Hh & Hio4 & Ht5).
  mstep_with Hh. cbn [negb Z.eqb RESULT_SUCCESS]. eexists p, _. split; [reflexivity|].
  destruct (io_only_frame _ _ Hio4) as (_ & Hthr4 & _).
  change (u_thrs (p_u s3)) with (u_thrs u3) in Ht5. rewrite Hthr3 in Ht5.
  change (multithread_capable (u_thrs (p_u s2))) with (multithread_capable l) in Ht5. rewrite Hcl, Ht1 in Ht5.
  split; [|split; [exact (talked_also _ _ _ _ _ (wrote_talked _ _ _ Hw3) Ht5)|split; [|done]]].
  - change (enlisted ps tid r w req resp p (u_thrs u4)). rewrite Hthr4.
    change (u_thrs (p_u (upd_thr ?p ?x s3))) with (put_threads (num_threads (u_thrs u3)) (threads (u_thrs u3)) (<[p := x]> (thr_heap (u_thrs u3))) (u_thrs u3)).
    unfold heap_of in Hp3. change (u_thrs (p_u s3)) with (u_thrs u3) in Hp3. split.
    + rewrite Hthr3. apply (thr_update_inv l _ p t (fun t => set_response_handle resp (set_request_handle req t)) Hil Hpt). done.
    + eexists. split; [apply lookup_insert_eq|]. done.
  - cbn. change (basedir_name (p_u s3)) with (basedir_name u3). rewrite Hbase, Ht1, <- app_assoc. done.
Qed.

(** The sentinel for the creator, and the wait. *)
Lemma let_go_ok ps tid r w req resp p others q s c more :
  enlisted ps tid r w req resp p (u_thrs (p_u s)) -> waits (p_os s) = others :: more ->
  u_fds (p_u s) !! bar_write (thread_barrier s) = Some c -> c_wr c = [] ->
  (forall u, exists c, u_fds (others u) !! r = Some c /\ c_in c = q) ->
  exists u0 s1, io_only (p_u s) u0 /\
    wrote (on (bar_write (thread_barrier s)) [sentinel]) (u_fds (p_u s)) (u_fds u0) /\
    io_only (others u0) (p_u s1) /\ talked silent (u_fds (others u0)) (u_fds (p_u s1)) /\
    fs_log (p_os s1) = fs_log (p_os s) /\
    let_go p s = match trigger_of q with
      | None => Running s1
      | Some None => Ret RESULT_ERROR s1
      | Some (Some b) => if b =? sentinel then Ret RESULT_SUCCESS s1 else udi_abort_file_line s1
      end.
Proof.
  intros [_ (t & Ht & _ & _ & Hr & _)] Hw Hc Hwr Hq. unfold let_go. mstep_prim.
  destruct (write_byte_ok _ c s Hc Hwr) as (u0 & Hwb & Hio & Hwo). mstep_with Hwb.
  rewrite bool_decide_eq_false_2 by tauto. set (s0 := put_u u0 s).
  destruct (io_only_frame _ _ Hio) as (_ & Hthr & _).
  assert (heap_of s0 !! p = Some t) as Ht0 by (unfold heap_of; change (u_thrs (p_u s0)) with (u_thrs u0); now rewrite Hthr).
  mstep_with (thr_op_load p t s0 Ht0). rewrite Hr. destruct (Hq u0) as (cr & Hcr & Hqr).
  destruct (wait_ok (fun result trigger => if negb (result =? RESULT_SUCCESS) then ret result
      else if negb (trigger =? sentinel) then udi_abort_file_line else ret result) others more r cr s0 Hw Hcr)
    as (s1 & Hio1 & Ht1 & Hfs & Heq).
  exists u0, s1. do 5 (split; [done|]). rewrite <- Hqr. etransitivity; [exact Heq|].
  destruct (trigger_of (c_in cr)) as [[b|]|]; [|done..]. cbn [negb Z.eqb RESULT_SUCCESS].
  now destruct (b =? sentinel).
Qed.

(** C10: a new thread runs application code only when it is known and let go.
    If nothing fails, it enters the list of threads, makes its directory and
    pipes, reports its creation with the creator's id and its own, answers the
    debugger's init request, and tells the creating thread with one sentinel; then
    it waits for the others, whatever they do. The start routine runs, in that
    state, exactly if the first byte other than 0 on the thread's own control
    pipe is a sentinel; any other byte and a failing read end the process, and at
    end-of-file it waits for ever. *)
Theorem new_thread_starts {A} (start_routine : ST proc A) creator ps r w req resp others q s :
  can_start ps r w req resp others q s ->
  let tid := pthread_self (u_thrs (p_u s)) in
  let dir := thread_dir (basedir_name (p_u s)) tid in
  exists p u0 s1,
    enlisted ps tid r w req resp p (u_thrs u0) /\
    (forall fd, u_fds (p_u s) !! fd <> None -> sent fd u0 = sent fd (p_u s) ++
       announced creator tid (events_handle (p_u s)) resp (bar_write (thread_barrier s)) fd) /\
    fs_log (p_os s1) = fs_log (p_os s) ++ thread_files dir /\
    io_only (others u0) (p_u s1) /\ talked silent (u_fds (others u0)) (u_fds (p_u s1)) /\
    wrapped_start_routine start_routine creator s =
      match trigger_of q with
      | None => Running s1
      | Some None => udi_abort_file_line s1
      | Some (Some b) =>
          if b =? sentinel then (let* ret_value := start_routine in report_thread_death ;;; ret ret_value) s1
          else udi_abort_file_line s1
      end.
Proof.
  intros Hcs tid dir. destruct (announces creator ps r w req resp others q s Hcs) as (p & s' & Hh & Hen & Ht & Hfs & Hwt & Hbar).
  destruct Hcs as [_ _ _ _ _ _ [mw Hw] _ _ _ (cb & Hcb & Hwb) Hq].
  destruct (Ht _ _ Hcb) as (qb & wb & Hcb' & [kb Hs]). rewrite Hwb in Hs. symmetry in Hs. apply app_eq_nil in Hs as [_ ->].
  rewrite <- Hbar in Hcb'.
  destruct (let_go_ok ps tid r w req resp p others q s' _ mw Hen ltac:(congruence) Hcb' eq_refl Hq)
    as (u0 & s1 & Hio & Hwo & Hio1 & Ht1 & Hfs1 & Heq).
  exists p, u0, s1. split; [destruct (io_only_frame _ _ Hio) as (_ & -> & _); exact Hen|]. split.
  { intros fd Hfd. rewrite Hbar in Hwo. exact (talked_sent _ _ _ fd (talked_also _ _ _ _ _ Ht (wrote_talked _ _ _ Hwo)) Hfd). }
  split; [rewrite Hfs1; exact Hfs|]. do 2 (split; [done|]).
  unfold wrapped_start_routine. unfold bind at 1. rewrite Hh, Heq.
  destruct (trigger_of q) as [[b|]|]; [|done..]. destruct (b =? sentinel); [done|].
  apply (abort_bind (A := Z)).
Qed.
End Steps.
