(* ===== verification/PosixSpec.v ===== *)
(** * What the command loop promises *)

From Stdlib Require Import String.
From stdpp Require Import gmap.
From S2P Require Import Prelude External Types Format Memory Breakpoints Registers X86.
From S2P Require Import Io Cbor Requests Threads State Handlers Events Posix ErrMsg HandlerSpec ThreadSpec.

(** ** What does not touch the coming [select] calls *)

Definition selects_are (l : list select_event) (s : udirt) : Prop := selects s = l.

Section Selects.
Context `{LC : Libc} `{LB : Libcbor} `{TG : Target} `{UD : Udis86} (l : list select_event).

Lemma on_bps_selects {A} (m : ST bps A) : preserves (selects_are l) (on_bps m).
Proof. apply preserves_zoom with (fun _ => True); auto. now intros s a s'. Qed.
Lemma on_access_selects {A} (m : ST access A) : preserves (selects_are l) (on_access m).
Proof. apply on_bps_selects. Qed.
Lemma on_msg_selects {A} (m : ST rt A) : preserves (selects_are l) (on_msg m).
Proof. apply on_bps_selects. Qed.
Lemma set_errmsg_selects format args : preserves (selects_are l) (set_errmsg format args).
Proof. apply on_bps_selects. Qed.
Lemma on_thrs_selects {A} (m : ST thrs A) : preserves (selects_are l) (on_thrs m).
Proof. apply preserves_zoom with (fun _ => True); auto. now intros s a s'. Qed.
Lemma on_env_selects {A} (m : ST env A) : preserves (selects_are l) (on_env m).
Proof. apply preserves_zoom with (fun _ => True); auto. now intros s a s'. Qed.
Lemma syscall_selects : preserves (selects_are l) syscall.
Proof. intros s a s' Hs. unfold syscall. destruct (syscalls s); now injection 1 as <- <-. Qed.
Hint Resolve on_bps_selects on_access_selects on_msg_selects set_errmsg_selects on_thrs_selects
  on_env_selects syscall_selects : keeps.

Lemma respond_selects fd req d : preserves (selects_are l) (respond fd req d).
Proof. apply on_env_selects. Qed.
Lemma read_data_selects {D} fd items (d : D) : preserves (selects_are l) (read_data fd items d).
Proof. apply on_env_selects. Qed.
Lemma deref_selects o f : preserves (selects_are l) (deref_breakpoint o f).
Proof. unfold deref_breakpoint. keeps. Qed.
Hint Resolve respond_selects read_data_selects deref_selects : keeps.

Lemma thread_death_selects thr : preserves (selects_are l) (thread_death_handshake thr).
Proof. unfold thread_death_handshake, remove_thread_files, get_thread_dir, get_thread_file. keeps. Qed.
Hint Resolve thread_death_selects : keeps.

Lemma continue_selects a b : preserves (selects_are l) (continue_handler a b).
Proof.
  assert (Hr : forall fuel o, preserves (selects_are l) (some_thread_running fuel o)).
  { induction fuel; intros o; cbn [some_thread_running]; keeps. }
  assert (Hb : forall fuel o, preserves (selects_are l) (bury_threads fuel o)).
  { induction fuel; intros o; cbn [bury_threads]; keeps. }
  unfold continue_handler, post_continue_hook. keeps. now apply preserves_modify.
Qed.

Lemma state_selects a b : preserves (selects_are l) (state_handler a b).
Proof.
  assert (Hr : forall fuel o, preserves (selects_are l) (thread_states fuel o)).
  { induction fuel; intros o; cbn [thread_states]; keeps. }
  unfold state_handler. keeps.
Qed.
Hint Resolve continue_selects state_selects : keeps.

Lemma process_handlers_selects n h a b : request_handlers !! n = Some h -> preserves (selects_are l) (h a b).
Proof.
  intros Hh. unfold request_handlers in Hh.
  repeat (destruct n as [|n];
    [injection Hh as <-; unfold invalid_handler, read_handler, write_handler, breakpoint_create_handler,
       breakpoint_install_handler, breakpoint_remove_handler, breakpoint_delete_handler, read_breakpoint,
       read_breakpoint_addr; keeps|]). discriminate.
Qed.

Lemma thread_handlers_selects n h a b thr :
  thr_request_handlers !! n = Some h -> preserves (selects_are l) (h a b thr).
Proof.
  intros Hh. unfold thr_request_handlers in Hh.
  repeat (destruct n as [|n];
    [injection Hh as <-; unfold thr_invalid_handler, read_register_handler, write_register_handler,
       thr_state_handler, thr_suspend_handler, thr_resume_handler, next_instr_handler, single_step_handler,
       of_option; keeps|]). discriminate.
Qed.

Lemma report_failure_selects fd type r : preserves (selects_are l) (report_failure fd type r).
Proof. unfold report_failure. keeps. Qed.
Hint Resolve report_failure_selects : keeps.

Lemma execute_request_selects thr : preserves (selects_are l) (execute_request thr).
Proof.
  unfold execute_request. destruct thr as [p|].
  - apply preserves_bind; [keeps|]. intros t. unfold handle_thread_request.
    apply preserves_bind; [keeps|]. intros [r ty]. apply preserves_bind; [|intros ?; keeps].
    destruct (negb _); [keeps|]. destruct (thr_request_handlers !! _) eqn:E; [|keeps].
    apply preserves_bind; [eapply thread_handlers_selects; exact E|keeps].
  - do 2 (apply preserves_bind; [keeps|]; intros ?). unfold handle_process_request.
    apply preserves_bind; [keeps|]. intros [r ty]. apply preserves_bind; [|intros ?; keeps].
    destruct (negb _); [keeps|]. destruct (request_handlers !! _) eqn:E; [|keeps].
    apply preserves_bind; [eapply process_handlers_selects; exact E|keeps].
Qed.
End Selects.

(** ** Waiting *)

(** A computation that only reads the state. *)
Lemma pure_keeps {A} (m : ST udirt A) :
  (forall s0, preserves (eq s0) m) -> forall s a s', m s = Ret a s' -> s' = s.
Proof. intros Hm s a s' H. symmetry. eapply Hm; [reflexivity|exact H]. Qed.

Lemma load_pure p s0 : preserves (eq s0) (on_thrs (thr_load p)).
Proof.
  intros s a s' <-. unfold on_thrs, zoom, thr_load. destruct (thr_heap (u_thrs s0) !! p); [|discriminate].
  rewrite put_thrs_get. now injection 1.
Qed.

Lemma list_pure s0 : preserves (eq s0) (on_thrs get_thread_list).
Proof. intros s a s' <-. unfold get_thread_list. rewrite on_thrs_gets. now injection 1. Qed.
#[export] Hint Resolve load_pure list_pure : keeps.

Lemma fill_pure fuel s0 : forall iter rs mx, preserves (eq s0) (fill_read_set fuel iter rs mx).
Proof. induction fuel; intros iter rs mx; cbn [fill_read_set]; keeps. Qed.

Lemma ready_pure fuel s0 : forall iter cs, preserves (eq s0) (ready_thread fuel iter cs).
Proof. induction fuel; intros iter cs; cbn [ready_thread]; keeps. Qed.
#[export] Hint Resolve fill_pure ready_pure : keeps.

(** The part of the loop after [select]. *)
Lemma select_consumes n rs s v s' :
  select_ n rs s = Ret v s' -> exists e l, selects s = e :: l /\ s' = put_selects l s.
Proof. unfold select_. destruct (selects s) as [|[| | |] l]; [discriminate|..]; injection 1 as <- <-; eauto. Qed.

Lemma select_loop_consumes fuel mx rs : forall s v s',
  select_loop fuel mx rs s = Ret v s' ->
  exists l, s' = put_selects l s /\ (length l < length (selects s))%nat.
Proof.
  induction fuel as [|fuel IH]; intros s v s'; cbn [select_loop]; [discriminate|]. intros H.
  apply bind_inv in H as (r & s1 & H1 & H2). apply select_consumes in H1 as (e & l & Hl & ->).
  assert (Hdone : s' = put_selects l s -> exists l0, s' = put_selects l0 s /\ (length l0 < length (selects s))%nat).
  { intros ->. exists l. rewrite Hl. cbn. auto. }
  destruct r as [errno|cs].
  - destruct (errno =? EINTR); [|now minv; apply Hdone].
    apply IH in H2 as (l' & -> & Hlen). exists l'. cbn in Hlen. rewrite Hl. cbn. split; [done|lia].
  - apply Hdone. eapply pure_keeps; [|exact H2]. intros s0. keeps.
Qed.

Lemma block_consumes thr s v s' :
  block_for_request thr s = Ret v s' ->
  exists l, s' = put_selects l s /\ (length l < length (selects s))%nat.
Proof.
  unfold block_for_request. rewrite bind_gets. destruct (negb _); [discriminate|]. intros H.
  apply bind_inv in H as (iter & s1 & H1 & H). apply (pure_keeps _ (list_pure)) in H1 as ->.
  rewrite bind_gets in H. apply bind_inv in H as ([rs mx] & s2 & H2 & H).
  apply (pure_keeps _ (fun s0 => fill_pure _ s0 _ _ _)) in H2 as ->.
  rewrite bind_gets in H. apply bind_inv in H as ([r o] & s3 & H3 & H).
  apply select_loop_consumes in H3. now minv.
Qed.

(** ** Sessions *)

Section Sessions.
Context `{LC : Libc} `{LB : Libcbor} `{TG : Target} `{UD : Udis86}.

(** A conversation with the debugger, round by round: it ends when waiting
    fails, with a continue request, or with an error. *)
Inductive session : option ptr -> udirt -> Z -> option ptr -> udirt -> Prop :=
| session_no_wait thr s r thr1 s1 s2 :
    block_for_request thr s = Ret (r, thr1) s1 -> r <> 0 ->
    set_errmsg "failed to wait for request" [] s1 = Ret tt s2 ->
    session thr s RESULT_ERROR thr1 s2
| session_last thr s thr1 s1 r ty s2 :
    block_for_request thr s = Ret (0, thr1) s1 -> execute_request thr1 s1 = Ret (r, ty) s2 ->
    ty = Z_of_request UDI_REQ_CONTINUE \/ r = RESULT_ERROR ->
    session thr s r thr1 s2
| session_more thr s thr1 s1 r ty s2 r' thr' s' :
    block_for_request thr s = Ret (0, thr1) s1 -> execute_request thr1 s1 = Ret (r, ty) s2 ->
    ty <> Z_of_request UDI_REQ_CONTINUE -> r <> RESULT_ERROR ->
    session thr1 s2 r' thr' s' -> session thr s r' thr' s'.

(** Whether the loop goes on. *)
Lemma more_reqs_spec r ty :
  (if ty =? Z_of_request UDI_REQ_CONTINUE then false
   else if negb (r =? RESULT_SUCCESS) then
          if r =? RESULT_FAILURE then true else if r =? RESULT_ERROR then false else true
        else true)
  = negb ((ty =? Z_of_request UDI_REQ_CONTINUE) || (r =? RESULT_ERROR)).
Proof.
  destruct (ty =? Z_of_request UDI_REQ_CONTINUE); [done|]. cbn [orb].
  unfold RESULT_SUCCESS, RESULT_FAILURE, RESULT_ERROR. destruct (Z.eqb_spec r 0) as [->|]; [done|]. cbn [negb].
  destruct (Z.eqb_spec r (-1)) as [->|]; [reflexivity|]. now destruct (r =? -2).
Qed.

Lemma command_loop_session fuel : forall thr s r thr' s',
  command_loop fuel thr s = Ret (r, thr') s' -> session thr s r thr' s'.
Proof.
  induction fuel as [|fuel IH]; intros thr s r thr' s'; cbn [command_loop]; [discriminate|]. intros H.
  apply bind_inv in H as ([rb thr1] & s1 & Hb & H). cbv beta iota in H.
  destruct (Z.eqb_spec rb 0) as [->|Hrb]; cbn [negb] in H.
  - apply bind_inv in H as ([re ty] & s2 & He & H). cbv beta iota zeta in H. rewrite more_reqs_spec in H.
    destruct ((ty =? Z_of_request UDI_REQ_CONTINUE) || (re =? RESULT_ERROR)) eqn:Hm; cbn [negb] in H.
    + minv. eapply session_last; [exact Hb|exact He|]. apply orb_true_iff in Hm. lia.
    + apply orb_false_iff in Hm. eapply session_more; [exact Hb|exact He|lia|lia|eauto].
  - apply bind_inv in H as ([] & s2 & He & H). minv. eapply session_no_wait; eauto.
Qed.

(** The fuel is enough: every session is served to its end. *)
Lemma session_command_loop thr s r thr' s' :
  session thr s r thr' s' -> forall fuel, (length (selects s) < fuel)%nat ->
  command_loop fuel thr s = Ret (r, thr') s'.
Proof.
  induction 1 as [thr s rb thr1 s1 s2 Hb Hrb He|thr s thr1 s1 re ty s2 Hb He Hm
                 |thr s thr1 s1 re ty s2 r' thr' s' Hb He Hty Hre Hs IH];
    intros [|fuel] Hf; try lia; cbn [command_loop]; mstep_with Hb.
  - replace (rb =? 0) with false by lia. cbn [negb]. now mstep_with He.
  - change (negb (0 =? 0)) with false. cbv iota. mstep_with He. cbv zeta. rewrite more_reqs_spec.
    replace ((ty =? Z_of_request UDI_REQ_CONTINUE) || (re =? RESULT_ERROR)) with true; [done|].
    symmetry. apply orb_true_iff. lia.
  - change (negb (0 =? 0)) with false. cbv iota. mstep_with He. cbv zeta. rewrite more_reqs_spec.
    replace ((ty =? Z_of_request UDI_REQ_CONTINUE) || (re =? RESULT_ERROR)) with false.
    + cbn [negb]. apply IH. apply block_consumes in Hb as (l & -> & Hl).
      pose proof (execute_request_selects l thr1 (put_selects l s) _ _ eq_refl He) as Hsel. unfold selects_are in Hsel.
      rewrite Hsel. lia.
    + symmetry. apply orb_false_iff. lia.
Qed.

(** A request to a thread never continues the process. *)
Lemma thread_continue_error p s r s' :
  execute_request (Some p) s = Ret (r, Z_of_request UDI_REQ_CONTINUE) s' -> r = RESULT_ERROR.
Proof.
  unfold execute_request, handle_thread_request. intros H.
  apply bind_inv in H as (t & s1 & _ & H). apply bind_inv in H as ([rt ty] & s2 & _ & H).
  apply bind_inv in H as ([r1 ty1] & s3 & H3 & H). apply bind_inv in H as (r2 & s4 & H4 & H). minv.
  destruct (negb (rt =? RESULT_SUCCESS)); [minv; discriminate|].
  destruct (thr_request_handlers !! _) as [h|] eqn:E; [|discriminate].
  apply bind_inv in H3 as (r3 & s5 & H3 & H5). minv.
  replace (Z_of_request UDI_REQ_CONTINUE) with 1 in E by reflexivity. injection E as <-.
  unfold thr_invalid_handler in H3. apply bind_inv in H3 as ([] & s6 & _ & H3). minv.
  unfold report_failure in H4. cbn [negb Z.eqb RESULT_ERROR RESULT_SUCCESS Pos.eqb] in H4.
  apply bind_inv in H4 as (er & s7 & _ & H4). cbn [andb negb] in H4. now minv.
Qed.

(** C19: only a continue request to the process gives control back to the
    debuggee without an error. Whatever the debugger sends before, when the
    loop returns a result other than an error, the last request it served
    was a continue request for the process, and that result is its result. *)
Theorem only_continue_resumes (thr : option ptr) (s : udirt) (r : Z) (thr' : option ptr) (s' : udirt) :
  wait_and_execute_command thr s = Ret (r, thr') s' -> r <> RESULT_ERROR ->
  thr' = None /\
  exists s1, handle_process_request (proc_request_handle s1) (proc_response_handle s1)
               (Z_of_request UDI_REQ_INVALID) s1
             = Ret (r, Z_of_request UDI_REQ_CONTINUE) s'.
Proof.
  unfold wait_and_execute_command. rewrite bind_gets. intros Hs Hr. apply command_loop_session in Hs.
  induction Hs as [|thr s thr1 s1 re ty s2 Hb He Hm|]; [done| |auto].
  destruct Hm as [->|]; [|done]. destruct thr1 as [p|]; [now apply thread_continue_error in He|].
  split; [done|]. exists s1. exact He.
Qed.

(** C35: the error message never overflows its buffer. Every request, whatever
    the bytes the debugger sends, and with it every session, leaves an error
    message that fits with its terminator. *)
Theorem error_message_fits (thr : option ptr) (s s' : udirt) v :
  fits s -> wait_and_execute_command thr s = Ret v s' -> fits s'.
Proof.
  unfold wait_and_execute_command. rewrite bind_gets. destruct v as [r thr']. intros Hf Hs.
  apply command_loop_session in Hs. revert Hf.
  assert (Hblk : forall thr s v s1, block_for_request thr s = Ret v s1 -> fits s -> fits s1).
  { clear. intros thr s v s1 Hb Hf. apply block_consumes in Hb as (l & -> & _). exact Hf. }
  assert (Hex : forall thr, preserves fits (execute_request thr)) by (intros; unfold execute_request; keeps).
  induction Hs as [thr s rb thr1 s1 s2 Hb Hrb He|thr s thr1 s1 re ty s2 Hb He Hm
                  |thr s thr1 s1 re ty s2 r' thr' s' Hb He Hty Hre Hs IH]; intros Hf.
  - eapply set_msg_fits; [|exact He]. eauto.
  - eapply Hex; [|exact He]. eauto.
  - apply IH. eapply Hex; [|exact He]. eauto.
Qed.
End Sessions.

(** ** Whose request is served next *)

(** The request descriptors of the live threads. *)
Definition watched (ts : list thread) : gset Z :=
  list_to_set (request_handle <$> filter (fun t => dead t = false) ts).

Definition handles_ok (s : thrs) (ps : list ptr) : Prop :=
  Forall (fun t => fd_ok (request_handle t) = true) (blocks s ps).

Lemma fill_read_set_spec s : forall fuel o ps rs mx,
  thr_chain (thr_heap (u_thrs s)) o ps -> (length ps < fuel)%nat -> handles_ok (u_thrs s) ps ->
  (forall x, x ∈ rs -> x <= mx) ->
  exists mx', fill_read_set fuel o rs mx s = Ret (watched (blocks (u_thrs s) ps) ∪ rs, mx') s /\
    forall x, x ∈ watched (blocks (u_thrs s) ps) ∪ rs -> x <= mx'.
Proof.
  intros fuel o ps rs mx Hc. revert fuel rs mx.
  induction Hc as [|p t ps Hp Hc IH]; intros [|fuel] rs mx Hf Hok Hmx; cbn in Hf; try lia; cbn [fill_read_set].
  - exists mx. change (watched (blocks _ [])) with (∅ : gset Z). rewrite (union_empty_l_L (C := gset Z)). split; [reflexivity|]. intros x Hx. apply Hmx. set_solver.
  - unfold handles_ok in *. cbn [blocks omap list_omap] in *. rewrite Hp in *.
    apply Forall_cons in Hok as [Ht Hok]. mstep_with (on_thrs_load s p t Hp). unfold watched at 1 2.
    rewrite filter_cons. destruct (dead t) eqn:Hd; cbn [negb].
    + rewrite decide_False by done. apply (IH fuel rs mx); [lia|done|done].
    + rewrite decide_True by done. rewrite Ht. cbn [negb fmap list_fmap list_to_set].
      destruct (IH fuel ({[request_handle t]} ∪ rs) (if request_handle t >? mx then request_handle t else mx))
        as (mx' & Hr & Hb); [lia|done| |].
      { intros x Hx. apply elem_of_union in Hx as [Hx|Hx].
        - apply elem_of_singleton in Hx as ->. destruct (Z.gtb_spec (request_handle t) mx); lia.
        - apply Hmx in Hx. destruct (Z.gtb_spec (request_handle t) mx); lia. }
      exists mx'. fold (watched (blocks (u_thrs s) ps)).
      replace ({[request_handle t]} ∪ watched (blocks (u_thrs s) ps) ∪ rs)
        with (watched (blocks (u_thrs s) ps) ∪ ({[request_handle t]} ∪ rs)) by set_solver.
      auto.
Qed.

(** The first thread of the list with a request. *)
Fixpoint first_ready (s : thrs) (ps : list ptr) (cs : gset Z) : option ptr :=
  match ps with
  | [] => None
  | p :: ps =>
      match thr_heap s !! p with
      | Some t => if bool_decide (request_handle t ∈ cs) then Some p else first_ready s ps cs
      | None => None
      end
  end.

Lemma ready_thread_spec s cs : forall fuel o ps,
  thr_chain (thr_heap (u_thrs s)) o ps -> (length ps < fuel)%nat -> handles_ok (u_thrs s) ps ->
  ready_thread fuel o cs s = Ret (first_ready (u_thrs s) ps cs) s.
Proof.
  intros fuel o ps Hc. revert fuel.
  induction Hc as [|p t ps Hp Hc IH]; intros [|fuel] Hf Hok; cbn in Hf; try lia; cbn [ready_thread first_ready]; [done|].
  unfold handles_ok in *. cbn [blocks omap list_omap] in *. rewrite Hp in *.
  apply Forall_cons in Hok as [Ht Hok]. mstep_with (on_thrs_load s p t Hp). rewrite Ht. cbn [negb].
  case_bool_decide; [done|]. apply IH; [lia|done].
Qed.

Lemma first_ready_Some s ps cs p t :
  thr_inv s ps -> p ∈ ps -> thr_heap s !! p = Some t -> request_handle t ∈ cs ->
  first_ready s ps cs <> None.
Proof.
  intros [Hc _ _ _]. induction Hc as [|q u ps Hq Hc IH]; intros Hin Ht Hcs; [inversion Hin|].
  cbn [first_ready]. rewrite Hq. case_bool_decide as Hb; [done|].
  apply elem_of_cons in Hin as [->|Hin]; [congruence|auto].
Qed.

(** The loop on [select] once something is ready. *)
Definition served (s : udirt) (ps : list ptr) (cs : gset Z) : option ptr :=
  if bool_decide (proc_request_handle s ∈ cs) then None else first_ready (u_thrs s) ps cs.

Lemma select_loop_ready n r q mx rs ps : forall s fuel,
  selects s = replicate n SelIntr ++ SelReady r :: q -> (n < fuel)%nat ->
  thr_inv (u_thrs s) ps -> handles_ok (u_thrs s) ps -> (forall x, x ∈ rs -> x <= mx) ->
  r ∩ rs <> ∅ -> (proc_request_handle s ∈ r ∩ rs \/ first_ready (u_thrs s) ps (r ∩ rs) <> None) ->
  select_loop fuel mx rs s = Ret (RESULT_SUCCESS, Some (served s ps (r ∩ rs))) (put_selects q s).
Proof.
  induction n as [|n IH]; intros s [|fuel] Hsel Hf Hi Hok Hmx Hne Hsome; try lia; cbn [select_loop];
    unfold bind at 1, select_ at 1; rewrite Hsel; cbn [replicate app].
  - assert (filter (fun fd => fd < mx + 1) (r ∩ rs) = r ∩ rs) as ->.
    { apply set_eq. intros x. rewrite elem_of_filter. split; [tauto|]. intros Hx. split; [|done].
      apply elem_of_intersection in Hx as [_ Hx]. apply Hmx in Hx. lia. }
    rewrite bool_decide_eq_false_2 by done. set (s1 := put_selects q s). mstep. unfold served.
    change (proc_request_handle s1) with (proc_request_handle s).
    case_bool_decide as Hp; [done|]. unfold get_thread_list. mstep_with (on_thrs_gets threads s1). mstep.
    rewrite (bind_Ret _ _ _ _ _ (ready_thread_spec s1 _ _ _ ps (inv_chain _ _ Hi) (inv_fuel _ _ Hi) Hok)).
    change (u_thrs s1) with (u_thrs s). destruct Hsome as [|Hsome]; [done|].
    now destruct (first_ready _ _ _).
  - change (EINTR =? EINTR) with true. cbv iota.
    apply (IH (put_selects (replicate n SelIntr ++ SelReady r :: q) s)); [done|lia|done..].
Qed.

Lemma watching_ready s ps r :
  thr_inv (u_thrs s) ps ->
  r ∩ (watched (blocks (u_thrs s) ps) ∪ {[proc_request_handle s]}) <> ∅ ->
  proc_request_handle s ∈ r ∩ (watched (blocks (u_thrs s) ps) ∪ {[proc_request_handle s]}) \/
  first_ready (u_thrs s) ps (r ∩ (watched (blocks (u_thrs s) ps) ∪ {[proc_request_handle s]})) <> None.
Proof.
  intros Hi Hne. apply set_choose_L in Hne as [x Hx]. pose proof Hx as Hx'.
  apply elem_of_intersection in Hx as [Hr Hw]. apply elem_of_union in Hw as [Hw|Hw]; [right|left; set_solver].
  apply elem_of_list_to_set, list_elem_of_fmap in Hw as (t & -> & Ht).
  apply list_elem_of_filter in Ht as [_ Ht]. apply list_elem_of_omap in Ht as (p & Hp & Hpt).
  eapply first_ready_Some; eauto.
Qed.

(** Whose request comes next. However often [select] is interrupted, once
    descriptors are ready the process is served first, then the threads in the
    order of the list; dead threads are not waited for. *)
Theorem block_for_request_picks (s : udirt) (ps : list ptr) (n : nat) (r : gset Z) (q : list select_event)
    (thr : option ptr) :
  let watching := watched (blocks (u_thrs s) ps) ∪ {[proc_request_handle s]} in
  thr_inv (u_thrs s) ps -> handles_ok (u_thrs s) ps -> fd_ok (proc_request_handle s) = true ->
  selects s = replicate n SelIntr ++ SelReady r :: q -> r ∩ watching <> ∅ ->
  block_for_request thr s
  = Ret (RESULT_SUCCESS, served s ps (r ∩ watching)) (put_selects q s).
Proof.
  intros watching Hi Hok Hp Hsel Hne. unfold block_for_request. mstep. rewrite Hp. cbn [negb].
  unfold get_thread_list. mstep_with (on_thrs_gets threads s). mstep.
  destruct (fill_read_set_spec s _ _ ps {[proc_request_handle s]} (proc_request_handle s)
              (inv_chain _ _ Hi) (inv_fuel _ _ Hi) Hok) as (mx & Hfill & Hmx); [set_solver by lia|].
  mstep_with Hfill. mstep. fold watching in Hmx |- *.
  rewrite (bind_Ret _ _ _ _ _ (select_loop_ready n r q mx watching ps s (select_fuel s) Hsel
             ltac:(unfold select_fuel; rewrite Hsel, length_app, length_replicate; cbn; lia) Hi Hok Hmx Hne
             (watching_ready s ps r Hi Hne))).
  reflexivity.
Qed.
