(* ===== verification/TypeSpec.v ===== *)
(** * The types of the state

    C keeps the register context of a thread, the table of breakpoints, the
    bytes a breakpoint replaces and the items of a message in arrays of fixed
    length, and indexes them with numbers that come from the debugger or from
    the debuggee. This file gives the state its types and shows that they are
    kept and that a well typed state is not indexed out of bounds: by the
    request handlers whatever a debugger sends, and by the handling of an
    event. *)

From Stdlib Require Import String.
From stdpp Require Import gmap.
From S2P Require Import Prelude External Types Barrier Format Memory Breakpoints Registers X86.
From S2P Require Import Io Cbor Requests Threads State Process Signals Handlers Events Posix Sync.

(** ** The judgement

    [wt U P m Q]: run from a state with [P], [m] returns a value with [Q] in a
    state with [P], or is undefined in a way [U] allows, or does not return. *)

Definition wt {S A} (U : ub -> Prop) (P : S -> Prop) (m : ST S A) (Q : A -> Prop) : Prop :=
  forall s, P s ->
    match m s with
    | Ret a s' => P s' /\ Q a
    | Undef u => U u
    | Aborted _ | Running _ => True
    end.

Definition anything {A} (x : A) : Prop := True.
Definition in_bounds (u : ub) : Prop := u <> OutOfBounds.

Section Rules.
Context {S : Type} {U : ub -> Prop} {P : S -> Prop}.

Lemma wt_ret {A} (a : A) (Q : A -> Prop) : Q a -> wt U P (ret a) Q.
Proof. now intros Ha s Hs. Qed.

Lemma wt_gets {A} (f : S -> A) : wt U P (gets f) anything.
Proof. now intros s Hs. Qed.

Lemma wt_undef {A} u (Q : A -> Prop) : U u -> wt U P (undef u) Q.
Proof. now intros Hu s Hs. Qed.

Lemma wt_abort {A} (Q : A -> Prop) : wt U P udi_abort Q.
Proof. now intros s Hs. Qed.

Lemma wt_running {A} (Q : A -> Prop) : wt U P running Q.
Proof. now intros s Hs. Qed.

Lemma wt_modify f : (forall s, P s -> P (f s)) -> wt U P (modify f) anything.
Proof. intros Hf s Hs. split; [now apply Hf|done]. Qed.

Lemma wt_bind {A B} (m : ST S A) (k : A -> ST S B) Q R :
  wt U P m Q -> (forall a, Q a -> wt U P (k a) R) -> wt U P (bind m k) R.
Proof.
  intros Hm Hk s Hs. specialize (Hm s Hs). unfold bind. destruct (m s); [|done..].
  destruct Hm as [Hs' Ha]. exact (Hk _ Ha _ Hs').
Qed.

Lemma wt_mono {A} (m : ST S A) (Q R : A -> Prop) : wt U P m Q -> (forall a, Q a -> R a) -> wt U P m R.
Proof. intros Hm HQ s Hs. specialize (Hm s Hs). destruct (m s); [|done..]. destruct Hm. auto. Qed.

Lemma wt_zoom {T A} (PT : T -> Prop) (get : S -> T) put (m : ST T A) Q :
  (forall s, P s -> PT (get s)) -> (forall s t, P s -> PT t -> P (put t s)) ->
  wt U PT m Q -> wt U P (zoom get put m) Q.
Proof.
  intros Hg Hp Hm s Hs. specialize (Hm (get s) (Hg s Hs)). unfold zoom.
  destruct (m (get s)); [|done..]. destruct Hm. auto.
Qed.

Lemma wt_Ret {A} (m : ST S A) (Q : A -> Prop) s a s' : wt U P m Q -> P s -> m s = Ret a s' -> P s' /\ Q a.
Proof. intros Hm Hs He. specialize (Hm s Hs). now rewrite He in Hm. Qed.
End Rules.

(** What holds of every way to be undefined holds in particular of those. *)
Lemma wt_any {S A} U (P : S -> Prop) (m : ST S A) Q : wt U P m Q -> wt anything P m Q.
Proof. intros Hm s Hs. specialize (Hm s Hs). now destruct (m s). Qed.

Create HintDb wt.
#[export] Hint Resolve wt_gets wt_abort wt_running : wt.
#[export] Hint Extern 1 (wt _ _ (ret _) _) => apply wt_ret; solve [exact I | assumption | cbn; auto] : wt.
#[export] Hint Extern 1 (wt _ _ (undef _) _) => apply wt_undef; solve [exact I | discriminate] : wt.

(** Walk through a computation: an operation with a lemma, or a branch. *)
Ltac wt_steps :=
  repeat
    (cbv beta zeta;
     lazymatch goal with
     | |- wt _ _ (bind _ _) _ =>
         first [ eapply wt_bind; [solve [eauto 4 with wt nocore]|intros ? ?; cbv beta in *]
               | apply (wt_bind _ _ anything); [|intros ? _] ]
     | |- wt _ _ (if ?b then _ else _) _ => destruct b
     | |- wt _ _ (match ?x with _ => _ end) _ => destruct x
     | |- wt _ _ _ _ => solve [eauto 4 with wt nocore | eapply wt_mono; [solve [eauto 4 with wt nocore]|done]]
     end).

(** ** Memory *)

Section Memory.
Context `{LC : Libc}.

Lemma set_errmsg_wt U P format args :
  (forall r m, P r -> P (Rt m (allocs r))) -> U BadFormat -> wt U P (udi_set_errmsg format args) anything.
Proof. intros HP HU s Hs. unfold udi_set_errmsg. destruct (errmsg_text format args); [split; [auto|done]|done]. Qed.

Lemma set_errmsg_bounds format args : wt in_bounds anything (udi_set_errmsg format args) anything.
Proof. now apply set_errmsg_wt. Qed.

Lemma malloc_bounds : wt in_bounds anything udi_malloc anything.
Proof. intros s _. unfold udi_malloc. now destruct (allocs s). Qed.
Hint Resolve set_errmsg_bounds malloc_bounds : wt.

Lemma on_rt_bounds {A} (m : ST rt A) Q : wt in_bounds anything m Q -> wt in_bounds anything (on_rt m) Q.
Proof. now apply wt_zoom. Qed.

Lemma modify_any {S} U (f : S -> S) : wt U anything (modify f) anything.
Proof. now apply wt_modify. Qed.
Hint Resolve on_rt_bounds modify_any : wt.

Lemma setsigmask_bounds how set : wt in_bounds anything (setsigmask how set) anything.
Proof. intros s _. unfold setsigmask. destruct (sigmask_rc s) as [|rc ?]; cbn; [done|]. now destruct (rc =? 0). Qed.
Hint Resolve setsigmask_bounds : wt.

Lemma decode_fault_bounds code : wt in_bounds anything (decode_memory_access_event code) anything.
Proof.
  unfold decode_memory_access_event, is_performing_mem_access, get_mem_access_addr, get_mem_access_size,
    abort_mem_access. wt_steps.
Qed.

(** The library's side of a copy has room for it. *)
Definition has_room (dest src : place) (buf : list Z) (n : nat) : Prop :=
  dest = Library \/ src = Library -> (n <= length buf)%nat.

Lemma copy_byte_room dest src buf n i s :
  has_room dest src buf n -> (i < n)%nat ->
  match copy_byte dest src buf i s with
  | Some (inl (buf', _)) => length buf' = length buf
  | Some (inr _) => True
  | None => False
  end.
Proof.
  intros Hr Hi. unfold copy_byte, load_place. destruct src as [a|].
  - destruct (load _ _) as [b|]; [|done]. unfold store_place. destruct dest as [d|].
    + now destruct (store _ _ _).
    + specialize (Hr (or_introl eq_refl)). rewrite decide_True by lia. apply length_insert.
  - specialize (Hr (or_intror eq_refl)). destruct (lookup_lt_is_Some_2 buf i) as [b ->]; [lia|]. cbn.
    unfold store_place. destruct dest as [d|].
    + now destruct (store _ _ _).
    + rewrite decide_True by lia. apply length_insert.
Qed.

Lemma copy_loop_bounds fuel dest src n : forall i buf,
  has_room dest src buf n ->
  wt in_bounds anything (copy_loop fuel dest src n i buf) (fun buf' => length buf' = length buf).
Proof.
  induction fuel as [|fuel IH]; intros i buf Hr s _; cbn [copy_loop]; [done|].
  case_decide as Hi; [|done]. pose proof (copy_byte_room dest src buf n i s Hr Hi) as Hb.
  destruct (copy_byte dest src buf i s) as [[[buf' s']|code]|]; [| |done].
  - assert (has_room dest src buf' n) as Hr' by (unfold has_room; now rewrite Hb).
    specialize (IH (Datatypes.S i) buf' Hr' s' I). destruct (copy_loop _ _ _ _ _ _ _); [|done..]. split; [done|]. destruct IH. congruence.
  - pose proof (decode_fault_bounds code s I) as Hd. destruct (decode_memory_access_event code s) as [ev s'| | |]; [|done..].
    destruct (me_abort ev); [done|]. now apply IH.
Qed.

Lemma udi_memcpy_bounds dest src buf n :
  has_room dest src buf n ->
  wt in_bounds anything (udi_memcpy dest src buf n) (fun x => length x.2 = length buf).
Proof.
  intros Hr. pose proof (copy_loop_bounds (copy_fuel n) dest src n 0 buf Hr) as Hl.
  assert (wt in_bounds anything (abortable_memcpy dest src buf n) (fun x => length x.2 = length buf)) as Ha
    by (unfold abortable_memcpy; wt_steps).
  assert (wt in_bounds anything pre_mem_access_hook anything) by (unfold pre_mem_access_hook; wt_steps).
  assert (forall set, wt in_bounds anything (post_mem_access_hook set) anything)
    by (intros; unfold post_mem_access_hook; wt_steps).
  unfold udi_memcpy. wt_steps.
Qed.

Lemma read_memory_bounds dest src n :
  (n <= length dest)%nat ->
  wt in_bounds anything (read_memory dest src n) (fun x => length x.2 = length dest).
Proof. intros Hn. unfold read_memory. wt_steps. now apply udi_memcpy_bounds. Qed.

Lemma write_memory_bounds dest src n :
  (n <= length src)%nat -> wt in_bounds anything (write_memory dest src n) anything.
Proof.
  intros Hn. pose proof (udi_memcpy_bounds (Debuggee dest) Library src n (fun _ => Hn)).
  unfold write_memory. wt_steps.
Qed.
End Memory.
#[export] Hint Resolve set_errmsg_bounds malloc_bounds on_rt_bounds modify_any setsigmask_bounds
  decode_fault_bounds : wt.

(** ** Breakpoints *)

Record typed_bps (b : bps) : Prop := {
  typed_table : length (breakpoints b) = Z.to_nat BREAKPOINT_HASH_SIZE;
  typed_saved : map_Forall (fun _ x => length (saved_bytes x) = 8%nat) (bp_heap b)
}.

Lemma hash_in_table a : (Z.to_nat (breakpoint_hash a) < Z.to_nat BREAKPOINT_HASH_SIZE)%nat.
Proof.
  unfold breakpoint_hash, BREAKPOINT_HASH_SIZE. pose proof (Z.mod_pos_bound a 256 ltac:(lia)).
  rewrite u32_small; lia.
Qed.

Section Breakpoints.
Context `{LC : Libc}.

Lemma on_acc_typed {A} (m : ST access A) Q :
  wt in_bounds anything m Q -> wt in_bounds typed_bps (on_acc m) Q.
Proof. apply wt_zoom; [done|]. intros s t [H1 H2] _. now split. Qed.

Lemma bp_load_typed p : wt in_bounds typed_bps (bp_load p) (fun b => length (saved_bytes b) = 8%nat).
Proof.
  intros s Hs. unfold bp_load. destruct (bp_heap s !! p) eqn:E; [|done].
  split; [done|]. eapply (typed_saved s Hs), E.
Qed.

Lemma bp_update_typed p f :
  (forall b, length (saved_bytes b) = 8%nat -> length (saved_bytes (f b)) = 8%nat) ->
  wt in_bounds typed_bps (bp_update p f) anything.
Proof.
  intros Hf. unfold bp_update. eapply wt_bind; [apply bp_load_typed|]. intros b Hb.
  apply wt_modify. intros s [H1 H2]. split; [done|]. cbn. apply map_Forall_insert_2; auto.
Qed.

Lemma bp_free_typed p : wt in_bounds typed_bps (bp_free p) anything.
Proof. apply wt_modify. intros s [H1 H2]. split; [done|]. now apply map_Forall_delete. Qed.

Lemma bp_alloc_typed b : length (saved_bytes b) = 8%nat -> wt in_bounds typed_bps (bp_alloc b) anything.
Proof. intros Hb s [H1 H2]. split; [|done]. split; [done|]. now apply map_Forall_insert_2. Qed.

Lemma bucket_typed a : wt in_bounds typed_bps (bucket (breakpoint_hash a)) anything.
Proof.
  intros s Hs. unfold bucket. destruct (lookup_lt_is_Some_2 (breakpoints s) (Z.to_nat (breakpoint_hash a))) as [x ->];
    [|done]. rewrite (typed_table s Hs). apply hash_in_table.
Qed.

Lemma set_bucket_typed a o : wt in_bounds typed_bps (set_bucket (breakpoint_hash a) o) anything.
Proof.
  intros s Hs. unfold set_bucket. destruct (lookup_lt_is_Some_2 (breakpoints s) (Z.to_nat (breakpoint_hash a))) as [x ->].
  - rewrite (typed_table s Hs). apply hash_in_table.
  - destruct Hs as [H1 H2]. split; [|done]. split; [|done]. cbn. now rewrite length_insert.
Qed.
Hint Resolve on_acc_typed bp_load_typed bp_free_typed bucket_typed set_bucket_typed : wt.
Hint Extern 1 (wt _ _ (bp_update _ _) _) => apply bp_update_typed; auto; fail : wt.
Hint Extern 1 (wt _ _ (bp_alloc _) _) => apply bp_alloc_typed; reflexivity : wt.

Lemma find_breakpoint_typed a : wt in_bounds typed_bps (find_breakpoint a) anything.
Proof.
  assert (Hw : forall fuel o, wt in_bounds typed_bps (find_walk fuel o a) anything).
  { induction fuel; intros o; cbn [find_walk]; wt_steps. }
  unfold find_breakpoint. wt_steps.
Qed.

Lemma create_breakpoint_typed a : wt in_bounds typed_bps (create_breakpoint a) anything.
Proof.
  assert (Hw : forall fuel p q, wt in_bounds typed_bps (create_walk fuel p q) anything).
  { induction fuel; intros p q; cbn [create_walk]; wt_steps. }
  unfold create_breakpoint. wt_steps.
Qed.

Lemma write_saved_bytes_typed p : wt in_bounds typed_bps (write_saved_bytes p) anything.
Proof.
  unfold write_saved_bytes. wt_steps. apply on_acc_typed, write_memory_bounds. lia.
Qed.

Lemma write_breakpoint_instruction_typed p : wt in_bounds typed_bps (write_breakpoint_instruction p) anything.
Proof.
  assert (forall a, wt in_bounds typed_bps (on_acc (write_memory a [BREAKPOINT_INSN] 1)) anything)
    by (intros; apply on_acc_typed, write_memory_bounds; cbn; lia).
  unfold write_breakpoint_instruction. eapply wt_bind; [apply bp_load_typed|]. cbv beta. intros b Hb.
  destruct (in_memory b); [wt_steps|].
  eapply wt_bind; [apply on_acc_typed, read_memory_bounds; lia|]. intros [result buf] Hbuf. cbn in Hbuf.
  eapply wt_bind; [apply bp_update_typed|intros ? _; wt_steps]. intros x _. cbn. congruence.
Qed.
Hint Resolve find_breakpoint_typed create_breakpoint_typed write_saved_bytes_typed
  write_breakpoint_instruction_typed : wt.

Lemma install_breakpoint_typed p : wt in_bounds typed_bps (install_breakpoint p) anything.
Proof. unfold install_breakpoint. wt_steps. Qed.

Lemma remove_breakpoint_typed p : wt in_bounds typed_bps (remove_breakpoint p) anything.
Proof. unfold remove_breakpoint. wt_steps. Qed.

Lemma remove_for_continue_typed p : wt in_bounds typed_bps (remove_breakpoint_for_continue p) anything.
Proof. unfold remove_breakpoint_for_continue. wt_steps. Qed.
Hint Resolve install_breakpoint_typed remove_breakpoint_typed remove_for_continue_typed : wt.

Lemma delete_breakpoint_typed p : wt in_bounds typed_bps (delete_breakpoint p) anything.
Proof.
  assert (Hw : forall fuel o o' q, wt in_bounds typed_bps (delete_walk fuel o o' q) anything).
  { induction fuel; intros o o' q; cbn [delete_walk]; wt_steps. }
  unfold delete_breakpoint. wt_steps.
Qed.
End Breakpoints.
#[export] Hint Resolve on_acc_typed bp_load_typed find_breakpoint_typed create_breakpoint_typed
  install_breakpoint_typed remove_breakpoint_typed remove_for_continue_typed delete_breakpoint_typed : wt.
#[export] Hint Extern 1 (wt _ _ (bp_update _ _) _) => apply bp_update_typed; auto; fail : wt.

(** ** Descriptors and messages *)

Section Messages.
Context `{LC : Libc} `{LB : Libcbor}.

Lemma env_rt_bounds {A} (m : ST rt A) Q : wt in_bounds anything m Q -> wt in_bounds anything (env_rt m) Q.
Proof. now apply wt_zoom. Qed.

Lemma sys_read_bounds fd n : wt in_bounds anything (sys_read fd n) anything.
Proof. intros s _. unfold sys_read. destruct (e_fds s !! fd) as [c|]; [|done]. now destruct (c_in c) as [|[| |] ?]. Qed.

Lemma sys_write_bounds fd src : wt in_bounds anything (sys_write fd src) anything.
Proof.
  intros s _. unfold sys_write. destruct (e_fds s !! fd) as [c|]; [|done].
  now destruct (c_wr c) as [|[| |e] ?].
Qed.
Hint Resolve env_rt_bounds sys_read_bounds sys_write_bounds : wt.

Lemma read_from_bounds fd n : wt in_bounds anything (read_from fd n) anything.
Proof.
  assert (Hl : forall fuel dst, wt in_bounds anything (read_loop fuel fd n dst) anything).
  { induction fuel; intros dst; cbn [read_loop]; wt_steps. }
  unfold read_from. wt_steps.
Qed.

Lemma write_to_bounds fd src : wt in_bounds anything (write_to fd src) anything.
Proof.
  assert (Hl : forall fuel k, wt in_bounds anything (write_loop fuel fd src k) anything).
  { induction fuel; intros k; cbn [write_loop]; wt_steps. }
  unfold write_to, handle_pipe_write_failure. wt_steps.
Qed.
Hint Resolve read_from_bounds write_to_bounds : wt.

(** The state of a request that is being read: the current item is one of the
    [n] items, and the data so far satisfy [I]. *)
Definition rs_ok {D} (n : nat) (I : D -> Prop) (r : rstate D) : Prop :=
  (forall i, current_item r = Some i -> (i < n)%nat) /\ I (data r).

Definition callbacks_ok {D} (n : nat) (I : D -> Prop) (cbs : callbacks D) : Prop :=
  forall ev r, rs_ok n I r -> wt in_bounds anything (cbs ev r) (rs_ok n I).

Definition items_ok {D} (I : D -> Prop) (items : list (msg_item D)) : Prop :=
  forall i it, items !! i = Some it -> callbacks_ok (length items) I (item_cbs it).

Lemma invalid_callbacks_ok {D} n (I : D -> Prop) : callbacks_ok n I invalid_callbacks.
Proof. intros ev r [H1 H2]. unfold invalid_callbacks, set_invalid_error. wt_steps. now apply wt_ret. Qed.

Lemma store_value_ok {D} n (I : D -> Prop) k f r :
  rs_ok n I r -> (I (data r) -> I (f (data r))) -> wt in_bounds anything (store_value k f r) (rs_ok n I).
Proof. intros [H1 H2] Hf. apply wt_ret. split; cbn; [discriminate|auto]. Qed.

Lemma item_callbacks_ok {D} (I : D -> Prop) items :
  items_ok I items -> callbacks_ok (length items) I (item_callbacks items).
Proof.
  intros Hi ev r Hr. unfold item_callbacks.
  assert (wt in_bounds anything (check_state (event_name ev) r)
    (fun x => rs_ok (length items) I x.2 /\ forall i, x.1 = Some i -> (i < length items)%nat)) as Hc.
  { unfold check_state. destruct (error r); [now apply wt_ret|]. destruct (current_item r) eqn:E.
    - apply wt_ret. split; [done|]. cbn. intros i [= <-]. now apply (proj1 Hr).
    - wt_steps. apply wt_ret. split; [split; [done|exact (proj2 Hr)]|done]. }
  eapply wt_bind; [exact Hc|]. intros [[i|] r'] [Hr' Hlt]; [|now apply wt_ret].
  destruct (lookup_lt_is_Some_2 items i) as [it Hit]; [now apply Hlt|]. rewrite Hit. now apply (Hi i it Hit).
Qed.

Lemma find_key_lt {D} (items : list (msg_item D)) name : forall k i,
  find_key items k name = Some i -> (i < k + length items)%nat.
Proof.
  induction items as [|it items IH]; intros k i; cbn; [discriminate|].
  destruct (strncmp_eq name (key it)); [intros [= <-]; lia|]. intros Hf. apply IH in Hf. lia.
Qed.

Lemma request_data_callbacks_ok {D} (I : D -> Prop) items :
  items_ok I items -> callbacks_ok (length items) I (request_data_callbacks items).
Proof.
  intros Hi ev r Hr. pose proof (item_callbacks_ok I items Hi) as Hc. pose proof (Hc ev r Hr).
  assert (forall b c e, rs_ok (length items) I (RState b None c e (data r))) by (split; [done|apply Hr]).
  destruct ev; cbn [request_data_callbacks]; try assumption.
  - unfold request_data_string. destruct (error r); [now apply wt_ret|].
    destruct (current_item r) eqn:E; [now apply Hc|]. destruct (find_key items 0 _) eqn:Ef.
    + apply wt_ret. split; [|apply Hr]. cbn. intros i [= <-]. now apply find_key_lt in Ef.
    + wt_steps.
  - unfold request_data_map_start. destruct (error r); [now apply wt_ret|].
    destruct (current_item r) eqn:E; [now apply Hc|]. wt_steps.
Qed.

Lemma read_cbor_items_ok {D} n (I : D -> Prop) fd cbs r :
  callbacks_ok n I cbs -> rs_ok n I r ->
  wt in_bounds anything (read_cbor_items fd cbs r) (fun x => rs_ok n I x.2).
Proof.
  intros Hc Hr.
  assert (Hl : forall fuel buf mb bl cd r, rs_ok n I r ->
    wt in_bounds anything (read_items_loop fuel fd cbs buf mb bl cd r) (fun x => rs_ok n I x.2)).
  { clear r Hr. induction fuel as [|fuel IH]; intros buf mb bl cd r Hr; cbn [read_items_loop]; [wt_steps|].
    pose proof (fun ev => env_rt_bounds _ _ (Hc ev r Hr)). wt_steps. }
  unfold read_cbor_items. wt_steps.
Qed.

Lemma read_request_data_bounds {D} (I : D -> Prop) fd items (d : D) :
  items_ok I items -> I d ->
  wt in_bounds anything (read_request_data fd items d) (fun x => I x.2).
Proof.
  intros Hi Hd. assert (rs_ok (length items) I (initial_state d)) as Hr by (split; [done|exact Hd]).
  pose proof (read_cbor_items_ok _ I fd _ _ (request_data_callbacks_ok I items Hi) Hr).
  unfold read_request_data. eapply wt_bind; [eassumption|]. intros [z r] [_ Hx]. cbn in Hx. wt_steps.
Qed.

Lemma read_request_type_bounds fd type : wt in_bounds anything (read_request_type fd type) anything.
Proof.
  assert (callbacks_ok 0 anything request_type_callbacks) as Hc.
  { intros ev r Hr. pose proof (invalid_callbacks_ok 0 anything ev r Hr). unfold request_type_callbacks.
    destruct ev; solve [assumption | apply wt_ret; split; [apply Hr|done]]. }
  assert (rs_ok 0 anything (initial_state type)) as Hr by (split; done).
  pose proof (read_cbor_items_ok 0 anything fd _ _ Hc Hr). unfold read_request_type. wt_steps.
Qed.

Lemma write_cbor_item_bounds fd it name : wt in_bounds anything (write_cbor_item fd it name) anything.
Proof. unfold write_cbor_item. wt_steps. Qed.
Hint Resolve write_cbor_item_bounds : wt.

Lemma write_response_bounds fd resp req d : wt in_bounds anything (write_response fd resp req d) anything.
Proof. unfold write_response. wt_steps. Qed.
Hint Resolve write_response_bounds : wt.

Lemma write_error_response_bounds fd req : wt in_bounds anything (write_error_response fd req) anything.
Proof. unfold write_error_response. wt_steps. Qed.
End Messages.
#[export] Hint Resolve env_rt_bounds sys_read_bounds sys_write_bounds read_request_type_bounds write_response_bounds
  write_error_response_bounds : wt.

(** ** Contexts and threads *)

(** One word of type [greg_t] per register. *)
Definition ctx_typed `{Target} (c : ucontext) : Prop :=
  ctx_ok c /\ Forall (fun v => to_greg v = v) (gregs c).

#[global] Instance ctx_typed_dec `{Target} c : Decision (ctx_typed c).
Proof. unfold ctx_typed, ctx_ok. apply _. Defined.

Section Contexts.
Context `{LC : Libc} `{TO : TargetOk}.

Lemma to_greg_idem v : to_greg (to_greg v) = to_greg v.
Proof.
  unfold to_greg. destruct (WORDSIZE =? 64); [|apply i32_i32]. unfold i64.
  rewrite Z.sub_add, Z.mod_mod; lia.
Qed.

Lemma set_greg_typed off v c c' : ctx_typed c -> set_greg off v c = Some c' -> ctx_typed c'.
Proof.
  intros [Hc Hf] Hs. unfold set_greg in Hs. destruct (greg off c); [|discriminate]. injection Hs as <-.
  split; [unfold ctx_ok; cbn; now rewrite length_insert|]. cbn. apply Forall_insert; [done|]. apply to_greg_idem.
Qed.

Lemma set_greg_in_bounds {S} (P : S -> Prop) off v c :
  ctx_typed c -> 0 <= off < NGREG -> wt in_bounds P (of_option OutOfBounds (set_greg off v c)) ctx_typed.
Proof.
  intros Hc Ho. destruct (set_greg_ok c off v (proj1 Hc) Ho) as (c' & Hs & _). rewrite Hs.
  apply wt_ret. eauto using set_greg_typed.
Qed.

Lemma greg_in_bounds {S B} (P : S -> Prop) (f : Z -> B) off c :
  ctx_typed c -> 0 <= off < NGREG -> wt in_bounds P (of_option OutOfBounds (f <$> greg off c)) anything.
Proof. intros Hc Ho. destruct (greg_ok c off (proj1 Hc) Ho) as [v ->]. now apply wt_ret. Qed.

Lemma pc_in_bounds : 0 <= pc_offset < NGREG.
Proof.
  unfold pc_offset, X86_64_RIP_OFFSET, X86_EIP_OFFSET, REG_RIP, REG_EIP, NGREG.
  destruct wordsize_cases as [-> | ->]; cbn; lia.
Qed.

Context {S : Type} {P : S -> Prop}.

Lemma get_pc_bounds c : ctx_typed c -> wt in_bounds P (of_option OutOfBounds (get_pc c)) anything.
Proof. intros Hc. apply greg_in_bounds; [done|apply pc_in_bounds]. Qed.

Lemma get_trap_address_bounds c : ctx_typed c -> wt in_bounds P (of_option OutOfBounds (get_trap_address c)) anything.
Proof. intros Hc. apply greg_in_bounds; [done|apply pc_in_bounds]. Qed.

Lemma get_flags_bounds c : ctx_typed c -> wt in_bounds P (of_option OutOfBounds (get_flags c)) anything.
Proof.
  intros Hc. apply greg_in_bounds; [done|].
  unfold X86_64_FLAGS_OFFSET, X86_FLAGS_OFFSET, REG_EFL, NGREG. destruct wordsize_cases as [-> | ->]; cbn; lia.
Qed.

Lemma set_pc_typed c pc : ctx_typed c -> wt in_bounds P (of_option OutOfBounds (set_pc c pc)) ctx_typed.
Proof. intros Hc. apply set_greg_in_bounds; [done|apply pc_in_bounds]. Qed.

Lemma rewind_pc_typed c : ctx_typed c -> wt in_bounds P (of_option OutOfBounds (rewind_pc c)) ctx_typed.
Proof.
  intros Hc. unfold rewind_pc. destruct (greg_ok c pc_offset (proj1 Hc) pc_in_bounds) as [v ->].
  apply set_greg_in_bounds; [done|apply pc_in_bounds].
Qed.

Lemma ud_register_bounds reg c : ctx_typed c -> wt in_bounds P (get_register_ud_type reg c) anything.
Proof.
  intros Hc. unfold get_register_ud_type. destruct (get_reg_context_offset reg =? -1) eqn:E; [wt_steps|].
  destruct (greg_ok c (get_reg_context_offset reg) (proj1 Hc)) as [v ->]; [|wt_steps].
  revert E. unfold get_reg_context_offset, NGREG. destruct wordsize_cases as [Hw|Hw]; rewrite Hw; [|discriminate].
  cbn [Z.eqb Pos.eqb]. destruct reg; try discriminate; intros _; vm_compute; fold WORDSIZE; rewrite Hw; split; congruence.
Qed.
End Contexts.
#[export] Hint Resolve get_pc_bounds get_trap_address_bounds get_flags_bounds set_pc_typed rewind_pc_typed
  ud_register_bounds : wt.

Section Registers.
Context `{LC : Libc} `{TO : TargetOk} `{UD : Udis86}.

Definition word_value (o : option Z) : Prop := match o with Some v => 0 <= v < 2 ^ 64 | None => True end.

Lemma validate_bounds reg :
  wt in_bounds anything (validate_register reg) (fun x => (x =? 0) = arch_register reg).
Proof.
  intros r _. destruct (arch_register reg) eqn:Ha.
  - now rewrite validate_ok.
  - now rewrite validate_bad.
Qed.

Lemma get_register_typed reg c :
  ctx_typed c -> wt in_bounds anything (get_register reg c) (fun x => word_value x.2).
Proof.
  intros Hc. unfold get_register. eapply wt_bind; [apply validate_bounds|]. cbv beta. intros z Hz. rewrite Hz.
  destruct (arch_register reg) eqn:Ha; cbn [negb]; [|wt_steps].
  destruct (is_gp_register reg) eqn:Hg.
  - pose proof (gp_offset_range reg Ha Hg) as Ho. cbv zeta.
    destruct (greg_ok c _ (proj1 Hc) Ho) as [v ->].
    replace (get_udi_reg_context_offset reg >=? 0) with true by lia.
    apply (wt_bind _ _ word_value); [wt_steps; apply wt_ret, u64_range|]. intros o Hw. wt_steps.
  - destruct (fp_offset reg Ha Hg) as [-> _].
    apply (wt_bind _ _ word_value); [now apply wt_ret|]. intros o Hw. wt_steps.
Qed.

Lemma set_register_typed reg v c :
  ctx_typed c -> wt in_bounds anything (set_register reg v c) (fun x => ctx_typed x.2).
Proof.
  intros Hc. unfold set_register. eapply wt_bind; [apply validate_bounds|]. cbv beta. intros z Hz. rewrite Hz.
  destruct (arch_register reg) eqn:Ha; cbn [negb]; [|wt_steps].
  destruct (is_gp_register reg) eqn:Hg.
  - pose proof (gp_offset_range reg Ha Hg) as Ho. cbv zeta.
    replace (get_udi_reg_context_offset reg >=? 0) with true by lia.
    eapply wt_bind; [now apply set_greg_in_bounds|]. intros c' Hc'. wt_steps.
  - destruct (fp_offset reg Ha Hg) as [-> _].
    apply (wt_bind _ _ ctx_typed); [now apply wt_ret|]. intros c' Hc'. wt_steps.
Qed.

Lemma get_exit_argument_bounds c status :
  ctx_typed c -> wt in_bounds anything (get_exit_argument c status) anything.
Proof.
  intros Hc. unfold get_exit_argument, X86_64_RDI_OFFSET, X86_ESP_OFFSET, REG_RDI, REG_ESP.
  assert (NGREG = if WORDSIZE =? 64 then 23 else 19) as Hn by reflexivity.
  destruct (WORDSIZE =? 64) eqn:E.
  - destruct (greg_ok c 8 (proj1 Hc)) as [v ->]; [lia|]. wt_steps.
  - destruct (greg_ok c 7 (proj1 Hc)) as [v ->]; [lia|]. cbv zeta.
    apply (wt_bind _ _ anything); [wt_steps|]. intros w _.
    eapply wt_bind; [apply read_memory_bounds; cbn; lia|]. intros [rc buf] _. wt_steps.
Qed.

Lemma get_ctf_successor_bounds pc c :
  ctx_typed c -> wt in_bounds anything (get_ctf_successor pc c) anything.
Proof.
  intros Hc.
  assert (forall op pc, wt in_bounds (@anything access) (compute_target op pc c) anything).
  { intros. unfold compute_target, optional_register. wt_steps. }
  assert (forall m, wt in_bounds (@anything access) (ctf_condition_met m c) anything).
  { intros m. unfold ctf_condition_met. wt_steps. }
  assert (forall a b, wt in_bounds anything (no_successor a b) anything)
    by (intros; unfold no_successor; wt_steps).
  assert (forall a, wt in_bounds anything (read_memory (replicate word_bytes 0) a word_bytes) anything).
  { intros a. eapply wt_mono; [apply read_memory_bounds; now rewrite length_replicate|done]. }
  unfold get_ctf_successor. wt_steps.
Qed.
End Registers.
#[export] Hint Resolve get_register_typed set_register_typed get_exit_argument_bounds get_ctf_successor_bounds : wt.

Definition typed_thrs `{Target} (s : thrs) : Prop :=
  map_Forall (fun _ t => ctx_typed (event_context t)) (thr_heap s).

Section Threads.
Context `{LC : Libc} `{TO : TargetOk}.

Lemma thr_load_typed p : wt in_bounds typed_thrs (thr_load p) (fun t => ctx_typed (event_context t)).
Proof.
  intros s Hs. unfold thr_load. destruct (thr_heap s !! p) eqn:E; [|done]. split; [done|]. exact (Hs p _ E).
Qed.

Lemma thr_update_typed p f :
  (forall t, ctx_typed (event_context t) -> ctx_typed (event_context (f t))) ->
  wt in_bounds typed_thrs (thr_update p f) anything.
Proof.
  intros Hf. unfold thr_update. eapply wt_bind; [apply thr_load_typed|]. cbv beta. intros t Ht.
  apply wt_modify. intros s Hs. apply map_Forall_insert_2; auto.
Qed.
Hint Resolve thr_load_typed : wt.
Hint Extern 1 (wt _ _ (thr_update _ _) _) => apply thr_update_typed; auto; fail : wt.

Lemma get_thread_context_typed p : wt in_bounds typed_thrs (get_thread_context p) ctx_typed.
Proof. unfold get_thread_context. wt_steps. Qed.

(** The queries and updates of a thread that do not touch its context. *)
Lemma thread_queries_typed p :
  wt in_bounds typed_thrs (get_next_thread p) anything /\
  wt in_bounds typed_thrs (is_thread_dead p) anything /\
  wt in_bounds typed_thrs (get_thread_state p) anything /\
  wt in_bounds typed_thrs (get_thread_id p) anything /\
  wt in_bounds typed_thrs (is_thread_context_valid p) anything /\
  wt in_bounds typed_thrs (is_single_step p) anything /\
  wt in_bounds typed_thrs (get_single_step_breakpoint p) anything.
Proof.
  unfold get_next_thread, is_thread_dead, get_thread_state, get_thread_id, is_thread_context_valid,
    is_single_step, get_single_step_breakpoint.
  repeat split; wt_steps.
Qed.

Lemma find_walk_typed fuel o tid : wt in_bounds typed_thrs (find_thread_walk fuel o tid) anything.
Proof. revert o. induction fuel; intros o; cbn [find_thread_walk]; wt_steps. Qed.
Hint Resolve find_walk_typed : wt.

Lemma get_user_thread_id_typed : wt in_bounds typed_thrs get_user_thread_id anything.
Proof. unfold get_user_thread_id, get_multithread_capable. wt_steps. Qed.
Hint Resolve get_user_thread_id_typed : wt.

Lemma get_current_thread_typed : wt in_bounds typed_thrs get_current_thread anything.
Proof. unfold get_current_thread. wt_steps. Qed.

Lemma get_multithreaded_typed : wt in_bounds typed_thrs get_multithreaded anything.
Proof. unfold get_multithreaded, get_multithread_capable, get_num_threads. wt_steps. Qed.

Lemma destroy_thread_typed p : wt in_bounds typed_thrs (destroy_thread p) anything.
Proof.
  assert (Hw : forall fuel a b, wt in_bounds typed_thrs (destroy_walk fuel a b p) anything).
  { induction fuel; intros a b; cbn [destroy_walk]; wt_steps. }
  unfold destroy_thread. wt_steps; apply wt_modify; intros s Hs; [..|now apply map_Forall_delete]; exact Hs.
Qed.
(** A new thread starts with a zeroed context. *)
Lemma create_thread_typed alloc_ok tid : wt in_bounds typed_thrs (create_thread alloc_ok tid) anything.
Proof.
  assert (wt in_bounds typed_thrs (create_thread_struct alloc_ok tid) anything).
  { unfold create_thread_struct. destruct (negb alloc_ok); [now apply wt_ret|].
    apply (wt_bind _ _ anything).
    - intros s Hs. unfold init_control_pipe. destruct (multithread_capable s); [|done]. now destruct (pipes s).
    - intros [[r w]|] _; [|now apply wt_ret]. intros s Hs. split; [|done]. cbn. apply map_Forall_insert_2; [|done].
      split; [apply length_replicate|]. apply Forall_replicate. unfold to_greg. now destruct (WORDSIZE =? 64). }
  assert (forall fuel a b, wt in_bounds typed_thrs (last_thread_walk fuel a b) anything).
  { induction fuel; intros a b; cbn [last_thread_walk]; wt_steps. }
  assert (forall n t s, typed_thrs s -> typed_thrs (put_threads n t (thr_heap s) s)) by done.
  unfold create_thread, link_thread. wt_steps; now apply wt_modify.
Qed.
End Threads.
#[export] Hint Resolve thr_load_typed get_thread_context_typed get_user_thread_id_typed get_current_thread_typed
  get_multithreaded_typed destroy_thread_typed : wt.
#[export] Hint Extern 1 (wt _ _ (thr_update _ _) _) => apply thr_update_typed; auto; fail : wt.
#[export] Hint Extern 2 (wt _ typed_thrs _ _) => apply thread_queries_typed : wt.

(** ** The runtime state and the request handlers *)

Definition typed_u `{Target} (s : udirt) : Prop := typed_thrs (u_thrs s) /\ typed_bps (u_bps s).

Section Handlers.
Context `{LC : Libc} `{LB : Libcbor} `{TO : TargetOk} `{UD : Udis86}.

Lemma on_bps_typed {A} (m : ST bps A) Q : wt in_bounds typed_bps m Q -> wt in_bounds typed_u (on_bps m) Q.
Proof. apply wt_zoom; [now intros s []|]. intros s t [H1 H2] Ht. now split. Qed.

Lemma on_access_typed {A} (m : ST access A) Q : wt in_bounds anything m Q -> wt in_bounds typed_u (on_access m) Q.
Proof. intros Hm. now apply on_bps_typed, on_acc_typed. Qed.

Lemma on_msg_typed {A} (m : ST rt A) Q : wt in_bounds anything m Q -> wt in_bounds typed_u (on_msg m) Q.
Proof. intros Hm. now apply on_access_typed, on_rt_bounds. Qed.

Lemma on_env_typed {A} (m : ST env A) Q : wt in_bounds anything m Q -> wt in_bounds typed_u (on_env m) Q.
Proof. apply wt_zoom; [done|]. intros s t [H1 [H2 H3]] _. split; [done|]. now split. Qed.

Lemma on_thrs_typed {A} (m : ST thrs A) Q : wt in_bounds typed_thrs m Q -> wt in_bounds typed_u (on_thrs m) Q.
Proof. apply wt_zoom; [now intros s []|]. intros s t [H1 H2] Ht. now split. Qed.

Lemma syscall_typed : wt in_bounds typed_u syscall anything.
Proof. intros s Hs. unfold syscall. now destruct (syscalls s). Qed.

Lemma set_msg_typed format args : wt in_bounds typed_u (set_errmsg format args) anything.
Proof. apply on_msg_typed, set_errmsg_bounds. Qed.

Lemma respond_typed fd req d : wt in_bounds typed_u (respond fd req d) anything.
Proof. apply on_env_typed, write_response_bounds. Qed.

Lemma u_modify_typed f :
  (forall s, u_thrs (f s) = u_thrs s /\ u_bps (f s) = u_bps s) -> wt in_bounds typed_u (modify f) anything.
Proof.
  intros Hf. apply wt_modify. intros s. unfold typed_u. destruct (Hf s) as [-> ->]. done.
Qed.
Hint Resolve on_bps_typed on_access_typed on_msg_typed on_env_typed on_thrs_typed syscall_typed set_msg_typed
  respond_typed : wt.
Hint Extern 1 (wt _ _ (modify _) _) => apply u_modify_typed; now split : wt.

Lemma read_data_typed {D} (I : D -> Prop) fd items (d : D) :
  items_ok I items -> I d -> wt in_bounds typed_u (read_data fd items d) (fun x => I x.2).
Proof. intros Hi Hd. now apply on_env_typed, read_request_data_bounds. Qed.

(** Every item of every configuration. *)
Ltac items_ok :=
  intros i it Hi ev r Hr;
  repeat (destruct i as [|i];
    [injection Hi as <-; cbn [item_cbs]; destruct ev;
     lazymatch goal with
     | |- wt _ _ (invalid_callbacks _ _) _ => exact (invalid_callbacks_ok _ _ _ _ Hr)
     | |- wt _ _ (store_value _ _ _) _ => apply store_value_ok; [exact Hr|done]
     | _ => idtac
     end|]);
  try discriminate Hi.

Lemma continue_items_ok : items_ok anything continue_items.
Proof. unfold continue_items, continue_sig_callback. items_ok. Qed.
Lemma read_items_ok : items_ok anything read_items.
Proof. unfold read_items, read_addr_callback, read_len_callback. items_ok. Qed.

Lemma breakpoint_items_ok : items_ok anything breakpoint_items.
Proof. unfold breakpoint_items, breakpoint_addr_callback. items_ok. Qed.

Lemma read_reg_items_ok : items_ok anything read_reg_items.
Proof. unfold read_reg_items, read_reg_callback. items_ok. Qed.

Lemma write_reg_items_ok : items_ok anything write_reg_items.
Proof. unfold write_reg_items, write_reg_callback, write_reg_value_callback. items_ok. Qed.

Lemma single_step_items_ok : items_ok anything single_step_items.
Proof. unfold single_step_items, single_step_callback. items_ok. Qed.

(** The length of a write request is that of its data. *)
Definition write_req_ok (d : write_mem_req) : Prop :=
  forall bytes, wm_data d = Some bytes -> wm_len d = Z.of_nat (length bytes).

Lemma write_items_ok : items_ok write_req_ok write_items.
Proof.
  unfold write_items, write_addr_callback. items_ok. unfold write_data_callback.
  eapply wt_bind; [apply malloc_bounds|]. intros ok _. apply store_value_ok; [exact Hr|].
  intros _ b. destruct ok; cbn; congruence.
Qed.
Hint Resolve read_data_typed continue_items_ok read_items_ok breakpoint_items_ok read_reg_items_ok
  write_reg_items_ok single_step_items_ok write_items_ok : wt.
Hint Extern 0 (anything _) => exact I : wt.

Lemma thread_death_handshake_typed thr : wt in_bounds typed_u (thread_death_handshake thr) anything.
Proof.
  assert (forall d f, wt in_bounds typed_u (get_thread_file d f) anything)
    by (intros; unfold get_thread_file; wt_steps).
  assert (wt in_bounds typed_u (get_thread_dir thr) anything) by (unfold get_thread_dir; wt_steps).
  unfold thread_death_handshake, remove_thread_files. wt_steps.
Qed.
Hint Resolve thread_death_handshake_typed : wt.

Lemma continue_handler_typed a b : wt in_bounds typed_u (continue_handler a b) anything.
Proof.
  assert (forall fuel o, wt in_bounds typed_u (some_thread_running fuel o) anything).
  { induction fuel; intros o; cbn [some_thread_running]; wt_steps. }
  assert (forall fuel o, wt in_bounds typed_u (bury_threads fuel o) anything).
  { induction fuel; intros o; cbn [bury_threads]; wt_steps. }
  unfold continue_handler, post_continue_hook, get_thread_list, get_multithread_capable. wt_steps.
Qed.

Lemma read_handler_typed a b : wt in_bounds typed_u (read_handler a b) anything.
Proof.
  assert (forall n addr, wt in_bounds anything (read_memory (replicate n 0) addr n) anything).
  { intros n addr. eapply wt_mono; [apply read_memory_bounds; now rewrite length_replicate|done]. }
  unfold read_handler. wt_steps.
Qed.

Lemma write_handler_typed a b : wt in_bounds typed_u (write_handler a b) anything.
Proof.
  unfold write_handler. eapply wt_bind; [apply read_data_typed; [apply write_items_ok|discriminate]|].
  intros [result req] Hreq. cbn in Hreq. destruct (negb _); [wt_steps|].
  apply (wt_bind _ _ anything); [|intros ? _; wt_steps]. apply on_access_typed.
  destruct (wm_data req) as [bytes|] eqn:E.
  - apply write_memory_bounds. rewrite (Hreq bytes E). lia.
  - assert (has_room (Debuggee (wm_addr req)) (Debuggee 0) [] (Z.to_nat (wm_len req))) as Hr
      by (intros [?|?]; discriminate).
    pose proof (udi_memcpy_bounds _ _ _ _ Hr). unfold write_memory_null. wt_steps.
Qed.

Lemma state_handler_typed a b : wt in_bounds typed_u (state_handler a b) anything.
Proof.
  assert (forall fuel o, wt in_bounds typed_u (thread_states fuel o) anything).
  { induction fuel; intros o; cbn [thread_states]; wt_steps. }
  unfold state_handler, get_num_threads, get_thread_list. wt_steps.
Qed.

Lemma read_breakpoint_typed a : wt in_bounds typed_u (read_breakpoint a) anything.
Proof. unfold read_breakpoint, read_breakpoint_addr. wt_steps. Qed.
Hint Resolve read_breakpoint_typed : wt.

(** Every handler of the process. *)
Lemma request_handlers_typed n h a b : request_handlers !! n = Some h -> wt in_bounds typed_u (h a b) anything.
Proof.
  pose proof continue_handler_typed. pose proof read_handler_typed. pose proof write_handler_typed.
  pose proof state_handler_typed.
  unfold request_handlers. intros Hh.
  repeat (destruct n as [|n]; [injection Hh as <-;
    unfold invalid_handler, breakpoint_create_handler, breakpoint_install_handler, breakpoint_remove_handler,
      breakpoint_delete_handler, deref_breakpoint, read_breakpoint_addr; wt_steps|]). discriminate.
Qed.

Lemma write_register_handler_typed a b thr : wt in_bounds typed_u (write_register_handler a b thr) anything.
Proof.
  unfold write_register_handler. eapply wt_bind; [eauto with wt|]. intros [result req] _.
  destruct (negb _); [wt_steps|]. eapply wt_bind; [eauto with wt|]. intros valid _.
  destruct (negb valid); [wt_steps|]. eapply wt_bind; [eauto with wt|]. intros c Hc.
  eapply wt_bind; [apply on_msg_typed, set_register_typed, Hc|]. intros [rc c'] Hc'. cbn in Hc'.
  eapply wt_bind; [apply on_thrs_typed, thr_update_typed; intros t _; exact Hc'|]. intros ? _. wt_steps.
Qed.

(** Every handler of a thread. *)
Lemma thr_request_handlers_typed n h a b thr :
  thr_request_handlers !! n = Some h -> wt in_bounds typed_u (h a b thr) anything.
Proof.
  pose proof write_register_handler_typed. unfold thr_request_handlers. intros Hh.
  repeat (destruct n as [|n]; [injection Hh as <-;
    unfold thr_invalid_handler, read_register_handler, thr_state_handler, thr_suspend_handler, thr_resume_handler,
      next_instr_handler, single_step_handler, set_thread_state, set_single_step, set_single_step_breakpoint;
    wt_steps|]). discriminate.
Qed.

Lemma report_failure_typed fd type r : wt in_bounds typed_u (report_failure fd type r) anything.
Proof. unfold report_failure. wt_steps. Qed.

(** ** Events *)

Lemma report_event_typed ev tid d : wt in_bounds typed_u (report_event ev tid d) anything.
Proof. unfold report_event, write_event. wt_steps; apply on_env_typed, write_cbor_item_bounds. Qed.
Hint Resolve report_event_typed : wt.

Lemma error_events_typed tid :
  wt in_bounds typed_u (handle_unknown_event tid) anything /\
  wt in_bounds typed_u (handle_error_event tid) anything.
Proof. unfold handle_unknown_event, handle_error_event. split; wt_steps. Qed.

Lemma single_thread_typed : wt in_bounds typed_u single_thread_executing anything.
Proof. unfold single_thread_executing, is_performing_mem_access. wt_steps. Qed.

Lemma rewind_contexts_typed thr c : ctx_typed c -> wt in_bounds typed_u (rewind_contexts thr c) ctx_typed.
Proof.
  intros Hc. unfold rewind_contexts. eapply wt_bind; [now apply rewind_pc_typed|]. intros c' Hc'.
  destruct thr as [p|]; [|now apply wt_ret].
  eapply wt_bind; [eauto with wt|]. intros t Ht. eapply wt_bind; [now apply rewind_pc_typed|]. intros t' Ht'.
  eapply wt_bind; [apply on_thrs_typed, thr_update_typed; intros x _; exact Ht'|]. intros ? _. now apply wt_ret.
Qed.

Lemma breakpoint_hit_typed thr bp c w :
  ctx_typed c ->
  wt in_bounds typed_u (is_step_breakpoint thr bp) anything /\
  wt in_bounds typed_u (step_breakpoint_hit thr bp) anything /\
  wt in_bounds typed_u (continue_breakpoint_hit thr bp) anything /\
  wt in_bounds typed_u (user_breakpoint_hit thr bp c w) anything.
Proof.
  intros Hc. unfold is_step_breakpoint, step_breakpoint_hit, continue_breakpoint_hit, reinstall_original,
    user_breakpoint_hit, is_event_breakpoint, handle_event_breakpoint, handle_exit_breakpoint, handle_exit_event,
    thread_id, set_single_step_breakpoint.
  repeat split; wt_steps.
Qed.

Lemma decode_breakpoint_typed thr bp c w :
  ctx_typed c -> wt in_bounds typed_u (decode_breakpoint thr bp c w) (fun x => ctx_typed x.2).
Proof.
  intros Hc. unfold decode_breakpoint. eapply wt_bind; [now apply rewind_contexts_typed|]. intros c' Hc'.
  destruct (breakpoint_hit_typed thr bp c' w Hc') as (? & ? & ? & ?). wt_steps.
Qed.

Lemma decode_trap_typed thr c w :
  ctx_typed c -> wt in_bounds typed_u (decode_trap thr c w) (fun x => ctx_typed x.2).
Proof.
  intros Hc. pose proof (fun bp => decode_breakpoint_typed thr bp c w Hc). unfold decode_trap. wt_steps.
Qed.

(** C12: the types of the runtime's state are kept and no array is accessed out of
    bounds: by every handler of a request, whatever bytes the debugger sends,
    and by the decoding of a trap, which yields a well typed context. *)
Theorem handlers_in_bounds :
  (forall n h req resp, request_handlers !! n = Some h -> wt in_bounds typed_u (h req resp) anything) /\
  (forall n h req resp thr, thr_request_handlers !! n = Some h -> wt in_bounds typed_u (h req resp thr) anything) /\
  (forall thr context wait, ctx_typed context ->
     wt in_bounds typed_u (decode_trap thr context wait) (fun x => ctx_typed x.2)).
Proof.
  split; [|split].
  - intros. now apply request_handlers_typed with n.
  - intros. now apply thr_request_handlers_typed with n.
  - intros. now apply decode_trap_typed.
Qed.

(** ** The command loop

    A request type outside the tables and a descriptor that does not fit into
    an [fd_set] are accesses out of bounds; the types are kept nevertheless. *)

Lemma wt_in_any {S A} (P : S -> Prop) (m : ST S A) Q : wt in_bounds P m Q -> wt anything P m Q.
Proof. apply wt_any. Qed.
Hint Extern 6 (wt anything _ _ _) => apply wt_in_any : wt.

Lemma block_for_request_typed thr : wt anything typed_u (block_for_request thr) anything.
Proof.
  assert (forall fuel o a b, wt anything typed_u (fill_read_set fuel o a b) anything).
  { induction fuel; intros o a b; cbn [fill_read_set]; wt_steps. }
  assert (forall fuel o a, wt anything typed_u (ready_thread fuel o a) anything).
  { induction fuel; intros o a; cbn [ready_thread]; wt_steps. }
  assert (forall n set, wt anything typed_u (select_ n set) anything).
  { intros n set s Hs. unfold select_. now destruct (selects s) as [|[] ?]. }
  assert (forall fuel m set, wt anything typed_u (select_loop fuel m set) anything).
  { induction fuel; intros m set; cbn [select_loop]; unfold get_thread_list; wt_steps. }
  unfold block_for_request, get_thread_list. wt_steps.
Qed.

Lemma execute_request_typed thr : wt anything typed_u (execute_request thr) anything.
Proof.
  pose proof request_handlers_typed as Hp. pose proof thr_request_handlers_typed as Ht.
  pose proof report_failure_typed.
  assert (forall req resp type, wt anything typed_u (handle_process_request req resp type) anything).
  { intros. unfold handle_process_request. eapply wt_bind; [eauto with wt|]. intros [r ty] _.
    apply (wt_bind _ _ anything); [|intros [r' ty'] _; wt_steps]. destruct (negb _); [wt_steps|].
    destruct (request_handlers !! _) eqn:E; [specialize (Hp _ _ req resp E)|]; wt_steps. }
  assert (forall req resp p type, wt anything typed_u (handle_thread_request req resp p type) anything).
  { intros. unfold handle_thread_request. eapply wt_bind; [eauto with wt|]. intros [r ty] _.
    apply (wt_bind _ _ anything); [|intros [r' ty'] _; wt_steps]. destruct (negb _); [wt_steps|].
    destruct (thr_request_handlers !! _) eqn:E; [specialize (Ht _ _ req resp p E)|]; wt_steps. }
  unfold execute_request. wt_steps.
Qed.

Lemma command_typed thr : wt anything typed_u (wait_and_execute_command thr) anything.
Proof.
  pose proof block_for_request_typed. pose proof execute_request_typed.
  assert (forall fuel thr, wt anything typed_u (command_loop fuel thr) anything).
  { induction fuel; intros t; cbn [command_loop]; wt_steps. }
  unfold wait_and_execute_command. wt_steps.
Qed.
End Handlers.
#[export] Hint Resolve on_bps_typed on_access_typed on_msg_typed on_env_typed on_thrs_typed decode_trap_typed single_thread_typed : wt.
#[export] Hint Extern 0 (anything _) => exact I : wt.

(** ** The process *)

(** The table of the application's actions has an entry per signal, and what
    the other threads do while this one waits keeps the types as well. *)
Record typed_proc `{Target} (s : proc) : Prop := {
  typed_runtime : typed_u (p_u s);
  typed_actions : length (app_actions (p_sigs s)) = length signals;
  typed_waits : Forall (fun f => forall u, typed_u u -> typed_u (f u)) (waits (p_os s))
}.

Section Aborting.
Context {U : ub -> Prop} (HU : forall u, in_bounds u -> U u).

Definition full_table (s : proc) : Prop := length (app_actions (p_sigs s)) = length signals.

Lemma real_sigaction_table signum act :
  wt U (fun s => length (app_actions s) = length signals) (real_sigaction signum act) anything.
Proof.
  intros s Hs. unfold real_sigaction. destruct (real_sigaction_located s); [|now apply HU].
  now destruct (sys_sigaction _ _ _).
Qed.

Lemma uninstall_loop_length failure l i :
  (i + length l = length signals)%nat ->
  wt U (fun s => length (app_actions s) = length signals) (uninstall_loop failure l i) anything.
Proof.
  revert i. induction l as [|signum l IH]; intros i Hi; cbn [uninstall_loop]; [now apply wt_ret|].
  rewrite length_cons in Hi. specialize (IH (S i) ltac:(lia)). destruct (signum =? 0); [done|]. destruct (_ && _); [done|].
  intros s Hs. rewrite bind_gets. destruct (lookup_lt_is_Some_2 (app_actions s) i) as [x ->]; [lia|].
  eapply wt_bind; [apply real_sigaction_table| |exact Hs]. intros [e o] _. destruct (negb _); [now apply wt_ret|done].
Qed.

(** [udi_abort] ends the process. *)
Lemma abort_table {A} : wt U full_table (@udi_abort_file_line A) (fun _ => False).
Proof.
  assert (forall B (m : ST sigs B), wt U (fun s => length (app_actions s) = length signals) m anything ->
    wt U full_table (on_sigs m) anything) as Hz.
  { intros B m. apply wt_zoom; [done|]. now intros s t _ Ht. }
  assert (wt U full_table disable_debugging anything) as Hd.
  { unfold disable_debugging, uninstall_signal_handlers. eapply wt_bind; [now apply wt_modify|]. intros ? _.
    eapply wt_bind; [|intros; now apply wt_ret]. eapply wt_bind; [apply wt_gets|]. intros b _.
    apply Hz, uninstall_loop_length. reflexivity. }
  unfold udi_abort_file_line. eapply wt_bind; [apply wt_gets|]. intros b _.
  apply (wt_bind _ _ anything); [|intros ? _; apply wt_abort]. destruct b; [|now apply wt_ret].
  eapply wt_bind; [apply Hz, real_sigaction_table|]. intros ? _. exact Hd.
Qed.
End Aborting.

Section Process.
Context `{LC : Libc} `{LB : Libcbor} `{TO : TargetOk} `{UD : Udis86}.
Context {U : ub -> Prop} (HU : forall u, in_bounds u -> U u).

Lemma in_U {S A} (P : S -> Prop) (m : ST S A) Q : wt in_bounds P m Q -> wt U P m Q.
Proof. intros Hm s Hs. specialize (Hm s Hs). destruct (m s); auto. Qed.

Lemma abort_typed {A} Q : wt U typed_proc (@udi_abort_file_line A) Q.
Proof.
  intros s Hs. pose proof (abort_table HU (A := A) s (typed_actions s Hs)) as Ha.
  destruct (udi_abort_file_line s); [|done..]. now destruct Ha.
Qed.

Lemma run_u_typed {A} (m : ST udirt A) Q : wt U typed_u m Q -> wt U typed_proc (run_u m) Q.
Proof.
  intros Hm s Hs. specialize (Hm (p_u s) (typed_runtime s Hs)). unfold run_u, on_u, zoom.
  destruct (m (p_u s)) as [a u|u|u|u]; try done.
  - destruct Hm as [Hu Ha]. split; [|done]. destruct Hs. now split.
  - pose proof (abort_table HU (A := A) (put_u u s) (typed_actions s Hs)) as Ha.
    destruct (udi_abort_file_line (put_u u s)); [|done..]. now destruct Ha.
Qed.

Lemma run_u_in {A} (m : ST udirt A) Q : wt in_bounds typed_u m Q -> wt U typed_proc (run_u m) Q.
Proof. intros Hm. now apply run_u_typed, in_U. Qed.

Lemma thr_op_typed {A} (m : ST thrs A) Q : wt in_bounds typed_thrs m Q -> wt U typed_proc (thr_op m) Q.
Proof. intros Hm. now apply run_u_in, on_thrs_typed. Qed.

Lemma bps_op_typed {A} (m : ST bps A) Q : wt in_bounds typed_bps m Q -> wt U typed_proc (bps_op m) Q.
Proof. intros Hm. now apply run_u_in, on_bps_typed. Qed.

Lemma io_op_typed {A} (m : ST env A) Q : wt in_bounds anything m Q -> wt U typed_proc (io_op m) Q.
Proof. intros Hm. now apply run_u_in, on_env_typed. Qed.

Lemma wait_typed : wt U typed_proc wait_for_others anything.
Proof.
  intros s [H1 H2 H3]. unfold wait_for_others, on_os, os_wait, bind, zoom, modify. cbn.
  destruct (waits (p_os s)) as [|f fs] eqn:E; cbn; (split; [|done]); split; cbn; try done.
  - apply Forall_cons in H3 as [Hf _]. auto.
  - now apply Forall_cons in H3 as [_ H3].
Qed.

Lemma kill_typed tid : wt U typed_proc (on_os (os_pthread_kill tid)) anything.
Proof.
  apply wt_zoom with (fun os => Forall (fun f => forall u, typed_u u -> typed_u (f u)) (waits os)).
  - now intros s [].
  - intros s t [H1 H2 H3] Ht. now split.
  - intros os Hos. unfold os_pthread_kill. now destruct (next_or _ _).
Qed.

Lemma sync_var_typed x : wt U typed_proc (modify (set_sync_var x)) anything.
Proof. apply wt_modify. intros s []. now split. Qed.
Hint Extern 1 (wt _ _ (undef _) _) => apply wt_undef, HU; discriminate : wt.
Hint Resolve abort_typed run_u_in thr_op_typed bps_op_typed io_op_typed wait_typed kill_typed sync_var_typed : wt.

Lemma read_sentinel_typed fd : wt U typed_proc (read_sentinel fd) anything.
Proof.
  assert (forall fuel, wt U typed_proc (sentinel_loop fuel fd) anything).
  { induction fuel; cbn [sentinel_loop]; wt_steps. }
  unfold read_sentinel. wt_steps.
Qed.

Lemma write_sentinel_typed fd : wt U typed_proc (write_sentinel fd) anything.
Proof. unfold write_sentinel. wt_steps. Qed.
Hint Resolve read_sentinel_typed write_sentinel_typed : wt.

Lemma block_other_threads_typed : wt U typed_proc block_other_threads anything.
Proof.
  assert (forall fuel thr iter n, wt U typed_proc (suspend_others fuel thr iter n) anything).
  { induction fuel; intros thr iter n; cbn [suspend_others]; wt_steps. }
  assert (forall n, wt U typed_proc (collect_sentinels n) anything).
  { induction n; cbn [collect_sentinels]; wt_steps. }
  unfold block_other_threads, get_thread_list. wt_steps.
Qed.

Lemma release_other_threads_typed : wt U typed_proc release_other_threads anything.
Proof.
  assert (forall fuel thr iter, wt U typed_proc (find_event fuel thr iter) anything).
  { induction fuel; intros thr iter; cbn [find_event]; wt_steps. }
  assert (forall fuel thr iter, wt U typed_proc (release_loop fuel thr iter) anything).
  { induction fuel; intros thr iter; cbn [release_loop]; wt_steps. }
  assert (forall s, typed_proc s -> typed_proc (set_sync_var (cas (bar_sync (thread_barrier s)) 1 0) s))
    by (intros s []; now split).
  assert (wt U typed_proc (modify (fun s => set_sync_var (cas (bar_sync (thread_barrier s)) 1 0) s)) anything)
    by now apply wt_modify.
  unfold release_other_threads, hand_over, get_multithread_capable, get_thread_list. wt_steps.
Qed.
Hint Resolve block_other_threads_typed release_other_threads_typed : wt.

Context (abort_label : Z).

Lemma decode_event_typed thr signum info c :
  ctx_typed c -> wt U typed_proc (decode_event abort_label thr signum info c) (fun x => ctx_typed x.2).
Proof.
  intros Hc. unfold decode_event. destruct (_ || _).
  - eapply wt_bind; [eauto with wt|]. intros ev _. apply (wt_bind _ _ ctx_typed).
    + destruct (me_abort ev); [|now apply wt_ret]. apply in_U. now apply set_pc_typed.
    + intros c' Hc'. now apply wt_ret.
  - destruct (_ =? _); [now apply run_u_in, decode_trap_typed|].
    eapply wt_bind; [eauto with wt|]. intros tid _.
    eapply wt_bind; [apply run_u_in, (error_events_typed tid)|]. intros r _. now apply wt_ret.
Qed.

Lemma plant_single_step_typed p r c :
  ctx_typed c -> wt U typed_proc (plant_single_step p r c) anything.
Proof.
  intros Hc. pose proof (in_U typed_proc _ _ (get_pc_bounds c Hc)).
  pose proof (fun pc => get_ctf_successor_bounds pc c Hc).
  unfold plant_single_step, set_single_step_breakpoint. wt_steps.
Qed.

Lemma save_context_typed c p : ctx_typed c -> wt U typed_proc (save_context c p) anything.
Proof.
  intros Hc. unfold save_context.
  eapply wt_bind; [apply thr_op_typed, thr_update_typed; intros t _; exact Hc|]. intros ? _. wt_steps.
Qed.

Lemma take_control_typed thr signum c :
  ctx_typed c -> wt U typed_proc (take_control thr signum c) anything.
Proof.
  intros Hc. pose proof (fun p => save_context_typed c p Hc).
  unfold take_control, need_thr, opt_thr. wt_steps.
Qed.

(** The rest of the handler keeps the types if the command loop does. *)
Hypothesis Hcommand : wt U typed_u (wait_and_execute_command None) anything.

Lemma handle_event_typed thr signum info c :
  ctx_typed c -> wt U typed_proc (handle_event abort_label thr signum info c) (fun x => ctx_typed x.2).
Proof.
  intros Hc. pose proof (fun tid => proj2 (error_events_typed tid)). pose proof (run_u_typed _ _ Hcommand).
  unfold handle_event, opt_thr. eapply wt_bind; [now apply decode_event_typed|].
  intros [[result wait] c'] Hc'. cbn in Hc'. pose proof (fun p r => plant_single_step_typed p r c' Hc').
  wt_steps.
Qed.

Lemma control_event_typed thr signum info c :
  ctx_typed c -> wt U typed_proc (control_event abort_label thr signum info c) ctx_typed.
Proof.
  intros Hc. pose proof (handle_event_typed thr signum info c Hc). unfold control_event, opt_thr.
  apply (wt_bind _ _ anything); [wt_steps|]. intros ? _.
  eapply wt_bind; [eassumption|]. intros [[result error] c'] Hc'. cbn in Hc'. wt_steps.
Qed.

Lemma app_signal_handler_typed signum : wt U typed_proc (app_signal_handler signum) anything.
Proof.
  assert (forall how set, wt U typed_proc (mask_op how set) anything) as Hm.
  { intros how set. apply wt_zoom with typed_u; [now intros s []|intros s t [] Ht; now split|].
    apply in_U, on_access_typed, setsigmask_bounds. }
  assert (forall h m, wt U typed_proc (on_sigs (modify (call_app signum h m))) anything) as Hc.
  { intros h m. apply wt_zoom with (fun x => length (app_actions x) = length signals);
      [now intros s []|intros s t [] Ht; now split|]. now apply wt_modify. }
  intros s Hs. unfold app_signal_handler. rewrite bind_gets.
  destruct (find_app_action _ _); [|done]. case_bool_decide; [done|].
  pose proof (typed_actions s Hs) as Hl. destruct (app_actions (p_sigs s)) as [|first rest]; [discriminate Hl|].
  revert s Hs Hl. match goal with |- forall s, typed_proc s -> _ -> match ?m s with _ => _ end =>
    enough (wt U typed_proc m anything) as Hw by (intros s Hs _; exact (Hw s Hs)) end. wt_steps.
Qed.

Lemma signal_entry_wt signum info c :
  ctx_typed c -> wt U typed_proc (signal_entry_impl abort_label signum info c) ctx_typed.
Proof.
  intros Hc. pose proof app_signal_handler_typed. pose proof take_control_typed.
  pose proof (fun thr => control_event_typed thr signum info c Hc).
  assert (forall s, typed_u s -> typed_u (set_pipe_failure false s)) by (intros s [? []]; split; [done|now split]).
  assert (forall f, (forall s, typed_u s -> typed_u (f s)) ->
    wt U typed_proc (modify (fun s => put_u (f (p_u s)) s)) anything).
  { intros f Hf. apply wt_modify. intros s [Hs ? ?]. split; [now apply Hf|done..]. }
  unfold signal_entry_impl, opt_thr. wt_steps.
  match goal with Hf : forall f, _ |- _ => apply (Hf (fun u => put_signal 0 (sent_signals u) u)) end. now intros u [].
Qed.
End Process.

Section Entry.
Context `{LC : Libc} `{LB : Libcbor} `{TO : TargetOk} `{UD : Udis86} (abort_label : Z).

(** C22: the handler of a signal keeps the types of the whole state, and the context
    the interrupted thread resumes with is again one word per register. Up to
    the command loop and after it no array is accessed out of bounds: in
    decoding the event, in planting the breakpoint of a single step, in stopping
    the other threads and in releasing them. *)
Theorem signal_entry_typed signum info context s :
  ctx_typed context -> typed_proc s ->
  (forall context' s', signal_entry_impl abort_label signum info context s = Ret context' s' ->
     ctx_typed context' /\ typed_proc s') /\
  (forall thr, decode_event abort_label thr signum info context s <> Undef OutOfBounds) /\
  (forall p result, plant_single_step p result context s <> Undef OutOfBounds) /\
  (forall thr, take_control thr signum context s <> Undef OutOfBounds) /\
  release_other_threads s <> Undef OutOfBounds.
Proof.
  intros Hc Hs.
  assert (forall A (m : ST proc A) Q, wt in_bounds typed_proc m Q -> m s <> Undef OutOfBounds) as Hb.
  { intros A m Q Hm He. specialize (Hm s Hs). rewrite He in Hm. now apply Hm. }
  assert (forall u, in_bounds u -> in_bounds u) as Hi by done. split.
  { intros c' s' He.
    pose proof (signal_entry_wt (U := anything) (fun _ _ => I) abort_label (command_typed None) signum info context Hc) as Hw.
    destruct (wt_Ret _ _ s c' s' Hw Hs He). done. }
  split; [|split; [|split]].
  - intros thr. eapply Hb, decode_event_typed; done.
  - intros p r. eapply Hb, plant_single_step_typed; done.
  - intros thr. eapply Hb, take_control_typed; done.
  - eapply Hb, release_other_threads_typed; done.
Qed.
End Entry.

(** The types hold from the start: the tables are static arrays and every
    thread starts with a zeroed context. *)
Lemma setup_table s x :
  setup_signal_handlers s = Ret 0 x -> length (app_actions x) = length signals.
Proof.
  assert (forall l i, wt anything (fun s => length (app_actions s) = length signals) (setup_loop l i) anything) as Hl.
  { induction l as [|signum l IH]; intros i; cbn [setup_loop]; [now apply wt_ret|].
    destruct (signum =? 0); [apply IH|]. eapply wt_bind; [apply wt_gets|]. intros a _.
    eapply wt_bind; [now apply real_sigaction_table|]. intros [e old] _. destruct (negb _); [now apply wt_ret|].
    eapply wt_bind; [apply wt_modify; intros y Hy; cbn; now rewrite length_alter|]. intros ? _. apply IH. }
  unfold setup_signal_handlers. change (negb (Z.of_nat (length signals) =? NUM_SIGNALS)) with false. cbv iota.
  rewrite !bind_modify. intros E.
  refine (proj1 (wt_Ret _ _ _ _ _ (Hl signals 0%nat) _ E)). apply length_fmap.
Qed.
