(* ===== verification/Darwin.v ===== *)
(** * Darwin: udirt-darwin-x86-64.c

    On Darwin a [ucontext_t] does not hold the registers: its [uc_mcontext]
    points to a block that does. Copying a [ucontext_t] therefore copies a
    pointer, and [copy_context] has to copy the block as well, into one that
    [allocate_context_data] has made for the thread. The model keeps the store
    of these blocks and the pointers between them. *)

From Stdlib Require Import String.
From S2P Require Import Prelude External Types Format Memory Breakpoints Registers.

(** ** The register block *)

(** [__ss], of type [_STRUCT_X86_THREAD_STATE64]. *)
Record ss64 : Type := SS64 {
  __rax : Z;
  __rbx : Z;
  __rcx : Z;
  __rdx : Z;
  __rdi : Z;
  __rsi : Z;
  __rbp : Z;
  __rsp : Z;
  __r8 : Z;
  __r9 : Z;
  __r10 : Z;
  __r11 : Z;
  __r12 : Z;
  __r13 : Z;
  __r14 : Z;
  __r15 : Z;
  __rip : Z;
  __rflags : Z;
  __cs : Z;
  __fs : Z;
  __gs : Z
}.

(** The members of [__ss], as the code takes their address. *)
Inductive field : Type :=
| F_rax | F_rbx | F_rcx | F_rdx | F_rdi | F_rsi | F_rbp | F_rsp | F_r8 | F_r9 | F_r10 | F_r11 | F_r12 | F_r13 | F_r14 | F_r15 | F_rip | F_rflags | F_cs | F_fs | F_gs.

#[global] Instance field_eq_dec : EqDecision field.
Proof. solve_decision. Defined.

Definition get_field (f : field) (s : ss64) : Z :=
  match f with
  | F_rax => __rax s
  | F_rbx => __rbx s
  | F_rcx => __rcx s
  | F_rdx => __rdx s
  | F_rdi => __rdi s
  | F_rsi => __rsi s
  | F_rbp => __rbp s
  | F_rsp => __rsp s
  | F_r8 => __r8 s
  | F_r9 => __r9 s
  | F_r10 => __r10 s
  | F_r11 => __r11 s
  | F_r12 => __r12 s
  | F_r13 => __r13 s
  | F_r14 => __r14 s
  | F_r15 => __r15 s
  | F_rip => __rip s
  | F_rflags => __rflags s
  | F_cs => __cs s
  | F_fs => __fs s
  | F_gs => __gs s
  end.

Definition set_field (f : field) (v : Z) (s : ss64) : ss64 :=
  let at_ g := if decide (f = g) then v else get_field g s in
  SS64 (at_ F_rax) (at_ F_rbx) (at_ F_rcx) (at_ F_rdx) (at_ F_rdi) (at_ F_rsi) (at_ F_rbp) (at_ F_rsp) (at_ F_r8) (at_ F_r9) (at_ F_r10) (at_ F_r11) (at_ F_r12) (at_ F_r13) (at_ F_r14) (at_ F_r15) (at_ F_rip) (at_ F_rflags) (at_ F_cs) (at_ F_fs) (at_ F_gs).

(** A [struct __darwin_mcontext64]: the exception state before [__ss] and the
    floating point state behind it are only ever copied. *)
Record reg_data : Type := RegData { __es : list Z; __ss : ss64; __fps : list Z }.

(** The members of a [ucontext_t] other than the pointer are only copied. *)
Record ucontext_t : Type := UContextT { uc_other : list Z; uc_mcontext : ptr }.

Record signal_state : Type := SignalState {
  signal : Z;
  siginfo : Z * Z;
  context : ucontext_t;
  context_data : option ptr;
  context_valid : bool
}.

(** The store: a block is [None] between its allocation and its first
    assignment; pointers are not reused. *)
Record darwin : Type := Dar {
  d_rt : rt;
  d_heap : gmap ptr (option reg_data);
  d_fresh : ptr
}.

Definition put_d_rt (r : rt) (s : darwin) : darwin := Dar r (d_heap s) (d_fresh s).
Definition put_d_heap (h : gmap ptr (option reg_data)) (s : darwin) : darwin :=
  Dar (d_rt s) h (d_fresh s).
Definition on_d_rt {A} : ST rt A -> ST darwin A := zoom d_rt put_d_rt.

Definition block_load (p : ptr) : ST darwin reg_data := fun s =>
  match d_heap s !! p with
  | Some (Some d) => Ret d s
  | Some None => Undef Uninitialized
  | None => Undef UseAfterFree
  end.

Definition block_assign (p : ptr) (d : reg_data) : ST darwin unit := fun s =>
  match d_heap s !! p with
  | Some _ => Ret tt (put_d_heap (<[p := Some d]> (d_heap s)) s)
  | None => Undef UseAfterFree
  end.

(** An lvalue [p->__ss.f]. *)
Record address : Type := Address { a_block : ptr; a_field : field }.

Definition deref (a : address) : ST darwin Z :=
  let* d := block_load (a_block a) in
  ret (get_field (a_field a) (__ss d)).

Definition assign (a : address) (v : Z) : ST darwin unit :=
  let* d := block_load (a_block a) in
  block_assign (a_block a) (RegData (__es d) (set_field (a_field a) (u64 v) (__ss d)) (__fps d)).

(** ** The context of a thread *)

(** [*context_data] and the result. *)
Definition allocate_context_data : ST darwin (option ptr * Z) :=
  let* ok := on_d_rt udi_malloc in
  if negb ok then ret (None, ENOMEM)
  else fun s =>
    Ret (Some (d_fresh s), 0)
      (Dar (d_rt s) (<[d_fresh s := None]> (d_heap s)) (S (d_fresh s))).

Definition copy_context (src : ucontext_t) (dst : signal_state) : ST darwin signal_state :=
  match context_data dst with
  | None => undef NullDeref
  | Some data =>
      let* d := block_load (uc_mcontext src) in
      block_assign data d ;;;
      ret (SignalState (signal dst) (siginfo dst) (UContextT (uc_other src) data)
             (context_data dst) (context_valid dst))
  end.

(** ** The program counter and the flags *)

Definition reg_at (c : ucontext_t) (f : field) : address := Address (uc_mcontext c) f.

Definition rewind_pc (c : ucontext_t) : ST darwin unit :=
  let* pc := deref (reg_at c F_rip) in
  assign (reg_at c F_rip) (pc - 1).

Definition set_pc (c : ucontext_t) (pc : Z) : ST darwin unit := assign (reg_at c F_rip) pc.

Definition get_pc (c : ucontext_t) : ST darwin Z := deref (reg_at c F_rip).

Definition get_flags (c : ucontext_t) : ST darwin Z := deref (reg_at c F_rflags).

Definition get_trap_address (c : ucontext_t) : ST darwin Z :=
  let* pc := deref (reg_at c F_rip) in ret (u64 (pc - 1)).

(** The result and [*status]. *)
Definition get_exit_argument (c : ucontext_t) : ST darwin (Z * Z) :=
  let* v := deref (reg_at c F_rdi) in ret (RESULT_SUCCESS, i32 v).

(** The calls of [udi_log], in order. *)
Definition log_context (c : ucontext_t) : ST darwin (list (string * list va)) :=
  let* d := block_load (uc_mcontext c) in
  let ss := __ss d in
  ret [("rax: 0x%x rbx: 0x%x rcx: 0x%x rdx: 0x%x"%string,
        [VInt (__rax ss); VInt (__rbx ss); VInt (__rcx ss); VInt (__rdx ss)]);
       ("rsi: 0x%x rdi: 0x%x rbp: 0x%x rsp: 0x%x"%string,
        [VInt (__rsi ss); VInt (__rdi ss); VInt (__rbp ss); VInt (__rsp ss)]);
       ("r8:  0x%x r9:  0x%x r10: 0x%x r11: 0x%x"%string,
        [VInt (__r8 ss); VInt (__r9 ss); VInt (__r10 ss); VInt (__r11 ss)]);
       ("r12: 0x%x r13: 0x%x r14: 0x%x r15: 0x%x"%string,
        [VInt (__r12 ss); VInt (__r13 ss); VInt (__r14 ss); VInt (__r15 ss)]);
       ("rip: 0x%x rsp: 0x%x rflags: 0x%x"%string,
        [VInt (__rip ss); VInt (__rsp ss); VInt (__rflags ss)]);
       ("cs: 0x%x fs: 0x%x gs: 0x%x"%string,
        [VInt (__cs ss); VInt (__fs ss); VInt (__gs ss)])].

(** ** Registers by their libudis86 name *)

Definition is_accessible_register (reg : ud_type) : Z :=
  match reg with
  | UD_R_AL | UD_R_AH | UD_R_AX | UD_R_EAX | UD_R_RAX
  | UD_R_CL | UD_R_CH | UD_R_CX | UD_R_ECX | UD_R_RCX
  | UD_R_DL | UD_R_DH | UD_R_EDX | UD_R_RDX
  | UD_R_BL | UD_R_BH | UD_R_EBX | UD_R_RBX
  | UD_R_RIP
  | UD_R_SPL | UD_R_SP | UD_R_ESP | UD_R_RSP
  | UD_R_BPL | UD_R_BP | UD_R_EBP | UD_R_RBP
  | UD_R_SIL | UD_R_SI | UD_R_ESI | UD_R_RSI
  | UD_R_DIL | UD_R_DI | UD_R_EDI | UD_R_RDI
  | UD_R_R8B | UD_R_R8W | UD_R_R8D | UD_R_R8
  | UD_R_R9B | UD_R_R9W | UD_R_R9D | UD_R_R9
  | UD_R_R10B | UD_R_R10W | UD_R_R10D | UD_R_R10
  | UD_R_R11B | UD_R_R11W | UD_R_R11D | UD_R_R11
  | UD_R_R12B | UD_R_R12W | UD_R_R12D | UD_R_R12
  | UD_R_R13B | UD_R_R13W | UD_R_R13D | UD_R_R13
  | UD_R_R14B | UD_R_R14W | UD_R_R14D | UD_R_R14
  | UD_R_R15B | UD_R_R15W | UD_R_R15D | UD_R_R15
    => 0
  | _ => -1
  end.

Definition get_register_ud_type (reg : ud_type) (c : ucontext_t) : ST darwin Z :=
  match reg with
  | UD_R_AL | UD_R_AH | UD_R_AX | UD_R_EAX | UD_R_RAX => deref (reg_at c F_rax)
  | UD_R_CL | UD_R_CH | UD_R_CX | UD_R_ECX | UD_R_RCX => deref (reg_at c F_rcx)
  | UD_R_DL | UD_R_DH | UD_R_EDX | UD_R_RDX => deref (reg_at c F_rdx)
  | UD_R_BL | UD_R_BH | UD_R_EBX | UD_R_RBX => deref (reg_at c F_rbx)
  | UD_R_RIP => deref (reg_at c F_rip)
  | UD_R_SPL | UD_R_SP | UD_R_ESP | UD_R_RSP => deref (reg_at c F_rsp)
  | UD_R_BPL | UD_R_BP | UD_R_EBP | UD_R_RBP => deref (reg_at c F_rbp)
  | UD_R_SIL | UD_R_SI | UD_R_ESI | UD_R_RSI => deref (reg_at c F_rsi)
  | UD_R_DIL | UD_R_DI | UD_R_EDI | UD_R_RDI => deref (reg_at c F_rdi)
  | UD_R_R8B | UD_R_R8W | UD_R_R8D | UD_R_R8 => deref (reg_at c F_r8)
  | UD_R_R9B | UD_R_R9W | UD_R_R9D | UD_R_R9 => deref (reg_at c F_r9)
  | UD_R_R10B | UD_R_R10W | UD_R_R10D | UD_R_R10 => deref (reg_at c F_r10)
  | UD_R_R11B | UD_R_R11W | UD_R_R11D | UD_R_R11 => deref (reg_at c F_r11)
  | UD_R_R12B | UD_R_R12W | UD_R_R12D | UD_R_R12 => deref (reg_at c F_r12)
  | UD_R_R13B | UD_R_R13W | UD_R_R13D | UD_R_R13 => deref (reg_at c F_r13)
  | UD_R_R14B | UD_R_R14W | UD_R_R14D | UD_R_R14 => deref (reg_at c F_r14)
  | UD_R_R15B | UD_R_R15W | UD_R_R15D | UD_R_R15 => deref (reg_at c F_r15)
  | _ => udi_abort
  end.

(** ** Registers by their protocol number *)

(** [*address] ([None] for [NULL]) and the result. *)
Definition get_register_address (reg : Z) (c : ucontext_t) : option address * Z :=
  match register_of_Z reg with
  | Some UDI_X86_GS | Some UDI_X86_FS | Some UDI_X86_ES | Some UDI_X86_DS
  | Some UDI_X86_EDI | Some UDI_X86_ESI | Some UDI_X86_EBP | Some UDI_X86_ESP
  | Some UDI_X86_EBX | Some UDI_X86_EDX | Some UDI_X86_ECX | Some UDI_X86_EAX
  | Some UDI_X86_CS | Some UDI_X86_SS | Some UDI_X86_EIP | Some UDI_X86_FLAGS
  | Some UDI_X86_ST0 | Some UDI_X86_ST1 | Some UDI_X86_ST2 | Some UDI_X86_ST3
  | Some UDI_X86_ST4 | Some UDI_X86_ST5 | Some UDI_X86_ST6 | Some UDI_X86_ST7 => (None, -1)
  | Some UDI_X86_64_R8 => (Some (reg_at c F_r8), 0)
  | Some UDI_X86_64_R9 => (Some (reg_at c F_r9), 0)
  | Some UDI_X86_64_R10 => (Some (reg_at c F_r10), 0)
  | Some UDI_X86_64_R11 => (Some (reg_at c F_r11), 0)
  | Some UDI_X86_64_R12 => (Some (reg_at c F_r12), 0)
  | Some UDI_X86_64_R13 => (Some (reg_at c F_r13), 0)
  | Some UDI_X86_64_R14 => (Some (reg_at c F_r14), 0)
  | Some UDI_X86_64_R15 => (Some (reg_at c F_r15), 0)
  | Some UDI_X86_64_RDI => (Some (reg_at c F_rdi), 0)
  | Some UDI_X86_64_RSI => (Some (reg_at c F_rsi), 0)
  | Some UDI_X86_64_RBP => (Some (reg_at c F_rbp), 0)
  | Some UDI_X86_64_RBX => (Some (reg_at c F_rbx), 0)
  | Some UDI_X86_64_RDX => (Some (reg_at c F_rdx), 0)
  | Some UDI_X86_64_RAX => (Some (reg_at c F_rax), 0)
  | Some UDI_X86_64_RCX => (Some (reg_at c F_rcx), 0)
  | Some UDI_X86_64_RSP => (Some (reg_at c F_rsp), 0)
  | Some UDI_X86_64_RIP => (Some (reg_at c F_rip), 0)
  | Some UDI_X86_64_FLAGS => (Some (reg_at c F_rflags), 0)
  | _ => (None, -1)
  end.

Section Access.
Context `{Libc} `{Target}.

(** The result, and the value when [*value] was written. *)
Definition get_register (reg : Z) (c : ucontext_t) : ST darwin (Z * option Z) :=
  let* invalid := on_d_rt (validate_register reg) in
  if negb (invalid =? 0) then ret (-1, None)
  else
    match get_register_address reg c with
    | (Some address, 0) => let* value := deref address in ret (0, Some value)
    | (None, 0) => undef NullDeref
    | (_, _) =>
        on_d_rt (udi_set_errmsg "invalid register %s" [VStr (cstr (register_str reg))]) ;;;
        ret (-1, None)
    end.

Definition set_register (reg value : Z) (c : ucontext_t) : ST darwin Z :=
  let* invalid := on_d_rt (validate_register reg) in
  if negb (invalid =? 0) then ret (-1)
  else
    match get_register_address reg c with
    | (Some address, 0) => assign address value ;;; ret 0
    | (None, 0) => undef NullDeref
    | (_, _) =>
        on_d_rt (udi_set_errmsg "invalid register %s" [VStr (cstr (register_str reg))]) ;;;
        ret (-1)
    end.
End Access.

(** ** Facts *)

Lemma get_set_field f g v ss :
  get_field g (set_field f v ss) = if decide (f = g) then v else get_field g ss.
Proof. destruct g; reflexivity. Qed.

(** Where Linux keeps a register; [__cs], [__fs] and [__gs] share a word there. *)
Definition layout (f : field) : option Z :=
  match f with
  | F_r8 => Some 0 | F_r9 => Some 1 | F_r10 => Some 2 | F_r11 => Some 3
  | F_r12 => Some 4 | F_r13 => Some 5 | F_r14 => Some 6 | F_r15 => Some 7
  | F_rdi => Some 8 | F_rsi => Some 9 | F_rbp => Some 10 | F_rbx => Some 11
  | F_rdx => Some 12 | F_rax => Some 13 | F_rcx => Some 14 | F_rsp => Some 15
  | F_rip => Some 16 | F_rflags => Some 17
  | F_cs | F_fs | F_gs => None
  end.

Lemma layout_range f off : layout f = Some off -> 0 <= off < 18.
Proof. destruct f; cbn; intros [= <-]; lia. Qed.

Lemma layout_inj f g off : layout f = Some off -> layout g = Some off -> f = g.
Proof. destruct f; cbn; intros [= <-]; destruct g; cbn; congruence. Qed.

Lemma u64_i64 v : u64 (i64 v) = u64 v.
Proof. unfold u64, i64. rewrite Zminus_mod_idemp_l. now rewrite Z.add_simpl_r. Qed.

Lemma i64_u64 v : i64 (u64 v) = i64 v.
Proof. unfold u64, i64. now rewrite Zplus_mod_idemp_l. Qed.

Lemma i64_congr a b : u64 a = u64 b -> i64 a = i64 b.
Proof. intros He. rewrite <- (i64_u64 a), <- (i64_u64 b). now rewrite He. Qed.

Lemma u64_sub_i64 v k : u64 (i64 v - k) = u64 (v - k).
Proof.
  unfold u64. rewrite <- (Zminus_mod_idemp_l (i64 v)), <- (Zminus_mod_idemp_l v).
  do 2 f_equal. exact (u64_i64 v).
Qed.

Lemma i32_i64 v : i32 (i64 v) = i32 v.
Proof. rewrite <- (i32_u64 (i64 v)), u64_i64. apply i32_u64. Qed.

(** [m] changes no other block than [p]. *)
Definition only_block (p : ptr) (s s' : darwin) : Prop :=
  d_rt s' = d_rt s /\ d_fresh s' = d_fresh s /\ forall q, q <> p -> d_heap s' !! q = d_heap s !! q.

Definition holds (s : darwin) (u : ucontext_t) (d : reg_data) : Prop :=
  d_heap s !! uc_mcontext u = Some (Some d).

Lemma holds_load s u d : holds s u d -> block_load (uc_mcontext u) s = Ret d s.
Proof. unfold holds, block_load. now intros ->. Qed.

Lemma holds_deref s u d f : holds s u d -> deref (reg_at u f) s = Ret (get_field f (__ss d)) s.
Proof. intros Hd. unfold deref. now mstep_with (holds_load s u d Hd). Qed.

Lemma holds_assign s u d f v :
  holds s u d ->
  exists s', assign (reg_at u f) v s = Ret tt s' /\
    holds s' u (RegData (__es d) (set_field f (u64 v) (__ss d)) (__fps d)) /\
    only_block (uc_mcontext u) s s'.
Proof.
  intros Hd. unfold assign. mstep_with (holds_load s u d Hd). unfold block_assign. cbn.
  rewrite Hd. eexists. split; [reflexivity|]. split; [apply lookup_insert_eq|].
  split; [done|]. split; [done|]. intros q Hq. now apply lookup_insert_ne.
Qed.

(** A register block and the context of Linux that has the same registers. *)
Definition same_regs `{Target} (ss : ss64) (c : ucontext) : Prop :=
  ctx_ok c /\
  forall f off, layout f = Some off ->
    0 <= get_field f ss < 2 ^ 64 /\ greg off c = Some (i64 (get_field f ss)).

Definition corresponds `{Target} (s : darwin) (u : ucontext_t) (c : ucontext) : Prop :=
  exists d, holds s u d /\ same_regs (__ss d) c.

(** A read gives what it gives on Linux, and changes nothing. *)
Definition reads {A} (m : ST darwin A) (o : option A) (s : darwin) : Prop :=
  exists v, m s = Ret v s /\ o = Some v.

(** A write has the effect it has on Linux, on the context's own block. *)
Definition writes `{Target} {A} (m : ST darwin A) (a : A) (o : option ucontext)
    (s : darwin) (u : ucontext_t) : Prop :=
  exists s' c', m s = Ret a s' /\ o = Some c' /\ corresponds s' u c' /\ only_block (uc_mcontext u) s s'.

Section Agreement.
Context `{LC : Libc} `{TO : TargetOk}.
Hypothesis Hword : WORDSIZE = 64.

Lemma ngreg_64 : NGREG = 23.
Proof. unfold NGREG. now rewrite Hword. Qed.

Lemma corresponds_read s u c f off :
  corresponds s u c -> layout f = Some off ->
  exists v, 0 <= v < 2 ^ 64 /\ deref (reg_at u f) s = Ret v s /\ greg off c = Some (i64 v).
Proof.
  intros (d & Hd & _ & Hf) Hl. destruct (Hf f off Hl) as [Hr Hg].
  eauto using holds_deref.
Qed.

Lemma corresponds_write s u c f off v w :
  corresponds s u c -> layout f = Some off -> u64 v = u64 w ->
  writes (assign (reg_at u f) v) tt (set_greg off w c) s u.
Proof.
  intros (d & Hd & Hc & Hf) Hl Hv. pose proof (layout_range f off Hl) as Ho.
  destruct (holds_assign s u d f v Hd) as (s' & Hs & Hd' & Hb).
  destruct (set_greg_ok c off w Hc) as (c' & Hset & Hc' & Hsame & Hoth); [rewrite ngreg_64; lia|].
  exists s', c'. split; [done|]. split; [done|]. split; [|done].
  eexists. split; [exact Hd'|]. split; [done|]. intros g off' Hg. cbn. rewrite get_set_field.
  destruct (decide (f = g)) as [<-|Hne].
  - split; [apply u64_range|]. replace off' with off by congruence. rewrite Hsame.
    unfold to_greg. rewrite Hword. cbn. f_equal. rewrite i64_u64. now apply i64_congr.
  - destruct (Hf g off' Hg) as [Hr Hgr]. split; [done|]. rewrite Hoth; [done| |].
    + apply layout_range in Hg. lia.
    + intros ->. eauto using layout_inj.
Qed.

Lemma pc_offset_64 : pc_offset = 16.
Proof. unfold pc_offset, X86_64_RIP_OFFSET, REG_RIP. now rewrite Hword. Qed.

(** The two switches over libudis86 names pick the same register. *)
Lemma ud_register_field reg :
  is_accessible_register reg = 0 ->
  exists f off, layout f = Some off /\ get_reg_context_offset reg = off /\
    forall u, get_register_ud_type reg u = deref (reg_at u f).
Proof.
  intros Ha. destruct reg; try discriminate Ha;
    (eexists _, _; split; [|split; [|intros u; reflexivity]]; [reflexivity|]);
    vm_compute; fold WORDSIZE; now rewrite Hword.
Qed.

Lemma accessible_agrees reg :
  is_accessible_register reg = 0 <-> Registers.is_accessible_register reg = true.
Proof.
  unfold Registers.is_accessible_register, get_reg_context_offset. rewrite Hword.
  destruct reg; vm_compute; fold WORDSIZE; rewrite ?Hword; split; congruence.
Qed.

(** The protocol registers that Darwin serves: the general purpose ones, less
    the word of the segment registers. *)
Definition served (reg : Z) : bool :=
  arch_register reg && is_gp_register reg && negb (reg =? Z_of_register UDI_X86_64_CSGSFS).

Lemma arch_code_64 r :
  arch_register (Z_of_register r) = true -> 26 < Z_of_register r < 70.
Proof.
  unfold arch_register, get_architecture. rewrite Hword. cbn.
  intros Ha. apply andb_true_iff in Ha. lia.
Qed.

Lemma register_field reg :
  served reg = true ->
  exists f off, layout f = Some off /\ get_udi_reg_context_offset reg = off /\
    forall u, get_register_address reg u = (Some (reg_at u f), 0).
Proof.
  unfold served. intros Hs. apply andb_true_iff in Hs as [Hs Hc]. apply andb_true_iff in Hs as [Ha Hg].
  unfold is_gp_register in Hg. unfold get_udi_reg_context_offset, get_register_address.
  destruct (register_of_Z reg) as [r|] eqn:Hr; [|discriminate].
  apply Z_of_register_of_Z in Hr. subst reg. apply arch_code_64 in Ha.
  destruct r; try discriminate Hg; try discriminate Hc; cbn in Ha; try lia;
    (eexists _, _; split; [|split; [|intros u; reflexivity]]; [reflexivity|]);
    vm_compute; fold WORDSIZE; now rewrite Hword.
Qed.

Lemma unserved_address reg u :
  arch_register reg = true -> served reg = false -> get_register_address reg u = (None, -1).
Proof.
  unfold served. intros Ha Hs. rewrite Ha in Hs. cbn in Hs. unfold is_gp_register in Hs.
  unfold get_register_address. destruct (register_of_Z reg) as [r|] eqn:Hr; [|done].
  apply Z_of_register_of_Z in Hr. subst reg. destruct r; cbn in Hs; try discriminate Hs; reflexivity.
Qed.

Lemma on_d_rt_ok {A} (m : ST rt A) (a : A) s : m (d_rt s) = Ret a (d_rt s) -> on_d_rt m s = Ret a s.
Proof. intros Hm. unfold on_d_rt, zoom. rewrite Hm. now destruct s. Qed.

Lemma pc_reads s u c :
  corresponds s u c ->
  reads (get_pc u) (Registers.get_pc c) s /\
  reads (get_trap_address u) (Registers.get_trap_address c) s.
Proof.
  intros Hc. destruct (corresponds_read s u c F_rip 16 Hc eq_refl) as (v & Hv & Hd & Hg).
  unfold Registers.get_pc, Registers.get_trap_address. rewrite pc_offset_64, Hg. split; eexists.
  - split; [exact Hd|]. cbn. now rewrite u64_i64, u64_small.
  - split; [unfold get_trap_address; now mstep|]. cbn. now rewrite u64_i64, (u64_small v).
Qed.

Lemma flags_reads s u c : corresponds s u c -> reads (get_flags u) (Registers.get_flags c) s.
Proof.
  intros Hc. destruct (corresponds_read s u c F_rflags 17 Hc eq_refl) as (v & Hv & Hd & Hg).
  eexists. split; [exact Hd|]. unfold Registers.get_flags, X86_64_FLAGS_OFFSET, REG_EFL, ulong.
  rewrite Hword. cbn [Z.eqb Pos.eqb]. rewrite Hg. cbn. now rewrite u64_i64, u64_small.
Qed.

Lemma exit_agrees s u c status a :
  corresponds s u c ->
  exists code, get_exit_argument u s = Ret code s /\ Registers.get_exit_argument c status a = Ret code a.
Proof.
  intros Hc. destruct (corresponds_read s u c F_rdi 8 Hc eq_refl) as (v & Hv & Hd & Hg).
  eexists. split; [unfold get_exit_argument; now mstep|].
  unfold Registers.get_exit_argument, X86_64_RDI_OFFSET, REG_RDI. rewrite Hword. cbn [Z.eqb Pos.eqb].
  rewrite Hg. cbn. unfold ret. now rewrite i32_i64.
Qed.

Lemma pc_writes s u c :
  corresponds s u c ->
  writes (rewind_pc u) tt (Registers.rewind_pc c) s u /\
  forall pc, writes (set_pc u pc) tt (Registers.set_pc c pc) s u.
Proof.
  intros Hc. destruct (corresponds_read s u c F_rip 16 Hc eq_refl) as (v & Hv & Hd & Hg). split.
  - destruct (corresponds_write s u c F_rip 16 (v - 1) (i64 v - 1) Hc eq_refl) as (s' & c' & Hs & H');
      [now rewrite u64_sub_i64|].
    exists s', c'. unfold rewind_pc, Registers.rewind_pc. rewrite pc_offset_64, Hg. split; [now mstep|done].
  - intros pc. unfold Registers.set_pc. rewrite pc_offset_64.
    apply (corresponds_write s u c F_rip 16 pc (ulong pc) Hc eq_refl).
    unfold ulong. rewrite Hword. cbn. unfold u64. now rewrite Z.mod_mod.
Qed.

(** What udirt.c and udirt-x86.c ask of the platform: on a Darwin context and a
    Linux one with the same registers, the program counter, the flags, the trap
    address and the argument of [exit] are the same, moving the program counter
    has the same effect, and the same libudis86 registers are accessible and
    have the same values. *)
Theorem darwin_agrees s u c :
  corresponds s u c ->
  (reads (get_pc u) (Registers.get_pc c) s /\
   reads (get_trap_address u) (Registers.get_trap_address c) s /\
   reads (get_flags u) (Registers.get_flags c) s) /\
  (writes (rewind_pc u) tt (Registers.rewind_pc c) s u /\
   forall pc, writes (set_pc u pc) tt (Registers.set_pc c pc) s u) /\
  (forall reg, is_accessible_register reg = 0 <-> Registers.is_accessible_register reg = true) /\
  (forall reg, is_accessible_register reg = 0 ->
     exists v, get_register_ud_type reg u s = Ret v s /\
       forall t : access, Registers.get_register_ud_type reg c t = Ret v t) /\
  (forall status t, exists code, get_exit_argument u s = Ret code s /\
     Registers.get_exit_argument c status t = Ret code t).
Proof.
  intros Hc. destruct (pc_reads s u c Hc) as [H1 H2]. repeat split; auto using flags_reads, exit_agrees;
    try apply (pc_writes s u c Hc); try apply accessible_agrees.
  intros reg Ha. destruct (ud_register_field reg Ha) as (f & off & Hl & Ho & He).
  destruct (corresponds_read s u c f off Hc Hl) as (v & Hv & Hd & Hg).
  exists v. split; [now rewrite He|]. intros t. unfold Registers.get_register_ud_type. rewrite Ho, Hg.
  apply layout_range in Hl. rewrite (proj2 (Z.eqb_neq off (-1))) by lia. cbn.
  unfold ret, ulong. rewrite Hword. cbn. now rewrite u64_i64, u64_small.
Qed.

Definition invalid_darwin_msg (reg : Z) : list Z :=
  errmsg_of "invalid register %s" [VStr (cstr (register_str reg))].

(** C31: register requests. A register that both platforms serve is read and written
    as on Linux. A number outside the architecture is refused with the same
    message. The floating point registers and CSGSFS, which Linux serves or
    pretends to, are refused, and no register changes. *)
Theorem darwin_registers s u c reg value :
  corresponds s u c ->
  (served reg = true ->
     (exists v, get_register reg u s = Ret (0, Some v) s /\
        forall r, Registers.get_register reg c r = Ret (0, Some v) r) /\
     exists s' c', set_register reg value u s = Ret 0 s' /\
       (forall r, Registers.set_register reg value c r = Ret (0, c') r) /\
       corresponds s' u c' /\ only_block (uc_mcontext u) s s') /\
  (arch_register reg = false ->
     let s' := put_d_rt (Rt (invalid_register_msg reg) (allocs (d_rt s))) s in
     get_register reg u s = Ret (-1, None) s' /\ set_register reg value u s = Ret (-1) s') /\
  (arch_register reg = true -> served reg = false ->
     let s' := put_d_rt (Rt (invalid_darwin_msg reg) (allocs (d_rt s))) s in
     get_register reg u s = Ret (-1, None) s' /\ set_register reg value u s = Ret (-1) s').
Proof.
  intros Hc. unfold get_register, set_register. split; [|split].
  - intros Hs. destruct (register_field reg Hs) as (f & off & Hl & Ho & He). rewrite He.
    unfold served in Hs. apply andb_true_iff in Hs as [Hs _]. apply andb_true_iff in Hs as [Ha Hg].
    rewrite !(bind_Ret _ _ _ _ _ (on_d_rt_ok (validate_register reg) 0 s (validate_ok reg _ Ha))).
    cbn [negb Z.eqb]. split.
    + destruct (corresponds_read s u c f off Hc Hl) as (v & Hv & Hd & Hgr). exists v.
      split; [now mstep|]. intros r. subst off. rewrite (get_gp_register reg c r _ Ha Hg Hgr).
      now rewrite u64_i64, u64_small.
    + destruct (corresponds_write s u c f off value (ulong value) Hc Hl) as (s' & c' & Hs & Hset & Hc' & Hb).
      { unfold ulong. rewrite Hword. cbn. unfold u64. now rewrite Z.mod_mod. }
      exists s', c'. split; [now mstep_with Hs|]. split; [|done]. intros r. unfold Registers.set_register.
      mstep_with (validate_ok reg r Ha). cbn [negb Z.eqb]. cbv zeta. rewrite Ho. apply layout_range in Hl.
      replace (off >=? 0) with true by lia. replace (off <? -1) with false by lia. now rewrite Hset.
  - intros Ha. cbv zeta. assert (on_d_rt (validate_register reg) s
      = Ret (-1) (put_d_rt (Rt (invalid_register_msg reg) (allocs (d_rt s))) s)) as Hv
      by exact (zoom_Ret _ _ _ s _ _ (validate_bad reg (d_rt s) Ha)).
    rewrite !(bind_Ret _ _ _ _ _ Hv). split; reflexivity.
  - intros Ha Hs. cbv zeta. rewrite (unserved_address reg u Ha Hs).
    rewrite !(bind_Ret _ _ _ _ _ (on_d_rt_ok (validate_register reg) 0 s (validate_ok reg _ Ha))).
    cbn [negb Z.eqb].
    assert (on_d_rt (udi_set_errmsg "invalid register %s" [VStr (cstr (register_str reg))]) s
      = Ret tt (put_d_rt (Rt (invalid_darwin_msg reg) (allocs (d_rt s))) s)) as Hm
      by (unfold invalid_darwin_msg; apply (zoom_Ret d_rt put_d_rt), set_errmsg_ok, args_ok_formatted; reflexivity).
    rewrite !(bind_Ret _ _ _ _ _ Hm). split; reflexivity.
Qed.

(** *** The copy of a context *)

Definition frames (p : ptr) (s s' : darwin) : Prop :=
  forall q, q <> p -> d_heap s' !! q = d_heap s !! q.

Lemma frames_holds p s s' u d : frames p s s' -> uc_mcontext u <> p -> holds s u d -> holds s' u d.
Proof. unfold holds. intros Hf Hp. now rewrite Hf. Qed.

Lemma assign_frames a v s t s' : assign a v s = Ret t s' -> frames (a_block a) s s'.
Proof.
  unfold assign, block_load, block_assign. intros Hm. minv. destruct (d_heap s !! a_block a) as [[d|]|] eqn:Hd;
    try discriminate. minv. rewrite Hd in Hk. minv. intros q Hq. cbn. now apply lookup_insert_ne.
Qed.

Lemma address_block reg u a z : get_register_address reg u = (Some a, z) -> a_block a = uc_mcontext u.
Proof.
  unfold get_register_address. destruct (register_of_Z reg) as [[]|]; intros [= <-]; reflexivity.
Qed.

Lemma set_register_frames reg v u s z s' :
  set_register reg v u s = Ret z s' -> frames (uc_mcontext u) s s'.
Proof.
  assert (forall A (m : ST rt A) a s s', on_d_rt m s = Ret a s' -> d_heap s' = d_heap s) as Hrt.
  { intros A m a s1 s2 Hm. unfold on_d_rt in Hm. minv. done. }
  unfold set_register. intros Hm. minv. apply Hrt in Hm0. destruct (negb _).
  { minv. intros q _. congruence. }
  destruct (get_register_address reg u) as [[ad|] [|n|n]] eqn:Ha; minv;
    try (apply Hrt in Hm; intros q _; congruence).
  apply assign_frames in Hm. rewrite (address_block _ _ _ _ Ha) in Hm.
  intros q Hq. rewrite Hm by done. congruence.
Qed.
End Agreement.

(** Every block was handed out before: an allocation gives a new one. *)
Definition store_ok (s : darwin) : Prop := forall p, is_Some (d_heap s !! p) -> (p < d_fresh s)%nat.

Definition with_context (c : ucontext_t) (dst : signal_state) : signal_state :=
  SignalState (signal dst) (siginfo dst) c (context_data dst) (context_valid dst).

Lemma copy_context_spec s src dst d data :
  holds s src d -> context_data dst = Some data -> is_Some (d_heap s !! data) ->
  exists s', copy_context src dst s = Ret (with_context (UContextT (uc_other src) data) dst) s' /\
    holds s' (UContextT (uc_other src) data) d /\ frames data s s' /\ d_rt s' = d_rt s.
Proof.
  intros Hd Hdata [x Hx]. unfold copy_context. rewrite Hdata.
  mstep_with (holds_load s src d Hd). unfold bind, block_assign. rewrite Hx.
  eexists. split; [unfold ret, with_context; now rewrite Hdata|]. split; [apply lookup_insert_eq|].
  split; [|done]. intros q Hq. now apply lookup_insert_ne.
Qed.

(** C32: on Darwin a thread's context is saved into a block of its own, when one can
    be allocated: the saved registers
    are those of the interrupted thread, a register the debugger then writes in
    the saved context does not reach the context the thread resumes with, and
    moving the program counter of the latter does not change what is saved. *)
Theorem saved_context_separate `{Libc} `{Target} s src d dst :
  store_ok s -> holds s src d -> allocs (d_rt s) = [] ->
  exists data s1 s2, allocate_context_data s = Ret (Some data, 0) s1 /\
    let saved := UContextT (uc_other src) data in
    let dst := SignalState (signal dst) (siginfo dst) (context dst) (Some data) (context_valid dst) in
    copy_context src dst s1 = Ret (with_context saved dst) s2 /\
    holds s2 saved d /\ holds s2 src d /\ store_ok s2 /\
    (forall reg v z s3, set_register reg v saved s2 = Ret z s3 -> holds s3 src d) /\
    (forall s3, rewind_pc src s2 = Ret tt s3 -> holds s3 saved d) /\
    (forall pc s3, set_pc src pc s2 = Ret tt s3 -> holds s3 saved d).
Proof.
  intros Hok Hd Hal. assert (uc_mcontext src < d_fresh s)%nat as Hlt by (apply Hok; unfold holds in Hd; rewrite Hd; eauto).
  unfold allocate_context_data.
  assert (on_d_rt udi_malloc s = Ret true s) as Hm by (apply on_d_rt_ok; unfold udi_malloc; now rewrite Hal).
  mstep_with Hm. cbn [negb]. eexists _, _.
  set (s1 := Dar (d_rt s) (<[d_fresh s := None]> (d_heap s)) (S (d_fresh s))).
  assert (holds s1 src d) as Hd1 by (unfold holds; cbn; rewrite lookup_insert_ne; [done|lia]).
  set (dst' := SignalState (signal dst) (siginfo dst) (context dst) (Some (d_fresh s)) (context_valid dst)).
  destruct (copy_context_spec s1 src dst' d (d_fresh s) Hd1 eq_refl) as (s2 & Hc & Hs & Hf & _);
    [cbn; rewrite lookup_insert_eq; eauto|].
  exists s2. split; [reflexivity|]. cbv zeta. split; [exact Hc|]. split; [done|].
  assert (holds s2 src d) as Hd2 by (eapply frames_holds; [exact Hf|lia|done]).
  split; [done|]. split.
  { unfold copy_context in Hc. cbn in Hc. rewrite (bind_Ret _ _ _ _ _ (holds_load _ _ _ Hd1)) in Hc.
    unfold bind, block_assign in Hc. cbn in Hc. rewrite lookup_insert_eq in Hc. injection Hc as <-.
    intros p [x Hx]. cbn in *. rewrite insert_insert_eq in Hx. apply lookup_insert_Some in Hx as [[<- _]|[Hne Hx]]; [lia|].
    enough (p < d_fresh s)%nat by lia. apply Hok. eauto. }
  split; [|split].
  - intros reg v z s3 Hset. eapply frames_holds; [exact (set_register_frames _ _ _ _ _ _ Hset)|cbn; lia|done].
  - intros s3 Hr. unfold rewind_pc in Hr. rewrite (bind_Ret _ _ _ _ _ (holds_deref _ _ _ _ Hd2)) in Hr.
    eapply frames_holds; [exact (assign_frames _ _ _ _ _ Hr)|cbn; lia|done].
  - intros pc s3 Hr. eapply frames_holds; [exact (assign_frames _ _ _ _ _ Hr)|cbn; lia|done].
Qed.

(** Out of memory, [create_thread_struct] is told so; a thread that had no block
    could not be stopped. *)
Lemma no_context_data s : 
  allocs (d_rt s) = [false] ->
  (exists s', allocate_context_data s = Ret (None, ENOMEM) s' /\ d_heap s' = d_heap s) /\
  forall src dst, context_data dst = None -> copy_context src dst s = Undef NullDeref.
Proof.
  intros Ha. split.
  - unfold allocate_context_data, bind, on_d_rt, zoom, udi_malloc. rewrite Ha. cbn. eexists. split; reflexivity.
  - intros src dst Hd. unfold copy_context. now rewrite Hd.
Qed.

(** The log lines of a context can be printed. *)
Lemma log_context_formats `{Libc} s u d :
  holds s u d ->
  exists lines, log_context u s = Ret lines s /\
    Forall (fun '(format, args) => is_Some (formatted (cstr format) args)) lines.
Proof.
  intros Hd. unfold log_context. mstep_with (holds_load s u d Hd). eexists. split; [reflexivity|].
  repeat constructor; apply args_ok_formatted; reflexivity.
Qed.

Module DarwinDemo.
Import MemoryDemo RegisterDemo.

Definition ss0 : ss64 := SS64 1 2 3 4 5 6 7 8 9 10 11 12 13 14 15 16 4096 0x246 0x2b 0 0.
Definition live : ucontext_t := UContextT [] 0%nat.
Definition s0 : darwin := Dar (Rt [] []) {[ 0%nat := Some (RegData [] ss0 []) ]} 1%nat.
Definition linux0 : ucontext :=
  UContext [9; 10; 11; 12; 13; 14; 15; 16; 5; 6; 7; 2; 4; 1; 3; 8; 4096; 0x246; 0; 0; 0; 0; 0].

Lemma s0_corresponds : corresponds s0 live linux0.
Proof.
  exists (RegData [] ss0 []). split; [reflexivity|]. split; [reflexivity|].
  intros f off. destruct f; cbn; intros [= <-]; (split; [lia|reflexivity]).
Qed.

Lemma darwin_agrees_witness :
  get_pc live s0 = Ret 4096 s0 /\ get_trap_address live s0 = Ret 4095 s0 /\
  writes (rewind_pc live) tt (Registers.rewind_pc linux0) s0 live.
Proof.
  split; [reflexivity|]. split; [reflexivity|].
  exact (proj1 (proj1 (proj2 (darwin_agrees eq_refl s0 live linux0 s0_corresponds)))).
Defined.

Lemma darwin_registers_witness :
  (exists v, get_register (Z_of_register UDI_X86_64_RAX) live s0 = Ret (0, Some v) s0 /\
     forall r, Registers.get_register (Z_of_register UDI_X86_64_RAX) linux0 r = Ret (0, Some v) r) /\
  exists s', set_register (Z_of_register UDI_X86_64_XMM0) 7 live s0 = Ret (-1) s'.
Proof.
  split.
  - exact (proj1 (proj1 (darwin_registers eq_refl s0 live linux0 (Z_of_register UDI_X86_64_RAX) 0 s0_corresponds)
             eq_refl)).
  - eexists.
    exact (proj2 (proj2 (proj2 (darwin_registers eq_refl s0 live linux0 (Z_of_register UDI_X86_64_XMM0) 7 s0_corresponds))
             eq_refl eq_refl)).
Defined.

Definition no_state : signal_state := SignalState 0 (0, 0) live None false.

Lemma s0_store : store_ok s0.
Proof.
  intros p [x Hx]. cbn in Hx. apply lookup_singleton_Some in Hx as [<- _]. cbn. lia.
Qed.

Lemma saved_context_separate_witness :
  exists s1 s2, allocate_context_data s0 = Ret (Some 1%nat, 0) s1 /\
    (forall reg v z s3, set_register reg v (UContextT [] 1%nat) s2 = Ret z s3 ->
       holds s3 live (RegData [] ss0 [])).
Proof.
  destruct (saved_context_separate s0 live (RegData [] ss0 []) no_state s0_store eq_refl eq_refl)
    as (data & s1 & s2 & Hal & _ & _ & _ & _ & Hset & _).
  assert (data = 1%nat) as -> by (vm_compute in Hal; congruence).
  exists s1, s2. split; [exact Hal|exact Hset].
Defined.

(** Without the last line of [copy_context] the copy would share the block: a
    write to it would be one to the interrupted thread. *)
Example shallow_copy_aliases :
  exists s1 s2, set_register (Z_of_register UDI_X86_64_RAX) 77 (UContextT [] (uc_mcontext live)) s0 = Ret 0 s1 /\
    get_register (Z_of_register UDI_X86_64_RAX) live s1 = Ret (0, Some 77) s2.
Proof. eexists _, _. split; vm_compute; reflexivity. Qed.
End DarwinDemo.
