(* ===== verification/Windows.v ===== *)
(** * Windows: udirt-win.c

    The Windows port is unfinished: most of what udirt.c and udirt-msg.c call is
    a stub, and some functions name variables that are not declared. This file
    has what is there: overlapped input and output, the named pipes and the
    command loop, with the stubs that decide what the port can do. [strerror_r]
    of [Libc] stands for the text of [FormatMessageA].

    A handle is a number; the outcomes of the coming system calls are part of
    the state, as in Io.v and Process.v. *)

From Stdlib Require Import String.
From stdpp Require Import gmap.
From S2P Require Import Prelude External Types Format Memory Breakpoints Registers Io Threads.

(** ** State *)

(** A call with an [OVERLAPPED]: it completes, it is pending
    ([ERROR_IO_PENDING]) and completes or fails when it is waited for, or it
    fails with another error. *)
Inductive overlapped (A : Type) : Type := Done (a : A) | IoPending (r : A + Z) | Failed (error : Z).
Arguments Done {A} a.
Arguments IoPending {A} r.
Arguments Failed {A} error.

(** [wp_in]: what the coming reads meet, a broken pipe once it is empty;
    [wp_wr]: how many bytes the coming writes take, all of them once it is
    empty. *)
Record wpipe : Type := WPipe {
  wp_in : list (overlapped (list Z));
  wp_wr : list (overlapped nat);
  wp_out : list Z
}.

Definition INVALID_HANDLE_VALUE : Z := -1.
Definition ERROR_INVALID_HANDLE : Z := 6.
Definition ERROR_BROKEN_PIPE : Z := 109.
Definition ERROR_PIPE_CONNECTED : Z := 535.
Definition ERROR_IO_PENDING : Z := 997.
Definition WAIT_OBJECT_0 : Z := 0.
Definition WAIT_FAILED : Z := 0xffffffff.

(** [struct udi_pipe_ctx_struct]; of the [OVERLAPPED] the event is kept. *)
Record udi_pipe_ctx : Type := PipeCtx { hEvent : Z; handle : Z; conn_pending : bool }.

Record win : Type := Win {
  w_rt : rt;
  w_open : gset Z;              (** the open handles *)
  w_next : Z;                   (** the next handle *)
  w_dev : gmap Z wpipe;
  w_names : list (list Z);      (** the names of the pipes that were created *)
  event_results : list Z;       (** the error of each [CreateEvent], 0 on success *)
  pipe_results : list Z;        (** of each [CreateNamedPipeA] *)
  connect_results : list Z;     (** of each [ConnectNamedPipe] *)
  wait_results : list (Z * Z)   (** the result of each wait, and [GetLastError] *)
}.

Definition put_w_rt (r : rt) (s : win) : win :=
  Win r (w_open s) (w_next s) (w_dev s) (w_names s) (event_results s) (pipe_results s) (connect_results s) (wait_results s).
Definition put_open (o : gset Z) (n : Z) (s : win) : win :=
  Win (w_rt s) o n (w_dev s) (w_names s) (event_results s) (pipe_results s) (connect_results s) (wait_results s).
Definition put_dev (d : gmap Z wpipe) (s : win) : win :=
  Win (w_rt s) (w_open s) (w_next s) d (w_names s) (event_results s) (pipe_results s) (connect_results s) (wait_results s).
Definition put_names (l : list (list Z)) (s : win) : win :=
  Win (w_rt s) (w_open s) (w_next s) (w_dev s) l (event_results s) (pipe_results s) (connect_results s) (wait_results s).
Definition put_results (e p c : list Z) (w : list (Z * Z)) (s : win) : win :=
  Win (w_rt s) (w_open s) (w_next s) (w_dev s) (w_names s) e p c w.

Definition on_w_rt {A} (m : ST rt A) : ST win A := zoom w_rt put_w_rt m.

(** ** System calls *)

Definition ReadFile (h : Z) (n : nat) : ST win (overlapped (list Z)) := fun s =>
  match w_dev s !! h with
  | None => Ret (Failed ERROR_INVALID_HANDLE) s
  | Some p =>
      let put q := put_dev (<[h := WPipe q (wp_wr p) (wp_out p)]> (w_dev s)) s in
      let rest bs q := if decide (length bs <= n)%nat then q else Done (drop n bs) :: q in
      match wp_in p with
      | [] => Ret (Failed ERROR_BROKEN_PIPE) s
      | Done bs :: q => Ret (Done (take n bs)) (put (rest bs q))
      | IoPending (inl bs) :: q => Ret (IoPending (inl (take n bs))) (put (rest bs q))
      | x :: q => Ret x (put q)
      end
  end.

(** The number of bytes written, of at most [length src]. *)
Definition WriteFile (h : Z) (src : list Z) : ST win (overlapped nat) := fun s =>
  match w_dev s !! h with
  | None => Ret (Failed ERROR_INVALID_HANDLE) s
  | Some p =>
      let put w k := put_dev (<[h := WPipe (wp_in p) w (wp_out p ++ take k src)]> (w_dev s)) s in
      match wp_wr p with
      | [] => Ret (Done (length src)) (put [] (length src))
      | Done k :: w => Ret (Done (length (take k src))) (put w k)
      | IoPending (inl k) :: w => Ret (IoPending (inl (length (take k src)))) (put w k)
      | x :: w => Ret x (put w 0%nat)
      end
  end.

Definition next_error (l : list Z) : Z * list Z := match l with [] => (0, []) | e :: l => (e, l) end.

(** A new handle, or the error. *)
Definition CreateEvent : ST win (Z + Z) := fun s =>
  let '(e, es) := next_error (event_results s) in
  let s := put_results es (pipe_results s) (connect_results s) (wait_results s) s in
  if e =? 0 then Ret (inl (w_next s)) (put_open ({[w_next s]} ∪ w_open s) (w_next s + 1) s)
  else Ret (inr e) s.

Definition CreateNamedPipeA (name : list Z) : ST win (Z + Z) := fun s =>
  let '(e, es) := next_error (pipe_results s) in
  let s := put_results (event_results s) es (connect_results s) (wait_results s) s in
  if e =? 0 then
    Ret (inl (w_next s))
      (put_names (w_names s ++ [name]) (put_open ({[w_next s]} ∪ w_open s) (w_next s + 1) s))
  else Ret (inr e) s.

Definition ConnectNamedPipe : ST win Z := fun s =>
  let '(e, es) := next_error (connect_results s) in
  Ret e (put_results (event_results s) (pipe_results s) es (wait_results s) s).

(** A wait that never ends when nothing is to come. *)
Definition wait_object : ST win (Z * Z) := fun s =>
  match wait_results s with
  | [] => Running s
  | e :: es => Ret e (put_results (event_results s) (pipe_results s) (connect_results s) es s)
  end.

Definition CloseHandle (h : Z) : ST win unit := modify (fun s => put_open (w_open s ∖ {[h]}) (w_next s) s).

(** ** [read_from] and [write_to] *)

Fixpoint read_loop (fuel : nat) (fd : udi_pipe_ctx) (length_ : nat) (dst : list Z) : ST win (Z * list Z) :=
  match fuel with
  | O => running
  | S fuel' =>
      if decide (length dst < length_)%nat then
        let* r := ReadFile (handle fd) (length_ - length dst) in
        match r with
        | Failed error => ret (i32 error, dst)
        | IoPending (inr error) => ret (i32 error, dst)
        | Done bs | IoPending (inl bs) =>
            match bs with
            | [] => ret (-1, dst)
            | _ => read_loop fuel' fd length_ (dst ++ bs)
            end
        end
      else ret (0, dst)
  end.

Definition io_size (e : overlapped (list Z)) : nat :=
  match e with Done bs | IoPending (inl bs) => S (length bs) | _ => 1 end.

Definition read_fuel (fd : udi_pipe_ctx) (s : win) : nat :=
  match w_dev s !! handle fd with Some p => S (S (sum_list_with io_size (wp_in p))) | None => 2 end.

Definition read_from (fd : udi_pipe_ctx) (length_ : nat) : ST win (Z * list Z) :=
  let* fuel := gets (read_fuel fd) in
  read_loop fuel fd length_ [].

(** A write that takes nothing is repeated. *)
Fixpoint write_loop (fuel : nat) (fd : udi_pipe_ctx) (src : list Z) (total : nat) : ST win Z :=
  match fuel with
  | O => running
  | S fuel' =>
      if decide (total < length src)%nat then
        let* r := WriteFile (handle fd) (drop total src) in
        match r with
        | Failed error => ret (i32 error)
        | IoPending (inr error) => ret (i32 error)
        | Done k | IoPending (inl k) => write_loop fuel' fd src (total + k)
        end
      else ret 0
  end.

Definition write_fuel (fd : udi_pipe_ctx) (s : win) : nat :=
  match w_dev s !! handle fd with Some p => S (S (length (wp_wr p))) | None => 2 end.

Definition write_to (fd : udi_pipe_ctx) (src : list Z) : ST win Z :=
  let* fuel := gets (write_fuel fd) in
  write_loop fuel fd src 0.

(** ** The pipes *)

Section Pipes.
Context `{Libc}.

(** [GetCurrentProcessId()] *)
Context (current_pid : Z).

Definition PIPE_NAME_BASE : list Z := cstr "udi".

Definition pipe_name (suffix : list Z) : option (list Z) :=
  c_string <$> udi_formatted_str (replicate 128 0) 128 "\\.\pipe\%s-%d-%s"
                 [VStr PIPE_NAME_BASE; VInt current_pid; VStr suffix].

(** The body of [do .. while (0)]: the result, the context, and the variable
    [pipe], [None] before its first assignment. *)
Definition open_pipe (suffix : list Z) (input : bool) (name : list Z) (output : udi_pipe_ctx)
    : ST win (Z * udi_pipe_ctx * option Z) :=
  let* (result, output) :=
    (if input then
       let* event := CreateEvent in
       match event with
       | inr error =>
           on_w_rt (udi_set_errmsg "error creating %s pipe: %e" [VStr suffix; VInt error]) ;;;
           ret (RESULT_ERROR, output)
       | inl h => ret (RESULT_SUCCESS, PipeCtx h (handle output) (conn_pending output))
       end
     else ret (RESULT_SUCCESS, output)) in
  if negb (result =? RESULT_SUCCESS) then ret (result, output, None)
  else
    let* pipe := CreateNamedPipeA name in
    match pipe with
    | inr error =>
        on_w_rt (udi_set_errmsg "error creating %s pipe: %e" [VStr suffix; VInt error]) ;;;
        ret (RESULT_ERROR, output, Some INVALID_HANDLE_VALUE)
    | inl pipe =>
        if input then
          let* last_error := ConnectNamedPipe in
          if last_error =? 0 then ret (RESULT_SUCCESS, PipeCtx (hEvent output) (handle output) false, Some pipe)
          else if last_error =? ERROR_PIPE_CONNECTED then
            ret (RESULT_SUCCESS, PipeCtx (hEvent output) (handle output) false, Some pipe)
          else if last_error =? ERROR_IO_PENDING then
            ret (RESULT_SUCCESS, PipeCtx (hEvent output) (handle output) true, Some pipe)
          else
            on_w_rt (udi_set_errmsg "failed to connect %s pipe: %e" [VStr suffix; VInt last_error]) ;;;
            ret (RESULT_ERROR, output, Some pipe)
        else ret (RESULT_SUCCESS, output, Some pipe)
    end.

(** The result and [*output]. *)
Definition create_udi_pipe (suffix : list Z) (input : bool) : ST win (Z * udi_pipe_ctx) :=
  match pipe_name suffix with
  | None => undef BadFormat
  | Some name =>
      let* (result, output, pipe) :=
        open_pipe suffix input name (PipeCtx INVALID_HANDLE_VALUE INVALID_HANDLE_VALUE false) in
      if result =? RESULT_SUCCESS then
        match pipe with
        | None => undef Uninitialized
        | Some pipe => ret (result, PipeCtx (hEvent output) pipe (conn_pending output))
        end
      else
        (if negb (hEvent output =? INVALID_HANDLE_VALUE) then CloseHandle (hEvent output) else ret tt) ;;;
        match pipe with
        | None => undef Uninitialized
        | Some pipe =>
            (if negb (pipe =? INVALID_HANDLE_VALUE) then CloseHandle pipe else ret tt) ;;;
            ret (result, PipeCtx INVALID_HANDLE_VALUE INVALID_HANDLE_VALUE (conn_pending output))
        end
  end.

Definition connect_pipe (suffix : list Z) (pipe_ctx : udi_pipe_ctx) : ST win Z :=
  if conn_pending pipe_ctx then
    let* (wait_result, last_error) := wait_object in
    if negb (wait_result =? WAIT_OBJECT_0) then
      on_w_rt (udi_set_errmsg "failed to wait for %s pipe to connect: %e" [VStr suffix; VInt last_error]) ;;;
      ret RESULT_ERROR
    else ret RESULT_SUCCESS
  else ret RESULT_SUCCESS.

(** ** The command loop *)

(** [*thr] is always [NULL]. *)
Definition block_for_request : ST win Z :=
  let* (result, _) := wait_object in
  if result =? WAIT_FAILED then ret RESULT_ERROR else ret RESULT_SUCCESS.

(** [handle_process_request] on the pipes of the process: the result and the
    type. *)
Context (process_request : ST win (Z * Z)).

Fixpoint command_loop (fuel : nat) : ST win Z :=
  match fuel with
  | O => running
  | S fuel' =>
      let* result := block_for_request in
      if negb (result =? 0) then
        on_w_rt (udi_set_errmsg "failed to wait for request" []) ;;;
        ret RESULT_ERROR
      else
        let* (result, type) := process_request in
        let more_reqs :=
          if negb (result =? RESULT_SUCCESS) then
            if result =? RESULT_FAILURE then true
            else if result =? RESULT_ERROR then false
            else true
          else true in
        let more_reqs := if type =? Z_of_request UDI_REQ_CONTINUE then false else more_reqs in
        if more_reqs then command_loop fuel' else ret result
  end.

Definition wait_and_execute_command : ST win Z :=
  let* fuel := gets (fun s => S (length (wait_results s))) in
  command_loop fuel.
End Pipes.

(** ** Stubs that udirt.c and udirt-msg.c depend on *)

Definition pre_mem_access_hook : option unit := None.
Definition post_mem_access_hook (hook_arg : unit) : Z := 0.
Definition get_thread_list : option ptr := None.

(** [udi_memcpy] of udirt.c with these hooks. *)
Definition udi_memcpy `{Libc} (dest src : place) (buf : list Z) (num_bytes : nat) : ST access (Z * list Z) :=
  match pre_mem_access_hook with
  | None =>
      on_rt (udi_set_errmsg "pre memory access hook failed" []) ;;;
      ret (-1, buf)
  | Some pre_access_result =>
      modify (put_performing true) ;;;
      let* (mem_result, buf) := abortable_memcpy dest src buf num_bytes in
      modify (put_performing false) ;;;
      if negb (post_mem_access_hook pre_access_result =? 0) then
        on_rt (udi_set_errmsg "post memory access hook failed" []) ;;;
        ret (-1, buf)
      else ret (mem_result, buf)
  end.

(** ** Facts *)

(** *** Reading *)

(** What a read of the POSIX port would meet. *)
Definition posix_of (e : overlapped (list Z)) : rd_outcome :=
  match e with
  | Done bs | IoPending (inl bs) => RData bs
  | IoPending (inr error) | Failed error => RErr error
  end.

Definition posix_queue (q : list (overlapped (list Z))) : list rd_outcome :=
  (posix_of <$> q) ++ [RErr ERROR_BROKEN_PIPE].

(** A Windows error code that POSIX would take for an interruption does not
    occur on a pipe. *)
Definition no_eintr (e : overlapped (list Z)) : Prop :=
  match e with
  | IoPending (inr error) | Failed error => 4 < error < 2 ^ 31
  | _ => True
  end.

Definition io_rest (n : nat) (bs : list Z) (q : list (overlapped (list Z))) : list (overlapped (list Z)) :=
  if decide (length bs <= n)%nat then q else Done (drop n bs) :: q.

(** A read of a piece: the stream goes on behind what was read. *)
Lemma io_rest_spec n b bs q :
  (0 < n)%nat -> Forall no_eintr q ->
  exists x xs, take n (b :: bs) = x :: xs /\ (length (x :: xs) <= n)%nat /\
    Forall no_eintr (io_rest n (b :: bs) q) /\
    (b :: bs) ++ avail (posix_queue q) = (x :: xs) ++ avail (posix_queue (io_rest n (b :: bs) q)) /\
    stream_end (posix_queue (io_rest n (b :: bs) q)) = stream_end (posix_queue q) /\
    (sum_list_with io_size (io_rest n (b :: bs) q) < S (length (b :: bs)) + sum_list_with io_size q)%nat.
Proof.
  intros Hn Hq. destruct n as [|n]; [lia|]. exists b, (take n bs). split; [done|].
  split; [cbn; rewrite length_take; lia|]. unfold io_rest. case_decide as Hl; cbn [length] in Hl.
  - split; [done|]. rewrite take_ge by lia. split; [done|]. split; [done|]. lia.
  - split; [now constructor|]. destruct (drop n bs) as [|x xs] eqn:Hd.
    { apply (f_equal length) in Hd. rewrite length_drop in Hd. cbn in Hd. lia. }
    cbn [drop]. rewrite Hd. unfold posix_queue. cbn. split; [|split; [done|]].
    + f_equal. rewrite <- (take_drop n bs) at 1. now rewrite Hd, <- app_assoc.
    + apply (f_equal length) in Hd. rewrite length_drop in Hd. cbn in Hd. lia.
Qed.

Lemma ReadFile_outcome h n s p :
  w_dev s !! h = Some p -> (0 < n)%nat -> Forall no_eintr (wp_in p) ->
  exists r s', ReadFile h n s = Ret r s' /\
    match r with
    | Done bs | IoPending (inl bs) =>
        match bs with
        | [] => avail (posix_queue (wp_in p)) = [] /\ stream_end (posix_queue (wp_in p)) = -1
        | _ => exists q, w_dev s' !! h = Some (WPipe q (wp_wr p) (wp_out p)) /\ Forall no_eintr q /\
                 (length bs <= n)%nat /\ avail (posix_queue (wp_in p)) = bs ++ avail (posix_queue q) /\
                 stream_end (posix_queue q) = stream_end (posix_queue (wp_in p)) /\
                 (sum_list_with io_size q < sum_list_with io_size (wp_in p))%nat
        end
    | IoPending (inr error) | Failed error =>
        avail (posix_queue (wp_in p)) = [] /\ stream_end (posix_queue (wp_in p)) = i32 error
    end.
Proof.
  intros Hp Hn Hq. unfold ReadFile. rewrite Hp.
  assert (forall e, 4 < e < 2 ^ 31 -> (e =? EINTR) = false /\ i32 e = e) as He.
  { intros e ?. split; [apply Z.eqb_neq; unfold EINTR; lia|apply i32_small; unfold INT_MIN, INT_MAX; lia]. }
  assert (forall bs q, no_eintr (Done bs) -> Forall no_eintr q -> wp_in p = Done bs :: q \/ wp_in p = IoPending (inl bs) :: q ->
    match take n bs with
    | [] => avail (posix_queue (wp_in p)) = [] /\ stream_end (posix_queue (wp_in p)) = -1
    | _ => Forall no_eintr (io_rest n bs q) /\
             (length (take n bs) <= n)%nat /\
             avail (posix_queue (wp_in p)) = take n bs ++ avail (posix_queue (io_rest n bs q)) /\
             stream_end (posix_queue (io_rest n bs q)) = stream_end (posix_queue (wp_in p)) /\
             (sum_list_with io_size (io_rest n bs q) < sum_list_with io_size (wp_in p))%nat
    end) as Hdata.
  { intros [|b bs] q _ Hq' Hw; [rewrite take_nil; destruct Hw as [-> | ->]; done|].
    destruct (io_rest_spec n b bs q Hn Hq') as (x & xs & Ht & Hl & Hr & Ha & Hs & Hz). rewrite Ht.
    split; [done|]. split; [done|]. rewrite <- Ha, Hs. now destruct Hw as [-> | ->]. }
  destruct (wp_in p) as [|[bs|[bs|e]|e] q]; [|apply Forall_cons in Hq as [Hx Hq]..].
  - eexists _, _. split; [reflexivity|]. done.
  - specialize (Hdata bs q I Hq (or_introl eq_refl)). eexists _, _. split; [reflexivity|]. cbv beta iota.
    destruct (take n bs); [done|]. eexists. split; [apply lookup_insert_eq|]. exact Hdata.
  - specialize (Hdata bs q I Hq (or_intror eq_refl)). eexists _, _. split; [reflexivity|]. cbv beta iota.
    destruct (take n bs); [done|]. eexists. split; [apply lookup_insert_eq|]. exact Hdata.
  - eexists _, _. split; [reflexivity|]. destruct (He e Hx) as [E1 E2]. cbn. now rewrite E1, E2.
  - eexists _, _. split; [reflexivity|]. destruct (He e Hx) as [E1 E2]. cbn. now rewrite E1, E2.
Qed.

Definition readable_pipe (s : win) (h : Z) (bs : list Z) (e : Z) : Prop :=
  exists p, w_dev s !! h = Some p /\ Forall no_eintr (wp_in p) /\
    avail (posix_queue (wp_in p)) = bs /\ stream_end (posix_queue (wp_in p)) = e.

Lemma read_loop_spec fd n : forall fuel dst s p,
  w_dev s !! handle fd = Some p -> Forall no_eintr (wp_in p) -> (length dst <= n)%nat ->
  (sum_list_with io_size (wp_in p) + 1 < fuel)%nat ->
  let bs := avail (posix_queue (wp_in p)) in let k := (n - length dst)%nat in
  let e := stream_end (posix_queue (wp_in p)) in
  exists s', read_loop fuel fd n dst s = Ret (if decide (k <= length bs)%nat then 0 else e, dst ++ take k bs) s' /\
  ((k <= length bs)%nat -> readable_pipe s' (handle fd) (drop k bs) e).
Proof.
  induction fuel as [|fuel IH]; intros dst s p Hp Hn Hd Hf; [lia|]. cbv zeta. cbn [read_loop].
  destruct (decide (length dst < n)%nat) as [Hl|Hl].
  2:{ replace (n - length dst)%nat with 0%nat by lia. rewrite decide_True by lia. rewrite take_0, app_nil_r.
      eexists. split; [reflexivity|]. intros _. now exists p. }
  destruct (ReadFile_outcome (handle fd) (n - length dst) s p Hp ltac:(lia) Hn) as (r & s1 & Hrd & Hr).
  mstep_with Hrd.
  assert (forall b bs, (exists q, w_dev s1 !! handle fd = Some (WPipe q (wp_wr p) (wp_out p)) /\ Forall no_eintr q /\
      (length (b :: bs) <= n - length dst)%nat /\ avail (posix_queue (wp_in p)) = (b :: bs) ++ avail (posix_queue q) /\
      stream_end (posix_queue q) = stream_end (posix_queue (wp_in p)) /\
      (sum_list_with io_size q < sum_list_with io_size (wp_in p))%nat) ->
    exists s', read_loop fuel fd n (dst ++ b :: bs) s1
      = Ret (if decide (n - length dst <= length (avail (posix_queue (wp_in p))))%nat
             then 0 else stream_end (posix_queue (wp_in p)),
             dst ++ take (n - length dst) (avail (posix_queue (wp_in p)))) s' /\
    ((n - length dst <= length (avail (posix_queue (wp_in p))))%nat ->
      readable_pipe s' (handle fd) (drop (n - length dst) (avail (posix_queue (wp_in p))))
        (stream_end (posix_queue (wp_in p))))) as Hdata.
  { clear r Hrd Hr. intros b bs (q & Hq & Hqn & Hlen & Ha & He & Hz).
    destruct (IH (dst ++ b :: bs) s1 _ Hq Hqn) as (s' & Hs' & Hrp); [rewrite length_app; lia|cbn [wp_in]; lia|].
    cbn [wp_in] in Hs', Hrp. exists s'. rewrite Hs', Ha, He. rewrite length_app in Hrp |- *.
    rewrite (length_app (b :: bs)).
    replace (n - length dst)%nat with (length (b :: bs) + (n - (length dst + length (b :: bs))))%nat by lia.
    rewrite take_app_add, drop_app_add, <- app_assoc. split.
    - f_equal. f_equal. repeat case_decide; done || lia.
    - intros Hk. rewrite <- He. apply Hrp. lia. }
  destruct r as [bs|[bs|e]|e].
  1,2: destruct bs as [|b bs]; [|now apply Hdata].
  all: destruct Hr as [Ha He]; rewrite Ha, He; rewrite decide_False by (cbn; lia); rewrite take_nil, app_nil_r;
    eexists; (split; [reflexivity|]); cbn; lia.
Qed.

(** [read_from] of the two ports does the same with the same stream, however
    the bytes are cut into reads and whether a read completes at once or not:
    the result and the bytes are those of [Io.read_from], and the stream goes on
    behind them. *)
Theorem read_from_agrees fd n s bs e (fd' : Z) (s' : env) :
  readable_pipe s (handle fd) bs e -> readable_fd s' fd' bs e ->
  exists r dst s1 s1', read_from fd n s = Ret (r, dst) s1 /\ Io.read_from fd' n s' = Ret (r, dst) s1' /\
    (if (n <=? length bs)%nat then r = 0 /\ dst = take n bs /\ readable_pipe s1 (handle fd) (drop n bs) e /\ readable_fd s1' fd' (drop n bs) e
     else r = e /\ dst = bs).
Proof.
  intros (p & Hp & Hn & <- & <-) Hr. unfold read_from. mstep. unfold read_fuel. rewrite Hp.
  destruct (read_loop_spec fd n (S (S (sum_list_with io_size (wp_in p)))) [] s p Hp Hn) as (s1 & Hs1 & Hrp);
    [cbn; lia|lia|]. cbn [length] in Hs1, Hrp. rewrite Nat.sub_0_r in Hs1, Hrp. cbn [app] in Hs1.
  destruct (Nat.leb_spec n (length (avail (posix_queue (wp_in p))))) as [Hl|Hl].
  - rewrite decide_True in Hs1 by done. destruct (read_from_ok fd' n s' _ _ Hr Hl) as (s2 & Hs2 & _ & Hr2).
    do 4 eexists. split; [exact Hs1|]. split; [exact Hs2|]. auto.
  - rewrite decide_False in Hs1 by lia. destruct (read_from_short fd' n s' _ _ Hr Hl) as (s2 & Hs2 & _).
    rewrite take_ge in Hs1 by lia. do 4 eexists. split; [exact Hs1|]. split; [exact Hs2|]. auto.
Qed.

(** *** Writing *)

(** A write to an open pipe always ends; a prefix of the bytes is in the pipe, and
    all of them when the result is 0. A pipe no write of which fails gets them
    all. *)
Definition takes (o : overlapped nat) : Prop :=
  match o with Done _ | IoPending (inl _) => True | _ => False end.

Lemma WriteFile_outcome h src s p :
  w_dev s !! h = Some p ->
  exists r k s', WriteFile h src s = Ret r s' /\
    (exists w, w_dev s' !! h = Some (WPipe (wp_in p) w (wp_out p ++ take k src)) /\ suffix w (wp_wr p) /\
       (length w < length (wp_wr p) \/ wp_wr p = [] /\ k = length src)%nat) /\
    match r with
    | Done n | IoPending (inl n) => n = k /\ (k <= length src)%nat
    | IoPending (inr error) | Failed error => k = 0%nat /\ ~ Forall takes (wp_wr p)
    end.
Proof.
  intros Hp. unfold WriteFile. rewrite Hp. unfold put_dev. cbn.
  assert (forall k, take k src = take (length (take k src)) src) as Ht.
  { intros k. rewrite length_take. destruct (le_lt_dec k (length src)); [now rewrite Nat.min_l by lia|].
    rewrite Nat.min_r by lia. now rewrite !take_ge by lia. }
  destruct (wp_wr p) as [|[k|[k|e]|e] w].
  - exists (Done (length src)), (length src). eexists. split; [reflexivity|].
    split; [|split; [done|lia]]. eexists. split; [apply lookup_insert_eq|]. split; [done|]. now right.
  - exists (Done (length (take k src))), (length (take k src)). eexists. split; [reflexivity|].
    split; [|split; [done|rewrite length_take; lia]].
    exists w. rewrite <- Ht. split; [apply lookup_insert_eq|]. split; [now exists [Done k]|]. cbn. lia.
  - exists (IoPending (inl (length (take k src)))), (length (take k src)). eexists. split; [reflexivity|].
    split; [|split; [done|rewrite length_take; lia]].
    exists w. rewrite <- Ht. split; [apply lookup_insert_eq|]. split; [now exists [IoPending (inl k)]|]. cbn. lia.
  - exists (IoPending (inr e)), 0%nat. eexists. split; [reflexivity|].
    split; [|split; [done|]]. 
    + eexists. split; [apply lookup_insert_eq|]. split; [now exists [IoPending (inr e)]|]. cbn. lia.
    + intros Ha. apply Forall_cons in Ha as [[] _].
  - exists (Failed e), 0%nat. eexists. split; [reflexivity|].
    split; [|split; [done|]]. 
    + eexists. split; [apply lookup_insert_eq|]. split; [now exists [Failed e]|]. cbn. lia.
    + intros Ha. apply Forall_cons in Ha as [[] _].
Qed.

Lemma write_loop_takes fd src : forall fuel total s p,
  w_dev s !! handle fd = Some p -> (total <= length src)%nat ->
  (S (length (wp_wr p)) < fuel)%nat \/ (total = length src /\ 0 < fuel)%nat ->
  exists r k s' w, write_loop fuel fd src total s = Ret r s' /\
    w_dev s' !! handle fd = Some (WPipe (wp_in p) w (wp_out p ++ take k (drop total src))) /\
    ((length src <= total + k)%nat /\ r = 0 \/ ~ Forall takes (wp_wr p)).
Proof.
  induction fuel as [|fuel IH]; intros total s p Hp Ht Hf; [lia|]. cbn [write_loop].
  case_decide as Hlt.
  2:{ exists 0, 0%nat, s, (wp_wr p). split; [done|]. rewrite take_0, app_nil_r.
      split; [now destruct p|]. left. split; [lia|done]. }
  destruct Hf as [Hf|]; [|lia].
  destruct (WriteFile_outcome (handle fd) (drop total src) s p Hp) as (r & k & s1 & Hr & (w & Hw & Hs & Hl) & Ho).
  mstep_with Hr.
  assert ((k <= length (drop total src))%nat -> exists r k' s' w, write_loop fuel fd src (total + k) s1 = Ret r s' /\
    w_dev s' !! handle fd = Some (WPipe (wp_in p) w (wp_out p ++ take k' (drop total src))) /\
    ((length src <= total + k')%nat /\ r = 0 \/ ~ Forall takes (wp_wr p))) as Hmore.
  { clear r Hr Ho. rewrite length_drop. intros Hk.
    destruct (IH (total + k)%nat s1 _ Hw) as (r & k' & s2 & w' & Hr & Hd & Hok); [lia| |].
    { cbn [wp_wr]. destruct Hl as [Hl|[Hl Hk']]; [left; lia|right]. rewrite length_drop in Hk'. lia. }
    exists r, (k + k')%nat, s2, w'. split; [done|]. cbn [wp_in wp_out wp_wr] in *.
    rewrite take_drop_split, drop_drop, app_assoc. split; [done|].
    destruct Hok as [[Hok ->]|Hok]; [left; split; [lia|done]|right]. intros Ha. apply Hok.
    destruct Hs as [x Hx]. rewrite Hx in Ha. now apply Forall_app in Ha as [_ Ha]. }
  destruct r as [n|[n|e]|e]; destruct Ho as [-> Ho]; try (now apply Hmore).
  all: exists (i32 e), 0%nat, s1, w; split; [done|]; split; [exact Hw|]; now right.
Qed.

Lemma write_to_takes fd src s p :
  w_dev s !! handle fd = Some p ->
  exists r k s' w, write_to fd src s = Ret r s' /\
    w_dev s' !! handle fd = Some (WPipe (wp_in p) w (wp_out p ++ take k src)) /\
    (Forall takes (wp_wr p) -> r = 0 /\ take k src = src).
Proof.
  intros Hp. unfold write_to. mstep. unfold write_fuel. rewrite Hp.
  destruct (write_loop_takes fd src (S (S (length (wp_wr p)))) 0 s p Hp) as (r & k & s' & w & Hr & Hd & Hok);
    [lia|left; lia|].
  exists r, k, s', w. split; [done|]. split; [done|]. intros Ha. destruct Hok as [[Hk ->]|Hok]; [|done].
  split; [done|]. rewrite take_ge by lia. done.
Qed.

(** *** Pipes *)

Section PipeFacts.
Context `{LC : Libc} (current_pid : Z).

(** Handles are numbered upwards, and no handle is [INVALID_HANDLE_VALUE]. *)
Definition handles_below (s : win) : Prop := 0 < w_next s /\ forall h, h ∈ w_open s -> h < w_next s.

(** The error of the next [CreateEvent]. *)
Definition event_fails (s : win) : bool := negb ((next_error (event_results s)).1 =? 0).

Lemma pipe_name_ok suffix : (i32 current_pid =? INT_MIN) = false -> is_Some (pipe_name current_pid suffix).
Proof.
  intros Hpid. unfold pipe_name. apply fmap_is_Some.
  destruct (args_ok_formatted (cstr "\\.\pipe\%s-%d-%s") [VStr PIPE_NAME_BASE; VInt current_pid; VStr suffix]) as [out Hout].
  { transitivity (match (if i32 current_pid =? INT_MIN then None else Some [VStr suffix]) with
                  | Some args => args_ok (cstr "-%s") args
                  | None => false
                  end); [reflexivity|now rewrite Hpid]. }
  destruct (formatted_str_spec (replicate 128 0) 128 _ _ _ ltac:(lia) ltac:(rewrite length_replicate; lia) Hout)
    as (buf & Hb & _). now exists buf.
Qed.

Lemma win_errmsg_ok format args s :
  args_ok (cstr format) args = true ->
  on_w_rt (udi_set_errmsg format args) s = Ret tt (put_w_rt (Rt (errmsg_of format args) (allocs (w_rt s))) s).
Proof. intros Ha. apply zoom_Ret, set_errmsg_ok, args_ok_formatted, Ha. Qed.

Lemma pipe_errmsg_ok (format : string) suffix e s :
  In format ["error creating %s pipe: %e"; "failed to connect %s pipe: %e"]%string ->
  on_w_rt (udi_set_errmsg format [VStr suffix; VInt e]) s
  = Ret tt (put_w_rt (Rt (errmsg_of format [VStr suffix; VInt e]) (allocs (w_rt s))) s).
Proof. intros [<-|[<-|[]]]; now apply win_errmsg_ok. Qed.

(** What the calls do to the set of open handles. *)
Lemma CreateEvent_cases s :
  exists s', CreateEvent s = Ret (if event_fails s then inr (next_error (event_results s)).1 else inl (w_next s)) s' /\
    (if event_fails s then w_open s' = w_open s
     else w_open s' = {[w_next s]} ∪ w_open s /\ w_next s' = w_next s + 1).
Proof.
  unfold CreateEvent, event_fails. destruct (next_error (event_results s)) as [e es]. cbn.
  destruct (e =? 0); cbn; eauto.
Qed.

Lemma CreateNamedPipeA_cases name s :
  exists r s', CreateNamedPipeA name s = Ret r s' /\
    match r with
    | inl h => h = w_next s /\ w_open s' = {[w_next s]} ∪ w_open s
    | inr _ => w_open s' = w_open s
    end.
Proof.
  unfold CreateNamedPipeA. destruct (next_error (pipe_results s)) as [e es].
  destruct (e =? 0); eexists _, _; (split; [reflexivity|]); done.
Qed.

Lemma ConnectNamedPipe_cases s : exists e s', ConnectNamedPipe s = Ret e s' /\ w_open s' = w_open s.
Proof. unfold ConnectNamedPipe. destruct (next_error (connect_results s)). eauto. Qed.

(** The body of the [do .. while (0)], once the event exists. *)
Definition pipe_opened (input : bool) (next : Z) (opened : gset Z)
    (r : Z * udi_pipe_ctx * option Z) (s' : win) : Prop :=
  exists result output pipe, r = (result, output, Some pipe) /\ handle output = INVALID_HANDLE_VALUE /\
    hEvent output = (if input then next - 1 else INVALID_HANDLE_VALUE) /\
    (result = RESULT_SUCCESS /\ pipe = next /\ w_open s' = {[pipe]} ∪ opened \/
     result = RESULT_ERROR /\ conn_pending output = false /\ pipe = INVALID_HANDLE_VALUE /\ w_open s' = opened \/
     result = RESULT_ERROR /\ conn_pending output = false /\ pipe = next /\ w_open s' = {[pipe]} ∪ opened).

Lemma open_pipe_cases suffix input name s :
  (input && event_fails s) = false ->
  let output := PipeCtx INVALID_HANDLE_VALUE INVALID_HANDLE_VALUE false in
  exists r s', open_pipe suffix input name output s = Ret r s' /\
    (if input then pipe_opened true (w_next s + 1) ({[w_next s]} ∪ w_open s) r s'
     else pipe_opened false (w_next s) (w_open s) r s').
Proof.
  intros Hev output. unfold open_pipe. destruct input; cbn [andb] in Hev.
  - destruct (CreateEvent_cases s) as (s1 & Hc & Hs1). rewrite Hev in Hc, Hs1. destruct Hs1 as [Ho Hnx].
    rewrite bind_assoc. mstep_with Hc. mstep. cbn [Z.eqb negb RESULT_SUCCESS].
    destruct (CreateNamedPipeA_cases name s1) as ([h|e] & s2 & Hp & Hs2); mstep_with Hp.
    + destruct Hs2 as [-> Ho2]. destruct (ConnectNamedPipe_cases s2) as (e & s3 & Hcn & Ho3). mstep_with Hcn.
      repeat case_match; [..|mstep_with (pipe_errmsg_ok "failed to connect %s pipe: %e" suffix e s3 ltac:(cbn; auto))];
        eexists _, _; (split; [reflexivity|]); eexists _, _, _; (split; [reflexivity|]); (split; [done|]);
        (split; [cbn; lia|]); rewrite <- Hnx, <- Ho, <- Ho2, <- Ho3; auto 10.
    + mstep_with (pipe_errmsg_ok "error creating %s pipe: %e" suffix e s2 ltac:(cbn; auto)).
      eexists _, _; (split; [reflexivity|]); eexists _, _, _; (split; [reflexivity|]); (split; [done|]).
      split; [cbn; lia|]. rewrite <- Ho. auto 10.
  - mstep. cbn [Z.eqb negb RESULT_SUCCESS].
    destruct (CreateNamedPipeA_cases name s) as ([h|e] & s2 & Hp & Hs2); mstep_with Hp.
    + destruct Hs2 as [-> Ho2].
      eexists _, _; (split; [reflexivity|]); eexists _, _, _; (split; [reflexivity|]). auto 10.
    + mstep_with (pipe_errmsg_ok "error creating %s pipe: %e" suffix e s2 ltac:(cbn; auto)).
      eexists _, _; (split; [reflexivity|]); eexists _, _, _; (split; [reflexivity|]). auto 10.
Qed.

Lemma close_one (h : Z) (o : gset Z) : h ∉ o -> ({[h]} ∪ o) ∖ {[h]} = o.
Proof. set_solver. Qed.

Lemma close_two (h e : Z) (o : gset Z) : e ∉ o -> h ∉ o -> (({[h]} ∪ ({[e]} ∪ o)) ∖ {[e]}) ∖ {[h]} = o.
Proof. set_solver. Qed.

Lemma close_valid h s :
  (if negb (h =? INVALID_HANDLE_VALUE) then CloseHandle h else ret tt) s
  = Ret tt (if h =? INVALID_HANDLE_VALUE then s else put_open (w_open s ∖ {[h]}) (w_next s) s).
Proof. now destruct (h =? INVALID_HANDLE_VALUE). Qed.

(** C38: [create_udi_pipe] neither leaks nor invents a handle. When it succeeds the
    handles it recorded in [output] are new, distinct and open, and no other
    handle was opened or closed; when it fails every handle it opened is closed
    again and [output] has no handle. The exception is the failure of
    [CreateEvent] for an input pipe, where the variable [pipe] is compared
    before it was assigned. *)
Theorem create_udi_pipe_handles suffix input s :
  (i32 current_pid =? INT_MIN) = false -> handles_below s ->
  if input && event_fails s then create_udi_pipe current_pid suffix input s = Undef Uninitialized
  else exists result output s', create_udi_pipe current_pid suffix input s = Ret (result, output) s' /\
    ((result = RESULT_SUCCESS /\ handle output ∉ w_open s /\
      (if input then hEvent output ∉ w_open s /\ hEvent output <> handle output /\
         w_open s' = {[handle output]} ∪ ({[hEvent output]} ∪ w_open s)
       else hEvent output = INVALID_HANDLE_VALUE /\ w_open s' = {[handle output]} ∪ w_open s)) \/
     (result = RESULT_ERROR /\ output = PipeCtx INVALID_HANDLE_VALUE INVALID_HANDLE_VALUE false /\
      w_open s' = w_open s)).
Proof.
  intros Hpid [Hn Hb]. destruct (pipe_name_ok suffix Hpid) as [name Hname].
  unfold create_udi_pipe. rewrite Hname.
  assert (forall h, w_next s <= h -> h ∉ w_open s) as Hfresh by (intros h Hh Hin; specialize (Hb h Hin); lia).
  destruct (input && event_fails s) eqn:Hev.
  { apply andb_true_iff in Hev as [-> Hev]. unfold open_pipe.
    destruct (CreateEvent_cases s) as (s1 & Hc & Hs1). rewrite Hev in Hc, Hs1. rewrite !bind_assoc.
    mstep_with Hc. rewrite !bind_assoc.
    mstep_with (pipe_errmsg_ok "error creating %s pipe: %e" suffix (next_error (event_results s)).1 s1 ltac:(cbn; auto)).
    done. }
  destruct (open_pipe_cases suffix input name s Hev) as (r & s1 & Hr & Hs1). mstep_with Hr. clear Hr.
  assert (forall h, w_next s <= h -> (h =? INVALID_HANDLE_VALUE) = false) as Hval
    by (intros h ?; apply Z.eqb_neq; unfold INVALID_HANDLE_VALUE; lia).
  pose proof (Hfresh (w_next s) ltac:(lia)) as F0. pose proof (Hfresh (w_next s + 1) ltac:(lia)) as F1.
  destruct input; destruct Hs1 as (result & [ev h pd] & pipe & -> & Hh & Hev' & Hs1); cbn in Hh, Hev', Hs1;
    [replace (w_next s + 1 - 1) with (w_next s) in Hev' by lia|]; subst ev h;
    destruct Hs1 as [(-> & -> & Ho)|[(-> & -> & -> & Ho)|(-> & -> & -> & Ho)]]; cbn [Z.eqb RESULT_SUCCESS RESULT_ERROR hEvent conn_pending].
  all: try (eexists _, _, s1; split; [reflexivity|]; left; cbn; split; [done|]; split; [done|]; rewrite Ho; auto with lia).
  all: mstep_with (close_valid (w_next s) s1) || mstep_with (close_valid INVALID_HANDLE_VALUE s1).
  all: rewrite ?(Hval (w_next s)), ?(Hval (w_next s + 1)) by lia; eexists _, _, _; split; [reflexivity|]; right; split; [done|]; split; [done|];
    cbn [put_open w_open]; rewrite ?Ho; done || exact (close_one _ _ F0) || exact (close_two _ _ _ F0 F1).
Qed.
End PipeFacts.

(** *** Memory access *)

(** The hook gives up every access before it starts: memory is neither read nor
    written, whatever the addresses, so no breakpoint can be installed. *)
Theorem udi_memcpy_refused `{LC : Libc} dest src buf num_bytes (s : access) :
  exists s', udi_memcpy dest src buf num_bytes s = Ret (-1, buf) s' /\ space s' = space s.
Proof.
  unfold udi_memcpy. cbn [pre_mem_access_hook].
  assert (on_rt (udi_set_errmsg "pre memory access hook failed" []) s
    = Ret tt (put_rt (Rt (errmsg_of "pre memory access hook failed" []) (allocs (a_rt s))) s)) as Hm
    by (apply zoom_Ret, set_errmsg_ok, args_ok_formatted; reflexivity).
  mstep_with Hm. eexists. split; [reflexivity|]. done.
Qed.

(** ** A process *)

Module WinDemo.

#[local] Existing Instance flat_libc.

(** One pipe, whose stream comes in three pieces, one of them delayed. *)
Definition demo_pipe : wpipe := WPipe [Done [1; 2]; IoPending (inl [3]); Done [4; 5]] [] [].
Definition demo : win := Win (Rt [] []) {[3]} 4 {[3 := demo_pipe]} [] [] [] [ERROR_IO_PENDING] [].
Definition demo_fd : udi_pipe_ctx := PipeCtx 0 3 false.

(** The same stream on a descriptor of the POSIX port. *)
Definition demo_env : env :=
  Env (Rt [] []) {[0 := Chan [RData [1]; RIntr; RData [2; 3; 4; 5]; RErr ERROR_BROKEN_PIPE] [] []]} false ∅.

Lemma read_from_agrees_witness :
  exists r dst s1 s1', read_from demo_fd 4 demo = Ret (r, dst) s1 /\ Io.read_from 0 4 demo_env = Ret (r, dst) s1' /\
    r = 0 /\ dst = [1; 2; 3; 4].
Proof.
  destruct (read_from_agrees demo_fd 4 demo [1; 2; 3; 4; 5] ERROR_BROKEN_PIPE 0 demo_env)
    as (r & dst & s1 & s1' & H1 & H2 & H3).
  - exists demo_pipe. split; [reflexivity|]. split; [|split; reflexivity]. repeat constructor.
  - eexists. split; [reflexivity|]. split; reflexivity.
  - exists r, dst, s1, s1'. now destruct H3 as (-> & -> & _).
Defined.

Lemma demo_below : handles_below demo.
Proof. split; [done|]. intros h Hh. assert (h = 3) as -> by (apply (elem_of_singleton (C := gset Z)); exact Hh). done. Qed.

(** The request pipe of process 42, with its connection scheduled. *)
Lemma create_udi_pipe_handles_witness :
  exists result output s', create_udi_pipe 42 (cstr "request") true demo = Ret (result, output) s' /\
    result = RESULT_SUCCESS /\ output = PipeCtx 4 5 true /\ w_open s' = {[5]} ∪ ({[4]} ∪ {[3]}) /\
    w_names s' = [cstr "\\.\pipe\udi-42-request"].
Proof.
  pose proof (create_udi_pipe_handles 42 (cstr "request") true demo eq_refl demo_below) as H.
  destruct H as (result & output & s' & Hc & H). exists result, output, s'. split; [exact Hc|].
  assert (Ret (result, output) s' = create_udi_pipe 42 (cstr "request") true demo) as He by (symmetry; exact Hc).
  vm_compute in He. injection He as -> -> ->. split; [done|]. split; [done|]. split; [|done].
  destruct H as [(_ & _ & _ & _ & H)|(H & _)]; [exact H|discriminate H].
Defined.

(** Without an event for it, the variable [pipe] is read uninitialised. *)
Example create_udi_pipe_no_event :
  create_udi_pipe 42 (cstr "request") true
    (Win (Rt [] []) {[3]} 4 ∅ [] [8] [] [] []) = Undef Uninitialized.
Proof. vm_compute. reflexivity. Qed.
End WinDemo.
