(* ===== verification/WinThreads.v ===== *)
(** * The thread list of the Windows port: udirt-win.c

    The port keeps the same list as the POSIX one and never shows it:
    [get_thread_list] is a stub ([Windows.get_thread_list]). A thread's
    [CONTEXT] is zeroed and read by nobody; it is left out. *)

From Stdlib Require Import String.
From stdpp Require Import gmap.
From S2P Require Import Prelude External Types Format Memory Breakpoints Windows.

(** ** State *)

Record thread : Type := Thread {
  id : Z;
  ts : udi_thread_state_e;
  request_pipe : udi_pipe_ctx;
  response_pipe : udi_pipe_ctx;
  single_step : bool;
  single_step_bp : option ptr;
  next_thread : option ptr
}.

Definition set_next_thread (x : option ptr) (t : thread) : thread :=
  Thread (id t) (ts t) (request_pipe t) (response_pipe t) (single_step t) (single_step_bp t) x.

Record thrs : Type := Thrs {
  num_threads : Z;
  threads : option ptr;
  thr_heap : gmap ptr thread;
  thr_fresh : ptr;
  current_thread_id : Z    (** [GetCurrentThreadId] *)
}.

Definition put_threads (n : Z) (t : option ptr) (h : gmap ptr thread) (s : thrs) : thrs :=
  Thrs n t h (thr_fresh s) (current_thread_id s).

Definition thr_load (p : ptr) : ST thrs thread := fun s =>
  match thr_heap s !! p with
  | Some t => Ret t s
  | None => Undef UseAfterFree
  end.

Definition get_multithread_capable : bool := true.
Definition get_user_thread_id : ST thrs Z := gets current_thread_id.
Definition get_num_threads : ST thrs Z := gets num_threads.

(** ** Creation *)

(** The block is zeroed: its pipes have the handle 0, not
    [INVALID_HANDLE_VALUE]. *)
Definition create_thread_struct (alloc_ok : bool) (tid : Z) : ST thrs (option ptr) :=
  if negb alloc_ok then ret None
  else fun s =>
    let new_thr := Thread tid UDI_TS_RUNNING (PipeCtx 0 0 false) (PipeCtx 0 0 false) false None None in
    Ret (Some (thr_fresh s))
      (Thrs (num_threads s) (threads s) (<[thr_fresh s := new_thr]> (thr_heap s)) (S (thr_fresh s))
         (current_thread_id s)).

Fixpoint last_thread_walk (fuel : nat) (last_thread cur_thread : option ptr) : ST thrs (option ptr) :=
  match fuel with
  | O => running
  | S fuel' =>
      match cur_thread with
      | None => ret last_thread
      | Some p =>
          let* t := thr_load p in
          last_thread_walk fuel' cur_thread (next_thread t)
      end
  end.

Definition link_thread (new_thr : ptr) : ST thrs unit :=
  let* cur_thread := gets threads in
  let* fuel := gets (fun s => S (size (thr_heap s))) in
  let* last_thread := last_thread_walk fuel cur_thread cur_thread in
  modify (fun s => put_threads (num_threads s + 1) (threads s) (thr_heap s) s) ;;;
  match last_thread with
  | None => modify (fun s => put_threads (num_threads s) (Some new_thr) (thr_heap s) s)
  | Some la =>
      let* t := thr_load la in
      modify (fun s => put_threads (num_threads s) (threads s)
                         (<[la := set_next_thread (Some new_thr) t]> (thr_heap s)) s)
  end.

Definition create_thread (alloc_ok : bool) (tid : Z) : ST thrs (option ptr) :=
  let* new_thr := create_thread_struct alloc_ok tid in
  match new_thr with
  | None => ret None
  | Some new_thr => link_thread new_thr ;;; ret (Some new_thr)
  end.

Definition create_initial_thread (alloc_ok : bool) : ST thrs (option ptr) :=
  let* tid := get_user_thread_id in
  create_thread alloc_ok tid.

(** ** The text of a system error *)

(** [message] is what [FormatMessageA] puts into the buffer ([None] when it
    fails), [last_error] what [GetLastError] says then. *)
Definition udi_log_error {S} (cb : S -> list Z -> S) (ctx : S) (message : option (list Z)) (last_error : Z) : option S :=
  match message with
  | None =>
      let ctx := udi_log_string cb ctx (cstr "failed to get last error string: ") in
      udi_log_integer cb ctx (i32 last_error)
  | Some buf => Some (udi_log_string cb ctx buf)
  end.

(** ** The list *)

Record list_inv (s : thrs) (ps : list ptr) : Prop := {
  inv_chain : chain next_thread (thr_heap s) (threads s) ps;
  inv_nodup : NoDup ps;
  inv_count : num_threads s = Z.of_nat (length ps);
  inv_fresh : forall p, is_Some (thr_heap s !! p) -> (p < thr_fresh s)%nat
}.

Lemma win_load_ok s p t : thr_heap s !! p = Some t -> thr_load p s = Ret t s.
Proof. intros H. unfold thr_load. now rewrite H. Qed.

Lemma win_walk_spec s : forall ps fuel la o,
  chain next_thread (thr_heap s) o ps -> (length ps < fuel)%nat ->
  last_thread_walk fuel la o s = Ret (from_option Some la (last ps)) s.
Proof.
  induction ps as [|p ps IH]; intros [|fuel] la o Hc Hf; cbn in Hf; try lia;
    inversion Hc as [|? t ? Hp Hc']; subst; cbn [last_thread_walk]; [done|].
  mstep_with (win_load_ok _ _ _ Hp). rewrite (IH fuel (Some p) _ Hc') by lia.
  rewrite last_cons. now destruct (last ps).
Qed.

Lemma win_link_spec s ps new nt :
  list_inv s ps -> thr_heap s !! new = Some nt -> next_thread nt = None -> new ∉ ps ->
  exists s', link_thread new s = Ret tt s' /\ list_inv s' (ps ++ [new]) /\
    (forall q t, thr_heap s !! q = Some t ->
       exists o, thr_heap s' !! q = Some (set_next_thread o t)).
Proof.
  intros [Hc Hnd Hl Hfr] Hnew Hnn Hni. pose proof (chain_short _ _ _ Hc Hnd) as Hf.
  assert (forall t, set_next_thread (next_thread t) t = t) as Hid by now intros [].
  unfold link_thread. do 2 mstep.
  mstep_with (win_walk_spec s ps (S (size (thr_heap s))) (threads s) (threads s) Hc ltac:(lia)). mstep.
  assert (Hnd' : NoDup (ps ++ [new])).
  { apply NoDup_app. split; [done|]. split; [|apply NoDup_singleton].
    intros x Hx. rewrite list_elem_of_singleton. congruence. }
  destruct (last ps) as [la|] eqn:Hla; cbn [from_option].
  - apply last_Some in Hla as (ps0 & ->).
    destruct (chain_live _ _ _ la Hc) as [tl Htl]; [set_solver|]. assert (la <> new) by set_solver.
    set (s1 := put_threads _ _ _ s). mstep_with (win_load_ok s1 la tl Htl). eexists. split; [reflexivity|].
    split; [split|]; cbn.
    + rewrite <- app_assoc. now apply (chain_snoc set_next_thread) with nt.
    + done.
    + rewrite Hl, !length_app. cbn. lia.
    + intros q Hq. destruct (decide (q = la)) as [->|Hne]; [apply Hfr; eauto|].
      rewrite lookup_insert_ne in Hq by done. auto.
    + intros q t Hq. destruct (decide (q = la)) as [->|Hne].
      * rewrite lookup_insert_eq. simplify_eq. eauto.
      * rewrite lookup_insert_ne by done. exists (next_thread t). now rewrite Hid.
  - apply last_None in Hla as ->. inversion Hc; subst. destruct (threads s); [done|]. cbn.
    eexists. split; [reflexivity|]. split; [split|]; cbn; try done; eauto.
    + econstructor; [exact Hnew|]. rewrite Hnn. constructor.
    + rewrite Hl. done.
    + intros q t Hq. exists (next_thread t). now rewrite Hid.
Qed.

(** A thread of the Windows port is counted and linked at the end of the list,
    and the threads before it stay what they are but for the link; but the list
    that the rest of the library walks ([get_thread_list]) stays empty. Without
    memory for the block nothing changes. *)
Theorem create_thread_unlisted (s : thrs) (ps : list ptr) (tid : Z) :
  list_inv s ps ->
  create_thread false tid s = Ret None s /\
  exists p s' t, create_thread true tid s = Ret (Some p) s' /\ p ∉ ps /\ list_inv s' (ps ++ [p]) /\
    get_num_threads s' = Ret (num_threads s + 1) s' /\
    thr_heap s' !! p = Some t /\ id t = tid /\ ts t = UDI_TS_RUNNING /\
    (forall q u, q ∈ ps -> thr_heap s !! q = Some u ->
       exists o, thr_heap s' !! q = Some (set_next_thread o u)) /\
    chain next_thread (thr_heap s') get_thread_list [].
Proof.
  intros Hi. split; [done|]. unfold create_thread, create_thread_struct. cbn [negb].
  set (nt := Thread tid UDI_TS_RUNNING _ _ _ _ _).
  set (s1 := Thrs (num_threads s) (threads s) (<[thr_fresh s := nt]> (thr_heap s)) (S (thr_fresh s)) (current_thread_id s)).
  assert (Hfr : thr_heap s !! thr_fresh s = None).
  { destruct (thr_heap s !! thr_fresh s) eqn:E; [|done]. pose proof (inv_fresh _ _ Hi (thr_fresh s) ltac:(eauto)). lia. }
  assert (Hni : thr_fresh s ∉ ps).
  { intros Hin. apply (chain_live _ _ _ _ (inv_chain _ _ Hi)) in Hin as [? ?]. congruence. }
  assert (Hold : forall q t, thr_heap s !! q = Some t -> thr_heap s1 !! q = Some t).
  { intros q t Hq. cbn. rewrite lookup_insert_ne; [done|]. congruence. }
  assert (Hi1 : list_inv s1 ps).
  { destruct Hi as [Hc Hnd Hl Hfs]. split; try done.
    - eapply chain_frame; [|exact Hc]. intros q b _ Hq. exists b. split; [now apply Hold|done].
    - intros q Hq. cbn in Hq |- *. destruct (decide (q = thr_fresh s)) as [->|Hne]; [lia|].
      rewrite lookup_insert_ne in Hq by done. apply Hfs in Hq. lia. }
  destruct (win_link_spec s1 ps (thr_fresh s) nt Hi1) as (s2 & Hlk & Hi2 & Hk); [apply lookup_insert_eq|done|done|].
  destruct (Hk (thr_fresh s) nt) as [o Ho]; [apply lookup_insert_eq|].
  exists (thr_fresh s), s2, (set_next_thread o nt). split.
  { unfold bind at 1. fold s1. now mstep_with Hlk. }
  split; [done|]. split; [done|]. split.
  { unfold get_num_threads, gets. rewrite (inv_count _ _ Hi2), (inv_count _ _ Hi), length_app. cbn. f_equal. lia. }
  do 3 (split; [done|]). split; [|constructor].
  intros q u _ Hq. apply Hk. now apply Hold.
Qed.

Module WinThreadsDemo.

Definition one_thread : thrs :=
  Thrs 1 (Some 0%nat) {[ 0%nat := Thread 7 UDI_TS_RUNNING (PipeCtx 0 0 false) (PipeCtx 0 0 false) false None None ]} 1 7.

Lemma create_thread_unlisted_witness :
  exists p s' t, create_thread true 8 one_thread = Ret (Some p) s' /\ list_inv s' [0%nat; p] /\
    get_num_threads s' = Ret 2 s' /\ thr_heap s' !! p = Some t /\ id t = 8.
Proof.
  destruct (create_thread_unlisted one_thread [0%nat] 8) as (_ & p & s' & t & Hc & _ & Hi & Hn & Ht & Hid & _).
  - split; [econstructor; [reflexivity|constructor]|apply NoDup_singleton|reflexivity|].
    intros p [t Hp]. cbn in Hp. apply lookup_singleton_Some in Hp as [<- _]. cbn. lia.
  - exists p, s', t. auto.
Defined.
End WinThreadsDemo.
