(* ===== verification/Witnesses.v ===== *)
(** * The hypotheses of the theorems hold

    A small debuggee with two threads, a few bytes of memory and requests on
    its descriptors: every theorem with hypotheses about the message layer,
    the handlers, the events and the command loop is applied to it. *)

From Stdlib Require Import String.
From stdpp Require Import gmap.
From S2P Require Import Prelude External Types Format Memory Breakpoints BreakpointSpec Registers X86.
From S2P Require Import Io Cbor Requests Threads State Handlers Events Posix ErrMsg HandlerSpec ThreadSpec.
From S2P Require Import EventSpec PosixSpec.

(** ** Encoding requests *)

(** A debugger that encodes at fixed widths. *)
Definition enc_event (ev : cbor_event) : list Z :=
  match ev with
  | EUint8 v => 24 :: be 1 v
  | EUint16 v => head_bytes 0 2 v
  | EUint32 v => head_bytes 0 4 v
  | EUint64 v => head_bytes 0 8 v
  | EString d => short_head 3 (Z.of_nat (length d)) ++ d
  | EByteString d => short_head 2 (Z.of_nat (length d)) ++ d
  | EMapStart n => short_head 5 n
  | _ => []
  end.

Definition event_ok (ev : cbor_event) : bool :=
  match ev with
  | EUint8 v => (0 <=? v) && (v <? 256)
  | EUint16 v => (0 <=? v) && (v <? 2 ^ 16)
  | EUint32 v => (0 <=? v) && (v <? 2 ^ 32)
  | EUint64 v | EMapStart v => (0 <=? v) && (v <? 2 ^ 64)
  | EString d | EByteString d => Z.of_nat (length d) <? 2 ^ 64
  | _ => false
  end.

Lemma enc_event_ok ev : event_ok ev = true -> encodes ev (enc_event ev).
Proof.
  destruct ev; cbn [event_ok enc_event]; try discriminate; intros Hv;
    try (apply andb_true_iff in Hv as [H1 H2]; apply Z.leb_le in H1; apply Z.ltb_lt in H2); try apply Z.ltb_lt in Hv.
  - apply (enc_uint 1). now constructor.
  - apply (enc_uint 2). now apply head_bytes_ok; [auto|].
  - apply (enc_uint 4). now apply head_bytes_ok; [auto|].
  - apply (enc_uint 8). now apply head_bytes_ok; [auto|].
  - eapply enc_byte_string, short_head_ok. lia.
  - eapply enc_string, short_head_ok. lia.
  - eapply enc_map, short_head_ok. lia.
Qed.

Definition enc_events (evs : list cbor_event) : list Z := flat_map enc_event evs.

Lemma enc_events_ok evs : forallb event_ok evs = true -> stream evs (enc_events evs).
Proof.
  induction evs as [|ev evs IH]; cbn; [constructor|]. intros H. apply andb_true_iff in H as [He Hs].
  constructor; [now apply enc_event_ok|auto].
Qed.

(** ** The debuggee *)

Module Demo.
Export MemoryDemo RegisterDemo ThreadsDemo X86Demo.
#[export] Existing Instance Rfc8949.cbor.
#[export] Existing Instance Rfc8949.cbor_ok.

Definition request_fd : Z := 10.
Definition response_fd : Z := 11.
Definition events_fd : Z := 12.

(** Two stopped threads. *)
Definition demo_block (tid req resp : Z) (st : udi_thread_state_e) (next : option ptr) : thread :=
  Thread tid st false req resp (-1) (-1) false false false false None 0 (UContext (replicate 23 7)) true next.

Definition demo_threads : thrs :=
  Thrs 2 (Some 0%nat)
    {[ 0%nat := demo_block 77 20 21 UDI_TS_SUSPENDED (Some 1%nat); 1%nat := demo_block 78 22 23 UDI_TS_RUNNING None ]}
    2 true 77 [].

Lemma demo_threads_inv : thr_inv demo_threads [0%nat; 1%nat].
Proof.
  split.
  - repeat (econstructor; [reflexivity|]). constructor.
  - repeat constructor; set_solver.
  - reflexivity.
  - intros p [t Ht]. cbn [demo_threads thr_heap] in Ht.
    apply lookup_insert_Some in Ht as [[<- _]|[_ Ht]]; [cbn; lia|].
    apply lookup_singleton_Some in Ht as [<- _]. cbn. lia.
Qed.

(** The request arrives in two pieces. *)
Definition pipes (bs : list Z) : gmap Z chan :=
  {[ request_fd := Chan [RData (take 3 bs); RIntr; RData (drop 3 bs)] [] [];
     response_fd := Chan [] [WCount 2; WIntr] [];
     events_fd := Chan [] [WCount 1] [] ]}.

Definition with_request (b : bps) (bs : list Z) : udirt :=
  Udirt b (pipes bs) false ∅ demo_threads None 0 request_fd response_fd events_fd None false 0
    (cstr "/tmp/udi") [] [] [].

Definition idle_bps : bps := no_breakpoints access0.

(** A request of at least four bytes. *)
Lemma awaiting b evs rest c cs :
  forallb event_ok evs = true -> Z.of_nat (length (enc_events evs)) < 2 ^ 64 ->
  take 3 (enc_events evs ++ rest) <> [] -> drop 3 (enc_events evs ++ rest) = c :: cs ->
  awaits (with_request b (enc_events evs ++ rest)) request_fd evs rest (-1).
Proof.
  intros Hok Hl Ht Hd. exists (enc_events evs). split; [now apply enc_events_ok|]. split; [done|].
  eexists. split; [reflexivity|]. cbn [c_in]. rewrite <- (take_drop 3 (enc_events evs ++ rest)) at 3.
  rewrite Hd. destruct (take 3 _) as [|d ds]; [done|]. split; [|reflexivity]. cbn. now rewrite app_nil_r.
Qed.

Lemma answerable b bs : open_for_write (get_env (with_request b bs)) response_fd.
Proof. eexists. split; [reflexivity|]. repeat constructor. Qed.

Lemma reportable b bs : open_for_write (get_env (with_request b bs)) (events_handle (with_request b bs)).
Proof. eexists. split; [reflexivity|]. repeat constructor. Qed.

Lemma continue_awaits q a b bs fd evs rest e :
  awaits (with_request b bs) fd evs rest e -> awaits (put_continue q a (with_request b bs)) fd evs rest e.
Proof. done. Qed.

Lemma continue_answerable q a b bs : open_for_write (get_env (put_continue q a (with_request b bs))) response_fd.
Proof. exact (answerable b bs). Qed.

Ltac request_awaits := eapply awaiting; [reflexivity|vm_compute; reflexivity|discriminate|reflexivity].

(** ** Messages *)

Definition read_fields : list (list Z * cbor_event * (read_mem_req -> read_mem_req)) :=
  [(cstr "len", EUint32 4, fun d => {| rm_addr := rm_addr d; rm_len := 4 |});
   (cstr "addr", EUint64 16, fun d => {| rm_addr := 16; rm_len := rm_len d |})].

Definition read_request_bytes : list Z := enc_events (request_events read_fields).

Lemma read_request_data_roundtrip_witness :
  exists s', read_request_data request_fd read_items {| rm_addr := 0; rm_len := 0 |}
               (get_env (with_request idle_bps (read_request_bytes ++ [7])))
             = Ret (RESULT_SUCCESS, {| rm_addr := 16; rm_len := 4 |}) s'.
Proof.
  destruct (read_request_data_roundtrip read_mem_req read_items read_fields {| rm_addr := 0; rm_len := 0 |}
              request_fd read_request_bytes [7] (-1) (get_env (with_request idle_bps (read_request_bytes ++ [7]))))
    as (s' & Hr & _).
  - now apply enc_events_ok.
  - constructor; [apply read_len_field|]. constructor; [apply read_addr_field|constructor].
  - discriminate.
  - reflexivity.
  - vm_compute. reflexivity.
  - reflexivity.
  - eexists. split; [reflexivity|]. split; reflexivity.
  - exists s'. exact Hr.
Defined.

Lemma read_request_type_returns_witness :
  exists result v s', read_request_type request_fd 0 (get_env (with_request idle_bps [0x19; 0; 2; 255])) = Ret (result, v) s' /\
    (result = RESULT_SUCCESS \/ result = RESULT_FAILURE \/ result = RESULT_ERROR).
Proof.
  apply (read_request_type_returns request_fd 0 (-1) [0x19; 0; 2; 255]); [|discriminate].
  eexists. split; [reflexivity|]. split; reflexivity.
Defined.

Lemma write_response_roundtrip_witness :
  exists s' bs, write_response response_fd 0 2 (Some (IMap [(IString (cstr "data"), IByteString [1; 2])]))
                  (get_env (with_request idle_bps [])) = Ret RESULT_SUCCESS s' /\
    stream (EUint16 0 :: EUint16 2 :: item_events (IMap [(IString (cstr "data"), IByteString [1; 2])])) bs.
Proof.
  destruct (write_response_roundtrip response_fd 0 2 (Some (IMap [(IString (cstr "data"), IByteString [1; 2])]))
              (get_env (with_request idle_bps [])) (answerable idle_bps []))
    as (s' & bs & Hw & _ & Hst); [|lia|lia|].
  - intros it Hit. injection Hit as <-. reflexivity.
  - exists s', bs. split; [exact Hw|exact Hst].
Defined.

(** ** Memory requests *)

Definition read_mem_events : list cbor_event :=
  [EUint16 2; EMapStart 2; EString (cstr "addr"); EUint64 16; EString (cstr "len"); EUint32 4].

Lemma read_mem_request_witness :
  exists k result s', handle_process_request request_fd response_fd 0 (with_request idle_bps (enc_events read_mem_events ++ []))
    = Ret (result, Z_of_request UDI_REQ_READ_MEM) s' /\
    ((result = RESULT_SUCCESS /\ answered response_fd UDI_REQ_READ_MEM
        (Some (IMap [(IString (cstr "data"), IByteString [10; 20; 30; 40])]))
        (with_request idle_bps (enc_events read_mem_events ++ [])) s') \/
     (result = RESULT_FAILURE /\ access_failure UDI_REQ_READ_MEM 16 4 k response_fd
        (with_request idle_bps (enc_events read_mem_events ++ [])) s')).
Proof.
  destruct (read_mem_request (with_request idle_bps (enc_events read_mem_events ++ [])) 16 4 (EUint16 2)
              (tail read_mem_events) [] (-1) request_fd response_fd 0)
    as (k & result & s' & Hr & _ & _ & Hc); [apply idle_calm|lia|lia| |lia|now right|now left| |apply answerable|].
  - vm_compute. discriminate.
  - request_awaits.
  - exists k, result, s'. split; [exact Hr|exact Hc].
Defined.

(** The request and its answer, evaluated. *)
Example read_mem_evaluates :
  match handle_process_request request_fd response_fd 0
          (with_request idle_bps (enc_events read_mem_events ++ [])) with
  | Ret v s' => v = (RESULT_SUCCESS, 2) /\
      sent response_fd s' = response_bytes UDI_RESP_VALID 2
        (Some (IMap [(IString (cstr "data"), IByteString [10; 20; 30; 40])]))
  | _ => False
  end.
Proof. vm_compute. split; reflexivity. Qed.

Definition write_mem_events : list cbor_event :=
  [EUint8 3; EMapStart 2; EString (cstr "data"); EByteString [1; 2; 3]; EString (cstr "addr"); EUint64 4096].

Lemma write_mem_request_witness :
  exists k result s', handle_process_request request_fd response_fd 0 (with_request idle_bps (enc_events write_mem_events ++ []))
    = Ret (result, Z_of_request UDI_REQ_WRITE_MEM) s' /\
    as_bytes (space (u_acc s')) = poke_bytes (as_bytes space0) 4096 (take k [1; 2; 3]).
Proof.
  destruct (write_mem_request (with_request idle_bps (enc_events write_mem_events ++ [])) 4096 [1; 2; 3] (EUint8 3)
              (tail write_mem_events) [] (-1) request_fd response_fd 0)
    as (k & result & s' & Hr & _ & Hb & _); [apply idle_calm|lia|cbn; lia| |now left|now right| |apply answerable|].
  - vm_compute. discriminate.
  - request_awaits.
  - exists k, result, s'. split; [exact Hr|exact Hb].
Defined.

(** ** Breakpoint requests *)



Definition install_events : list cbor_event := [EUint16 9; EMapStart 1; EString (cstr "addr"); EUint64 16].

Lemma unknown_breakpoint_undefined_witness :
  handle_process_request request_fd response_fd 0 (with_request idle_bps (enc_events install_events ++ []))
  = Undef NullDeref.
Proof.
  apply (unknown_breakpoint_undefined (peek space0) (with_request idle_bps (enc_events install_events ++ [])) ∅ (Install 16)
           (EUint16 9) (EUint64 16) [] (-1) request_fd response_fd 0).
  - exact (no_breakpoints_represents access0 (idle_calm space0)).
  - reflexivity.
  - discriminate.
  - now right.
  - now right; right; right.
  - request_awaits.
  - apply answerable.
Defined.

Lemma unserved_requests_witness :
  handle_process_request request_fd response_fd 0 (with_request idle_bps (enc_events [EUint16 1000] ++ [0]))
  = Undef OutOfBounds.
Proof.
  apply (unserved_requests 1000 (EUint16 1000) [0] (-1) request_fd response_fd 0 0%nat
           (with_request idle_bps (enc_events [EUint16 1000] ++ [0]))).
  - now right.
  - lia.
  - reflexivity.
  - request_awaits.
  - apply answerable.
  - vm_compute. reflexivity.
Defined.

(** ** Threads *)

Definition continue_events : list cbor_event := [EUint16 1; EMapStart 1; EString (cstr "sig"); EUint8 5].

Lemma suspend_resume_request_witness :
  exists s', handle_thread_request request_fd response_fd 0%nat 0 (with_request idle_bps (enc_events [EUint16 13] ++ [0]))
    = Ret (RESULT_SUCCESS, Z_of_request UDI_REQ_THREAD_RESUME) s' /\ thr_inv (u_thrs s') [0%nat; 1%nat].
Proof.
  destruct (suspend_resume_request UDI_TS_RUNNING (with_request idle_bps (enc_events [EUint16 13] ++ [0])) [0%nat; 1%nat] 0%nat
              (demo_block 77 20 21 UDI_TS_SUSPENDED (Some 1%nat)) (EUint16 13) [0] (-1) request_fd response_fd 0)
    as (s' & Hr & _ & Hi & _).
  - reflexivity.
  - exact demo_threads_inv.
  - reflexivity.
  - now right.
  - request_awaits.
  - apply answerable.
  - exists s'. split; [exact Hr|exact Hi].
Defined.

Definition write_reg_events : list cbor_event :=
  [EUint16 5; EMapStart 2; EString (cstr "reg"); EUint16 (Z_of_register UDI_X86_64_RAX); EString (cstr "value"); EUint32 4660].
Definition read_reg_events : list cbor_event :=
  [EUint16 4; EMapStart 1; EString (cstr "reg"); EUint8 (Z_of_register UDI_X86_64_RAX)].

Lemma register_session_witness :
  exists s1 s2, handle_thread_request request_fd response_fd 0%nat 0
      (with_request idle_bps (enc_events write_reg_events ++ enc_events read_reg_events ++ []))
      = Ret (RESULT_SUCCESS, Z_of_request UDI_REQ_WRITE_REGISTER) s1 /\
    handle_thread_request request_fd response_fd 0%nat 0 s1
      = Ret (RESULT_SUCCESS, Z_of_request UDI_REQ_READ_REGISTER) s2 /\
    answered response_fd UDI_REQ_READ_REGISTER (Some (IMap [(IString (cstr "value"), IUint64 4660)])) s1 s2.
Proof.
  destruct (register_session (Z_of_register UDI_X86_64_RAX) 4660 0%nat (demo_block 77 20 21 UDI_TS_SUSPENDED (Some 1%nat))
              (with_request idle_bps (enc_events write_reg_events ++ enc_events read_reg_events ++ []))
              (EUint16 5) (EUint16 (Z_of_register UDI_X86_64_RAX)) (EUint32 4660) (EUint16 4)
              (EUint8 (Z_of_register UDI_X86_64_RAX)) (enc_events read_reg_events) [] (-1) request_fd response_fd 0)
    as (s1 & s2 & c' & H1 & H2 & _ & _ & H3).
  - reflexivity.
  - reflexivity.
  - reflexivity.
  - reflexivity.
  - reflexivity.
  - reflexivity.
  - reflexivity.
  - lia.
  - now right.
  - now right.
  - now right; right; left.
  - now right.
  - now left.
  - request_awaits.
  - now apply enc_events_ok.
  - vm_compute. reflexivity.
  - apply answerable.
  - exists s1, s2. split; [exact H1|]. split; [exact H2|exact H3].
Defined.

Lemma state_request_lists_threads_witness :
  exists s', handle_process_request request_fd response_fd 0 (with_request idle_bps (enc_events [EUint16 6] ++ [0]))
    = Ret (RESULT_SUCCESS, Z_of_request UDI_REQ_STATE) s' /\
    answered response_fd UDI_REQ_STATE (Some (IMap [(IString (cstr "states"), IArray
      [thread_state_map (demo_block 77 20 21 UDI_TS_SUSPENDED (Some 1%nat));
       thread_state_map (demo_block 78 22 23 UDI_TS_RUNNING None)])]))
      (with_request idle_bps (enc_events [EUint16 6] ++ [0])) s'.
Proof.
  destruct (state_request_lists_threads (with_request idle_bps (enc_events [EUint16 6] ++ [0])) [0%nat; 1%nat]
              (EUint16 6) [0] (-1) request_fd response_fd 0) as (s' & Hr & _ & Ha & _).
  - reflexivity.
  - exact demo_threads_inv.
  - cbn. lia.
  - now right.
  - request_awaits.
  - apply answerable.
  - exists s'. split; [exact Hr|exact Ha].
Defined.

(** ** Events *)

Lemma exit_event_status_witness :
  exists s' code, handle_exit_event 77 (-1) (with_request idle_bps []) = Ret RESULT_SUCCESS s' /\
    item_int code = Some (- 2 ^ 32).
Proof.
  destruct (exit_event_status 77 (-1) (with_request idle_bps [])) as (s' & code & Hr & _ & _ & Hc).
  - unfold INT_MIN, INT_MAX. lia.
  - apply reportable.
  - exists s', code. split; [exact Hr|exact Hc].
Defined.

(** Two nops at 100, and a breakpoint in memory on the first. *)
Definition nops : aspace := ASpace (poke_bytes ∅ 100 [0x90; 0x90]) (<[0 := RW]> ∅).

Definition result_of (o : outcome bps Z) : bps :=
  match o with Ret _ b => b | _ => no_breakpoints (idle nops) end.
Definition created_bps : bps := result_of (run_op (Create 100) (no_breakpoints (idle nops))).
Definition planted_bps : bps := result_of (run_op (Install 100) created_bps).

Lemma planted_represents : represents (peek nops) ∅ planted_bps {[ 100 := true ]}.
Proof.
  destruct (run_op_refines (peek nops) (no_breakpoints (idle nops)) ∅ (Create 100)
              (no_breakpoints_represents (idle nops) (idle_calm nops))) as (r1 & b1 & A1 & H1 & Hs1 & Hr1); [cbn; lia|].
  assert (Ret r1 b1 = Ret (S := bps) 0 created_bps) as He1 by (rewrite <- H1; vm_compute; reflexivity).
  injection He1 as -> ->. inversion Hs1; subst; [|discriminate].
  destruct (run_op_refines (peek nops) created_bps (<[100 := false]> ∅) (Install 100) Hr1)
    as (r2 & b2 & A2 & H2 & Hs2 & Hr2); [vm_compute; eauto|].
  assert (Ret r2 b2 = Ret (S := bps) 0 planted_bps) as He2 by (rewrite <- H2; vm_compute; reflexivity).
  injection He2 as -> ->. inversion Hs2; subst. now rewrite insert_insert_eq in Hr2.
Qed.

Definition thread_0 : thread := demo_block 77 20 21 UDI_TS_SUSPENDED (Some 1%nat).

(** The context of the trap: the program counter behind the breakpoint. *)
Definition trap_context (pc : Z) : ucontext := UContext (<[16%nat := pc]> (replicate 23 7)).

Lemma nop_successor A : successor_is (overlay (peek nops) {[100]} A) 100 101 (trap_context 100).
Proof.
  intros acc Hc Hm. exists acc. split; [|done].
  unfold get_ctf_successor. mstep. cbn [ud_disassemble demo_udis86]. unfold demo_disassemble.
  assert (peek (space acc) 100 = 0x90) as ->; [|reflexivity].
  rewrite Hm. unfold overlay, planted. rewrite decide_True by set_solver. now destruct (A !! 100) as [[]|].
Qed.

Lemma planted_block :
  exists m bk, represents_by (peek nops) ∅ m planted_bps {[ 100 := true ]} /\ m !! 100 = Some 0%nat /\
    bp_heap planted_bps !! 0%nat = Some bk /\ bp_thread bk = None.
Proof.
  destruct planted_represents as [m Hr].
  pose proof (find_breakpoint_models _ m 100 (rep_models _ _ _ _ _ Hr)) as Hf.
  assert (find_breakpoint 100 planted_bps = Ret (Some 0%nat) planted_bps) as Hf' by (vm_compute; reflexivity).
  rewrite Hf in Hf'. injection Hf' as Hp.
  exists m, (default (new_breakpoint_block 0) (bp_heap planted_bps !! 0%nat)).
  split; [done|]. split; [done|]. split; vm_compute; reflexivity.
Qed.

Lemma breakpoint_hit_witness :
  exists result s', decode_breakpoint (Some 0%nat) 0%nat (trap_context 101) true (with_request planted_bps [])
    = Ret (result, true, trap_context 100) s' /\
    ((result = RESULT_SUCCESS /\ peek (space (u_acc s')) 100 = 0x90) \/ result = RESULT_ERROR).
Proof.
  destruct planted_block as (m & bk & Hr & Hp & Hbk & Hth).
  destruct (breakpoint_hit (peek nops) m {[ 100 := true ]} 100 101 0%nat bk 0%nat thread_0 (trap_context 101)
              (trap_context 100) true (with_request planted_bps [])) as (result & s' & Hd & Hc).
  - exact Hr.
  - exact Hp.
  - reflexivity.
  - exact Hbk.
  - exact Hth.
  - discriminate.
  - discriminate.
  - reflexivity.
  - reflexivity.
  - reflexivity.
  - discriminate.
  - reflexivity.
  - reflexivity.
  - lia.
  - apply nop_successor.
  - apply reportable.
  - exists result, s'. split; [exact Hd|].
    destruct Hc as [(-> & _ & Hpk & _)|(-> & _)]; [left; split; [reflexivity|exact Hpk]|right; reflexivity].
Defined.

(** The state behind the breakpoint hit. *)
Definition lifted_bps : bps :=
  match remove_breakpoint_for_continue 0%nat planted_bps with Ret _ x => x | _ => planted_bps end.

Definition behind_hit : udirt :=
  match user_breakpoint_hit (Some 0%nat) 0%nat (trap_context 100) true (with_request lifted_bps []) with
  | Ret _ s => s
  | _ => with_request planted_bps []
  end.

Lemma stepping_demo : stepping (peek nops) {[ 100 := true ]} 100 101 1%nat false behind_hit.
Proof.
  destruct planted_block as (m & bk & Hr & Hp & Hbk & Hth).
  destruct (lift_refines (peek nops) ∅ m planted_bps {[ 100 := true ]} 100 0%nat Hr Hp)
    as (r & b & Hl & _ & Hh & Hc); [reflexivity|].
  assert (remove_breakpoint_for_continue 0%nat planted_bps = Ret 0 lifted_bps) as Hx by (vm_compute; reflexivity).
  rewrite Hx in Hl. injection Hl as <- <-. destruct Hc as [[_ Hr']|[Hx0 _]]; [|discriminate Hx0].
  rewrite (union_empty_r_L (C := gset Z)) in Hr'.
  destruct (user_breakpoint_ok (peek nops) m {[ 100 := true ]} 100 101 0%nat bk 0%nat 77 (trap_context 100) true
              (with_request lifted_bps [])) as (q & s & Hhit & Hst & _).
  - exact Hr'.
  - exact Hp.
  - reflexivity.
  - reflexivity.
  - lia.
  - apply nop_successor.
  - cbn [with_request u_bps]. rewrite Hh. exact Hbk.
  - exact Hth.
  - discriminate.
  - exists thread_0. split; reflexivity.
  - apply reportable.
  - assert (s = behind_hit) as -> by (unfold behind_hit; now rewrite Hhit).
    assert (continue_bp behind_hit = Some 1%nat) as Hq by (vm_compute; reflexivity).
    pose proof (st_continue _ _ _ _ _ _ _ Hst) as Hq'. rewrite Hq in Hq'. injection Hq' as <-. exact Hst.
Qed.

(** The continue breakpoint is planted, and the thread runs into it. *)
Definition with_continue : bps :=
  match install_breakpoint 1%nat (u_bps behind_hit) with Ret _ x => x | _ => planted_bps end.

Definition over : udirt := put_bps with_continue behind_hit.

Lemma step_over_restores_witness :
  exists s', decode_breakpoint (Some 0%nat) 1%nat (trap_context 102) true over
    = Ret (RESULT_SUCCESS, false, trap_context 101) s' /\
    stepped_over (peek nops) {[ 100 := true ]} 100 101 1%nat thread_0 over s' RESULT_SUCCESS false.
Proof.
  destruct (step_over_restores (peek nops) {[ 100 := true ]} 100 101 1%nat 0%nat thread_0 behind_hit stepping_demo)
    as (r & x & Hi & Hover).
  assert (install_breakpoint 1%nat (u_bps behind_hit) = Ret 0 with_continue) as Hi' by (vm_compute; reflexivity).
  destruct (Ret_inj _ _ _ _ (eq_trans (eq_sym Hi) Hi')) as [-> ->].
  destruct (Hover eq_refl over (trap_context 102) (trap_context 101)) as (result & w & s3 & Hd & Hst).
  - reflexivity.
  - vm_compute. reflexivity.
  - vm_compute. reflexivity.
  - vm_compute. reflexivity.
  - reflexivity.
  - reflexivity.
  - discriminate.
  - reflexivity.
  - discriminate.
  - exists s3. assert (match decode_breakpoint (Some 0%nat) 1%nat (trap_context 102) true over with
      | Ret (r, w, _) _ => r = RESULT_SUCCESS /\ w = false | _ => False end) as Hc by (vm_compute; auto).
    rewrite Hd in Hc. destruct Hc as [-> ->]. split; [exact Hd|exact Hst].
Defined.

(** The debugger lets the process go on from there, with SIGTRAP. *)
Definition continues : udirt :=
  put_continue (Some 1%nat) 100 (with_request (u_bps behind_hit) (enc_events continue_events ++ [])).

Lemma continue_request_witness :
  exists s', handle_process_request request_fd response_fd 0 continues
    = Ret (RESULT_SUCCESS, Z_of_request UDI_REQ_CONTINUE) s' /\ sent_signals s' = [5] /\
    continue_bp_installed continues s' /\ peek (space (u_acc s')) 101 = BREAKPOINT_INSN.
Proof.
  destruct (continue_request continues [0%nat; 1%nat] 5 (EUint16 1) (EUint8 5)
              [] (-1) request_fd response_fd 0) as (result & s' & Hr & _ & Hc).
  - destruct stepping_demo as [_ _ (m & Hrep & _) _ _ _]. apply Hrep.
  - exact demo_threads_inv.
  - intros p [= <-]. eexists. split; [vm_compute; reflexivity|]. split; [cbn; lia|discriminate].
  - repeat constructor.
  - reflexivity.
  - now right.
  - now left.
  - unfold continues. apply continue_awaits. request_awaits.
  - unfold continues. apply continue_answerable.
  - destruct Hc as (-> & Hin & Hsent & _). exists s'. split; [exact Hr|]. split; [exact Hsent|]. split; [exact Hin|].
    assert (match handle_process_request request_fd response_fd 0 continues with
      | Ret _ s => peek (space (u_acc s)) 101 = BREAKPOINT_INSN | _ => False end) as Hp by (vm_compute; reflexivity).
    now rewrite Hr in Hp.
Defined.

(** The whole way over the breakpoint, evaluated: hit, continue, hit of the
    continue breakpoint. *)
Example step_over_evaluates :
  match (let* _ := decode_breakpoint (Some 0%nat) 0%nat (trap_context 101) true in
         let* q := gets continue_bp in
         let* _ := deref_breakpoint q install_breakpoint in
         let* byte := gets (fun s => peek (space (u_acc s)) 101) in
         let* (result, wait, _) := decode_breakpoint (Some 0%nat) (default 0%nat q) (trap_context 102) true in
         ret (byte, result, wait)) (with_request planted_bps []) with
  | Ret v s => v = (BREAKPOINT_INSN, RESULT_SUCCESS, false) /\ continue_bp s = None /\
      peeks (space (u_acc s)) 100 2 = [BREAKPOINT_INSN; 0x90]
  | _ => False
  end.
Proof. vm_compute. auto. Qed.

(** ** The command loop *)

Definition at_prompt : udirt :=
  put_selects [SelIntr; SelReady {[request_fd]}] (with_request idle_bps (enc_events continue_events ++ [])).

Definition after_command : udirt :=
  match wait_and_execute_command None at_prompt with Ret _ s => s | _ => at_prompt end.

Lemma command_returns : wait_and_execute_command None at_prompt = Ret (RESULT_SUCCESS, None) after_command.
Proof. vm_compute. reflexivity. Qed.

Lemma only_continue_resumes_witness :
  exists s1, handle_process_request (proc_request_handle s1) (proc_response_handle s1) (Z_of_request UDI_REQ_INVALID) s1
    = Ret (RESULT_SUCCESS, Z_of_request UDI_REQ_CONTINUE) after_command.
Proof.
  exact (proj2 (only_continue_resumes None at_prompt RESULT_SUCCESS None after_command command_returns
                  ltac:(discriminate))).
Defined.

Lemma error_message_fits_witness : fits after_command.
Proof. exact (error_message_fits None at_prompt after_command (RESULT_SUCCESS, None) eq_refl command_returns). Defined.

Lemma block_for_request_picks_witness :
  block_for_request None (put_selects [SelIntr; SelReady {[22; 99]}] (with_request idle_bps []))
  = Ret (RESULT_SUCCESS, Some 1%nat) (put_selects [] (with_request idle_bps [])).
Proof.
  rewrite (block_for_request_picks (put_selects [SelIntr; SelReady {[22; 99]}] (with_request idle_bps []))
             [0%nat; 1%nat] 1 {[22; 99]} [] None).
  - vm_compute. reflexivity.
  - exact demo_threads_inv.
  - repeat constructor.
  - reflexivity.
  - reflexivity.
  - vm_compute. discriminate.
Defined.
End Demo.
