(* ===== verification/ProcWitness.v ===== *)
(** * The hypotheses of the theorems on signals, start-up and the wrappers hold

    A fresh process whose debugger is waiting: the constructor is run, a signal
    is handled in which the debugger writes a register, and a thread cannot be
    created. *)

From Stdlib Require Import String.
From stdpp Require Import gmap.
From S2P Require Import Prelude External Types Barrier Format Memory Breakpoints BreakpointSpec Registers X86.
From S2P Require Import Io Cbor Requests Threads State Process Signals SignalSpec Handlers Events Posix.
From S2P Require Import Sync SyncSpec SyncSim Startup StartupSpec Wrappers WrapperSpec TypeSpec ThreadStart Witnesses.

Module ProcDemo.
Import Demo.

(** The state a computation returns in, and the result alone. *)
Definition final {A} (d : proc) (o : outcome proc A) : proc := match o with Ret _ s => s | _ => d end.
Definition result {A} (o : outcome proc A) : option A := match o with Ret a _ => Some a | _ => None end.

Lemma final_eq {A} d (o : outcome proc A) a : result o = Some a -> o = Ret a (final d o).
Proof. destruct o; [|discriminate..]. intros H. now injection H as ->. Qed.

(** ** A fresh process *)

Definition init_request : list Z := enc_events [EUint16 (Z_of_request UDI_REQ_INIT)].
Definition continue_request : list Z := enc_events [EUint16 1; EMapStart 1; EString (cstr "sig"); EUint8 0].

Definition fresh_fds : gmap Z chan :=
  {[ 10 := Chan [RData init_request; RData continue_request] [] [];
     11 := Chan [] [] []; 12 := Chan [] [] [];
     20 := Chan [RData init_request] [] []; 21 := Chan [] [] [] ]}.

Definition fresh_u : udirt :=
  Udirt (no_breakpoints (idle nops)) fresh_fds false ∅
    (Thrs 0 None ∅ 0 true 77 [Some (30, 31); Some (32, 33)])
    None 0 (-1) (-1) (-1) None false 0 [] [] [] [SelReady {[10]}].

(** The application has a handler for SIGHUP and ignores SIGTERM. *)
Definition app_table : gmap Z sigact := {[ 1 := SigAct (AppHandler 5000) ∅ 0; 15 := SigAct SIG_IGN ∅ 0 ]}.

Definition fresh_os : osenv :=
  OsEnv None 4242 [] [] [] [inl 10; inl 11; inl 12; inl 20; inl 21] [] [] [] [] [].

Definition fresh (located : bool) : proc :=
  Proc fresh_u false (Sigs located app_table (replicate (length signals) (AppSigaction 0 zero_action)) zero_action []) (UdiBarrier 0 (-1) (-1)) (Paths [] [] [] []) fresh_os.

Lemma app_table_clean : clean_table app_table.
Proof.
  intros n. unfold app_table. rewrite k_action_insert. destruct (decide _); [reflexivity|].
  change {[15 := ?a]} with (<[15 := a]> (∅ : gmap Z sigact)). rewrite k_action_insert.
  destruct (decide _); reflexivity.
Qed.

Definition initialised : proc := final (fresh false) (init_udirt false 100 (fresh false)).

Lemma init_returns : init_udirt false 100 (fresh false) = Ret tt initialised.
Proof. apply final_eq. vm_compute. reflexivity. Qed.

(** The same, but the pipe for requests exists already. *)
Definition occupied : proc :=
  put_os (OsEnv None 4242 [] [0; 17] [] [inl 10; inl 11; inl 12; inl 20; inl 21] [] [] [] [] []) (fresh false).

Definition masked (s : proc) : proc := final s (mask_op SIG_SETMASK (Some full_set) s).

Lemma occupied_fails : one_fails (init_sequence 100) (masked occupied).
Proof.
  unfold init_sequence. do 6 (cbn [one_fails];
    match goal with |- exists r s1, ?m ?s = _ /\ _ =>
      let r := eval vm_compute in (default 0 (result (m s))) in
      exists r, (final s (m s)); split; [apply final_eq; vm_compute; reflexivity|] end; cbn [Z.eqb]).
  exact I.
Qed.

Lemma init_all_or_nothing_witness :
  init_udirt false 100 (fresh false) = Ret tt initialised /\
  udi_enabled initialised = true /\ hidden app_table (p_sigs initialised) /\
  exists s', init_udirt false 100 occupied = Aborted s' /\ udi_enabled s' = false.
Proof.
  split; [exact init_returns|].
  destruct (init_all_or_nothing 100 (fresh false) 0 ∅ (masked (fresh false))) as (_ & Hret & _).
  - reflexivity.
  - reflexivity.
  - apply final_eq. vm_compute. reflexivity.
  - destruct (Hret initialised init_returns) as (_ & H1 & H2). split; [exact H1|]. split; [exact H2|].
    destruct (init_all_or_nothing 100 occupied 0 ∅ (masked occupied)) as (_ & _ & Hfail & _).
    + reflexivity.
    + reflexivity.
    + apply final_eq. vm_compute. reflexivity.
    + apply Hfail. right. exact occupied_fails.
Defined.

Lemma udi_filesystem_exact_witness :
  exists s', create_udi_filesystem (put_os (OsEnv None 4242 [] [0; 0; 17] [] [] [] [] [] [] []) (fresh false))
    = Ret 17 s' /\ fs_log (p_os s') = [MkDir (cstr "/tmp/udi/4242"); MkFifo (cstr "/tmp/udi/4242/request")].
Proof.
  destruct (udi_filesystem_exact (put_os (OsEnv None 4242 [] [0; 0; 17] [] [] [] [] [] [] []) (fresh false)))
    as (_ & e & s' & E & Hl & _).
  - reflexivity.
  - unfold INT_MAX. cbn. lia.
  - repeat constructor; discriminate.
  - cbn. lia.
  - assert ((fs_log (p_os s'), e) = ([MkDir (cstr "/tmp/udi/4242"); MkFifo (cstr "/tmp/udi/4242/request")], 17)) as Hl'
      by (rewrite Hl; vm_compute; reflexivity).
    injection Hl' as Hlog ->. exists s'. split; [exact E|exact Hlog].
Defined.

(** ** Dispositions *)

Lemma signals_transparent_witness :
  exists x y z, let s := fresh true in
    on_sigs setup_signal_handlers s = Ret 0 (put_sigs x s) /\
    wrapped_calls [(10, Some (SigAct (AppHandler 6000) ∅ 0)); (1, None)] (put_sigs x s)
      = Ret [(0, Some zero_action); (0, Some (SigAct (AppHandler 5000) ∅ 0))] (put_sigs y s) /\
    uninstall_signal_handlers (put_sigs y s) = Ret 0 (put_sigs z s) /\
    k_action (k_actions z) 10 = SigAct (AppHandler 6000) ∅ 0.
Proof.
  destruct (signals_transparent [(10, Some (SigAct (AppHandler 6000) ∅ 0)); (1, None)] (fresh true) app_table)
    as (x & y & z & Ex & Ey & _ & Ez & Hz).
  - reflexivity.
  - reflexivity.
  - reflexivity.
  - apply app_table_clean.
  - repeat constructor; cbn; by apply (bool_decide_eq_true_1 _).
  - exists x, y, z. split; [exact Ex|]. split; [exact Ey|]. split; [exact Ez|].
    rewrite Hz; [reflexivity|]. intros [H _]. discriminate H.
Defined.

(** The process with the library's handlers in place. *)
Definition handled_sigs : sigs :=
  match setup_signal_handlers (p_sigs (fresh true)) with Ret _ x => x | _ => p_sigs (fresh true) end.

Lemma handled_hidden : hidden app_table handled_sigs.
Proof.
  destruct (setup_hides (p_sigs (fresh true)) eq_refl) as (x & E & Hx & _).
  unfold handled_sigs. rewrite E. exact Hx.
Qed.

Definition with_handlers : proc := put_sigs handled_sigs (fresh true).

(** A real-time signal. *)
Lemma sigaction_outside_table_witness :
  exists x, sigaction 34 (Some (SigAct (AppHandler 7000) ∅ 0)) with_handlers
      = Ret (EINVAL, Some zero_action) (with_mask full_set (put_sigs x with_handlers)) /\
    k_action (k_actions x) 34 = kernel_action lib_action.
Proof.
  destruct (sigaction_outside_table 34 (Some (SigAct (AppHandler 7000) ∅ 0)) app_table with_handlers) as [_ H].
  - reflexivity.
  - apply handled_hidden.
  - apply (bool_decide_eq_false_1 _). reflexivity.
  - destruct H as (x & E & Hk & _).
    + repeat split; try discriminate. 
    + exists x. split; [exact E|exact Hk].
Defined.

(** SIGUSR1, while the debugger's continue request has a signal to pass: the
    handler for SIGHUP is called. *)
Definition passing : proc := put_u (put_signal 10 [10] (p_u with_handlers)) with_handlers.

Lemma signal_entry_passes_witness :
  exists s', signal_entry_impl 9999 10 (SigInfo 0 0) ctx0 passing = Ret ctx0 s' /\
    pass_signal (p_u s') = 0 /\ app_calls (p_sigs s') = [(10, AppHandler 5000, ∅)].
Proof.
  destruct (signal_entry_passes 9999 10 (SigInfo 0 0) ctx0 passing app_table) as (_ & H & _).
  - reflexivity.
  - apply handled_hidden.
  - apply (bool_decide_eq_true_1 _). reflexivity.
  - eexists. split; [apply H; [now right|discriminate]|]. split; [reflexivity|]. vm_compute. reflexivity.
Defined.

(** ** Signals *)

(** The initialised process, with requests to come on both pipes. *)
Definition stopped_fds : gmap Z chan :=
  {[ 10 := Chan [RData continue_request] [] []; 11 := Chan [] [] []; 12 := Chan [] [] [];
     20 := Chan [RData (enc_events write_reg_events)] [] []; 21 := Chan [] [] [] ]}.

Definition stopped : proc :=
  put_u (put_selects [SelReady {[20]}; SelReady {[10]}]
           (put_env (Env (u_rt (p_u initialised)) stopped_fds false ∅) (p_u initialised))) initialised.

Definition resumed : proc := final stopped (signal_entry_impl 9999 10 (SigInfo 0 0) ctx0 stopped).

Lemma entry_returns : signal_entry_impl 9999 10 (SigInfo 0 0) ctx0 stopped = Ret ctx0 resumed.
Proof. apply final_eq. vm_compute. reflexivity. Qed.

(** The debugger writes RAX while the thread is stopped by SIGUSR1; the request
    is answered, and the thread goes on with the old value. *)
Lemma resumed_context_witness :
  resumes 9999 10 ctx0 ctx0 /\ greg REG_RAX ctx0 = Some 7 /\
  (t ← heap_of resumed !! 0%nat; greg REG_RAX (event_context t)) = Some 4660.
Proof.
  split; [exact (resumed_context 9999 10 (SigInfo 0 0) ctx0 stopped ctx0 resumed entry_returns)|].
  split; vm_compute; reflexivity.
Defined.

(** ** Types *)

Lemma ctx0_typed : ctx_typed ctx0.
Proof. by apply (bool_decide_eq_true_1 _). Qed.

Lemma stopped_typed : typed_proc stopped.
Proof.
  split.
  - split; [unfold typed_thrs; by apply (bool_decide_eq_true_1 _)|].
    split; [vm_compute; reflexivity|by apply (bool_decide_eq_true_1 _)].
  - vm_compute. reflexivity.
  - replace (waits (p_os stopped)) with (@nil (udirt -> udirt)) by (vm_compute; reflexivity). constructor.
Qed.

Lemma signal_entry_typed_witness :
  signal_entry_impl 9999 10 (SigInfo 0 0) ctx0 stopped = Ret ctx0 resumed /\ typed_proc resumed /\
  decode_event 9999 None SIGTRAP (SigInfo 0 0) ctx0 stopped <> Undef OutOfBounds.
Proof.
  split; [exact entry_returns|]. split.
  - exact (proj2 (proj1 (signal_entry_typed 9999 10 (SigInfo 0 0) ctx0 stopped ctx0_typed stopped_typed)
                    ctx0 resumed entry_returns)).
  - exact (proj1 (proj2 (signal_entry_typed 9999 SIGTRAP (SigInfo 0 0) ctx0 stopped ctx0_typed stopped_typed)) None).
Defined.

(** A write of a register, in the state the thread was stopped in. *)
Lemma handlers_in_bounds_witness :
  typed_u (p_u stopped) /\ wt in_bounds typed_u (write_register_handler 20 21 0) anything.
Proof.
  split; [exact (typed_runtime stopped stopped_typed)|].
  exact (proj1 (proj2 handlers_in_bounds) 5%nat write_register_handler 20 21 0%nat eq_refl).
Defined.

(** A fault of the library's own access, at an address that is not mapped. *)
Definition faulting : proc := put_access (put_performing true (u_acc (p_u initialised))) initialised.

Definition faulting_thread : thread := default thread_0 (heap_of faulting !! 0%nat).

Lemma faulting_current : current faulting 0%nat faulting_thread.
Proof. split; vm_compute; reflexivity. Qed.

Lemma fault_entry_witness :
  exists c' s', signal_entry_impl 9999 SIGSEGV (SigInfo SEGV_MAPERR 0) ctx0 faulting = Ret c' s' /\
    get_pc c' = Some 9999 /\ context_valid <$> heap_of s' !! 0%nat = Some false.
Proof.
  destruct (fault_entry 9999 SIGSEGV (SigInfo SEGV_MAPERR 0) ctx0 faulting 0%nat faulting_thread) as (ab & a & E & H).
  - now right.
  - vm_compute. reflexivity.
  - vm_compute. reflexivity.
  - exact faulting_current.
  - vm_compute. reflexivity.
  - assert (decode_memory_access_event SEGV_MAPERR (u_acc (p_u faulting)) =
      Ret (MemEvent false true RESULT_SUCCESS) (put_si_code SEGV_MAPERR (put_aborting true (u_acc (p_u faulting))))) as E'
      by (vm_compute; reflexivity).
    change (si_code (SigInfo SEGV_MAPERR 0)) with SEGV_MAPERR in E. rewrite E' in E.
    assert (ab = true) as -> by congruence.
    exists (default ctx0 (set_pc ctx0 9999)). eexists. split; [apply H; vm_compute; reflexivity|].
    split; [vm_compute; reflexivity|]. rewrite heap_upd. vm_compute. reflexivity.
Defined.

(** ** Threads *)

(** Two threads; the second reaches the barrier, and the system has no room for
    a third. *)
Definition crowded : proc :=
  Proc (Udirt idle_bps {[ 40 := Chan [RIntr; RData [sentinel]] [] [] ]} false ∅
          (Thrs 2 (threads demo_threads) (thr_heap demo_threads) 2 true 77 [Some (50, 51)])
          None 0 10 11 12 None false 0 [] [] [] [])
    true handled_sigs (UdiBarrier 0 40 41) (Paths [] [] [] [])
    (OsEnv None 4242 [] [] [] [] [] [11] [] [] []).

Definition crowded_blocked : proc := final crowded (block_other_threads crowded).

Lemma crowded_blocks : block_other_threads crowded = Ret 0 crowded_blocked.
Proof. apply final_eq. vm_compute. reflexivity. Qed.

Lemma failed_create_keeps_blocked_witness :
  exists s', pthread_create crowded = Ret 11 s' /\ killed (p_os crowded_blocked) = [78] /\
    bar_sync (thread_barrier s') = 1.
Proof.
  destruct (failed_create_keeps_blocked crowded crowded_blocked 11) as (s' & E & _ & Hb & _).
  - exact crowded_blocks.
  - vm_compute. reflexivity.
  - right. split; [discriminate|]. split; [vm_compute; reflexivity|]. eexists _, _. vm_compute. reflexivity.
  - exists s'. split; [exact E|]. split; [vm_compute; reflexivity|]. rewrite Hb. vm_compute. reflexivity.
Defined.

(** ** The barrier *)

(** Two threads; the first has been interrupted by SIGUSR1. *)
Definition paired_block (tid r w sig : Z) (next : option ptr) : thread :=
  Thread tid UDI_TS_RUNNING false 20 21 w r false false false false None sig ctx0 true next.

Definition paired : proc :=
  Proc (Udirt idle_bps {[ 31 := Chan [] [] []; 33 := Chan [] [] []; 41 := Chan [] [] [] ]} false ∅
          (Thrs 2 (Some 0%nat)
             {[ 0%nat := paired_block 77 30 31 10 (Some 1%nat); 1%nat := paired_block 78 32 33 0 None ]} 2 true 77 [])
          None 0 10 11 12 None false 0 [] [] [] [])
    true handled_sigs (UdiBarrier 0 40 41) (Paths [] [] [] []) (OsEnv None 4242 [] [] [] [] [] [] [] [] []).

Definition paired_barrier : barrier :=
  Barrier 0 0 false [BThread BlockCas UDI_TS_RUNNING 0 false 10 0 false false; running_thread].

Definition no_hist : hist := Hist (fun _ => 0%nat) (fun _ => 0%nat).

Lemma paired_heap p t :
  heap_of paired !! p = Some t ->
  p = 0%nat /\ t = paired_block 77 30 31 10 (Some 1%nat) \/ p = 1%nat /\ t = paired_block 78 32 33 0 None.
Proof.
  intros Ht. unfold heap_of in Ht. cbn [paired p_u u_thrs thr_heap] in Ht.
  apply lookup_insert_Some in Ht as [[<- <-]|[_ Ht]]; [now left|].
  apply lookup_singleton_Some in Ht as [<- <-]. now right.
Qed.

Lemma paired_sim : sim no_hist [0%nat; 1%nat] paired paired_barrier.
Proof.
  split; try reflexivity.
  - split.
    + repeat (econstructor; [reflexivity|]). constructor.
    + repeat constructor; set_solver.
    + reflexivity.
    + intros p [t Ht]. apply paired_heap in Ht as [[-> _]|[-> _]]; cbn; lia.
  - split; try reflexivity.
    + intros p q t u _ _ Ht Hu. apply paired_heap in Ht as [[-> ->]|[-> ->]], Hu as [[-> ->]|[-> ->]]; done.
    + intros p q t u _ _ Ht Hu. apply paired_heap in Ht as [[-> ->]|[-> ->]], Hu as [[-> ->]|[-> ->]]; done.
    + intros p t _ Ht. apply paired_heap in Ht as [[-> ->]|[-> ->]]; done.
    + intros p t _ Ht. apply paired_heap in Ht as [[-> ->]|[-> ->]]; eexists; split; reflexivity.
    + eexists. split; reflexivity.
  - intros [|[|i]] p Hp; cbn in Hp; [injection Hp as <-|injection Hp as <-|discriminate];
      (eexists _, _; split; [reflexivity|]; split; [reflexivity|]; split; cbn; first [reflexivity | lia]).
Qed.

Lemma barrier_code_refines_witness :
  exists s' b' n, block_other_threads paired = (collect_sentinels n ;;; block_verdict 0) s' /\
    steps 0 paired_barrier b' /\ sim no_hist [0%nat; 1%nat] s' b' /\ at_ b' 0 (BlockCollect n).
Proof.
  apply (proj1 (proj2 (barrier_code_refines no_hist [0%nat; 1%nat] 0%nat 0%nat eq_refl paired paired_barrier paired_sim
    (conj eq_refl eq_refl)))).
  - eexists. split; reflexivity.
  - cbn. lia.
  - reflexivity.
Defined.

(** ** A thread is created *)

(** The new thread 78, created by 77; the control pipe has the ends 32 and 33. *)
Definition newborn : proc :=
  let fds : gmap Z chan :=
    {[ 12 := Chan [] [WIntr; WCount 2] []; 20 := Chan [RIntr; RData init_request] [] [];
       21 := Chan [] [] []; 31 := Chan [] [] []; 32 := Chan [] [] [] ]} in
  let thrs := Thrs 1 (Some 0%nat) {[ 0%nat := demo_block 77 (-1) (-1) UDI_TS_RUNNING None ]} 1 true 78 [Some (32, 33)] in
  let let_go u := put_env (put_fds (<[32 := Chan [RData [0]; RIntr; RData [sentinel]] [] []]> (u_fds u)) (get_env u)) u in
  Proc (Udirt (no_breakpoints (idle nops)) fds false ∅ thrs None 0 10 11 12 None false 0 (cstr "/tmp/udi/4242") [] [] [])
    true (Sigs true app_table [] zero_action []) (UdiBarrier 1 30 31) (Paths [] [] [] [])
    (OsEnv None 4242 [] [] [] [inl 20; inl 21] [] [] [] [] [let_go]).

Lemma newborn_list : thr_inv (u_thrs (p_u newborn)) [0%nat].
Proof.
  split; [econstructor; [reflexivity|constructor]|apply NoDup_singleton|reflexivity|].
  intros p [t Hp]. cbn in Hp. apply lookup_singleton_Some in Hp as [<- _]. cbn. lia.
Qed.

Lemma newborn_can_start :
  exists others, can_start [0%nat] 32 33 20 21 others [RData [0]; RIntr; RData [sentinel]] newborn.
Proof.
  eexists. split.
  - split; [reflexivity|]. split; [repeat constructor; discriminate|]. now vm_compute.
  - exact newborn_list.
  - reflexivity.
  - eexists. reflexivity.
  - reflexivity.
  - eexists. reflexivity.
  - eexists. reflexivity.
  - eexists. split; [reflexivity|]. now repeat constructor.
  - eexists. split; [reflexivity|]. constructor.
  - exists (EUint16 (Z_of_request UDI_REQ_INIT)), [], (-1). split; [now right|]. exists init_request.
    split; [now apply enc_events_ok|]. split; [now vm_compute|]. eexists. split; [reflexivity|]. split; reflexivity.
  - eexists. split; reflexivity.
  - intros u. eexists. split; [apply lookup_insert_eq|reflexivity].
Qed.

Lemma new_thread_starts_witness :
  exists p u0 s1, enlisted [0%nat] 78 32 33 20 21 p (u_thrs u0) /\
    HandlerSpec.sent 12 u0 = create_event 77 78 /\ HandlerSpec.sent 31 u0 = [sentinel] /\
    wrapped_start_routine (ret 5) 77 newborn = (let* v := ret 5 in report_thread_death ;;; ret v) s1.
Proof.
  destruct newborn_can_start as [others Hcs].
  destruct (new_thread_starts (ret 5) 77 [0%nat] 32 33 20 21 others _ newborn Hcs)
    as (p & u0 & s1 & Hen & Hsent & _ & _ & _ & Heq).
  exists p, u0, s1. split; [exact Hen|]. split; [rewrite Hsent by discriminate; vm_compute; reflexivity|].
  split; [rewrite Hsent by discriminate; vm_compute; reflexivity|]. exact Heq.
Defined.
End ProcDemo.
